(* ===== verification/_CoqProject ===== *)
-Q . S2P
Prelude.v
GoStrings.v
Encoding.v
Json.v
Mux.v
GoTime.v
Errors.v
CommitBundle.v
BundleStore.v
Sweeper.v
RequestCache.v
RequestGate.v
Api.v
Backend.v
Tenant.v
Env.v
Shared.v
CommitController.v
CommitProgress.v
Packages.v
Lifecycle.v
RepositoryController.v
CollaboratorController.v
DeployKeyController.v
ConnectionController.v
OneShot.v
CheckoutController.v
StatusTypes.v
BuildStatusController.v
GitHubApi.v
GitHubRepositories.v
GitHubTree.v
GitHubCommits.v
GitHubCheckout.v
GitHubActions.v
GitHubPackages.v
Collaboration.v
GitHubPulls.v
GitHubCollaboration.v
Dynamic.v
TenantClient.v
McpWrite.v
McpCommit.v
CommitFlow.v
McpRequests.v
McpNames.v
McpServer.v
Schema.v
GitHubSnapshots.v
ActionSnapshots.v
ActionsServer.v
ActionsContract.v
ActionInput.v
OAuth.v
Install.v
Serving.v
GitHubBackend.v
OnGitHub.v
CheckoutOnGitHub.v
Process.v
