(* ===== verification/Prelude.v ===== *)
(** * Railgrid code provider: a verification development

    The program manages git repositories for the tenants of a Kubernetes-like
    control plane (kcp).  Tenants create custom resources (Connection,
    Repository, DeployKey, Collaborator, RepositoryCommit, RepositoryCheckout,
    RepositoryBuildStatus); controllers carry them out on a git host; MCP tools
    and an HTTP action server are the front doors for agents.  This library
    models that Go code and proves what it promises.

    ** How the parts interact

    - An agent calls an MCP tool (mcpserver/) or a repository action (actions/).
      The tool writes files into the bundle store (commitbundle/) and creates a
      custom resource in the tenant's workspace; the action server authorises
      the caller and calls the host directly.
    - A controller (controller/) sees the resource, resolves its Repository,
      Connection and credential (controller/shared, tenant/), and calls the git
      host through the seam of backend/ ([GitBackend]); it records the outcome
      in the resource's status and consumes the bundle.
    - The GitHub backend (backend/github/) implements the seam over go-github,
      with one request gate, throttle and response cache per credential.

    ** Files

    Foundations: [Prelude] (results, the traced state monad [M], [emits],
    rule induction over [steps], shared lemmas); [GoStrings], [Encoding],
    [Json], [Mux], [GoTime], [Errors] (the Go standard library the program uses,
    executable: byte strings, UTF-8, hex, base64, SHA-256, JSON strings with a
    reader, URL escaping and the request multiplexer, times and durations, error
    chains).

    Data and seams: [Api] (apis/v1alpha1), [Schema] and [StatusTypes] (its
    validation markers, checked against what tools and controllers write), [Backend] (backend/interface.go,
    backend/stub), [Collaboration] (backend/collaboration.go, snapshot.go),
    [Tenant] (tenant/credentials.go, github_app.go), [TenantClient]
    (tenant/client.go and the Secret reading of credentials.go).

    The bundle store: [CommitBundle] (the builder of commitbundle/store.go:
    [buildBundle], [cleanPath], the digest framing), [BundleStore] ([Put],
    [Get], [Delete], [Sweep] on a directory state, every system call may fail),
    [Sweeper] ([RunSweeper], the loop that runs [Sweep] on a ticker).

    Controllers: [Env] (the API server, clock, store and host as a world with
    events), [Shared], [Lifecycle] (the contract of the resource controllers),
    [OneShot] (that of the request controllers), and one file per controller:
    [CommitController], [CommitProgress] (its passes in sequence), [Packages],
    [RepositoryController], [CollaboratorController], [DeployKeyController],
    [ConnectionController], [CheckoutController], [BuildStatusController].
    Each [Reconcile] is the whole method of the same name, in the monad.

    The GitHub backend: [RequestCache] (the state behind one gate) and
    [RequestGate] (the gates, as a step relation of concurrent callers) for
    request_cache.go and package_cache.go; [GitHubApi] (go-github as a class);
    [GitHubRepositories], [GitHubTree], [GitHubCommits], [GitHubPackages] for
    backend.go; [GitHubCheckout], [GitHubActions], [GitHubPulls] (with
    [GitHubCollaboration], its contract) and [GitHubSnapshots] for checkout.go,
    actions.go, collaboration.go with feedback_diagnostics.go, and snapshot.go.
    [GitHubBackend] makes of them the [GitBackend] that [runServe] registers,
    over a world that logs the requests; [OnGitHub] and [CheckoutOnGitHub] run
    controllers on it.

    Front doors: [Dynamic] (the dynamic client of the tools), [McpWrite],
    [McpCommit], [McpRequests], [McpNames] and [McpServer] (the server of one
    request: identity, client, dispatch) for mcpserver/; [CommitFlow] puts the
    store behind [commit_files]; [ActionSnapshots], [ActionsServer],
    [ActionsContract] and [ActionInput] (readActionRequest and its callback, two
    goroutines) for actions/; [OAuth] for oauthgithub/; [Install] for install/.

    The process: [Serving] (server/server.go, assets.go: the routes, the portal,
    and the server that main.go composes of the parts above) and [Process]
    (main.go, init_cmd.go, controller_manager.go: subcommands, kubeconfig,
    startup, and the goroutines of the running server with the terms of
    leadership, one step per call).

    ** State and effects

    Code that calls outside runs in [M W Ev]: a world [W], about which only its
    class of operations is known, and a trace of the calls with their answers.
    A theorem about every [W] therefore holds for every answer the outside can
    give, at every call.  Sequential stores (bundle directory, snapshot area,
    cache state) are explicit finite maps; the gates, the client factory, the
    endpoint slice, the body reader and the process, where goroutines or callers
    interleave, are relations with one step per critical section or call.  Integers that can
    overflow are wrapped at their width ([wrap64]).

    ** What the theorems show

    - From the tool to the host: [commitFiles_transaction] (what each path of
      commit_files writes, and takes back on failure), over the real store, and
      with others at work in it, [commitFiles_bundle_available] (the request it
      leaves names a bundle that the tool leaves readable), [success_backed] (Succeeded is recorded only of a commit the
      host made from exactly that bundle), [bundle_deleted_after_terminal],
      [terminal_absorbs], [CommitFiles_faithful] (the host commit is what was
      asked, without force).
    - End to end: [commit_on_github], [repository_on_github] and
      [checkout_on_github] (what a pass of the controller asks of GitHub, request
      by request, and what its status or finalizer says of it).
    - The action server: [action_authorised], [action_contract] (what a
      request may change on the host), [action_slots]; its upload area
      ([snapshots_invariant], [stage_then_load]) and [PublishSnapshot_lease].
    - The bundle store: framing, round trip, confinement, sweeping.
    - The GitHub client: at most one caller past a gate, bounded caches, no
      request while throttled.
    - GitHub operations: identity checks before adoption and deletion, complete
      and terminating listings, checkout caps, pull request binding.
    - Controllers: the lifecycle contract, each pass's outcome on every branch.
    - Commit requests reach a terminal phase ([commit_settles]).
    - The tools: [serve_acts_as_caller] and [factory_sound] (a tool speaks for
      the caller of its request and nobody else), [callTool_contract] (what
      each tool may write).
    - Types: [created_objects_typed], [status_writes_typed] (what the API server
      is sent has the schema the markers declare; where the code sets no bound,
      the theorem says what it assumes).
    - Connecting and starting: [callback_outcomes] (who sees an OAuth token, and
      that the page cannot be broken out of), [replicas_agree].
    - The process: [routes] (which handler answers which path),
      [request_authority] (for whom a request to the composed server acts),
      [portal_confined], [readActionRequest_settles] (the connection of a body
      that timed out is left usable), [main_outcomes] (exit codes, and what can
      stop the server at startup), [process_invariant] (readiness follows the
      terms of leadership, what the exit code means, and a signal ends the
      process).

    ** Fuel and bounds

    Package listings page on fuel; [ListPackages_terminates] gives the fuel that
    is enough (one more than the last page).  Pull request listings stop after
    20 pages because the code does.  The waits of the tools poll
    on fuel too: a wait of 75 seconds takes at most 76 turns of its one-second
    ticker on a [Clock] that is not early, and [commitFiles_returns] shows that
    this fuel is enough for every run.  SHA-256 and digit printing recurse on the length of
    their input.  A backend built with [github_backend] takes the fuel of the
    listings, and answers an error of its own should it run out; [main_left] (9) and [work_left] (14) bound the steps of the main
    goroutine and of the body reader.

    ** Not modelled, and why

    scheme/ registers the types of other packages. zz_generated.deepcopy.go
    is generated. The watches and queues of the controllers belong to
    controller-runtime; a pass is modelled for every state it can be run in.
    keygen.go is an operation of the world, as are the git binary, go-
    github, the dynamic client, the OAuth token endpoint, the decoding of
    foreign JSON, TLS and HTTP. The transport and the metadata of MCP tools,
    the response envelope of actions, and the page around the OAuth script
    are libraries, as are readiness, leader election, the controller manager
    and the heartbeat, whose calls answer anything. portal/ is another
    language. *)

From stdpp Require Export base list gmap strings sorting.
From Stdlib Require Import Lia.

(** ** Go results

    A Go function returning [(T, error)] returns [res E T]: [inl e] is a
    non-nil error (the value part is then the zero value and never read by
    the callers), [inr x] a nil error. *)
Abbreviation res := sum (only parsing).

(** ** The traced state monad

    Effectful code runs in a world [W] and emits a trace of the calls it
    makes, oldest first. *)
Definition M (W Ev A : Type) : Type := W → A * W * list Ev.

#[export] Instance M_ret (W Ev : Type) : MRet (M W Ev) :=
  λ A a w, (a, w, []).
#[export] Instance M_bind (W Ev : Type) : MBind (M W Ev) :=
  λ A B f m w,
    let '(a, w1, t1) := m w in
    let '(b, w2, t2) := f a w1 in
    (b, w2, t1 ++ t2).

(** A call to the outside: it may change the world and leaves one event. *)
Definition call {W Ev A : Type} (op : W → A * W) (ev : A → Ev) : M W Ev A :=
  λ w, let '(a, w') := op w in (a, w', [ev a]).

(** A component's events as those of its caller. *)
Definition relabel {W Ev Ev' A : Type} (f : Ev → Ev') (m : M W Ev A) : M W Ev' A :=
  λ w, let '(a, w', t) := m w in (a, w', f <$> t).

(** [if err != nil { return ..., err }] *)
Definition bind_res {W Ev E A B : Type}
    (m : M W Ev (E + A)) (k : A → M W Ev (E + B)) : M W Ev (E + B) :=
  r ← m;
  match r with
  | inl e => mret (inl e)
  | inr a => k a
  end.
Notation "x '←?' m ; k" := (bind_res m (λ x, k))
  (at level 20, m at level 100, k at level 200, only parsing).

(** ** Emitted traces

    [emits m Q]: from every world, [m]'s result and trace satisfy [Q]. *)
Definition emits {W Ev A : Type} (m : M W Ev A) (Q : A → list Ev → Prop) : Prop :=
  ∀ w, let '(a, _, t) := m w in Q a t.

(** [runs m Q w]: run in [w], [m]'s result and final world satisfy [Q]. *)
Definition runs {W Ev A : Type} (m : M W Ev A) (Q : A → W → Prop) (w : W) : Prop :=
  let '(a, w', _) := m w in Q a w'.

(** [for _, x := range l]: run [f] on each element, stopping at an error. *)
Fixpoint for_each {W Ev E A : Type} (l : list A) (f : A → M W Ev (option E)) : M W Ev (option E) :=
  match l with
  | [] => mret None
  | x :: l =>
      r ← f x;
      match r with
      | Some e => mret (Some e)
      | None => for_each l f
      end
  end.

(** ** Histories

    [guarded P h t]: every event of [t] satisfies [P] of the events before it,
    [h] being what happened earlier.  [hoare P h m Q]: run after [h], [m] emits
    only guarded events, and [Q] holds of its result and the whole history. *)
Fixpoint guarded {Ev : Type} (P : list Ev → Ev → Prop) (h t : list Ev) : Prop :=
  match t with
  | [] => True
  | e :: t => P h e ∧ guarded P (h ++ [e]) t
  end.
Definition hoare {W Ev A : Type} (P : list Ev → Ev → Prop) (h : list Ev) (m : M W Ev A)
    (Q : A → list Ev → Prop) : Prop :=
  emits m (λ a t, guarded P h t ∧ Q a (h ++ t)).

(** ** Weighted sums over maps *)

Definition wsum {K A} `{Countable K} (w : A → Z) (m : gmap K A) : Z :=
  map_fold (λ _ v n, (w v + n)%Z) 0%Z m.

(** ** Closures of step relations *)

Inductive steps {A} (R : A → A → Prop) : A → A → Prop :=
  | steps_refl x : steps R x x
  | steps_step x y z : steps R x y → R y z → steps R x z.

(** ** Lemmas: the monad *)

Section Monad.
Context {W Ev : Type}.
Implicit Types w : W.

Lemma bind_ret_l {A B} (a : A) (f : A → M W Ev B) w : (mret a ≫= f) w = f a w.
Proof. unfold mbind, mret, M_bind, M_ret. by destruct (f a w) as [[? ?] ?]. Qed.

Lemma bind_ret_r {A} (m : M W Ev A) w : (m ≫= mret) w = m w.
Proof. unfold mbind, mret, M_bind, M_ret. destruct (m w) as [[? ?] ?]. by rewrite app_nil_r. Qed.

Lemma bind_assoc {A B C} (m : M W Ev A) (f : A → M W Ev B) (g : B → M W Ev C) w :
  ((m ≫= f) ≫= g) w = (m ≫= λ a, f a ≫= g) w.
Proof.
  unfold mbind, M_bind. destruct (m w) as [[a w1] t1]. destruct (f a w1) as [[b w2] t2].
  destruct (g b w2) as [[c w3] t3]. by rewrite app_assoc.
Qed.

Lemma emits_ret {A} (a : A) (Q : A → list Ev → Prop) : Q a [] → emits (W:=W) (mret a) Q.
Proof. by intros H w. Qed.

Lemma emits_bind {A B} (m : M W Ev A) (f : A → M W Ev B) Q :
  emits m (λ a t, emits (f a) (λ b t', Q b (t ++ t'))) → emits (m ≫= f) Q.
Proof.
  intros H w. specialize (H w). unfold mbind, M_bind. destruct (m w) as [[a w1] t1].
  specialize (H w1). by destruct (f a w1) as [[b w2] t2].
Qed.

Lemma emits_call {A} (op : W → A * W) (ev : A → Ev) Q :
  (∀ a, Q a [ev a]) → emits (call op ev) Q.
Proof. intros H w. unfold call. destruct (op w). apply H. Qed.

Lemma emits_mono {A} (m : M W Ev A) (P Q : A → list Ev → Prop) :
  emits m P → (∀ a t, P a t → Q a t) → emits m Q.
Proof. intros H HPQ w. specialize (H w). destruct (m w) as [[a w'] t]. by apply HPQ. Qed.

Lemma emits_bind_res {E A B} (m : M W Ev (E + A)) (k : A → M W Ev (E + B)) Q :
  emits m (λ r t, match r with
                  | inl e => Q (inl e) t
                  | inr a => emits (k a) (λ b t', Q b (t ++ t'))
                  end) →
  emits (bind_res m k) Q.
Proof.
  intros H. apply emits_bind. eapply emits_mono; [exact H|]. intros [e|a] t; simpl; [|done].
  intros HQ. apply emits_ret. by rewrite app_nil_r.
Qed.

Lemma runs_ret {A} (a : A) (Q : A → W → Prop) w : Q a w → runs (Ev := Ev) (mret a) Q w.
Proof. done. Qed.

Lemma runs_bind {A B} (m : M W Ev A) (f : A → M W Ev B) Q w :
  runs m (λ a, runs (f a) Q) w → runs (m ≫= f) Q w.
Proof.
  unfold runs, mbind, M_bind. destruct (m w) as [[a w1] t1]. by destruct (f a w1) as [[b w2] t2].
Qed.

Lemma runs_mono {A} (m : M W Ev A) (P Q : A → W → Prop) w :
  runs m P w → (∀ a w', P a w' → Q a w') → runs m Q w.
Proof. unfold runs. destruct (m w) as [[a w'] t]. eauto. Qed.

Lemma runs_call {A} (op : W → A * W) (ev : A → Ev) (Q : A → W → Prop) w :
  (∀ a w', op w = (a, w') → Q a w') → runs (call op ev) Q w.
Proof. unfold runs, call. destruct (op w) as [a w']. eauto. Qed.

Lemma runs_bind_res {E A B} (m : M W Ev (E + A)) (k : A → M W Ev (E + B)) Q w :
  runs m (λ r w', match r with inl e => Q (inl e) w' | inr a => runs (k a) Q w' end) w →
  runs (bind_res m k) Q w.
Proof. intros H. apply runs_bind. eapply runs_mono; [exact H|]. by intros [e|a] w'. Qed.

(** Every event satisfies [P], whatever the results. *)
Lemma emits_all_bind {A B} (m : M W Ev A) (f : A → M W Ev B) (P : Ev → Prop) :
  emits m (λ _ t, Forall P t) → (∀ a, emits (f a) (λ _ t, Forall P t)) →
  emits (m ≫= f) (λ _ t, Forall P t).
Proof.
  intros Hm Hf. apply emits_bind. eapply emits_mono; [exact Hm|]. intros a t Ht.
  eapply emits_mono; [apply Hf|]. intros b t' Ht'. by apply Forall_app.
Qed.

Lemma emits_all_bind_res {E A B} (m : M W Ev (E + A)) (k : A → M W Ev (E + B)) (P : Ev → Prop) :
  emits m (λ _ t, Forall P t) → (∀ a, emits (k a) (λ _ t, Forall P t)) →
  emits (bind_res m k) (λ _ t, Forall P t).
Proof.
  intros Hm Hk. apply emits_all_bind; [done|]. intros [e|a]; [by apply emits_ret|apply Hk].
Qed.

Lemma emits_all_call {A} (op : W → A * W) (ev : A → Ev) (P : Ev → Prop) :
  (∀ a, P (ev a)) → emits (call op ev) (λ _ t, Forall P t).
Proof. intros H. apply emits_call. intros a. by constructor. Qed.

Lemma emits_relabel {Ev' A} (f : Ev → Ev') (m : M W Ev A) (Q : A → list Ev' → Prop) :
  emits m (λ a t, Q a (f <$> t)) → emits (relabel f m) Q.
Proof. intros H w. specialize (H w). unfold relabel. by destruct (m w) as [[a w'] t]. Qed.

Lemma emits_True {A} (m : M W Ev A) : emits m (λ _ _, True).
Proof. intros w. by destruct (m w) as [[? ?] ?]. Qed.

Lemma emits_for_each {E A} (l : list A) (f : A → M W Ev (option E)) (P : Ev → Prop) :
  (∀ x, x ∈ l → emits (f x) (λ _ t, Forall P t)) → emits (for_each l f) (λ _ t, Forall P t).
Proof.
  induction l as [|x l IH]; intros H; simpl; [by apply emits_ret|].
  apply emits_bind. eapply emits_mono; [apply H; by left|]. intros [e|] t Ht; simpl.
  - apply emits_ret. by rewrite app_nil_r.
  - eapply emits_mono; [apply IH; intros; apply H; by right|]. intros a t' Ht'.
    by apply Forall_app.
Qed.

(** A loop in which nothing went wrong: every element was handled, in order. *)
Lemma emits_for_each_ok {E A} (l : list A) (f : A → M W Ev (option E)) (ok : Ev → Prop)
    (P : A → list Ev → Prop) :
  (∀ x, x ∈ l → emits (f x) (λ r t, Forall ok t → r = None ∧ P x t)) →
  emits (for_each l f) (λ r t, Forall ok t → r = None ∧ ∃ ts, Forall2 P l ts ∧ t = concat ts).
Proof.
  induction l as [|x l IH]; intros H; simpl.
  { apply emits_ret. intros _. split; [done|]. by exists []. }
  apply emits_bind. eapply emits_mono; [apply H; by left|]. intros [e|] t Ht; simpl.
  - apply emits_ret. rewrite app_nil_r. intros Hok. by destruct (Ht Hok).
  - eapply emits_mono; [apply IH; intros; apply H; by right|].
    intros r t' Ht' [Hok1 Hok2]%Forall_app. destruct (Ht Hok1) as [_ HP].
    destruct (Ht' Hok2) as (-> & ts & Hts & ->). split; [done|]. exists (t :: ts).
    split; [by constructor|done].
Qed.
End Monad.

(** ** Lemmas: histories *)

Lemma elem_snoc {A} (x : A) h : x ∈ h ++ [x].
Proof. set_solver. Qed.
Lemma elem_mid {A} (x : A) h t : x ∈ h ++ x :: t.
Proof. set_solver. Qed.
Lemma elem_before {A} (x : A) h t : x ∈ h → x ∈ h ++ t.
Proof. set_solver. Qed.
Lemma elem_after {A} (x : A) h t : x ∈ t → x ∈ h ++ t.
Proof. set_solver. Qed.

(** Facts about a history: what is in it stays in it. *)
Create HintDb history.
#[export] Hint Resolve elem_snoc elem_mid elem_before elem_after : history.

Section Histories.
Context {W Ev : Type} (P : list Ev → Ev → Prop).
Implicit Types h t : list Ev.

Lemma guarded_app h t t' : guarded P h (t ++ t') ↔ guarded P h t ∧ guarded P (h ++ t) t'.
Proof.
  revert h. induction t as [|e t IH]; intros h; simpl; [rewrite app_nil_r; tauto|].
  rewrite IH, <- app_assoc. tauto.
Qed.

Lemma guarded_split t before e after : guarded P [] t → t = before ++ e :: after → P before e.
Proof. intros H ->. apply guarded_app in H as [_ H]. apply H. Qed.

(** Guards that a class of events satisfies after any history. *)
Lemma guarded_all (ok : Ev → Prop) h t :
  (∀ h e, ok e → P h e) → Forall ok t → guarded P h t.
Proof.
  intros Hok Ht. revert h. induction Ht as [|e t He Ht IH]; intros h; simpl; [done|].
  split; [by apply Hok|apply IH].
Qed.

Lemma hoare_ret {A} (a : A) h (Q : A → list Ev → Prop) :
  Q a h → hoare (W:=W) P h (mret a) Q.
Proof. intros H. apply emits_ret. simpl. by rewrite app_nil_r. Qed.

Lemma hoare_mono {A} (m : M W Ev A) h (Q Q' : A → list Ev → Prop) :
  hoare P h m Q → (∀ a h', Q a h' → Q' a h') → hoare P h m Q'.
Proof. intros H HQ. eapply emits_mono; [exact H|]. intros a t [? ?]. split; [done|by apply HQ]. Qed.

Lemma hoare_bind {A B} (m : M W Ev A) (f : A → M W Ev B) h (Q : B → list Ev → Prop) :
  hoare P h m (λ a h', hoare P h' (f a) Q) → hoare P h (m ≫= f) Q.
Proof.
  intros H. apply emits_bind. eapply emits_mono; [exact H|]. intros a t [Ht Hf].
  eapply emits_mono; [exact Hf|]. intros b t' [Ht' HQ].
  rewrite guarded_app, app_assoc. done.
Qed.

Lemma hoare_bind_res {E A B} (m : M W Ev (E + A)) (k : A → M W Ev (E + B)) h
    (Q : E + B → list Ev → Prop) :
  hoare P h m (λ r h', match r with inl e => Q (inl e) h' | inr a => hoare P h' (k a) Q end) →
  hoare P h (bind_res m k) Q.
Proof.
  intros H. apply hoare_bind. eapply hoare_mono; [exact H|]. intros [e|a] h'; [|done].
  apply hoare_ret.
Qed.

Lemma hoare_call {A} (op : W → A * W) (ev : A → Ev) h (Q : A → list Ev → Prop) :
  (∀ a, P h (ev a)) → (∀ a, Q a (h ++ [ev a])) → hoare P h (call op ev) Q.
Proof. intros HP HQ. apply emits_call. intros a. simpl. split; [by split|apply HQ]. Qed.

(** A routine whose events are all harmless. *)
Lemma hoare_all {A} (ok : Ev → Prop) (m : M W Ev A) h (R : A → list Ev → Prop)
    (Q : A → list Ev → Prop) :
  emits m (λ a t, Forall ok t ∧ R a t) → (∀ h e, ok e → P h e) →
  (∀ a t, Forall ok t → R a t → Q a (h ++ t)) → hoare P h m Q.
Proof.
  intros Hm Hok HQ. eapply emits_mono; [exact Hm|]. intros a t [Ht HR]. split.
  - by apply (guarded_all ok).
  - by apply HQ.
Qed.

Lemma hoare_run {A} (m : M W Ev A) (Q : A → list Ev → Prop) w a w' t :
  hoare P [] m Q → m w = (a, w', t) →
  (∀ before e after, t = before ++ e :: after → P before e) ∧ Q a t.
Proof.
  intros H Hrun. specialize (H w). rewrite Hrun in H. destruct H as [Hg HQ].
  split; [|done]. intros before e after. by apply guarded_split.
Qed.
End Histories.

(** One step of a handler under [hoare]. *)
Ltac hoare_step :=
  lazymatch goal with
  | |- hoare _ _ (mret _) _ => apply hoare_ret
  | |- hoare _ _ (mbind _ _) _ => apply hoare_bind
  | |- hoare _ _ (bind_res _ _) _ => apply hoare_bind_res
  | |- hoare _ _ (call _ _) _ => apply hoare_call; intros ?
  | |- hoare _ _ (match ?x with _ => _ end) _ => destruct x eqn:?
  | |- hoare _ _ (let '_ := ?x in _) _ => destruct x eqn:?
  end.

(** Symbolic execution of a handler: one external call or branch at a time. *)
Ltac emit_step :=
  lazymatch goal with
  | |- emits (mret _) _ => apply emits_ret
  | |- emits (mbind _ _) _ => apply emits_bind
  | |- emits (bind_res _ _) _ => apply emits_bind_res
  | |- emits (call _ _) _ => apply emits_call; intros ?
  | |- emits (match ?x with _ => _ end) _ => destruct x eqn:?
  | |- emits (let '_ := ?x in _) _ => destruct x eqn:?
  end.
Ltac emit_run := repeat (emit_step; cbn beta iota; cbn [app]).

(** The same for a property of every event: no path is followed twice. *)
Ltac all_step :=
  lazymatch goal with
  | |- emits (mret _) _ => apply emits_ret; constructor
  | |- emits (mbind _ _) _ => apply emits_all_bind; [|intros ?]
  | |- emits (bind_res _ _) _ => apply emits_all_bind_res; [|intros ?]
  | |- emits (call _ _) _ => apply emits_all_call; intros ?
  | |- emits (match ?x with _ => _ end) _ => destruct x eqn:?
  | |- emits (let '_ := ?x in _) _ => destruct x eqn:?
  end.

(** ** Lists *)

Lemma elem_filter {A} (p : A → bool) (x : A) l : x ∈ List.filter p l ↔ x ∈ l ∧ p x = true.
Proof. rewrite !list_elem_of_In. apply List.filter_In. Qed.

Lemma Forall2_perm_l {A B} (P : A → B → Prop) l l' k :
  Forall2 P l k → l ≡ₚ l' → ∃ k', Forall2 P l' k' ∧ k ≡ₚ k'.
Proof.
  intros H Hp. revert k H.
  induction Hp as [|x l l' Hp IH|x y l|l l' l'' Hp1 IH1 Hp2 IH2]; intros k H.
  - exists k. by inversion H.
  - apply Forall2_cons_inv_l in H as (b & k0 & Hb & (k' & ? & ?)%IH & ->).
    exists (b :: k'). split; [by constructor|by constructor].
  - apply Forall2_cons_inv_l in H as (b & k0 & Hb & H & ->).
    apply Forall2_cons_inv_l in H as (c & k1 & Hc & H & ->).
    exists (c :: b :: k1). split; [by repeat constructor|constructor].
  - destruct (IH1 _ H) as (k' & H' & ?). destruct (IH2 _ H') as (k'' & ? & ?).
    exists k''. split; [done|]. by transitivity k'.
Qed.

(** ** Weighted sums *)

Section Wsum.
Context {K A : Type} `{Countable K} (w : A → Z).
Implicit Types m : gmap K A.

Lemma wsum_empty : wsum w (∅ : gmap K A) = 0%Z.
Proof. done. Qed.

Lemma wsum_insert m k v : m !! k = None → wsum w (<[k:=v]> m) = (w v + wsum w m)%Z.
Proof.
  intros Hk. unfold wsum. rewrite map_fold_insert_L; [done| |done].
  intros j1 j2 z1 z2 y _ _ _. lia.
Qed.

Lemma wsum_delete m k v : m !! k = Some v → wsum w m = (w v + wsum w (delete k m))%Z.
Proof.
  intros Hk. rewrite <- (wsum_insert (delete k m) k v) by apply lookup_delete_eq. by rewrite insert_delete_id.
Qed.

Lemma wsum_nonneg m : (∀ v, 0 ≤ w v)%Z → (0 ≤ wsum w m)%Z.
Proof.
  intros Hw. induction m as [|k v m Hk IH] using map_ind; [done|].
  rewrite wsum_insert by done. specialize (Hw v). lia.
Qed.

(** Replacing, adding or removing one entry. *)
Lemma wsum_alter m k (new : option A) :
  wsum w (partial_alter (λ _, new) k m)
  = (wsum w m - from_option w 0 (m !! k) + from_option w 0 new)%Z.
Proof.
  assert (wsum w m = wsum w (delete k m) + from_option w 0 (m !! k))%Z as ->.
  { destruct (m !! k) as [v|] eqn:Hk; simpl; [rewrite (wsum_delete m k v Hk); lia|].
    rewrite delete_id by done. lia. }
  assert (partial_alter (λ _, new) k m = partial_alter (λ _, new) k (delete k m)) as ->.
  { apply map_eq. intros j. destruct (decide (j = k)) as [->|Hj].
    - by rewrite !lookup_partial_alter_eq.
    - by rewrite !lookup_partial_alter_ne, lookup_delete_ne. }
  destruct new as [v|]; simpl.
  - pose proof (wsum_insert (delete k m) k v (lookup_delete_eq m k)) as H1.
    unfold insert, map_insert in H1. rewrite H1. lia.
  - pose proof (delete_id (delete k m) k (lookup_delete_eq m k)) as H1.
    unfold delete at 1, map_delete at 1 in H1. rewrite H1. lia.
Qed.

Lemma wsum_ge m k v : (∀ v, 0 ≤ w v)%Z → m !! k = Some v → (w v ≤ wsum w m)%Z.
Proof.
  intros Hw Hk. rewrite (wsum_delete m k v Hk). pose proof (wsum_nonneg (delete k m) Hw). lia.
Qed.
End Wsum.

Lemma wsum_filter {K A} `{Countable K} (w : A → Z) (p : A → bool) (m : gmap K A) :
  wsum w m = (wsum w (filter (λ kv, p kv.2 = true) m)
              + wsum (λ v, if p v then 0 else w v) m)%Z.
Proof.
  induction m as [|k v m Hk IH] using map_ind; [done|].
  rewrite !wsum_insert by done. destruct (p v) eqn:Hp.
  - rewrite map_filter_insert_True by done.
    rewrite wsum_insert by (apply map_lookup_filter_None; by left). lia.
  - rewrite map_filter_insert_False by (simpl; congruence).
    rewrite map_filter_delete, delete_id; [lia|]. apply map_lookup_filter_None. by left.
Qed.

Lemma steps_invariant {A} (R : A → A → Prop) (I : A → Prop) :
  (∀ x y, I x → R x y → I y) → ∀ x y, I x → steps R x y → I y.
Proof. intros HI x y Hx Hs. induction Hs; eauto. Qed.
