(* ===== verification/GoStrings.v ===== *)
(** * Go strings

    Go strings are byte sequences; here they are [String.string], one
    [ascii] per byte.  This file gives the functions of the Go standard
    library ([strings], [unicode/utf8], [path], [encoding/json]'s string
    coercion) that the provider calls, executable, and the lemmas about them
    that the components share. *)

From S2P Require Import Prelude.
From Stdlib Require Import Ascii Lia.

#[local] Open Scope string_scope.
#[global] Arguments String.append : simpl nomatch.

(** ** Lengths, prefixes and suffixes *)

Definition slen (s : string) : Z := Z.of_nat (String.length s).

Definition bytes_of (s : string) : list ascii := String.list_ascii_of_string s.
Definition of_bytes (l : list ascii) : string := String.string_of_list_ascii l.

Definition HasPrefix (s p : string) : bool := String.prefix p s.

Definition sdrop (n : nat) (s : string) : string := of_bytes (drop n (bytes_of s)).
Definition stake (n : nat) (s : string) : string := of_bytes (take n (bytes_of s)).
Definition srev (s : string) : string := of_bytes (reverse (bytes_of s)).

Definition HasSuffix (s p : string) : bool := HasPrefix (srev s) (srev p).

Definition TrimPrefix (s p : string) : string :=
  if HasPrefix s p then sdrop (String.length p) s else s.
Definition TrimSuffix (s p : string) : string :=
  if HasSuffix s p then stake (String.length s - String.length p) s else s.

(** ** Searching *)

Fixpoint Contains (s sub : string) : bool :=
  String.prefix sub s ||
  match s with
  | EmptyString => false
  | String _ s' => Contains s' sub
  end.

(** [strings.ContainsRune] for an ASCII rune. *)
Fixpoint ContainsByte (s : string) (c : ascii) : bool :=
  match s with
  | EmptyString => false
  | String a s' => bool_decide (a = c) || ContainsByte s' c
  end.

(** [strings.ContainsAny] for ASCII cutsets. *)
Definition ContainsAny (s chars : string) : bool :=
  existsb (ContainsByte s) (bytes_of chars).

(** ** Replacing, splitting and joining on one ASCII byte *)

Fixpoint ReplaceByte (s : string) (old new : ascii) : string :=
  match s with
  | EmptyString => EmptyString
  | String a s' =>
      String (if decide (a = old) then new else a) (ReplaceByte s' old new)
  end.

(** [strings.Split(s, sep)] for a one-byte [sep]; never empty. *)
Fixpoint SplitByte (c : ascii) (s : string) : list string :=
  match s with
  | EmptyString => [""]
  | String a s' =>
      if decide (a = c) then "" :: SplitByte c s'
      else match SplitByte c s' with
           | [] => [String a ""]
           | w :: ws => String a w :: ws
           end
  end.

Fixpoint Join (sep : string) (l : list string) : string :=
  match l with
  | [] => ""
  | [x] => x
  | x :: l' => x ++ sep ++ Join sep l'
  end.

(** ** Trimming a one-byte cutset *)

Fixpoint TrimLeftByte (c : ascii) (s : string) : string :=
  match s with
  | EmptyString => EmptyString
  | String a s' => if decide (a = c) then TrimLeftByte c s' else s
  end.
Definition TrimRightByte (c : ascii) (s : string) : string :=
  srev (TrimLeftByte c (srev s)).
Definition TrimByte (c : ascii) (s : string) : string :=
  TrimRightByte c (TrimLeftByte c s).

(** ** UTF-8

    [rune_size s] is the number of bytes of the well-formed rune at the front
    of [s], 0 when [s] is empty or starts with an ill-formed sequence (the
    ranges are those of [unicode/utf8]: no surrogates, no overlong forms, at
    most U+10FFFF). *)
Definition in_range (c : ascii) (lo hi : N) : bool :=
  ((lo <=? N_of_ascii c) && (N_of_ascii c <=? hi))%N.
Definition is_cont (c : ascii) : bool := in_range c 128 191.

Definition rune_size (s : string) : nat :=
  match s with
  | EmptyString => 0
  | String a r =>
      if in_range a 0 127 then 1
      else if in_range a 194 223 then
        match r with
        | String b _ => if is_cont b then 2 else 0
        | _ => 0
        end
      else if in_range a 224 239 then
        match r with
        | String b (String c _) =>
            let lo := if decide (N_of_ascii a = 224%N) then 160%N else 128%N in
            let hi := if decide (N_of_ascii a = 237%N) then 159%N else 191%N in
            if in_range b lo hi && is_cont c then 3 else 0
        | _ => 0
        end
      else if in_range a 240 244 then
        match r with
        | String b (String c (String d _)) =>
            let lo := if decide (N_of_ascii a = 240%N) then 144%N else 128%N in
            let hi := if decide (N_of_ascii a = 244%N) then 143%N else 191%N in
            if in_range b lo hi && is_cont c && is_cont d then 4 else 0
        | _ => 0
        end
      else 0
  end.

(** [utf8.ValidString]; [k] bytes of the current rune are still to be skipped. *)
Fixpoint utf8_valid_from (k : nat) (s : string) : bool :=
  match s, k with
  | EmptyString, _ => true
  | String _ s', S k' => utf8_valid_from k' s'
  | String _ s', O =>
      match rune_size s with
      | O => false
      | S n => utf8_valid_from n s'
      end
  end.
Definition ValidString (s : string) : bool := utf8_valid_from 0 s.

(** [utf8.RuneCountInString]: an ill-formed byte counts as one rune. *)
Fixpoint rune_count_from (k : nat) (s : string) : Z :=
  match s, k with
  | EmptyString, _ => 0
  | String _ s', S k' => rune_count_from k' s'
  | String _ s', O => 1 + rune_count_from (pred (rune_size s)) s'
  end.
Definition RuneCountInString (s : string) : Z := rune_count_from 0 s.
(** A length in characters within bounds, as API schemas state them. *)
Definition len_in (lo hi : Z) (s : string) : bool :=
  (lo <=? RuneCountInString s)%Z && (RuneCountInString s <=? hi)%Z.

(** What a Go string is after a JSON round trip ([json.Marshal], then
    [json.Unmarshal]): every ill-formed byte becomes U+FFFD. *)
Definition replacement : string :=
  of_bytes [ascii_of_N 239; ascii_of_N 191; ascii_of_N 189].

Fixpoint json_string_from (k : nat) (s : string) : string :=
  match s, k with
  | EmptyString, _ => EmptyString
  | String a s', S k' => String a (json_string_from k' s')
  | String a s', O =>
      match rune_size s with
      | O => replacement ++ json_string_from 0 s'
      | S n => String a (json_string_from n s')
      end
  end.
Definition json_string (s : string) : string := json_string_from 0 s.

(** ** White space

    [unicode.IsSpace] holds of the six ASCII blanks, U+0085, U+00A0, U+1680,
    U+2000..U+200A, U+2028, U+2029, U+202F, U+205F and U+3000; below their
    UTF-8 encodings. *)
Definition utf8_2 (a b : N) : string := of_bytes [ascii_of_N a; ascii_of_N b].
Definition utf8_3 (a b c : N) : string :=
  of_bytes [ascii_of_N a; ascii_of_N b; ascii_of_N c].

Definition space_runes : list string :=
  (fun n => of_bytes [ascii_of_N n]) <$> [9; 10; 11; 12; 13; 32]%N.
Definition wide_space_runes : list string :=
  [utf8_2 194 133; utf8_2 194 160; utf8_3 225 154 128] ++
  ((fun n => utf8_3 226 128 n) <$>
     [128; 129; 130; 131; 132; 133; 134; 135; 136; 137; 138; 168; 169; 175]%N) ++
  [utf8_3 226 129 159; utf8_3 227 128 128].
Definition all_space_runes : list string := Eval vm_compute in space_runes ++ wide_space_runes.
Definition all_space_runes_rev : list string := Eval vm_compute in srev <$> all_space_runes.

(** Length of the first of [runes] that [s] starts with, 0 when none. *)
Fixpoint match_size (runes : list string) (s : string) : nat :=
  match runes with
  | [] => 0
  | r :: rs => if String.prefix r s then String.length r else match_size rs s
  end.

Fixpoint trim_front (runes : list string) (k : nat) (s : string) : string :=
  match s, k with
  | EmptyString, _ => EmptyString
  | String _ s', S k' => trim_front runes k' s'
  | String _ s', O =>
      match match_size runes s with
      | O => s
      | S n => trim_front runes n s'
      end
  end.
Definition TrimLeftSpace (s : string) : string := trim_front all_space_runes 0 s.
Definition TrimRightSpace (s : string) : string :=
  srev (trim_front all_space_runes_rev 0 (srev s)).
(** [strings.TrimSpace]. *)
Definition TrimSpace (s : string) : string := TrimRightSpace (TrimLeftSpace s).

(** [strings.Fields]: the maximal runs free of white space, [cur] being the
    reversed bytes of the current run. *)
Fixpoint fields_from (k : nat) (cur : list ascii) (s : string) : list string :=
  let flush := match cur with [] => [] | _ => [of_bytes (reverse cur)] end in
  match s, k with
  | EmptyString, _ => flush
  | String _ s', S k' => fields_from k' [] s'
  | String a s', O =>
      match match_size all_space_runes s with
      | O => fields_from 0 (a :: cur) s'
      | S n => flush ++ fields_from n [] s'
      end
  end%list.
Definition Fields (s : string) : list string := fields_from 0 [] s.

(** ** Case

    [strings.ToLower] and [strings.EqualFold] on the runes the provider can
    observe: ASCII letters, plus the three non-ASCII runes whose case mapping
    is an ASCII letter (U+212A KELVIN SIGN and U+0130 for [ToLower]; U+212A
    and U+017F for [EqualFold]).  Any other byte is left alone; the owner and
    repository names compared with these functions are ASCII on the host. *)
Definition lower_byte (a : ascii) : ascii :=
  if in_range a 65 90 then ascii_of_N (N_of_ascii a + 32) else a.

Definition kelvin : string := Eval vm_compute in utf8_3 226 132 170.
Definition dotted_I : string := Eval vm_compute in utf8_2 196 176.
Definition long_s : string := Eval vm_compute in utf8_2 197 191.

Fixpoint fold_case (special : list (string * ascii)) (k : nat) (s : string) : string :=
  match s, k with
  | EmptyString, _ => EmptyString
  | String _ s', S k' => fold_case special k' s'
  | String a s', O =>
      match List.find (fun p => String.prefix p.1 s) special with
      | Some (r, c) => String c (fold_case special (pred (String.length r)) s')
      | None => String (lower_byte a) (fold_case special 0 s')
      end
  end.
Definition ToLower (s : string) : string :=
  fold_case [(kelvin, "k"%char); (dotted_I, "i"%char)] 0 s.
Definition EqualFold (a b : string) : bool :=
  let f := fold_case [(kelvin, "k"%char); (long_s, "s"%char)] 0 in
  bool_decide (f a = f b).

(** ** Slash-separated paths *)

(** [path.Clean] works on the components between slashes: empty and [.]
    components disappear, [..] removes the component before it (at the root it
    is dropped, at the front of a relative path it stays).  [st] is the output
    so far, last component first. *)
Fixpoint clean_parts (rooted : bool) (st parts : list string) : list string :=
  match parts with
  | [] => reverse st
  | p :: ps =>
      if decide (p = "" ∨ p = ".") then clean_parts rooted st ps
      else if decide (p = "..") then
        match st with
        | top :: st' =>
            if decide (top = "..") then clean_parts rooted (".." :: st) ps
            else clean_parts rooted st' ps
        | [] => clean_parts rooted (if rooted then [] else [".."]) ps
        end
      else clean_parts rooted (p :: st) ps
  end.

Definition slash : ascii := "/"%char.

Definition Clean (s : string) : string :=
  if decide (s = "") then "."
  else
    let rooted := HasPrefix s "/" in
    let out := Join "/" (clean_parts rooted [] (SplitByte slash s)) in
    if rooted then "/" ++ out
    else if decide (out = "") then "." else out.

(** A component that [Clean] keeps as a name. *)
Definition name_part (p : string) : Prop :=
  p ≠ "" ∧ p ≠ "." ∧ p ≠ ".." ∧ ContainsByte p slash = false.
#[export] Instance name_part_dec p : Decision (name_part p).
Proof. unfold name_part. apply _. Defined.

(** A slash-separated relative path made of names only: it cannot be absolute,
    empty, or climb out of the directory it is resolved in. *)
Definition safe_path (s : string) : Prop := Forall name_part (SplitByte slash s).
#[export] Instance safe_path_dec s : Decision (safe_path s).
Proof. unfold safe_path. apply _. Defined.

(** Visible ASCII without blanks: names, digests, hexadecimal. *)
Definition plain (s : string) : bool := forallb (λ c, in_range c 33 126) (bytes_of s).

(** ** Numbers *)

Fixpoint digits_pos (fuel : nat) (base n : N) (acc : string) : string :=
  match fuel with
  | O => acc
  | S f =>
      let d := N.modulo n base in
      let c := if (d <? 10)%N then ascii_of_N (48 + d) else ascii_of_N (87 + d) in
      let acc' := String c acc in
      if (n <? base)%N then acc' else digits_pos f base (N.div n base) acc'
  end.
(** Digits of [n] in base 10 or 16; 64-bit values need at most 20. *)
Definition N_digits (base n : N) : string := digits_pos (S (N.to_nat (N.log2 n))) base n "".
Definition Z_digits (base : N) (z : Z) : string :=
  if (z <? 0)%Z then "-" ++ N_digits base (Z.to_N (- z)) else N_digits base (Z.to_N z).
(** [strconv.FormatInt(z, 10)]. *)
Definition FormatInt (z : Z) : string := Z_digits 10 z.

(** [strconv.ParseInt(s, 10, bits)]: an optional sign and at least one digit,
    in the signed range of the width. *)
Fixpoint parse_digits (acc : Z) (s : string) : option Z :=
  match s with
  | EmptyString => Some acc
  | String c s' =>
      if in_range c 48 57
      then parse_digits (acc * 10 + (Z.of_N (N_of_ascii c) - 48)) s'
      else None
  end.
Definition ParseInt (s : string) (bits : Z) : option Z :=
  let '(neg, body) :=
    match s with
    | String "-" r => (true, r)
    | String "+" r => (false, r)
    | _ => (false, s)
    end in
  if decide (body = "") then None
  else
    n ← parse_digits 0 body;
    let v := (if neg then - n else n)%Z in
    if bool_decide (- 2 ^ (bits - 1) ≤ v < 2 ^ (bits - 1))%Z then Some v else None.

(** ** Lemmas: bytes, prefixes, suffixes *)

Lemma bytes_of_of_bytes l : bytes_of (of_bytes l) = l.
Proof. apply String.list_ascii_of_string_of_list_ascii. Qed.
Lemma of_bytes_bytes_of s : of_bytes (bytes_of s) = s.
Proof. apply String.string_of_list_ascii_of_string. Qed.
Lemma bytes_of_app a b : bytes_of (a ++ b) = (bytes_of a ++ bytes_of b)%list.
Proof. induction a as [|c a IH]; simpl; [done|]. f_equal. apply IH. Qed.
Lemma of_bytes_app (a b : list ascii) : of_bytes (a ++ b)%list = of_bytes a ++ of_bytes b.
Proof. induction a as [|c a IH]; simpl; [done|]. f_equal. apply IH. Qed.
Lemma length_bytes_of s : length (bytes_of s) = String.length s.
Proof. induction s; simpl; congruence. Qed.
Lemma length_of_bytes l : String.length (of_bytes l) = length l.
Proof. induction l; simpl; congruence. Qed.
Lemma bytes_of_inj a b : bytes_of a = bytes_of b → a = b.
Proof. intros H. rewrite <- (of_bytes_bytes_of a), <- (of_bytes_bytes_of b). congruence. Qed.

Lemma string_app_nil_r s : s ++ "" = s.
Proof. induction s; simpl; congruence. Qed.
Lemma string_app_assoc a b c : (a ++ b) ++ c = a ++ (b ++ c).
Proof. induction a; simpl; congruence. Qed.
Lemma string_length_app a b :
  String.length (a ++ b) = String.length a + String.length b.
Proof. induction a; simpl; congruence. Qed.
Lemma string_app_inj_l a b c : a ++ b = a ++ c → b = c.
Proof. induction a; simpl; [done|]. intros [= ?]. eauto. Qed.

Lemma string_cons_app c s : String c "" ++ s = String c s.
Proof. reflexivity. Qed.

Lemma slen_app a b : slen (a ++ b) = (slen a + slen b)%Z.
Proof. unfold slen. rewrite string_length_app. lia. Qed.
Lemma slen_nonneg s : (0 ≤ slen s)%Z.
Proof. unfold slen. lia. Qed.
Lemma slen_stake n s : (slen (stake n s) ≤ Z.of_nat n)%Z.
Proof.
  unfold slen, stake. rewrite <- length_bytes_of, bytes_of_of_bytes, length_take. lia.
Qed.

Lemma srev_app a b : srev (a ++ b) = srev b ++ srev a.
Proof. unfold srev. by rewrite bytes_of_app, reverse_app, of_bytes_app. Qed.
Lemma srev_srev s : srev (srev s) = s.
Proof. unfold srev. by rewrite bytes_of_of_bytes, reverse_involutive, of_bytes_bytes_of. Qed.
Lemma length_srev s : String.length (srev s) = String.length s.
Proof. unfold srev. by rewrite length_of_bytes, length_reverse, length_bytes_of. Qed.
Lemma srev_nil_inv s : srev s = "" → s = "".
Proof. intros H. rewrite <- (srev_srev s), H. done. Qed.

Lemma prefix_spec p s : String.prefix p s = true ↔ ∃ t, s = p ++ t.
Proof.
  revert s. induction p as [|a p IH]; intros s; simpl.
  - destruct s; simpl; split; eauto.
  - destruct s as [|b s]; [split; [done|by intros [? ?]]|]. simpl.
    destruct (ascii_dec a b) as [->|Hne].
    + rewrite IH. split; intros [t Ht]; exists t; simpl in *; congruence.
    + split; [done|]. intros [t Ht]. simpl in Ht. congruence.
Qed.
Lemma prefix_app p s : String.prefix p (p ++ s) = true.
Proof. apply prefix_spec. eauto. Qed.

Lemma HasPrefix_spec s p : HasPrefix s p = true ↔ ∃ t, s = p ++ t.
Proof. apply prefix_spec. Qed.
Lemma HasSuffix_spec s p : HasSuffix s p = true ↔ ∃ t, s = t ++ p.
Proof.
  unfold HasSuffix. rewrite HasPrefix_spec. split; intros [t Ht].
  - exists (srev t). rewrite <- (srev_srev s), Ht, srev_app, srev_srev. done.
  - exists (srev t). by rewrite Ht, srev_app.
Qed.

Lemma TrimPrefix_app p s : TrimPrefix (p ++ s) p = s.
Proof.
  unfold TrimPrefix, HasPrefix. rewrite prefix_app.
  unfold sdrop. rewrite bytes_of_app, drop_app_ge; rewrite length_bytes_of; [|lia].
  by rewrite Nat.sub_diag, drop_0, of_bytes_bytes_of.
Qed.

Lemma TrimSuffix_app p s : TrimSuffix (p ++ s) s = p.
Proof.
  unfold TrimSuffix. assert (HasSuffix (p ++ s) s = true) as -> by (apply HasSuffix_spec; by exists p).
  unfold stake. rewrite string_length_app, bytes_of_app, Nat.add_sub, <- length_bytes_of.
  by rewrite take_app_length, of_bytes_bytes_of.
Qed.

Lemma ContainsByte_app a b c :
  ContainsByte (a ++ b) c = ContainsByte a c || ContainsByte b c.
Proof. induction a as [|x a IH]; simpl; [done|]. by rewrite IH, orb_assoc. Qed.

(** ** Lemmas: splitting and joining *)

Lemma ContainsByte_elem s c : ContainsByte s c = true ↔ c ∈ bytes_of s.
Proof.
  induction s as [|a s IH]; simpl; [split; [done|by intros ?%elem_of_nil]|].
  rewrite orb_true_iff, bool_decide_eq_true, elem_of_cons, IH. naive_solver.
Qed.

Lemma SplitByte_not_nil c s : SplitByte c s ≠ [].
Proof. destruct s; simpl; [done|]. case_decide; [done|]. by destruct (SplitByte c s). Qed.

Lemma Join_cons sep x l : l ≠ [] → Join sep (x :: l) = x ++ sep ++ Join sep l.
Proof. by destruct l. Qed.

Lemma Join_SplitByte c s : Join (String c "") (SplitByte c s) = s.
Proof.
  induction s as [|a s IH]; simpl; [done|]. case_decide as Hac.
  - rewrite Join_cons; [|apply SplitByte_not_nil]. simpl. by rewrite IH, Hac.
  - destruct (SplitByte c s) as [|w ws] eqn:E; [by destruct (SplitByte_not_nil c s)|].
    destruct ws as [|w' ws]; simpl in *; by rewrite <- IH.
Qed.

Lemma SplitByte_no_sep c s : Forall (λ w, ContainsByte w c = false) (SplitByte c s).
Proof.
  induction s as [|a s IH]; simpl; [repeat constructor|]. case_decide as Hac.
  - by constructor.
  - destruct (SplitByte c s) as [|w ws]; [repeat constructor; simpl|].
    + rewrite bool_decide_eq_false_2; done.
    + inversion IH; subst. constructor; [|done]. simpl.
      rewrite bool_decide_eq_false_2; done.
Qed.

Lemma SplitByte_app_sep c a b :
  ContainsByte a c = false → SplitByte c (a ++ String c b) = a :: SplitByte c b.
Proof.
  induction a as [|x a IH]; simpl.
  - intros _. by rewrite decide_True.
  - intros [Hx Ha]%orb_false_iff. apply bool_decide_eq_false in Hx.
    rewrite decide_False by done. by rewrite IH.
Qed.
Lemma SplitByte_single c a : ContainsByte a c = false → SplitByte c a = [a].
Proof.
  induction a as [|x a IH]; simpl; [done|].
  intros [Hx Ha]%orb_false_iff. apply bool_decide_eq_false in Hx.
  rewrite decide_False by done. by rewrite IH.
Qed.

Lemma SplitByte_Join c l :
  l ≠ [] → Forall (λ w, ContainsByte w c = false) l →
  SplitByte c (Join (String c "") l) = l.
Proof.
  induction l as [|x l IH]; [done|]. intros _ Hall. inversion Hall; subst.
  destruct l as [|y l]; [by apply SplitByte_single|].
  rewrite Join_cons, string_cons_app by done.
  rewrite SplitByte_app_sep by done. by rewrite IH.
Qed.

(** ** Lemmas: trimming *)

Lemma match_size_0 runes s :
  Forall (λ r, r ≠ "") runes →
  match_size runes s = 0 ↔ Forall (λ r, String.prefix r s = false) runes.
Proof.
  induction 1 as [|r rs Hr _ IH]; simpl; [done|].
  destruct (String.prefix r s) eqn:E.
  - destruct r; [done|]. split; [done|]. inversion 1; congruence.
  - rewrite IH, Forall_cons. clear IH. split; [by split|by intros [_ ?]].
Qed.

Lemma match_size_app runes s t :
  Forall (λ r, r ≠ "") runes → match_size runes (s ++ t) = 0 → match_size runes s = 0.
Proof.
  intros Hr. rewrite !match_size_0 by done. intros H. eapply Forall_impl; [exact H|].
  simpl. intros r Hf. apply not_true_iff_false. intros [u Hu]%prefix_spec.
  apply not_true_iff_false in Hf. apply Hf, prefix_spec. exists (u ++ t).
  by rewrite Hu, string_app_assoc.
Qed.

Lemma trim_front_done runes k s :
  trim_front runes k s = "" ∨ match_size runes (trim_front runes k s) = 0.
Proof.
  revert k. induction s as [|a s IH]; intros k; [by left|].
  destruct k as [|k]; [|apply IH]. cbn [trim_front].
  destruct (match_size runes (String a s)) eqn:E; [by right|apply IH].
Qed.

Lemma trim_front_id runes s : match_size runes s = 0 → trim_front runes 0 s = s.
Proof. destruct s; [done|]. cbn [trim_front]. by intros ->. Qed.

Lemma trim_front_suffix runes k s : ∃ p, s = p ++ trim_front runes k s.
Proof.
  revert k. induction s as [|a s IH]; intros k; [by exists ""|].
  destruct k as [|k]; cbn [trim_front].
  - destruct (match_size runes (String a s)) as [|n]; [by exists ""|].
    destruct (IH n) as [p Hp]. exists (String a p). simpl. congruence.
  - destruct (IH k) as [p Hp]. exists (String a p). simpl. congruence.
Qed.

Lemma all_space_runes_nonempty : Forall (λ r, r ≠ "") all_space_runes.
Proof. by apply (bool_decide_unpack _). Qed.
Lemma all_space_runes_rev_nonempty : Forall (λ r, r ≠ "") all_space_runes_rev.
Proof. by apply (bool_decide_unpack _). Qed.

Lemma TrimRightSpace_prefix s : ∃ t, s = TrimRightSpace s ++ t.
Proof.
  unfold TrimRightSpace.
  destruct (trim_front_suffix all_space_runes_rev 0 (srev s)) as [p Hp].
  exists (srev p). by rewrite <- srev_app, <- Hp, srev_srev.
Qed.

Lemma TrimRightSpace_idemp s : TrimRightSpace (TrimRightSpace s) = TrimRightSpace s.
Proof.
  unfold TrimRightSpace. rewrite srev_srev.
  destruct (trim_front_done all_space_runes_rev 0 (srev s)) as [->|H]; [done|].
  by rewrite (trim_front_id _ _ H).
Qed.

(** What [TrimSpace] returns starts with no white space. *)
Lemma TrimSpace_front s : TrimSpace s = "" ∨ match_size all_space_runes (TrimSpace s) = 0.
Proof.
  unfold TrimSpace.
  destruct (trim_front_done all_space_runes 0 s) as [H|H]; fold (TrimLeftSpace s) in H.
  - left. by rewrite H.
  - right. destruct (TrimRightSpace_prefix (TrimLeftSpace s)) as [t Ht].
    rewrite Ht in H. eapply match_size_app; [apply all_space_runes_nonempty|exact H].
Qed.

Lemma TrimSpace_idemp s : TrimSpace (TrimSpace s) = TrimSpace s.
Proof.
  unfold TrimSpace at 1. assert (TrimLeftSpace (TrimSpace s) = TrimSpace s) as ->.
  { destruct (TrimSpace_front s) as [->|H]; [done|]. by apply trim_front_id. }
  apply TrimRightSpace_idemp.
Qed.

(** ** Lemmas: path cleaning *)

Lemma Join_slash_split names :
  names ≠ [] → Forall name_part names → SplitByte slash (Join "/" names) = names.
Proof.
  intros Hne Hall. apply (SplitByte_Join slash); [done|].
  eapply Forall_impl; [exact Hall|]. by intros p (_ & _ & _ & ?).
Qed.

Lemma safe_path_Join s :
  safe_path s ↔ ∃ names, names ≠ [] ∧ Forall name_part names ∧ s = Join "/" names.
Proof.
  split.
  - intros H. exists (SplitByte slash s).
    split; [apply SplitByte_not_nil|]. split; [done|].
    symmetry. apply (Join_SplitByte slash).
  - intros (names & Hne & Hall & ->). unfold safe_path. by rewrite Join_slash_split.
Qed.

(** The output of [clean_parts]: some [..] (none under a root), then names. *)
Lemma clean_parts_shape rooted k names parts :
  Forall name_part names → Forall (λ w, ContainsByte w slash = false) parts →
  (rooted = true → k = 0) →
  ∃ k' names', clean_parts rooted (names ++ replicate k "..")%list parts
    = (replicate k' ".." ++ names')%list
    ∧ Forall name_part names' ∧ (rooted = true → k' = 0).
Proof.
  revert k names. induction parts as [|p ps IH]; intros k names Hn Hp Hk.
  - exists k, (reverse names). cbn [clean_parts].
    rewrite reverse_app, reverse_replicate. by rewrite Forall_reverse.
  - inversion Hp; subst. cbn [clean_parts].
    case_decide as Hskip; [by apply IH|]. case_decide as Hdd.
    + destruct names as [|n ns]; cbn [app].
      * destruct k as [|k]; cbn [replicate].
        { destruct rooted; [by apply (IH 0 [])|]. by apply (IH 1 []). }
        rewrite decide_True by done.
        destruct rooted; [by specialize (Hk eq_refl)|].
        by apply (IH (S (S k)) []).
      * inversion Hn as [|? ? (_ & _ & Hnn & _)]; subst.
        rewrite decide_False by done. by apply IH.
    + apply (IH k (p :: names)); [|done|done]. constructor; [|done].
      unfold name_part. tauto.
Qed.

(** Names, after any [..], are left alone. *)
Lemma clean_parts_names rooted st names :
  Forall name_part names →
  clean_parts rooted st names = (reverse st ++ names)%list.
Proof.
  intros Hn. revert st. induction Hn as [|n ns (H1 & H2 & H3 & _) _ IH]; intros st.
  - cbn. by rewrite app_nil_r.
  - cbn [clean_parts]. rewrite decide_False by tauto. rewrite decide_False by done.
    rewrite IH, reverse_cons, <- app_assoc. done.
Qed.

Lemma safe_path_not_rooted s : safe_path s → HasPrefix s "/" = false.
Proof.
  intros H. apply not_true_iff_false. intros [t ->]%HasPrefix_spec.
  unfold safe_path in H. simpl in H. inversion H as [|? ? (Hx & _)]. done.
Qed.

Lemma safe_path_not_empty s : safe_path s → s ≠ "".
Proof. intros H ->. inversion H as [|? ? (Hx & _)]. done. Qed.

Lemma Clean_safe s : safe_path s → Clean s = s.
Proof.
  intros Hs. pose proof (safe_path_not_rooted _ Hs) as Hr.
  pose proof (safe_path_not_empty _ Hs) as He. unfold Clean.
  rewrite decide_False by done. rewrite Hr, clean_parts_names by done.
  simpl. rewrite (Join_SplitByte slash). by rewrite decide_False.
Qed.

(** A relative path that [Clean] does not reduce to [.], [..] or something
    under [..] is a path of names. *)
Lemma Clean_relative_safe s :
  HasPrefix s "/" = false → Clean s ≠ "." → Clean s ≠ ".." →
  HasPrefix (Clean s) "../" = false → safe_path (Clean s).
Proof.
  unfold Clean. case_decide; [done|]. intros Hr. rewrite Hr.
  destruct (clean_parts_shape false 0 [] (SplitByte slash s)) as (k & names & E & Hn & _);
    [constructor|apply SplitByte_no_sep|done|].
  simpl in E. rewrite E. clear E. case_decide as Hout; [done|].
  intros _ Hdd Hup. destruct k as [|k].
  - simpl in *. destruct names as [|n ns]; [done|].
    apply safe_path_Join. by exists (n :: ns).
  - exfalso. simpl in *. destruct (replicate k ".." ++ names)%list eqn:E; [done|].
    apply not_true_iff_false in Hup. apply Hup, HasPrefix_spec. eauto.
Qed.

Lemma Clean_rooted s :
  HasPrefix s "/" = true →
  Clean s = "/" ∨ ∃ p, Clean s = "/" ++ p ∧ safe_path p.
Proof.
  intros Hr. unfold Clean. case_decide as Hs; [by subst|]. rewrite Hr.
  destruct (clean_parts_shape true 0 [] (SplitByte slash s)) as (k & names & E & Hn & Hk);
    [constructor|apply SplitByte_no_sep|done|].
  simpl in E. rewrite E, Hk by done. clear E. simpl.
  destruct names as [|n ns]; [by left|right].
  eexists. split; [done|]. apply safe_path_Join. by exists (n :: ns).
Qed.

(** [Clean] does not make a path longer, and only keeps its bytes. *)
Definition parts_size (l : list string) : nat := sum_list_with (λ p, S (String.length p)) l.

Lemma parts_size_app a b : parts_size (a ++ b)%list = parts_size a + parts_size b.
Proof. apply sum_list_with_app. Qed.

Lemma Join_size l : l ≠ [] → S (String.length (Join "/" l)) = parts_size l.
Proof.
  induction l as [|x l IH]; [done|]. intros _. destruct l as [|y l]; [simpl; lia|].
  rewrite Join_cons by done. rewrite !string_length_app. cbn [String.length].
  unfold parts_size in *. cbn [sum_list_with] in *. specialize (IH ltac:(done)). lia.
Qed.

Lemma parts_size_cons p l : parts_size (p :: l) = S (String.length p) + parts_size l.
Proof. done. Qed.

Lemma clean_parts_size rooted st parts :
  parts_size (clean_parts rooted st parts) <= parts_size st + parts_size parts.
Proof.
  revert st. induction parts as [|p ps IH]; intros st; cbn [clean_parts].
  - unfold parts_size. rewrite sum_list_with_reverse. lia.
  - rewrite parts_size_cons. case_decide; [rewrite IH; lia|]. case_decide as Hp.
    + subst. destruct st as [|top st].
      * rewrite IH. destruct rooted; simpl; lia.
      * case_decide; rewrite IH, !parts_size_cons; simpl; lia.
    + rewrite IH, parts_size_cons. lia.
Qed.

Lemma Clean_length s : s ≠ "" → String.length (Clean s) <= String.length s.
Proof.
  intros Hs. unfold Clean. rewrite decide_False by done.
  pose proof (clean_parts_size (HasPrefix s "/") [] (SplitByte slash s)) as Hc.
  pose proof (Join_size _ (SplitByte_not_nil slash s)) as Hj.
  rewrite (Join_SplitByte slash) in Hj. change (parts_size []) with 0 in Hc.
  destruct (HasPrefix s "/") eqn:Hr.
  - apply HasPrefix_spec in Hr as [t ->]. simpl (SplitByte slash _) in *.
    change (SplitByte slash ("/" ++ t)) with ("" :: SplitByte slash t) in *.
    cbn [clean_parts] in *. rewrite decide_True in * by (by left).
    pose proof (clean_parts_size true [] (SplitByte slash t)) as Hc'.
    pose proof (Join_size _ (SplitByte_not_nil slash t)) as Hj'.
    rewrite (Join_SplitByte slash) in Hj'. change (parts_size []) with 0 in Hc'.
    set (l := clean_parts true [] (SplitByte slash t)) in *.
    destruct l as [|x l]; [simpl in *; lia|].
    pose proof (Join_size (x :: l) ltac:(done)). rewrite !string_length_app.
    cbn [String.length]. lia.
  - set (l := clean_parts false [] (SplitByte slash s)) in *.
    case_decide; [destruct s; simpl; [done|lia]|].
    destruct l as [|x l]; [done|]. pose proof (Join_size (x :: l) ltac:(done)). lia.
Qed.

Lemma ContainsByte_Join c l :
  c ≠ slash → ContainsByte (Join "/" l) c = false ↔ Forall (λ p, ContainsByte p c = false) l.
Proof.
  intros Hc. induction l as [|x l IH]; [simpl; split; eauto|].
  destruct l as [|y l].
  - simpl. rewrite Forall_singleton. done.
  - rewrite Join_cons by done. rewrite !ContainsByte_app, !orb_false_iff, IH.
    rewrite (Forall_cons _ x). cbn [ContainsByte]. rewrite bool_decide_eq_false_2 by done.
    simpl. tauto.
Qed.

Lemma clean_parts_Forall (P : string → Prop) rooted st parts :
  P ".." → Forall P st → Forall P parts → Forall P (clean_parts rooted st parts).
Proof.
  intros Hdd. revert st. induction parts as [|p ps IH]; intros st Hst Hp; cbn [clean_parts].
  - by apply Forall_reverse.
  - inversion Hp; subst. case_decide; [by apply IH|]. case_decide.
    + destruct st as [|top st]; [apply IH; [|done]; destruct rooted; auto|].
      inversion Hst; subst. case_decide; apply IH; auto.
    + apply IH; auto.
Qed.

Lemma Clean_no_byte c s :
  c ≠ slash → c ≠ "."%char → ContainsByte s c = false → ContainsByte (Clean s) c = false.
Proof.
  intros Hs Hd H. assert (ContainsByte "." c = false) as Hdot.
  { simpl. by rewrite bool_decide_eq_false_2. }
  assert (Forall (λ p, ContainsByte p c = false)
            (clean_parts (HasPrefix s "/") [] (SplitByte slash s))) as Hall.
  { apply clean_parts_Forall; [|constructor|].
    - simpl. by rewrite bool_decide_eq_false_2.
    - rewrite <- (Join_SplitByte slash s) in H. by apply (ContainsByte_Join c) in H. }
  apply (ContainsByte_Join c) in Hall; [|done].
  unfold Clean. case_decide; [done|]. destruct (HasPrefix s "/").
  - rewrite ContainsByte_app, Hall. simpl. by rewrite bool_decide_eq_false_2.
  - case_decide; done.
Qed.

(** ** Lemmas: plain strings *)

Lemma plain_app a b : plain (a ++ b) = plain a && plain b.
Proof. unfold plain. by rewrite bytes_of_app, forallb_app. Qed.

Lemma plain_stake n s : plain s = true → plain (stake n s) = true.
Proof.
  unfold plain, stake. rewrite bytes_of_of_bytes, !forallb_forall.
  intros H c Hc. apply H. rewrite <- (take_drop n (bytes_of s)). apply in_or_app. by left.
Qed.

Lemma Contains_byte s c : Contains s (String c "") = ContainsByte s c.
Proof.
  induction s as [|a s IH]; [done|]. cbn [Contains ContainsByte]. rewrite IH. f_equal.
  simpl. assert (String.prefix "" s = true) as -> by (by destruct s).
  destruct (ascii_dec c a) as [->|Hne].
  - by rewrite bool_decide_eq_true_2 by done.
  - rewrite bool_decide_eq_false_2 by congruence. done.
Qed.

Lemma Contains_spec s sub : Contains s sub = true ↔ ∃ a b, s = a ++ sub ++ b.
Proof.
  induction s as [|c s IH]; cbn [Contains].
  - rewrite orb_false_r, prefix_spec. split.
    + intros [t Ht]. by exists "", t.
    + intros (a & b & H). destruct a; [by exists b|done].
  - rewrite orb_true_iff, prefix_spec, IH. split.
    + intros [[t Ht]|(a & b & ->)]; [by exists "", t|by exists (String c a), b].
    + intros (a & b & H). destruct a as [|a0 a]; [left; by exists b|right].
      injection H as -> ->. eauto.
Qed.

Lemma Contains_first s c sub :
  Contains s (String c sub) = true → ContainsByte s c = true.
Proof.
  intros (a & b & ->)%Contains_spec. rewrite ContainsByte_app.
  change (String c sub ++ b) with (String c (sub ++ b)). cbn [ContainsByte].
  rewrite bool_decide_eq_true_2 by done. by rewrite orb_true_r.
Qed.

Lemma ContainsByte_plain s c :
  plain s = true → in_range c 33 126 = false → ContainsByte s c = false.
Proof.
  unfold plain. intros Hp Hc. induction s as [|a s IH]; [done|].
  simpl in *. apply andb_true_iff in Hp as [Ha Hp]. rewrite IH by done.
  rewrite bool_decide_eq_false_2; [done|]. intros ->. congruence.
Qed.

(** No rune of white space starts, or ends, with a plain byte. *)
Lemma match_size_plain runes c s :
  Forall (λ r, ∃ a t, r = String a t ∧ in_range a 33 126 = false) runes →
  in_range c 33 126 = true → match_size runes (String c s) = 0.
Proof.
  intros Hr Hc. induction Hr as [|r rs (a & t & -> & Ha) _ IH]; [done|].
  cbn [match_size]. destruct (String.prefix (String a t) (String c s)) eqn:E; [|done].
  exfalso. simpl in E. destruct (ascii_dec a c); congruence.
Qed.

Lemma trim_front_plain runes s :
  Forall (λ r, ∃ a t, r = String a t ∧ in_range a 33 126 = false) runes →
  plain s = true → trim_front runes 0 s = s.
Proof.
  intros Hr Hp. destruct s as [|c s]; [done|]. apply trim_front_id.
  apply match_size_plain; [done|]. unfold plain in Hp. simpl in Hp.
  by apply andb_true_iff in Hp as [? _].
Qed.

Lemma space_runes_not_plain :
  Forall (λ r, ∃ a t, r = String a t ∧ in_range a 33 126 = false) all_space_runes ∧
  Forall (λ r, ∃ a t, r = String a t ∧ in_range a 33 126 = false) all_space_runes_rev.
Proof. split; repeat constructor; do 2 eexists; (split; [reflexivity|reflexivity]). Qed.

Lemma plain_srev s : plain (srev s) = plain s.
Proof.
  unfold plain, srev. rewrite bytes_of_of_bytes. generalize (bytes_of s) as l.
  intros l. apply eq_bool_prop_intro. rewrite !Is_true_true, !forallb_forall.
  split; intros H c Hc; apply H; apply list_elem_of_In; apply list_elem_of_In in Hc;
    by apply elem_of_reverse.
Qed.

Lemma TrimSpace_plain s : plain s = true → TrimSpace s = s.
Proof.
  intros Hp. unfold TrimSpace, TrimLeftSpace, TrimRightSpace.
  rewrite (trim_front_plain all_space_runes) by (apply space_runes_not_plain || done).
  rewrite trim_front_plain; [apply srev_srev|apply space_runes_not_plain|].
  by rewrite plain_srev.
Qed.

(** ** Lemmas: UTF-8 *)

Lemma json_string_valid s : ValidString s = true → json_string s = s.
Proof.
  unfold ValidString, json_string. generalize 0 as k.
  induction s as [|a s IH]; intros k; [done|].
  destruct k as [|k]; cbn [utf8_valid_from json_string_from].
  - destruct (rune_size (String a s)) as [|n]; [done|]. intros H. by rewrite IH.
  - intros H. by rewrite IH.
Qed.

Lemma plain_valid s : plain s = true → ValidString s = true.
Proof.
  unfold plain, ValidString. induction s as [|a s IH]; [done|]. simpl bytes_of.
  intros [Ha Hs]%andb_true_iff. cbn [utf8_valid_from].
  assert (in_range a 0 127 = true) as Ha'.
  { unfold in_range in *. apply andb_true_iff in Ha as [H1 H2].
    apply N.leb_le in H1, H2. apply andb_true_iff. split; apply N.leb_le; lia. }
  cbn [rune_size]. rewrite Ha'. by apply IH.
Qed.

(** ** Lemmas: lengths in characters *)

Lemma rune_count_bounds k s : (0 ≤ rune_count_from k s ≤ slen s)%Z.
Proof.
  revert k. induction s as [|c s IH]; intros k; [by destruct k|].
  assert (slen (String c s) = 1 + slen s)%Z as -> by (unfold slen; cbn [String.length]; lia).
  destruct k as [|k]; cbn [rune_count_from].
  - specialize (IH (pred (rune_size (String c s)))). lia.
  - specialize (IH k). lia.
Qed.
Lemma rune_count_pos c s : (1 ≤ RuneCountInString (String c s))%Z.
Proof.
  unfold RuneCountInString. cbn [rune_count_from].
  pose proof (rune_count_bounds (pred (rune_size (String c s))) s). lia.
Qed.
Lemma len_in_bytes hi c s : (slen (String c s) ≤ hi)%Z → len_in 1 hi (String c s) = true.
Proof.
  intros H. unfold len_in. pose proof (rune_count_pos c s).
  pose proof (rune_count_bounds 0 (String c s)). unfold RuneCountInString in *.
  apply andb_true_iff. split; apply Z.leb_le; lia.
Qed.
Lemma len_in_short lo hi s : (lo ≤ 0)%Z → (slen s ≤ hi)%Z → len_in lo hi s = true.
Proof.
  intros Hlo Hs. unfold len_in, RuneCountInString. pose proof (rune_count_bounds 0 s).
  apply andb_true_iff. split; apply Z.leb_le; lia.
Qed.

(** ** Lemmas: bytes absent from derived strings *)

Lemma TrimSpace_substring s : ∃ a b, s = a ++ TrimSpace s ++ b.
Proof.
  destruct (trim_front_suffix all_space_runes 0 s) as [a Ha].
  destruct (TrimRightSpace_prefix (TrimLeftSpace s)) as [b Hb].
  exists a, b. unfold TrimSpace. rewrite <- Hb. exact Ha.
Qed.

Lemma TrimSpace_no_byte c s : ContainsByte s c = false → ContainsByte (TrimSpace s) c = false.
Proof.
  destruct (TrimSpace_substring s) as (a & b & H). rewrite H at 1.
  rewrite !ContainsByte_app, !orb_false_iff. tauto.
Qed.

Lemma ReplaceByte_gone s old new :
  old ≠ new → ContainsByte (ReplaceByte s old new) old = false.
Proof.
  intros Hn. induction s as [|a s IH]; [done|]. cbn [ReplaceByte ContainsByte].
  rewrite IH, orb_false_r. apply bool_decide_eq_false. case_decide; congruence.
Qed.

Lemma ReplaceByte_id s old new : ContainsByte s old = false → ReplaceByte s old new = s.
Proof.
  induction s as [|a s IH]; [done|]. cbn [ReplaceByte ContainsByte].
  intros [Ha Hs]%orb_false_iff. apply bool_decide_eq_false in Ha.
  rewrite decide_False by done. by rewrite IH.
Qed.

(** ** Lemmas: the byte order on strings *)

Lemma ascii_compare_spec a b : Ascii.compare a b = N.compare (N_of_ascii a) (N_of_ascii b).
Proof. done. Qed.

Lemma string_leb_cons a b s t :
  String.leb (String a s) (String b t) = true ↔
  (N_of_ascii a < N_of_ascii b)%N ∨ (a = b ∧ String.leb s t = true).
Proof.
  unfold String.leb. cbn [String.compare]. rewrite ascii_compare_spec.
  destruct (N.compare_spec (N_of_ascii a) (N_of_ascii b)) as [H|H|H].
  - assert (a = b) as ->. { rewrite <- (ascii_N_embedding a), <- (ascii_N_embedding b). congruence. }
    split; [by right|]. intros [?|[_ ?]]; [lia|done].
  - split; [by left|done].
  - split; [done|]. intros [?|[-> _]]; lia.
Qed.

Lemma string_leb_refl s : String.leb s s = true.
Proof. induction s as [|a s IH]; [done|]. apply string_leb_cons. by right. Qed.

Lemma string_leb_trans a b c :
  String.leb a b = true → String.leb b c = true → String.leb a c = true.
Proof.
  revert b c. induction a as [|x a IH]; intros [|y b] [|z c]; try done.
  rewrite !string_leb_cons.
  intros [?|[-> ?]] [?|[-> ?]]; [left; lia|by left|by left|right; eauto].
Qed.
Lemma string_leb_antisym a b : String.leb a b = true → String.leb b a = true → a = b.
Proof.
  revert b. induction a as [|x a IH]; intros [|y b]; try done. rewrite !string_leb_cons.
  intros [?|[-> ?]] [?|[? ?]]; [lia|subst; lia|lia|f_equal; eauto].
Qed.
Lemma string_leb_total a b : String.leb a b = true ∨ String.leb b a = true.
Proof.
  revert b. induction a as [|x a IH]; intros [|y b]; [by left..|by right|].
  rewrite !string_leb_cons. destruct (N.lt_trichotomy (N_of_ascii x) (N_of_ascii y)) as [?|[?|?]];
    [by left; left| |by right; left].
  assert (x = y) as ->. { rewrite <- (ascii_N_embedding x), <- (ascii_N_embedding y). congruence. }
  destruct (IH b); [left|right]; by right.
Qed.

(** [a < b] in Go's byte order. *)
Definition string_le (a b : string) : Prop := String.leb a b = true.
#[export] Instance string_le_dec : RelDecision string_le := λ a b, bool_eq_dec _ _.
#[export] Instance string_le_po : PartialOrder string_le.
Proof.
  split; [split|]; [exact string_leb_refl|exact string_leb_trans|exact string_leb_antisym].
Qed.
#[export] Instance string_le_total : Total string_le.
Proof. exact string_leb_total. Qed.
