(* ===== verification/Encoding.v ===== *)
(** * Byte encodings and the digest

    [encoding/hex], [encoding/base64] (standard alphabet, padded, strict) and
    [crypto/sha256] as executable functions on byte strings, with the
    round-trip laws the bundle store relies on. *)

From S2P Require Import Prelude GoStrings.
From Stdlib Require Import Ascii Lia.

#[local] Open Scope string_scope.

(** ** Base64

    A byte is eight booleans (low bit first, as in [ascii]), a base64 symbol
    six; the alphabet is a table of 64 symbols. *)
Definition alphabet : list ascii := Eval vm_compute in
  bytes_of "ABCDEFGHIJKLMNOPQRSTUVWXYZabcdefghijklmnopqrstuvwxyz0123456789+/".

Record sextet := Sextet { x0 : bool; x1 : bool; x2 : bool; x3 : bool; x4 : bool; x5 : bool }.

Definition sextet_index (x : sextet) : nat :=
  let b (v : bool) (n : nat) := if v then n else 0 in
  b (x0 x) 1 + b (x1 x) 2 + b (x2 x) 4 + b (x3 x) 8 + b (x4 x) 16 + b (x5 x) 32.
Definition index_sextet (n : nat) : sextet :=
  Sextet (Nat.testbit n 0) (Nat.testbit n 1) (Nat.testbit n 2)
         (Nat.testbit n 3) (Nat.testbit n 4) (Nat.testbit n 5).

Definition enc6 (x : sextet) : ascii := nth (sextet_index x) alphabet "="%char.
Definition dec6 (c : ascii) : option sextet :=
  '(i, _) ← list_find (.= c) alphabet; Some (index_sextet i).

(** Three bytes are four symbols, most significant bits first. *)
Definition pack3 (a b c : ascii) : sextet * sextet * sextet * sextet :=
  let '(Ascii a0 a1 a2 a3 a4 a5 a6 a7) := a in
  let '(Ascii b0 b1 b2 b3 b4 b5 b6 b7) := b in
  let '(Ascii c0 c1 c2 c3 c4 c5 c6 c7) := c in
  (Sextet a2 a3 a4 a5 a6 a7, Sextet b4 b5 b6 b7 a0 a1,
   Sextet c6 c7 b0 b1 b2 b3, Sextet c0 c1 c2 c3 c4 c5).
Definition unpack4 (w x y z : sextet) : ascii * ascii * ascii :=
  let '(Sextet w0 w1 w2 w3 w4 w5) := w in
  let '(Sextet x0 x1 x2 x3 x4 x5) := x in
  let '(Sextet y0 y1 y2 y3 y4 y5) := y in
  let '(Sextet z0 z1 z2 z3 z4 z5) := z in
  (Ascii x4 x5 w0 w1 w2 w3 w4 w5, Ascii y2 y3 y4 y5 x0 x1 x2 x3,
   Ascii z0 z1 z2 z3 z4 z5 y0 y1).

(** [base64.StdEncoding.EncodeToString]. *)
Fixpoint base64_encode (s : string) : string :=
  match s with
  | String a (String b (String c r)) =>
      let '(w, x, y, z) := pack3 a b c in
      String (enc6 w) (String (enc6 x) (String (enc6 y) (String (enc6 z) (base64_encode r))))
  | String a (String b EmptyString) =>
      let '(w, x, y, _) := pack3 a b "000" in
      String (enc6 w) (String (enc6 x) (String (enc6 y) "="))
  | String a EmptyString =>
      let '(w, x, _, _) := pack3 a "000" "000" in
      String (enc6 w) (String (enc6 x) "==")
  | EmptyString => ""
  end.

(** [base64.StdEncoding.Strict().DecodeString] on input without line breaks:
    whole quanta, padding only at the very end, and zero bits under the
    padding. *)
Fixpoint base64_decode (s : string) : option string :=
  match s with
  | EmptyString => Some ""
  | String a (String b (String c (String d r))) =>
      w ← dec6 a; x ← dec6 b;
      if decide (c = "="%char) then
        (if decide (d = "="%char ∧ r = "") then
           let '(p, _, _) := unpack4 w x (index_sextet 0) (index_sextet 0) in
           if x0 x || x1 x || x2 x || x3 x then None else Some (String p "")
         else None)
      else
        y ← dec6 c;
        if decide (d = "="%char) then
          (if decide (r = "") then
             let '(p, q, _) := unpack4 w x y (index_sextet 0) in
             if x0 y || x1 y then None else Some (String p (String q ""))
           else None)
        else
          z ← dec6 d;
          let '(p, q, t) := unpack4 w x y z in
          rest ← base64_decode r;
          Some (String p (String q (String t rest)))
  | _ => None
  end.

(** [base64.StdEncoding.DecodeString] skips line breaks. *)
Definition DecodeString (s : string) : option string :=
  base64_decode (of_bytes (List.filter
    (λ c, negb (bool_decide (c = ascii_of_N 10 ∨ c = ascii_of_N 13))) (bytes_of s))).

(** [base64.StdEncoding.EncodedLen]. *)
Definition EncodedLen (n : Z) : Z := (n + 2) / 3 * 4.

(** ** Hexadecimal *)

Definition hex_digit (n : N) : ascii :=
  if (n <? 10)%N then ascii_of_N (48 + n) else ascii_of_N (87 + n).
Fixpoint hex_encode (s : string) : string :=
  match s with
  | EmptyString => ""
  | String a r =>
      String (hex_digit (N.div (N_of_ascii a) 16))
        (String (hex_digit (N.modulo (N_of_ascii a) 16)) (hex_encode r))
  end.

(** A lower-case hexadecimal digit. *)
Definition hex_char (c : ascii) : bool := in_range c 48 57 || in_range c 97 102.

(** ** SHA-256 (FIPS 180-4), words as [N] below 2^32 *)
Section Sha256.
#[local] Open Scope N_scope.

Definition w32 (n : N) : N := N.land n 4294967295.
Definition rotr (n x : N) : N :=
  N.lor (N.shiftr x n) (w32 (N.shiftl x (32 - n))).

Definition sha_k : list N :=
  [1116352408; 1899447441; 3049323471; 3921009573; 961987163; 1508970993;
   2453635748; 2870763221; 3624381080; 310598401; 607225278; 1426881987;
   1925078388; 2162078206; 2614888103; 3248222580; 3835390401; 4022224774;
   264347078; 604807628; 770255983; 1249150122; 1555081692; 1996064986;
   2554220882; 2821834349; 2952996808; 3210313671; 3336571891; 3584528711;
   113926993; 338241895; 666307205; 773529912; 1294757372; 1396182291;
   1695183700; 1986661051; 2177026350; 2456956037; 2730485921; 2820302411;
   3259730800; 3345764771; 3516065817; 3600352804; 4094571909; 275423344;
   430227734; 506948616; 659060556; 883997877; 958139571; 1322822218;
   1537002063; 1747873779; 1955562222; 2024104815; 2227730452; 2361852424;
   2428436474; 2756734187; 3204031479; 3329325298].
Definition sha_h0 : list N :=
  [1779033703; 3144134277; 1013904242; 2773480762; 1359893119; 2600822924;
   528734635; 1541459225].

Definition be_bytes (n : nat) (v : N) : list ascii :=
  (λ i : nat, ascii_of_N (N.land (N.shiftr v (8 * N.of_nat i)) 255)) <$> reverse (seq 0 n).
Fixpoint be_words (l : list ascii) : list N :=
  match l with
  | a :: b :: c :: d :: r =>
      (N_of_ascii a * 16777216 + N_of_ascii b * 65536
       + N_of_ascii c * 256 + N_of_ascii d) :: be_words r
  | _ => []
  end.

(** One zero-padded message: [0x80], zeros, the bit length on 8 bytes. *)
Definition sha_pad (l : list ascii) : list ascii :=
  let n := length l in
  let zeros := ((119 - n mod 64) mod 64)%nat in
  l ++ [ascii_of_N 128] ++ replicate zeros "000"%char ++ be_bytes 8 (8 * N.of_nat n).

(** The 64 message words, last first. *)
Fixpoint sha_schedule (fuel : nat) (ws : list N) : list N :=
  match fuel with
  | O => ws
  | S f =>
      let w15 := nth 14 ws 0 in
      let w2 := nth 1 ws 0 in
      let s0 := N.lxor (N.lxor (rotr 7 w15) (rotr 18 w15)) (N.shiftr w15 3) in
      let s1 := N.lxor (N.lxor (rotr 17 w2) (rotr 19 w2)) (N.shiftr w2 10) in
      sha_schedule f (w32 (nth 15 ws 0 + s0 + nth 6 ws 0 + s1) :: ws)
  end.

Definition sha_round (h : list N) (kw : N * N) : list N :=
  match h with
  | [a; b; c; d; e; f; g; hh] =>
      let s1 := N.lxor (N.lxor (rotr 6 e) (rotr 11 e)) (rotr 25 e) in
      let ch := N.lxor (N.land e f) (N.land (N.lxor e 4294967295) g) in
      let t1 := hh + s1 + ch + kw.1 + kw.2 in
      let s0 := N.lxor (N.lxor (rotr 2 a) (rotr 13 a)) (rotr 22 a) in
      let maj := N.lxor (N.lxor (N.land a b) (N.land a c)) (N.land b c) in
      [w32 (t1 + s0 + maj); a; b; c; w32 (d + t1); e; f; g]
  | _ => h
  end.

Definition sha_block (h block : list N) : list N :=
  let ws := reverse (sha_schedule 48 (reverse block)) in
  let h' := fold_left sha_round (zip sha_k ws) h in
  zip_with (λ x y, w32 (x + y)) h h'.

Fixpoint sha_blocks (fuel : nat) (h ws : list N) : list N :=
  match fuel with
  | O => h
  | S f =>
      match ws with
      | [] => h
      | _ => sha_blocks f (sha_block h (take 16 ws)) (drop 16 ws)
      end
  end.

(** [sha256.Sum256]: 32 bytes. *)
Definition sha256 (s : string) : string :=
  let ws := be_words (sha_pad (bytes_of s)) in
  of_bytes (mjoin (be_bytes 4 <$> sha_blocks (length ws) sha_h0 ws)).
End Sha256.

Example sha256_abc :
  hex_encode (sha256 "abc")
  = "ba7816bf8f01cfea414140de5dae2223b00361a396177a9cb410ff61f20015ad".
Proof. vm_compute. reflexivity. Qed.
Example sha256_two_blocks :
  hex_encode (sha256 "abcdbcdecdefdefgefghfghighijhijkijkljklmklmnlmnomnopnopq")
  = "248d6a61d20638b8e5c026930c3e6039a33ce45964ff2167f6ecedd419db06c1".
Proof. vm_compute. reflexivity. Qed.
Example base64_man : base64_encode "Many" = "TWFueQ==".
Proof. reflexivity. Qed.

(** ** Lemmas: base64 *)

Lemma dec6_enc6 x : dec6 (enc6 x) = Some x.
Proof. destruct x as [[] [] [] [] [] []]; vm_compute; reflexivity. Qed.

Lemma enc6_dec6 c x : dec6 c = Some x → enc6 x = c.
Proof.
  destruct c as [[] [] [] [] [] [] [] []]; vm_compute; try discriminate;
    injection 1 as <-; reflexivity.
Qed.

Lemma enc6_not_pad x : enc6 x ≠ "="%char.
Proof. destruct x as [[] [] [] [] [] []]; vm_compute; discriminate. Qed.

Lemma index_sextet_0 : index_sextet 0 = Sextet false false false false false false.
Proof. reflexivity. Qed.

(** Strings by groups of three bytes, and by groups of four. *)
Lemma string_ind3 (P : string → Prop) :
  P "" → (∀ a, P (String a "")) → (∀ a b, P (String a (String b ""))) →
  (∀ a b c r, P r → P (String a (String b (String c r)))) → ∀ s, P s.
Proof.
  intros H0 H1 H2 H3. fix go 1.
  intros [|a [|b [|c r]]]; [exact H0|apply H1|apply H2|apply H3, go].
Qed.
Lemma string_ind4 (P : string → Prop) :
  P "" → (∀ a, P (String a "")) → (∀ a b, P (String a (String b ""))) →
  (∀ a b c, P (String a (String b (String c "")))) →
  (∀ a b c d r, P r → P (String a (String b (String c (String d r))))) → ∀ s, P s.
Proof.
  intros H0 H1 H2 H3 H4. fix go 1.
  intros [|a [|b [|c [|d r]]]]; [exact H0|apply H1|apply H2|apply H3|apply H4, go].
Qed.

Lemma base64_decode_encode s : base64_decode (base64_encode s) = Some s.
Proof.
  induction s as [|a|a b|a b c r IH] using string_ind3.
  - reflexivity.
  - destruct a. cbn -[dec6 enc6 decide index_sextet]. rewrite !dec6_enc6. cbn -[dec6 enc6 decide].
    by rewrite !decide_True by done.
  - destruct a, b. cbn -[dec6 enc6 decide index_sextet]. rewrite !dec6_enc6.
    cbn -[dec6 enc6 decide]. rewrite decide_False by apply enc6_not_pad.
    by rewrite !decide_True by done.
  - destruct a, b, c. cbn -[dec6 enc6 decide]. rewrite !dec6_enc6. cbn -[dec6 enc6 decide].
    rewrite !decide_False by apply enc6_not_pad. by rewrite IH.
Qed.

(** Strictness: an accepted text is the canonical encoding of its bytes. *)
Lemma base64_encode_decode s r : base64_decode s = Some r → base64_encode r = s.
Proof.
  revert r. induction s as [|a|a b|a b c|a b c d s IH] using string_ind4; intros r;
    try (cbn; by intros [= <-]); try done.
  cbn -[dec6 decide index_sextet].
  destruct (dec6 a) as [w|] eqn:Ea; [|done]. destruct (dec6 b) as [x|] eqn:Eb; [|done].
  apply enc6_dec6 in Ea as <-, Eb as <-. cbn -[dec6 decide index_sextet].
  case_decide as Hc; [subst c|].
  { case_decide as Hd; [destruct Hd as [-> ->]|done]. rewrite index_sextet_0.
    destruct w as [w0 w1 w2 w3 w4 w5], x as [[] [] [] [] x4 x5]; try done.
    intros [= <-]. reflexivity. }
  destruct (dec6 c) as [y|] eqn:Ec; [|done]. apply enc6_dec6 in Ec as <-.
  cbn -[dec6 decide index_sextet]. case_decide as Hd; [subst d|].
  { case_decide as Hs; [subst s|done]. rewrite index_sextet_0.
    destruct w as [w0 w1 w2 w3 w4 w5], x, y as [[] [] y2 y3 y4 y5]; try done.
    intros [= <-]. reflexivity. }
  destruct (dec6 d) as [z|] eqn:Ed; [|done]. apply enc6_dec6 in Ed as <-.
  cbn -[dec6]. destruct w, x, y, z. cbn -[dec6].
  destruct (base64_decode s) as [rest|] eqn:Es; [|done]. intros [= <-].
  cbn -[dec6 enc6]. by rewrite (IH rest).
Qed.

(** Decoding shrinks four symbols to at most three bytes. *)
Lemma base64_decode_length s r :
  base64_decode s = Some r → (4 * slen r <= 3 * slen s)%Z.
Proof.
  intros H%base64_encode_decode. subst s. unfold slen.
  induction r as [|a|a b|a b c r IH] using string_ind3;
    [done|destruct a; cbn; lia|destruct a, b; cbn; lia|].
  destruct a, b, c. cbn -[enc6] in *. lia.
Qed.

(** ** Lemmas: digests *)

Lemma hex_encode_length s : String.length (hex_encode s) = 2 * String.length s.
Proof. induction s as [|a s IH]; cbn -[N.div N.modulo hex_digit]; lia. Qed.

Lemma hex_encode_app a b : hex_encode (a ++ b) = hex_encode a ++ hex_encode b.
Proof. induction a as [|c a IH]; cbn -[N.div N.modulo hex_digit]; [done|]. by rewrite IH. Qed.

Lemma hex_digit_inj m n : (m < 16)%N → (n < 16)%N → hex_digit m = hex_digit n → m = n.
Proof.
  unfold hex_digit. intros Hm Hn H.
  destruct (N.ltb_spec m 10), (N.ltb_spec n 10);
    apply (f_equal N_of_ascii) in H; rewrite !N_ascii_embedding in H; lia.
Qed.

Lemma hex_encode_inj a b : hex_encode a = hex_encode b → a = b.
Proof.
  revert b. induction a as [|x a IH]; intros [|y b];
    cbn -[N.div N.modulo hex_digit]; try done.
  intros [= Hd Hm Hr].
  pose proof (N_ascii_bounded x). pose proof (N_ascii_bounded y).
  apply hex_digit_inj in Hd; [|apply N.Div0.div_lt_upper_bound; lia..].
  apply hex_digit_inj in Hm; [|apply N.mod_lt; lia..].
  f_equal; [|by apply IH]. rewrite <- (ascii_N_embedding x), <- (ascii_N_embedding y).
  f_equal. rewrite (N.div_mod' (N_of_ascii x) 16), (N.div_mod' (N_of_ascii y) 16). congruence.
Qed.

Lemma length_be_bytes n v : length (be_bytes n v) = n.
Proof. unfold be_bytes. by rewrite length_fmap, length_reverse, length_seq. Qed.

Lemma sha_round_length h kw : length h = 8 → length (sha_round h kw) = 8.
Proof. intros H. by do 9 (destruct h as [|? h]; [done|]). Qed.

Lemma sha_block_length h b : length h = 8 → length (sha_block h b) = 8.
Proof.
  intros Hh. unfold sha_block. rewrite length_zip_with.
  enough (∀ l g, length g = 8 → length (fold_left sha_round l g) = 8) as Hf.
  { by rewrite Hf, Hh. }
  intros l. induction l as [|kw l IH]; intros g Hg; cbn [fold_left]; [done|].
  by apply IH, sha_round_length.
Qed.

Lemma sha_blocks_length fuel h ws : length h = 8 → length (sha_blocks fuel h ws) = 8.
Proof.
  revert h ws. induction fuel as [|f IH]; intros h ws Hh; cbn [sha_blocks]; [done|].
  destruct ws; [done|]. by apply IH, sha_block_length.
Qed.

Lemma sha256_length s : String.length (sha256 s) = 32.
Proof.
  unfold sha256. rewrite length_of_bytes.
  pose proof (sha_blocks_length (length (be_words (sha_pad (bytes_of s)))) sha_h0
    (be_words (sha_pad (bytes_of s))) eq_refl) as H.
  set (l := sha_blocks _ _ _) in *.
  do 9 (destruct l as [|? l]; [done|]). cbn [fmap list_fmap mjoin list_join].
  by rewrite !length_app, !length_be_bytes.
Qed.

Lemma hex_encode_chars s : Forall (λ c, hex_char c = true) (bytes_of (hex_encode s)).
Proof.
  assert (∀ n, (n < 16)%N → hex_char (hex_digit n) = true) as Hd.
  { intros n Hn. assert (Forall (λ n, hex_char (hex_digit n) = true) (N.of_nat <$> seq 0 16)) as H
      by (vm_compute; repeat constructor).
    rewrite Forall_forall in H. apply H. apply list_elem_of_fmap. exists (N.to_nat n).
    rewrite N2Nat.id. split; [done|]. apply elem_of_seq. lia. }
  induction s as [|c s IH]; simpl; [constructor|].
  assert (N_of_ascii c < 256)%N by apply N_ascii_bounded.
  constructor; [apply Hd, N.Div0.div_lt_upper_bound; lia|].
  constructor; [apply Hd, N.mod_lt; lia|]. exact IH.
Qed.
