(* ===== verification/Json.v ===== *)
(** * encoding/json on strings

    [json.Marshal] of strings, with the HTML-safe escapes it applies by
    default, of string slices and of maps from strings to strings.  The reader
    of such an object is here to state that nothing is lost or confused. *)

From S2P Require Import Prelude GoStrings Encoding.
From Stdlib Require Import Ascii Lia.

#[local] Open Scope string_scope.

(** ** Writing *)

Definition json_escape (c : ascii) : string :=
  if bool_decide (c = "034"%char) then String "\" (String c "")
  else if bool_decide (c = "\"%char) then String "\" (String c "")
  else if bool_decide (c = "008"%char) then "\b"
  else if bool_decide (c = "012"%char) then "\f"
  else if bool_decide (c = "010"%char) then "\n"
  else if bool_decide (c = "013"%char) then "\r"
  else if bool_decide (c = "009"%char) then "\t"
  else if (N_of_ascii c <? 32)%N || ContainsByte "<>&" c then
    "\u00" +:+ String (hex_digit (N_of_ascii c / 16)) (String (hex_digit (N_of_ascii c mod 16)) "")
  else String c "".

Definition ascii_byte (c : ascii) : bool := (N_of_ascii c <? 128)%N.

(** The line and paragraph separators, U+2028 and U+2029: their last digit. *)
Definition separator (s : string) : option ascii :=
  if HasPrefix s (utf8_3 226 128 168) then Some "8"%char
  else if HasPrefix s (utf8_3 226 128 169) then Some "9"%char else None.

(** [copy] and [skip] bytes of the current rune are still to be copied or
    passed over. *)
Fixpoint json_body_from (copy skip : nat) (s : string) : string :=
  match s, skip, copy with
  | "", _, _ => ""
  | String _ s', S skip, _ => json_body_from 0 skip s'
  | String c s', O, S copy => String c (json_body_from copy 0 s')
  | String c s', O, O =>
      if ascii_byte c then json_escape c +:+ json_body_from 0 0 s'
      else match rune_size s with
           | O => "\ufffd" +:+ json_body_from 0 0 s'
           | S n =>
               match separator s with
               | Some d => "\u202" +:+ String d (json_body_from 0 n s')
               | None => String c (json_body_from n 0 s')
               end
           end
  end.
Definition json_body (s : string) : string := json_body_from 0 0 s.
Definition json_quote (s : string) : string := String "034" (json_body s +:+ String "034" "").

(** [json.Marshal] of a string slice, and of a [map[string]string] whose
    entries are given in the order of their keys. *)
Definition json_strings (l : list string) : string :=
  "[" +:+ GoStrings.Join "," (json_quote <$> l) +:+ "]".
Definition json_member (kv : string * string) : string :=
  json_quote kv.1 +:+ ":" +:+ json_quote kv.2.
Definition json_map (m : list (string * string)) : string :=
  "{" +:+ GoStrings.Join "," (json_member <$> m) +:+ "}".

(** ** Reading *)

Definition hex_of (c : ascii) : option N :=
  if in_range c 48 57 then Some (N_of_ascii c - 48)%N
  else if in_range c 97 102 then Some (N_of_ascii c - 87)%N
  else if in_range c 65 70 then Some (N_of_ascii c - 55)%N else None.

(** UTF-8 of a code point below U+10000 that is no surrogate. *)
Definition utf8 (n : N) : option string :=
  if (n <? 128)%N then Some (String (ascii_of_N n) "")
  else if (n <? 2048)%N then Some (utf8_2 (192 + n / 64) (128 + n mod 64))
  else if (55296 <=? n)%N && (n <? 57344)%N then None
  else Some (utf8_3 (224 + n / 4096) (128 + (n / 64) mod 64) (128 + n mod 64)).

Definition simple_escape (c : ascii) : option string :=
  if bool_decide (c = "034"%char) then Some (String "034" "")
  else if bool_decide (c = "\"%char) then Some "\"
  else if bool_decide (c = "/"%char) then Some "/"
  else if bool_decide (c = "b"%char) then Some (String "008" "")
  else if bool_decide (c = "f"%char) then Some (String "012" "")
  else if bool_decide (c = "n"%char) then Some (String "010" "")
  else if bool_decide (c = "r"%char) then Some (String "013" "")
  else if bool_decide (c = "t"%char) then Some (String "009" "") else None.

(** What follows an opening quote: the string and what follows its end. *)
Fixpoint json_scan (s : string) : option (string * string) :=
  match s with
  | "" => None
  | String c s =>
      if bool_decide (c = "034"%char) then Some ("", s)
      else if bool_decide (c = "\"%char) then
        match s with
        | String e s =>
            if bool_decide (e = "u"%char) then
              match s with
              | String a (String b (String c (String d s))) =>
                  a ← hex_of a; b ← hex_of b; c ← hex_of c; d ← hex_of d;
                  p ← utf8 (((a * 16 + b) * 16 + c) * 16 + d)%N;
                  '(t, rest) ← json_scan s; Some (p +:+ t, rest)
              | _ => None
              end
            else p ← simple_escape e; '(t, rest) ← json_scan s; Some (p +:+ t, rest)
        | "" => None
        end
      else if (N_of_ascii c <? 32)%N then None
      else '(t, rest) ← json_scan s; Some (String c t, rest)
  end.

Definition expect (c : ascii) (s : string) : option string :=
  match s with
  | String a s => if bool_decide (a = c) then Some s else None
  | "" => None
  end.
Definition json_read_quote (s : string) : option (string * string) :=
  s ← expect "034" s; json_scan s.

(** The members of an object without white space. *)
Fixpoint json_read_members (fuel : nat) (s : string) : option (list (string * string)) :=
  match fuel with
  | O => None
  | S fuel =>
      '(k, s) ← json_read_quote s; s ← expect ":" s; '(v, s) ← json_read_quote s;
      match s with
      | String "," s => l ← json_read_members fuel s; Some ((k, v) :: l)
      | "}" => Some [(k, v)]
      | _ => None
      end
  end.
Definition json_read_map (s : string) : option (list (string * string)) :=
  s ← expect "{" s;
  match s with "}" => Some [] | _ => json_read_members (String.length s) s end.

(** ** Lemmas: runes *)

Definition high (c : ascii) : bool := negb (ascii_byte c).

Lemma in_range_high c lo hi : (128 ≤ lo)%N → in_range c lo hi = true → high c = true.
Proof.
  unfold in_range, high, ascii_byte. intros Hlo [H%N.leb_le _]%andb_true_iff.
  apply negb_true_iff, N.ltb_ge. lia.
Qed.

(** The bytes after the first of a longer rune. *)
Lemma rune_tail c s n : rune_size (String c s) = S n → high c = true →
  ∃ b r, s = b +:+ r ∧ String.length b = n ∧ Forall (λ c, high c = true) (bytes_of b).
Proof.
  unfold rune_size. intros Hs Hc.
  destruct (in_range c 0 127) eqn:Ha.
  { unfold in_range, high, ascii_byte in *. apply andb_true_iff in Ha as [_ Ha%N.leb_le].
    apply negb_true_iff, N.ltb_ge in Hc. lia. }
  destruct (in_range c 194 223).
  { destruct s as [|b s]; [done|]. destruct (is_cont b) eqn:Hb; [|done]. injection Hs as <-.
    exists (String b ""), s. split_and!; [done|done|]. constructor; [|constructor].
    by eapply (in_range_high _ 128 191). }
  destruct (in_range c 224 239).
  { destruct s as [|b [|d s]]; [done..|]. cbv zeta in Hs.
    destruct (in_range b _ _ && is_cont d) eqn:Hbd; [|done]. injection Hs as <-.
    apply andb_true_iff in Hbd as [Hb Hd].
    exists (String b (String d "")), s. split_and!; [done|done|]. repeat constructor.
    - eapply in_range_high; [|exact Hb]. case_decide; lia.
    - by eapply (in_range_high _ 128 191). }
  destruct (in_range c 240 244); [|done].
  destruct s as [|b [|d [|e s]]]; [done..|]. cbv zeta in Hs.
  destruct (in_range b _ _ && is_cont d && is_cont e) eqn:Hbd; [|done]. injection Hs as <-.
  apply andb_true_iff in Hbd as [[Hb Hd]%andb_true_iff He].
  exists (String b (String d (String e ""))), s. split_and!; [done|done|]. repeat constructor.
  - eapply in_range_high; [|exact Hb]. case_decide; lia.
  - by eapply (in_range_high _ 128 191).
  - by eapply (in_range_high _ 128 191).
Qed.

(** Induction by runes. *)
Lemma rune_ind (P : string → Prop) :
  P "" →
  (∀ c s, ascii_byte c = true → P s → P (String c s)) →
  (∀ c s, high c = true → rune_size (String c s) = 0%nat → P s → P (String c s)) →
  (∀ c b s, high c = true → rune_size (String c (b +:+ s)) = S (String.length b) →
     Forall (λ c, high c = true) (bytes_of b) → P s → P (String c (b +:+ s))) →
  ∀ s, P s.
Proof.
  intros H0 Ha Hi Hr s. remember (String.length s) as n eqn:Hn.
  revert s Hn. induction (lt_wf n) as [n _ IH]. intros s ->.
  destruct s as [|c s]; [done|].
  destruct (ascii_byte c) eqn:Hc; [apply Ha; [done|]; eapply IH; [|done]; cbn; lia|].
  assert (high c = true) as Hh by (unfold high; by rewrite Hc).
  destruct (rune_size (String c s)) as [|m] eqn:Hm.
  { apply Hi; [done..|]. eapply IH; [|done]. cbn. lia. }
  destruct (rune_tail c s m Hm Hh) as (b & r & -> & Hb & Hall). subst m.
  apply Hr; [done..|]. eapply IH; [|done]. cbn. rewrite string_length_app. lia.
Qed.

Lemma json_body_copy b s : json_body_from (String.length b) 0 (b +:+ s) = b +:+ json_body s.
Proof. induction b as [|c b IH]; [done|]. cbn. by rewrite <- IH. Qed.
Lemma json_body_skip b s : json_body_from 0 (String.length b) (b +:+ s) = json_body s.
Proof. induction b as [|c b IH]; [done|]. cbn. by rewrite <- IH. Qed.
Lemma json_string_copy b s : json_string_from (String.length b) (b +:+ s) = b +:+ json_string s.
Proof. induction b as [|c b IH]; [done|]. cbn. by rewrite <- IH. Qed.

(** ** Lemmas: reading back *)

Lemma scan_escape c s : ascii_byte c = true →
  json_scan (json_escape c +:+ s) = '(t, rest) ← json_scan s; Some (String c t, rest).
Proof. intros Hc. destruct c as [[] [] [] [] [] [] [] []]; first [discriminate Hc|reflexivity]. Qed.

Lemma scan_high c s : high c = true →
  json_scan (String c s) = '(t, rest) ← json_scan s; Some (String c t, rest).
Proof. intros Hc. destruct c as [[] [] [] [] [] [] [] []]; first [discriminate Hc|reflexivity]. Qed.

Lemma scan_highs b s : Forall (λ c, high c = true) (bytes_of b) →
  json_scan (b +:+ s) = '(t, rest) ← json_scan s; Some (b +:+ t, rest).
Proof.
  induction b as [|c b IH]; intros Hb.
  { cbn. by destruct (json_scan s) as [[]|]. }
  apply Forall_cons in Hb as [Hc Hb]. change (String c b +:+ s) with (String c (b +:+ s)).
  rewrite scan_high, IH by done. by destruct (json_scan s) as [[]|].
Qed.

(** The separators are the only runes of their bytes. *)
Lemma separator_rune c b s d u : rune_size (String c (b +:+ s)) = S (String.length b) →
  separator (String c (b +:+ s)) = Some d →
  json_scan ("\u202" +:+ String d u) = '(t, rest) ← json_scan u; Some (String c (b +:+ t), rest).
Proof.
  unfold separator. intros Hr Hd.
  assert (∃ z r, String c (b +:+ s) = String "226" (String "128" (String z r)) ∧
    ((z = "168" ∧ d = "8") ∨ (z = "169" ∧ d = "9"))%char) as (z & r & He & Hz).
  { destruct (HasPrefix _ (utf8_3 226 128 168)) eqn:H1.
    - injection Hd as <-. apply HasPrefix_spec in H1 as [r Hr1]. exists "168"%char, r.
      split; [exact Hr1|by left].
    - destruct (HasPrefix _ (utf8_3 226 128 169)) eqn:H2; [|done]. injection Hd as <-.
      apply HasPrefix_spec in H2 as [r Hr2]. exists "169"%char, r. split; [exact Hr2|by right]. }
  injection He as -> He.
  assert (∃ x y, b = String x (String y "")) as (x & y & ->).
  { rewrite He in Hr. destruct Hz as [[-> _]|[-> _]]; vm_compute in Hr;
    injection Hr as Hl; destruct b as [|x [|y [|? ?]]]; try discriminate Hl; by exists x, y. }
  injection He as -> -> <-. destruct Hz as [[-> ->]|[-> ->]]; reflexivity.
Qed.

Lemma scan_quoted s rest :
  json_scan (json_body s +:+ String "034" rest) = Some (json_string s, rest).
Proof.
  induction s as [|c s Hc IH|c s Hc Hn IH|c b s Hc Hn Hb IH] using rune_ind; [done|..].
  - unfold json_body, json_string. cbn [json_body_from]. rewrite Hc.
    assert (rune_size (String c s) = 1%nat) as Hs.
    { cbn [rune_size]. replace (in_range c 0 127) with true; [done|]. symmetry.
      unfold ascii_byte, in_range in *. apply N.ltb_lt in Hc.
      apply andb_true_iff. split; apply N.leb_le; lia. }
    cbn [json_string_from]. rewrite Hs, string_app_assoc, scan_escape by done.
    unfold json_body, json_string in IH. by rewrite IH.
  - unfold json_body, json_string. cbn [json_body_from json_string_from]. unfold high in Hc. apply negb_true_iff in Hc.
    rewrite Hc, Hn. unfold json_body, json_string in IH.
    change (json_scan (("\ufffd" +:+ json_body_from 0 0 s) +:+ String "034" rest)) with
      ('(t, rest) ← json_scan (json_body_from 0 0 s +:+ String "034" rest);
        Some (replacement +:+ t, rest)). by rewrite IH.
  - unfold json_body, json_string. cbn [json_body_from json_string_from]. pose proof Hc as Hc'.
    unfold high in Hc'. apply negb_true_iff in Hc'. rewrite Hc', Hn, json_string_copy.
    destruct (separator (String c (b +:+ s))) as [d|] eqn:Hd.
    + rewrite json_body_skip.
      change ((("\u202" +:+ String d (json_body s)) +:+ String "034" rest)) with
        ("\u202" +:+ String d (json_body s +:+ String "034" rest)).
      by rewrite (separator_rune c b s d _ Hn Hd), IH.
    + rewrite json_body_copy.
      change ((String c (b +:+ json_body s)) +:+ String "034" rest) with
        (String c ((b +:+ json_body s) +:+ String "034" rest)).
      rewrite scan_high, string_app_assoc, scan_highs, IH by done. done.
Qed.

Lemma read_quote s rest : json_read_quote (json_quote s +:+ rest) = Some (json_string s, rest).
Proof.
  unfold json_quote, json_read_quote.
  change (String "034" (json_body s +:+ String "034" "") +:+ rest)
    with (String "034" ((json_body s +:+ String "034" "") +:+ rest)).
  rewrite string_app_assoc. apply scan_quoted.
Qed.

Lemma expect_eq c s : expect c (String c s) = Some s.
Proof. cbn [expect]. by rewrite bool_decide_eq_true_2. Qed.

Definition json_pair (kv : string * string) : string * string := (json_string kv.1, json_string kv.2).

Lemma read_members m fuel : m ≠ [] → (length m ≤ fuel)%nat →
  json_read_members fuel (GoStrings.Join "," (json_member <$> m) +:+ "}") = Some (json_pair <$> m).
Proof.
  revert fuel. induction m as [|[k v] m IH]; intros fuel Hm Hf; [done|].
  destruct fuel as [|fuel]; [cbn in Hf; lia|]. cbn [length] in Hf.
  assert (∀ rest, json_read_quote (json_member (k, v) +:+ rest)
    = Some (json_string k, String ":" (json_quote v +:+ rest))) as Hk.
  { intros rest. unfold json_member. rewrite !string_app_assoc. apply read_quote. }
  destruct m as [|kv m].
  - change (GoStrings.Join "," (json_member <$> [(k, v)])) with (json_member (k, v)).
    cbn [json_read_members]. rewrite Hk. cbn [mbind option_bind].
    rewrite expect_eq. cbn [mbind option_bind]. by rewrite read_quote.
  - change (GoStrings.Join "," (json_member <$> (k, v) :: kv :: m)) with
      (json_member (k, v) +:+ String "," (GoStrings.Join "," (json_member <$> kv :: m))).
    cbn [json_read_members]. rewrite string_app_assoc, Hk. cbn [mbind option_bind].
    rewrite expect_eq. cbn [mbind option_bind]. rewrite read_quote.
    change (String "," (GoStrings.Join "," (json_member <$> kv :: m)) +:+ "}") with
      (String "," (GoStrings.Join "," (json_member <$> kv :: m) +:+ "}")).
    cbn [mbind option_bind]. rewrite IH by (done || cbn [length] in *; lia). done.
Qed.

Lemma Join_length sep l : (∀ x, x ∈ l → x ≠ "") → (length l ≤ String.length (GoStrings.Join sep l))%nat.
Proof.
  induction l as [|x l IH]; intros Hl; [done|].
  assert (1 ≤ String.length x)%nat.
  { destruct x; [|cbn; lia]. exfalso. apply (Hl ""); [by left|done]. }
  destruct l as [|y l]; [done|].
  change (GoStrings.Join sep (x :: y :: l)) with (x +:+ sep +:+ GoStrings.Join sep (y :: l)).
  rewrite !string_length_app. specialize (IH ltac:(intros z Hz; apply Hl; by right)).
  cbn [length] in *. lia.
Qed.

Lemma member_head kv s : ∃ c r, json_member kv +:+ s = String "034" (String c r).
Proof.
  unfold json_member, json_quote. destruct (json_body kv.1) as [|c r]; by eexists _, _.
Qed.
Lemma members_head kv m s :
  ∃ c r, GoStrings.Join "," (json_member <$> kv :: m) +:+ s = String "034" (String c r).
Proof.
  destruct m as [|kv' m]; [apply member_head|].
  change (GoStrings.Join "," (json_member <$> kv :: kv' :: m)) with
    (json_member kv +:+ String "," (GoStrings.Join "," (json_member <$> kv' :: m))).
  rewrite string_app_assoc. apply member_head.
Qed.

(** A written object reads back as its entries. *)
Lemma read_map m : json_read_map (json_map m) = Some (json_pair <$> m).
Proof.
  unfold json_map, json_read_map.
  change ("{" +:+ ?s) with (String "{" s). rewrite expect_eq.
  cbn [mbind option_bind]. destruct m as [|kv m]; [done|].
  assert (Hread := read_members (kv :: m)
    (String.length (GoStrings.Join "," (json_member <$> kv :: m) +:+ "}")) ltac:(done)).
  destruct (members_head kv m "}") as (c & s & He). rewrite He in *. apply Hread.
  rewrite <- He, string_length_app.
  pose proof (Join_length "," (json_member <$> kv :: m)) as Hl. rewrite length_fmap in Hl.
  etrans; [apply Hl|lia]. intros x (kv' & -> & _)%list_elem_of_fmap.
  destruct (member_head kv' "") as (c' & r & Hm). rewrite string_app_nil_r in Hm. by rewrite Hm.
Qed.

(** ** Lemmas: what the text holds *)

(** Bytes that neither end a script element nor a line. *)
Definition script_safe (c : ascii) : Prop :=
  (32 ≤ N_of_ascii c)%N ∧ c ≠ "<"%char ∧ c ≠ ">"%char ∧ c ≠ "&"%char.
#[export] Instance script_safe_dec c : Decision (script_safe c).
Proof. unfold script_safe. apply _. Defined.

Lemma escape_safe c : Forall script_safe (bytes_of (json_escape c)).
Proof.
  destruct c as [[] [] [] [] [] [] [] []]; apply (bool_decide_unpack _); vm_compute; exact I.
Qed.
Lemma high_safe c : high c = true → script_safe c.
Proof.
  unfold high, ascii_byte. intros Hc%negb_true_iff%N.ltb_ge.
  split; [lia|]. split_and!; intros ->; vm_compute in Hc; by apply Hc.
Qed.
Lemma body_safe s : Forall script_safe (bytes_of (json_body s)).
Proof.
  induction s as [|c s Hc IH|c s Hc Hn IH|c b s Hc Hn Hb IH] using rune_ind; [constructor|..];
    unfold json_body; cbn [json_body_from].
  - rewrite Hc, bytes_of_app. apply Forall_app. split; [apply escape_safe|done].
  - pose proof Hc as Hc'. unfold high in Hc'. apply negb_true_iff in Hc'. rewrite Hc', Hn, bytes_of_app.
    apply Forall_app. split; [|done]. apply (bool_decide_unpack _). vm_compute. exact I.
  - pose proof Hc as Hc'. unfold high in Hc'. apply negb_true_iff in Hc'. rewrite Hc', Hn.
    destruct (separator _) as [d|] eqn:Hd.
    + rewrite json_body_skip, bytes_of_app. apply Forall_app. split.
      { apply (bool_decide_unpack _). vm_compute. exact I. }
      constructor; [|done]. unfold separator in Hd.
      destruct (HasPrefix _ _); [injection Hd as <-|destruct (HasPrefix _ _); [injection Hd as <-|done]];
        apply (bool_decide_unpack _); vm_compute; exact I.
    + rewrite json_body_copy. constructor; [by apply high_safe|]. change (Forall script_safe (bytes_of (b +:+ json_body s))). rewrite bytes_of_app.
      apply Forall_app. split; [|done]. eapply Forall_impl; [exact Hb|]. apply high_safe.
Qed.
Lemma quote_safe s : Forall script_safe (bytes_of (json_quote s)).
Proof.
  unfold json_quote. constructor; [apply (bool_decide_unpack _); vm_compute; exact I|].
  change (Forall script_safe (bytes_of (json_body s +:+ String "034" ""))).
  rewrite bytes_of_app. apply Forall_app. split; [apply body_safe|].
  apply (bool_decide_unpack _). vm_compute. exact I.
Qed.
Lemma Join_safe sep l : Forall script_safe (bytes_of sep) →
  Forall (λ s, Forall script_safe (bytes_of s)) l → Forall script_safe (bytes_of (GoStrings.Join sep l)).
Proof.
  intros Hsep. induction 1 as [|x l Hx Hl IH]; [constructor|].
  destruct l as [|y l]; [done|].
  change (GoStrings.Join sep (x :: y :: l)) with (x +:+ sep +:+ GoStrings.Join sep (y :: l)).
  rewrite !bytes_of_app. by repeat (apply Forall_app; split).
Qed.
Lemma map_safe m : Forall script_safe (bytes_of (json_map m)).
Proof.
  unfold json_map. rewrite !bytes_of_app.
  repeat (apply Forall_app; split); try (apply (bool_decide_unpack _); vm_compute; exact I).
  apply Join_safe; [apply (bool_decide_unpack _); vm_compute; exact I|].
  apply Forall_fmap, Forall_true. intros [k v]. unfold json_member, compose. rewrite !bytes_of_app.
  repeat (apply Forall_app; split); try apply quote_safe.
  apply (bool_decide_unpack _). vm_compute. exact I.
Qed.
