(* ===== verification/Mux.v ===== *)
(** * URL paths and the request multiplexer

    [net/url]'s escaping of paths and [net/http]'s [ServeMux] for the patterns
    the program registers: a path of literal segments, or one with a trailing
    slash that matches everything under it.  Patterns with methods, hosts or
    wildcards are not used and are refused. *)

From S2P Require Import Prelude GoStrings Encoding Json.
From Stdlib Require Import Ascii Lia.

#[local] Open Scope string_scope.

(** ** net/url *)

Definition percent : ascii := "%"%char.

Definition unreserved (c : ascii) : bool :=
  in_range c 97 122 || in_range c 65 90 || in_range c 48 57
  || ContainsByte "-_.~" c.
(** [shouldEscape(c, encodePath)] *)
Definition shouldEscape (c : ascii) : bool :=
  negb (unreserved c || ContainsByte "$&+,/:;=@" c).

Definition upperhex (n : N) : ascii :=
  ascii_of_N (if (n <? 10)%N then n + 48 else n + 55)%N.
Fixpoint escape (s : string) : string :=
  match s with
  | EmptyString => ""
  | String c r =>
      if shouldEscape c then
        String percent (String (upperhex (N_of_ascii c / 16))
                          (String (upperhex (N_of_ascii c mod 16)) (escape r)))
      else String c (escape r)
  end.
Fixpoint unescape (s : string) : option string :=
  match s with
  | EmptyString => Some ""
  | String c r =>
      if ascii_dec c percent then
        match r with
        | String a (String b r) =>
            x ← hex_of a; y ← hex_of b; t ← unescape r;
            Some (String (ascii_of_N (16 * x + y)) t)
        | _ => None
        end
      else t ← unescape r; Some (String c t)
  end.

Definition validEncoded (s : string) : bool :=
  forallb (λ c, ContainsByte "!$&'()*+,;=:@[]%" c || negb (shouldEscape c)) (bytes_of s).

(** [URL.EscapedPath] *)
Definition EscapedPath (path rawPath : string) : string :=
  if bool_decide (rawPath ≠ "") && validEncoded rawPath
     && bool_decide (unescape rawPath = Some path) then rawPath
  else if decide (path = "*") then "*" else escape path.

(** ** net/http *)

Definition cleanPath (p : string) : string :=
  if decide (p = "") then "/"
  else
    let p := if HasPrefix p "/" then p else "/" +:+ p in
    let np := Clean p in
    if HasSuffix p "/" && negb (bool_decide (np = "/")) then np +:+ "/" else np.

(** The literal segments of a pattern, and whether it ends in a slash. *)
Record pattern := { pt_segs : list string; pt_multi : bool }.
#[export] Instance pattern_eq_dec : EqDecision pattern.
Proof. solve_decision. Defined.

Definition pathUnescape (s : string) : string := default s (unescape s).

(** A trailing slash is an empty last part. *)
Definition parsePattern (s : string) : option pattern :=
  if negb (HasPrefix s "/") || ContainsAny s ("{} " +:+ String "009" "") then None
  else
    let parts := SplitByte slash (sdrop 1 s) in
    let init := pathUnescape <$> take (length parts - 1) parts in
    Some (match last parts with
          | Some "" => {| pt_segs := init; pt_multi := true |}
          | Some p => {| pt_segs := (init ++ [pathUnescape p])%list; pt_multi := false |}
          | None => {| pt_segs := []; pt_multi := true |}
          end).

(** What [firstSegment] takes off a path, one after the other: a final slash is
    a segment of its own. *)
Fixpoint segments_of (parts : list string) : list string :=
  match parts with
  | [] => []
  | [""] => ["/"]
  | p :: ps => pathUnescape p :: segments_of ps
  end.
Definition segments (path : string) : list string :=
  if decide (path = "") then [] else segments_of (SplitByte slash (sdrop 1 path)).

Definition count_slashes (s : string) : nat :=
  length (filter (λ c, c = slash) (bytes_of s)).

Section Mux.
Context {H : Type}.

Definition Mux : Type := list (pattern * H).

(** [Handle]; [None] is the panic on a bad or already registered pattern. *)
Definition Handle (m : Mux) (s : string) (h : H) : option Mux :=
  p ← parsePattern s;
  if decide (p ∈ m.*1) then None else Some (m ++ [(p, h)])%list.

(** A node of the routing tree is the patterns that pass through it, with what
    is left of their segments. *)
Definition node : Type := list (list string * (pattern * H)).

Definition findChild (n : node) (seg : string) : node :=
  omap (λ e, match e.1 with
             | s :: rest => if decide (s = seg) then Some (rest, e.2) else None
             | [] => None
             end) n.
Definition ending (multi : bool) (n : node) : option (pattern * H) :=
  snd <$> head (filter (λ e : list string * (pattern * H), e.1 = [] ∧ pt_multi (e.2.1) = multi) n).

Fixpoint matchPath (n : node) (segs : list string) : option (pattern * H) :=
  match segs with
  | [] => ending false n
  | seg :: rest =>
      match matchPath (findChild n seg) rest with
      | Some r => Some r
      | None => ending true n
      end
  end.

Definition root (m : Mux) : node := (λ e : pattern * H, (pt_segs e.1, e)) <$> m.
Definition match_mux (m : Mux) (path : string) : option (pattern * H) :=
  matchPath (root m) (segments path).

Definition exactMatch (n : option (pattern * H)) (path : string) : bool :=
  match n with
  | None => false
  | Some (p, _) =>
      if negb (pt_multi p) then true
      else if bool_decide (path ≠ "") && negb (HasSuffix path "/") then false
      else bool_decide (S (length (pt_segs p)) = count_slashes path)
  end.

Inductive Routed :=
  | Found (p : pattern) (h : H)
  | Redirect (path : string)
  | NotFoundHandler.

(** [matchOrRedirect]: the match, or where to redirect.  [u] is [u.Path]. *)
Definition matchOrRedirect (m : Mux) (path : string) (u : option string)
    : option (pattern * H) + string :=
  let n := match_mux m path in
  match u with
  | Some u =>
      if negb (exactMatch n path) && negb (HasSuffix path "/")
         && exactMatch (match_mux m (path +:+ "/")) (path +:+ "/")
      then inr (cleanPath u +:+ "/") else inl n
  | None => inl n
  end.

(** [findHandler], for a request line with the path [u], escaped as [escaped]. *)
Definition findHandler (m : Mux) (method u escaped : string) : Routed :=
  let found n := match n with Some (p, h) => Found p h | None => NotFoundHandler end in
  if decide (method = "CONNECT") then
    match matchOrRedirect m escaped (Some u) with
    | inr to => Redirect to
    | inl _ =>
        match matchOrRedirect m escaped None with
        | inl n => found n
        | inr to => Redirect to
        end
    end
  else
    let path := cleanPath escaped in
    match matchOrRedirect m path (Some u) with
    | inr to => Redirect to
    | inl n => if decide (path = escaped) then found n else Redirect path
    end.
End Mux.
Arguments Mux : clear implicits.
Arguments Routed : clear implicits.

(** ** Lemmas: escaping *)

Lemma hex_of_upperhex n : (n < 16)%N → hex_of (upperhex n) = Some n.
Proof.
  intros Hn. assert (Hall : Forall (λ k, hex_of (upperhex (N.of_nat k)) = Some (N.of_nat k)) (seq 0 16))
    by (repeat constructor).
  rewrite Forall_forall in Hall. specialize (Hall (N.to_nat n)). rewrite N2Nat.id in Hall.
  apply Hall. apply elem_of_seq. lia.
Qed.

Lemma byte_halves c : ascii_of_N (16 * (N_of_ascii c / 16) + N_of_ascii c mod 16) = c.
Proof. by rewrite <- N.div_mod', ascii_N_embedding. Qed.

Lemma byte_halves_lt c : (N_of_ascii c / 16 < 16 ∧ N_of_ascii c mod 16 < 16)%N.
Proof.
  split; [|by apply N.mod_lt]. apply N.Div0.div_lt_upper_bound.
  pose proof (N_ascii_bounded c). lia.
Qed.

Lemma unescape_escape s : unescape (escape s) = Some s.
Proof.
  induction s as [|c s IH]; [done|]. cbn [escape]. destruct (shouldEscape c) eqn:Hc.
  - cbn [unescape]. destruct (ascii_dec percent percent); [|done].
    destruct (byte_halves_lt c). rewrite !hex_of_upperhex by done.
    cbn -[N.div N.modulo N.mul]. rewrite IH.
    cbn -[N.div N.modulo N.mul]. by rewrite byte_halves.
  - cbn [unescape]. destruct (ascii_dec c percent) as [->|]; [done|]. by rewrite IH.
Qed.

Lemma unescape_EscapedPath path raw : unescape (EscapedPath path raw) = Some path.
Proof.
  unfold EscapedPath.
  destruct (_ && bool_decide (unescape raw = Some path)) eqn:Hb.
  - apply andb_true_iff in Hb as [_ Hb]. by apply bool_decide_eq_true in Hb.
  - destruct (decide (path = "*")) as [->|]; [done|apply unescape_escape].
Qed.

(** A path without escapes is its own segment. *)
Lemma unescape_plain s : ContainsByte s percent = false → unescape s = Some s.
Proof.
  induction s as [|c s IH]; [done|]. cbn [ContainsByte unescape].
  intros [Hc Hs]%orb_false_iff. destruct (ascii_dec c percent) as [->|].
  - by rewrite bool_decide_true in Hc.
  - by rewrite IH.
Qed.

(** ** Lemmas: the routing tree *)

(** What a pattern matches: its own path, or, with a trailing slash, everything
    under it. *)
Definition under (multi : bool) (lits segs : list string) : Prop :=
  if multi then ∃ rest, rest ≠ [] ∧ segs = (lits ++ rest)%list else segs = lits.

Lemma under_cons multi s lits seg segs :
  under multi (s :: lits) (seg :: segs) ↔ s = seg ∧ under multi lits segs.
Proof.
  destruct multi; simpl.
  - split; [intros (r & Hr & [= -> ->]); eauto|]. intros [-> (r & Hr & ->)]. eauto.
  - split; [by intros [= -> ->]|]. by intros [-> ->].
Qed.
Lemma under_nil_r multi lits : under multi lits [] ↔ multi = false ∧ lits = [].
Proof.
  destruct multi; simpl; [|naive_solver]. split; [|naive_solver].
  intros (r & Hr & Heq). symmetry in Heq. by apply app_eq_nil in Heq as [_ ->].
Qed.
Lemma under_nil_l multi seg segs : under multi [] (seg :: segs) ↔ multi = true.
Proof. destruct multi; simpl; [|done]. split; [done|]. intros _. by exists (seg :: segs). Qed.

Section Lemmas.
Context {H : Type}.
Implicit Types n : node (H := H).

Lemma findChild_elem n seg e :
  e ∈ findChild n seg ↔ (seg :: e.1, e.2) ∈ n.
Proof.
  unfold findChild. rewrite list_elem_of_omap. split.
  - intros ([[|s rest] x] & Hin & He); [done|]. cbn in He. case_decide; [|done].
    injection He as <-. by subst.
  - intros Hin. eexists. split; [exact Hin|]. cbn. rewrite decide_True by done. by destruct e.
Qed.

Lemma ending_Some multi n x : ending multi n = Some x → ([], x) ∈ n ∧ pt_multi x.1 = multi.
Proof.
  unfold ending. intros (e & He & ->)%fmap_Some. apply head_Some_elem_of in He.
  apply list_elem_of_filter in He as [[H1 H2] Hin]. destruct e as [l x]; cbn in *. by subst.
Qed.
Lemma ending_None multi n e : ending multi n = None → e ∈ n → e.1 = [] → pt_multi e.2.1 ≠ multi.
Proof.
  unfold ending. intros He%fmap_None Hin Hnil Hm. apply head_None in He.
  assert (e ∈ @nil (list string * (pattern * H))) as []%not_elem_of_nil.
  rewrite <- He. by apply list_elem_of_filter.
Qed.

(** The pattern found matches, and no registered pattern that matches has more
    segments. *)
Definition best (n : node) (segs : list string) (r : option (pattern * H)) : Prop :=
  match r with
  | Some x => ∃ lits, (lits, x) ∈ n ∧ under (pt_multi x.1) lits segs ∧
      ∀ e, e ∈ n → under (pt_multi e.2.1) e.1 segs → (length e.1 ≤ length lits)%nat
  | None => ∀ e, e ∈ n → ¬ under (pt_multi e.2.1) e.1 segs
  end.

Lemma matchPath_best n segs : best n segs (matchPath n segs).
Proof.
  revert n. induction segs as [|seg segs IH]; intros n; cbn [matchPath].
  - destruct (ending false n) as [x|] eqn:He; cbn.
    + apply ending_Some in He as [Hin Hm]. exists []. rewrite Hm. split_and!; [done|done|].
      intros e _ [_ ->]%under_nil_r. done.
    + intros e Hin [Hm Hl]%under_nil_r. by eapply ending_None.
  - specialize (IH (findChild n seg)). destruct (matchPath _ _) as [x|].
    + destruct IH as (lits & Hin & Hu & Hbest). apply findChild_elem in Hin.
      exists (seg :: lits). split; [done|]. split; [by apply under_cons|].
      intros [[|s l] y] He Hy; cbn in *; [lia|]. apply under_cons in Hy as [-> Hy].
      specialize (Hbest (l, y)). rewrite findChild_elem in Hbest. cbn in Hbest.
      specialize (Hbest He Hy). lia.
    + assert (Hdeep : ∀ s l y, (s :: l, y) ∈ n → ¬ under (pt_multi y.1) (s :: l) (seg :: segs)).
      { intros s l y Hy [-> Hu]%under_cons. apply (IH (l, y)); [|done]. by apply findChild_elem. }
      destruct (ending true n) as [x|] eqn:He; cbn.
      * apply ending_Some in He as [Hin Hm]. exists []. rewrite Hm.
        split; [done|]. split; [by apply under_nil_l|].
        intros [[|s l] y] Hy Hu; [done|]. by destruct (Hdeep s l y).
      * intros [[|s l] y] Hy Hu; [|by eapply Hdeep]. apply under_nil_l in Hu.
        by eapply ending_None.
Qed.

(** [ServeMux]'s promise: the most specific pattern takes precedence. *)
Lemma match_mux_best (m : Mux H) path :
  match match_mux m path with
  | Some (p, h) => (p, h) ∈ m ∧ under (pt_multi p) (pt_segs p) (segments path) ∧
      ∀ q g, (q, g) ∈ m → under (pt_multi q) (pt_segs q) (segments path) →
        (length (pt_segs q) ≤ length (pt_segs p))%nat
  | None => ∀ q g, (q, g) ∈ m → ¬ under (pt_multi q) (pt_segs q) (segments path)
  end.
Proof.
  assert (Hroot : ∀ q g, (q, g) ∈ m → (pt_segs q, (q, g)) ∈ root m).
  { intros q g Hin. apply list_elem_of_fmap. by exists (q, g). }
  unfold match_mux. pose proof (matchPath_best (root m) (segments path)) as Hb.
  destruct (matchPath _ _) as [[p h]|].
  - destruct Hb as (lits & Hin & Hu & Hbest).
    apply list_elem_of_fmap in Hin as ([q g] & Heq & Hin). cbn in Heq. simplify_eq.
    split; [done|]. split; [done|]. intros q' g' Hq. apply (Hbest (_, (q', g'))). by apply Hroot.
  - intros q g Hin. apply (Hb (_, (q, g))). by apply Hroot.
Qed.

(** Outside of CONNECT a handler only sees clean paths, and the most specific
    one sees them. *)
Lemma findHandler_found (m : Mux H) method u escaped p h :
  method ≠ "CONNECT" → findHandler m method u escaped = Found p h →
  cleanPath escaped = escaped ∧ match_mux m escaped = Some (p, h).
Proof.
  intros Hm. unfold findHandler. rewrite decide_False by done. cbv zeta.
  unfold matchOrRedirect. destruct (_ && _); [done|].
  case_decide as Hc; [|done]. rewrite Hc. destruct (match_mux m escaped) as [[q g]|]; [|done].
  by intros [= -> ->].
Qed.

(** CONNECT is not cleaned, but a handler is still one that matches. *)
Lemma findHandler_match (m : Mux H) method u escaped p h :
  findHandler m method u escaped = Found p h → match_mux m escaped = Some (p, h).
Proof.
  destruct (decide (method = "CONNECT")) as [->|Hm].
  - unfold findHandler. rewrite decide_True by done. unfold matchOrRedirect.
    destruct (_ && _); [done|]. destruct (match_mux m escaped) as [[q g]|]; [|done].
    by intros [= -> ->].
  - by intros [_ ?]%findHandler_found.
Qed.
End Lemmas.

(** ** Lemmas: clean paths *)

Lemma cleanPath_shape p :
  cleanPath p = "/" ∨
  ∃ q, safe_path q ∧ (cleanPath p = "/" +:+ q ∨ cleanPath p = "/" +:+ q +:+ "/").
Proof.
  unfold cleanPath. case_decide; [by left|]. cbv zeta.
  set (p' := if HasPrefix p "/" then p else "/" +:+ p).
  assert (Hr : HasPrefix p' "/" = true).
  { unfold p'. destruct (HasPrefix p "/") eqn:?; [done|]. apply HasPrefix_spec. by eexists. }
  destruct (Clean_rooted _ Hr) as [-> |(q & -> & Hq)].
  - rewrite bool_decide_true by done. cbn [negb]. rewrite andb_false_r. by left.
  - right. exists q. split; [done|]. destruct (_ && _); [right|by left].
    by rewrite string_app_assoc.
Qed.

Lemma segments_of_names names :
  Forall name_part names → segments_of names = pathUnescape <$> names.
Proof.
  induction 1 as [|p ps (Hp & _) Hps IH]; [done|]. destruct p as [|c p]; [done|].
  cbn [segments_of]. rewrite IH. by destruct ps.
Qed.
Lemma segments_of_slash names :
  Forall name_part names → segments_of (names ++ [""])%list = ((pathUnescape <$> names) ++ ["/"])%list.
Proof.
  induction 1 as [|p ps (Hp & _) Hps IH]; [done|]. destruct p as [|c p]; [done|].
  cbn [segments_of app]. rewrite IH. by destruct ps.
Qed.

Lemma SplitByte_app c a b :
  SplitByte c (a +:+ String c b) = (SplitByte c a ++ SplitByte c b)%list.
Proof.
  induction a as [|x a IH]; cbn; [by rewrite decide_True|]. case_decide; [by rewrite IH|].
  rewrite IH. by destruct (SplitByte c a) eqn:E; [apply SplitByte_not_nil in E|].
Qed.

Lemma sdrop_1 c s : sdrop 1 (String c s) = s.
Proof. unfold sdrop. cbn. apply of_bytes_bytes_of. Qed.

(** The segments of a clean path are its names, and a slash when it ends in one. *)
Lemma segments_clean q :
  safe_path q → segments ("/" +:+ q) = pathUnescape <$> SplitByte slash q ∧
  segments ("/" +:+ q +:+ "/") = ((pathUnescape <$> SplitByte slash q) ++ ["/"])%list.
Proof.
  intros Hq. unfold segments. split; (case_decide; [done|]).
  - change ("/" +:+ q) with (String slash q). rewrite sdrop_1. by apply segments_of_names.
  - change ("/" +:+ q +:+ "/") with (String slash (q +:+ String slash "")). rewrite sdrop_1.
    rewrite SplitByte_app. by apply segments_of_slash.
Qed.

Lemma length_SplitByte s : length (SplitByte slash s) = S (count_slashes s).
Proof.
  induction s as [|c s IH]; [done|]. unfold count_slashes, bytes_of in *.
  cbn [SplitByte String.list_ascii_of_string]. rewrite filter_cons.
  destruct (decide (c = slash)); cbn [length]; [by rewrite IH|].
  rewrite <- IH. by destruct (SplitByte slash s).
Qed.
Lemma count_slashes_app a b : count_slashes (a +:+ b) = (count_slashes a + count_slashes b)%nat.
Proof. unfold count_slashes. by rewrite bytes_of_app, filter_app, length_app. Qed.

Lemma safe_no_slash_end q : safe_path q → HasSuffix ("/" +:+ q) "/" = false.
Proof.
  intros Hs. apply not_true_iff_false. intros [t Ht]%HasSuffix_spec. destruct t as [|c t].
  - change ("/" +:+ q = "/" +:+ "") in Ht. apply string_app_inj_l in Ht. subst.
    by apply safe_path_not_empty in Hs.
  - injection Ht as _ ->. unfold safe_path in Hs.
    change (t +:+ "/") with (t +:+ String slash "") in Hs. rewrite SplitByte_app in Hs.
    apply Forall_app in Hs as [_ Hs]. inversion Hs as [|? ? (Hn & _)]. done.
Qed.

(** The two clean forms of a path of names. *)
Lemma clean_slash q :
  safe_path q →
  HasSuffix ("/" +:+ q +:+ "/") "/" = true ∧
  count_slashes ("/" +:+ q +:+ "/") = S (length (SplitByte slash q)).
Proof.
  intros Hq. split; [apply HasSuffix_spec; exists ("/" +:+ q); by rewrite string_app_assoc|].
  rewrite !count_slashes_app, length_SplitByte. change (count_slashes "/") with 1. lia.
Qed.
