(* ===== verification/GoTime.v ===== *)
(** * Go times and durations

    A [time.Time] is its instant in nanoseconds since the Unix epoch (location
    and monotonic reading are dropped), a [time.Duration] an [int64] count of
    nanoseconds.  [Sub] saturates at the ends of [int64] as Go's does. *)

From S2P Require Import Prelude GoStrings.
From Stdlib Require Import Ascii Lia.

#[local] Open Scope Z_scope.

Abbreviation Time := Z (only parsing).
Abbreviation Duration := Z (only parsing).

Definition Nanosecond : Duration := 1.
Definition Second : Duration := 1000000000.
Definition Minute : Duration := 60 * Second.
Definition Hour : Duration := 60 * Minute.

Definition maxDuration : Duration := 2 ^ 63 - 1.
Definition minDuration : Duration := - 2 ^ 63.

(** [time.Time{}]: January 1, year 1, UTC. *)
Definition zeroTime : Time := -62135596800 * Second.
Definition IsZero (t : Time) : bool := bool_decide (t = zeroTime).

(** [t.Sub(u)]; [time.Until(t)] is [Sub t now]. *)
Definition Sub (t u : Time) : Duration := Z.max minDuration (Z.min maxDuration (t - u)).
(** [t.Add(d)] *)
Definition Add (t : Time) (d : Duration) : Time := t + d.
Definition Before (t u : Time) : bool := t <? u.
Definition After (t u : Time) : bool := u <? t.

(** [d.Round(m)] for [m > 0]: halves away from zero, saturating. *)
Definition Round (d m : Duration) : Duration :=
  let r := Z.rem d m in
  if d <? 0 then
    if (- r + - r <? m) then d - r
    else if minDuration <=? d - r - m then d - r - m else minDuration
  else
    if (r + r <? m) then d - r
    else if d - r + m <=? maxDuration then d - r + m else maxDuration.

(** [int64] wrap-around. *)
Definition wrap64 (z : Z) : Z := (z + 2 ^ 63) mod 2 ^ 64 - 2 ^ 63.

(** [time.Unix(sec, 0)]: seconds are counted from year 1 in an [int64]. *)
Definition unixToInternal : Z := 62135596800.
Definition Unix (sec : Z) : Time := (wrap64 (sec + unixToInternal) - unixToInternal) * Second.

(** [d.String()] on durations that are zero or at least one second. *)
Definition pad (n : nat) (s : string) : string :=
  (of_bytes (replicate (n - String.length s) "0"%char) +:+ s)%string.
Definition DurationString (d : Duration) : string :=
  let a := Z.abs d in
  let frac := a mod Second in
  let secs := a / Second in
  let h := secs / 3600 in
  let m := (secs / 60) mod 60 in
  let s := secs mod 60 in
  ((if (d <? 0)%Z then "-" else "") +:+
   (if (0 <? h)%Z then FormatInt h +:+ "h" else "") +:+
   (if (0 <? h)%Z || (0 <? m)%Z then FormatInt m +:+ "m" else "") +:+
   FormatInt s +:+
   (if (frac =? 0)%Z then "" else "." +:+ TrimRightByte "0"%char (pad 9 (FormatInt frac))) +:+
   "s")%string.

(** Proleptic Gregorian date of a day count from the Unix epoch. *)
Definition civil (days : Z) : Z * Z * Z :=
  let z := days + 719468 in
  let era := z / 146097 in
  let doe := z - era * 146097 in
  let yoe := (doe - doe / 1460 + doe / 36524 - doe / 146096) / 365 in
  let doy := doe - (365 * yoe + yoe / 4 - yoe / 100) in
  let mp := (5 * doy + 2) / 153 in
  let d := doy - (153 * mp + 2) / 5 + 1 in
  let m := if mp <? 10 then mp + 3 else mp - 9 in
  let y := yoe + era * 400 + (if m <=? 2 then 1 else 0) in
  (y, m, d).

(** [t.UTC().Format(time.RFC3339)]. *)
Definition RFC3339 (t : Time) : string :=
  let secs := t / Second in
  let days := secs / 86400 in
  let tod := secs mod 86400 in
  let '(y, m, d) := civil days in
  (pad 4 (FormatInt y) +:+ "-" +:+ pad 2 (FormatInt m) +:+ "-" +:+ pad 2 (FormatInt d) +:+
   "T" +:+ pad 2 (FormatInt (tod / 3600)%Z) +:+ ":" +:+ pad 2 (FormatInt ((tod / 60) mod 60)%Z) +:+
   ":" +:+ pad 2 (FormatInt (tod mod 60)%Z) +:+ "Z")%string.

(** [t.UnixNano()] *)
Definition UnixNano (t : Time) : Z := wrap64 t.

(** ** [time.Parse(time.RFC3339, s)]

    As the library parses it: one- or two-digit hours, an optional fraction of
    which nine digits count, and [Z] or a signed offset. *)

(** Days from the Unix epoch to a proleptic Gregorian date. *)
Definition days_from_civil (y m d : Z) : Z :=
  let y := if m <=? 2 then y - 1 else y in
  let era := y / 400 in
  let yoe := y - era * 400 in
  let doy := (153 * ((m + 9) mod 12) + 2) / 5 + d - 1 in
  era * 146097 + (yoe * 365 + yoe / 4 - yoe / 100 + doy) - 719468.

Definition isLeap (y : Z) : bool :=
  (y mod 4 =? 0) && (negb (y mod 100 =? 0) || (y mod 400 =? 0)).
Definition daysIn (m y : Z) : Z :=
  if m =? 2 then (if isLeap y then 29 else 28)
  else if bool_decide (m ∈ [4; 6; 9; 11]) then 30 else 31.

Definition digit (c : ascii) : option Z :=
  if in_range c 48 57 then Some (Z.of_N (N_of_ascii c) - 48) else None.

(** [getnum(s, fixed)] and the rest of the input. *)
Definition getnum (fixed : bool) (l : list ascii) : option (Z * list ascii) :=
  match l with
  | a :: l =>
      x ← digit a;
      match l with
      | b :: l' =>
          match digit b with
          | Some y => Some (10 * x + y, l')
          | None => if fixed then None else Some (x, l)
          end
      | [] => if fixed then None else Some (x, [])
      end
  | [] => None
  end.

Definition skip (c : ascii) (l : list ascii) : option (list ascii) :=
  match l with
  | a :: l => if decide (a = c) then Some l else None
  | [] => None
  end.

Definition getyear (l : list ascii) : option (Z * list ascii) :=
  '(hi, l) ← getnum true l; '(lo, l) ← getnum true l; Some (100 * hi + lo, l).

Fixpoint getfraction (n : nat) (scale : Z) (l : list ascii) : Z * list ascii :=
  match l with
  | a :: l' =>
      match digit a with
      | Some x =>
          let '(rest, l'') := getfraction (pred n) (scale / 10) l' in
          ((if decide (n = 0%nat) then 0 else x * scale) + rest, l'')
      | None => (0, l)
      end
  | [] => (0, [])
  end.
Definition fraction (l : list ascii) : Z * list ascii :=
  match l with
  | a :: (b :: _) as l' =>
      if bool_decide (a = "."%char ∨ a = ","%char) && in_range b 48 57
      then getfraction 9 100000000 l' else (0, l)
  | _ => (0, l)
  end.

Definition zone (l : list ascii) : option Z :=
  match l with
  | ["Z"%char] => Some 0
  | a :: l =>
      '(hr, l) ← getnum true l; l ← skip ":"%char l; '(mm, l) ← getnum true l;
      if (24 <? hr) || (60 <? mm) || negb (bool_decide (l = [])) then None
      else if decide (a = "+"%char) then Some ((hr * 60 + mm) * 60)
      else if decide (a = "-"%char) then Some (- ((hr * 60 + mm) * 60))
      else None
  | [] => None
  end.

Definition ParseRFC3339 (s : string) : option Time :=
  '(y, l) ← getyear (bytes_of s); l ← skip "-"%char l;
  '(m, l) ← getnum true l; l ← skip "-"%char l;
  '(d, l) ← getnum true l; l ← skip "T"%char l;
  '(hh, l) ← getnum false l; l ← skip ":"%char l;
  '(mm, l) ← getnum true l; l ← skip ":"%char l;
  '(ss, l) ← getnum true l;
  let '(ns, l) := fraction l in
  off ← zone l;
  if (m <? 1) || (12 <? m) || (d <? 1) || (daysIn m y <? d) || (24 <=? hh) || (60 <=? mm) || (60 <=? ss)
  then None
  else Some ((days_from_civil y m d * 86400 + hh * 3600 + mm * 60 + ss - off) * Second + ns).

Example RFC3339_leap : RFC3339 (Unix 1709208000) = "2024-02-29T12:00:00Z"%string.
Proof. vm_compute. reflexivity. Qed.
Example RFC3339_zero : RFC3339 zeroTime = "0001-01-01T00:00:00Z"%string.
Proof. vm_compute. reflexivity. Qed.
Example DurationString_90 : DurationString (90 * Second) = "1m30s"%string.
Proof. vm_compute. reflexivity. Qed.
Example DurationString_max : DurationString maxDuration = "2562047h47m16.854775807s"%string.
Proof. vm_compute. reflexivity. Qed.

Example ParseRFC3339_leap :
  ParseRFC3339 "2024-02-29T12:00:00Z" = Some (Unix 1709208000) ∧
  ParseRFC3339 "2024-02-29T14:30:00.25+02:30" = Some (Unix 1709208000 + 250000000) ∧
  ParseRFC3339 "2023-02-29T12:00:00Z" = None.
Proof. vm_compute. done. Qed.

(** ** [time.ParseDuration]

    A decimal number with a unit, repeated.  The whole part is [uint64]
    arithmetic; the fraction goes through [float64], whose roundings to 53 bits
    are spelled out. *)

(** A positive rational rounded to 53 significant bits, half to even: the
    mantissa and the exponent of 2. *)
Definition round53 (num den : Z) : Z * Z :=
  let scaled e := if e <? 0 then (Z.shiftl num (- e), den) else (num, Z.shiftl den e) in
  let e := Z.log2 num - Z.log2 den - 53 in
  let e := if fst (scaled e) / snd (scaled e) <? 2 ^ 53 then e else e + 1 in
  let '(n, d) := scaled e in
  let q := n / d in
  let r := n mod d in
  ((if (d <? 2 * r) || ((2 * r =? d) && Z.odd q) then q + 1 else q), e).
Definition float_quot (a b : Z) : Z * Z := round53 a b.
Definition float_mul (x y : Z * Z) : Z * Z :=
  let '(m, e) := round53 (fst x * fst y) 1 in (m, e + snd x + snd y).
Definition float_trunc (x : Z * Z) : Z := Z.shiftl (fst x) (snd x).

Definition digit_value (c : ascii) : option Z :=
  let n := Z.of_N (N_of_ascii c) - 48 in if (0 <=? n) && (n <=? 9) then Some n else None.

(** [leadingInt]: [None] on overflow. *)
Fixpoint leadingInt (x : Z) (s : string) : option (Z * string) :=
  match s with
  | String c r =>
      match digit_value c with
      | None => Some (x, s)
      | Some d =>
          if 2 ^ 63 / 10 <? x then None
          else let x := x * 10 + d in if 2 ^ 63 <? x then None else leadingInt x r
      end
  | EmptyString => Some (x, s)
  end.
(** [leadingFraction]: digits that no longer fit are dropped. *)
Fixpoint leadingFraction (x scale : Z) (full : bool) (s : string) : Z * Z * string :=
  match s with
  | String c r =>
      match digit_value c with
      | None => (x, scale, s)
      | Some d =>
          if full then leadingFraction x scale true r
          else if (2 ^ 63 - 1) / 10 <? x then leadingFraction x scale true r
          else let y := x * 10 + d in
               if 2 ^ 63 <? y then leadingFraction x scale true r
               else leadingFraction y (scale * 10) false r
      end
  | EmptyString => (x, scale, s)
  end.
Fixpoint leadingUnit (s : string) : string * string :=
  match s with
  | String c r =>
      if (N_of_ascii c =? 46)%N then (EmptyString, s)
      else match digit_value c with
           | Some _ => (EmptyString, s)
           | None => let '(u, r) := leadingUnit r in (String c u, r)
           end
  | EmptyString => (EmptyString, s)
  end.
Definition micro : string := String (ascii_of_N 194) (String (ascii_of_N 181) "s").
Definition mu : string := String (ascii_of_N 206) (String (ascii_of_N 188) "s").
Definition unitMap (u : string) : option Duration :=
  if decide (u = "ns") then Some Nanosecond
  else if decide (u = "us" ∨ u = micro ∨ u = mu) then Some 1000
  else if decide (u = "ms") then Some 1000000
  else if decide (u = "s") then Some Second
  else if decide (u = "m") then Some Minute
  else if decide (u = "h") then Some Hour
  else None.

(** One number with its unit: its nanoseconds, and the rest. *)
Definition duration_term (s : string) : option (Z * string) :=
  match leadingInt 0 s with
  | None => None
  | Some (v, rest) =>
      let pre := negb (bool_decide (rest = s)) in
      let '(f, scale, post, rest) :=
        match rest with
        | String "."%char r =>
            let '(f, scale, after) := leadingFraction 0 1 false r in
            (f, scale, negb (bool_decide (after = r)), after)
        | _ => (0, 1, false, rest)
        end in
      if negb pre && negb post then None
      else
        let '(u, rest) := leadingUnit rest in
        unit ← (if decide (u = "") then None else unitMap u);
        if 2 ^ 63 / unit <? v then None
        else
          let v := v * unit in
          let v := if f =? 0 then v
                   else v + float_trunc (float_mul (round53 f 1) (float_quot unit scale)) in
          if 2 ^ 63 <? v then None else Some (v, rest)
  end.
Fixpoint duration_terms (fuel : nat) (d : Z) (s : string) : option Z :=
  match fuel, s with
  | _, EmptyString => Some d
  | O, _ => None
  | S fuel, _ =>
      match duration_term s with
      | None => None
      | Some (v, rest) =>
          let d := (d + v) mod 2 ^ 64 in
          if 2 ^ 63 <? d then None else duration_terms fuel d rest
      end
  end.
(** [None]: an error.  A term is at least two bytes long. *)
Definition ParseDuration (s : string) : option Duration :=
  let '(neg, s) := match s with
    | String "-"%char r => (true, r) | String "+"%char r => (false, r) | _ => (false, s) end in
  if decide (s = "0") then Some 0
  else if decide (s = "") then None
  else
    d ← duration_terms (String.length s) 0 s;
    if neg then Some (- d) else if maxDuration <? d then None else Some d.

Example parse_minutes : ParseDuration "2m" = Some (2 * Minute). Proof. vm_compute. done. Qed.
Example parse_mixed : ParseDuration "-1h30m.5s" = Some (- (90 * Minute + 500000000)).
Proof. vm_compute. done. Qed.
Example parse_third : ParseDuration "0.3333333333333333333h" = Some (20 * Minute).
Proof. vm_compute. done. Qed.
Example parse_rounded :
  ParseDuration "0.830103483285477580700h" = Some (49 * Minute + 48 * Second + 372539827).
Proof. vm_compute. done. Qed.
Example parse_limits :
  ParseDuration "9223372036854775.807us" = Some maxDuration ∧
  ParseDuration "-9223372036854775808ns" = Some minDuration ∧
  ParseDuration "9223372036854775808ns" = None ∧ ParseDuration "3" = None ∧
  ParseDuration "." = None ∧ ParseDuration "1x" = None.
Proof. vm_compute. done. Qed.

(** ** Lemmas *)

Lemma Sub_exact t u : minDuration ≤ t - u ≤ maxDuration → Sub t u = t - u.
Proof. unfold Sub. lia. Qed.
Lemma Sub_range t u : minDuration ≤ Sub t u ≤ maxDuration.
Proof. unfold Sub, minDuration, maxDuration. lia. Qed.
Lemma Sub_le t u : t - u ≤ maxDuration → minDuration ≤ t - u → u + Sub t u = t.
Proof. intros ??. rewrite Sub_exact; lia. Qed.
Lemma Second_pos : 0 < Second.
Proof. done. Qed.

(** A duration that parses fits its type. *)
Lemma duration_terms_range fuel d s r : 0 ≤ d ≤ 2 ^ 63 →
  duration_terms fuel d s = Some r → 0 ≤ r ≤ 2 ^ 63.
Proof.
  revert d s. induction fuel as [|fuel IH]; intros d s Hd; cbn [duration_terms].
  - by destruct s; [intros [= <-]|].
  - destruct s as [|c s]; [by intros [= <-]|]. destruct (duration_term _) as [[v rest]|]; [|done].
    pose proof (Z.mod_pos_bound (d + v) (2 ^ 64) ltac:(lia)).
    cbv zeta. destruct (_ <? _) eqn:Hs; [done|]. apply IH. lia.
Qed.
Lemma ParseDuration_range s d : ParseDuration s = Some d → minDuration ≤ d ≤ maxDuration.
Proof.
  unfold ParseDuration. set (p := match s with EmptyString => _ | String _ _ => _ end).
  destruct p as [neg rest]. case_decide; [by intros [= <-]|]. case_decide; [done|].
  intros (r & Hr & Hd)%bind_Some. apply duration_terms_range in Hr; [|lia].
  unfold minDuration, maxDuration in *. destruct neg; [injection Hd as <-; lia|].
  destruct (_ <? r) eqn:Hm; [done|]. injection Hd as <-. lia.
Qed.
