(* ===== verification/Errors.v ===== *)
(** * Go error values

    The errors the provider builds, wraps and inspects.  [EWrap] is
    [fmt.Errorf("<pre>%w<post>", e)]; the constructors below it are the
    sentinels and typed errors that [errors.Is]/[errors.As] look for, in the
    provider ([backend/retry.go], [backend/interface.go], [tenant/errors.go],
    [commitbundle/store.go]) and in the libraries it calls (Kubernetes status
    errors, [os] errors, go-github's rate-limit errors). *)

From S2P Require Import Prelude GoStrings GoTime.
From Stdlib Require Import Ascii Lia.

#[local] Open Scope string_scope.

(** Reason of a Kubernetes [StatusError]. *)
Inductive StatusReason :=
  | NotFound | AlreadyExists | Forbidden | Conflict | OtherReason.

Inductive error :=
  | ENew (msg : string)
  | EWrap (pre : string) (e : error) (post : string)
  | ERateLimit (retryAt : Time) (inner : option error)
  | EIdentityConflict
  | EBundleNotFound
  | ECredentialsMissing
  | EAPIBindingMissing
  | EStatus (r : StatusReason) (msg : string)
  | EOs (notExist : bool) (msg : string)
  | EGitHubRate (reset : Time) (msg : string)
  | EGitHubAbuse (retryAfter : option Duration) (msg : string).

(** [fmt.Errorf("<pre>%w", e)] *)
Definition Wrap (pre : string) (e : error) : error := EWrap pre e "".

(** [%q]: double quotes, with backslash escapes for quotes, backslashes and
    ASCII control characters; printable text is unchanged. *)
Definition dquote : string := String (ascii_of_N 34) "".
Definition backslash : string := String (ascii_of_N 92) "".
Definition quote_byte (c : ascii) : string :=
  if decide (N_of_ascii c = 34%N ∨ N_of_ascii c = 92%N) then backslash ++ String c ""
  else if decide (N_of_ascii c = 10%N) then backslash ++ "n"
  else if decide (N_of_ascii c = 9%N) then backslash ++ "t"
  else if decide (N_of_ascii c = 13%N) then backslash ++ "r"
  else if (N_of_ascii c <? 32)%N || (N_of_ascii c =? 127)%N
  then backslash ++ "x" ++ pad 2 (N_digits 16 (N_of_ascii c))
  else String c "".
Fixpoint quote_body (s : string) : string :=
  match s with
  | EmptyString => ""
  | String c r => quote_byte c ++ quote_body r
  end.
Definition Quote (s : string) : string := dquote ++ quote_body s ++ dquote.

(** ** Inspecting a chain *)

(** [errors.As(err, &limited)] for [*backend.RateLimitError]: its [RetryAt]. *)
Fixpoint AsRateLimit (e : error) : option Time :=
  match e with
  | ERateLimit t _ => Some t
  | EWrap _ e' _ => AsRateLimit e'
  | _ => None
  end.

(** [errors.As] for go-github's primary and secondary rate-limit errors; the
    chain goes through a [RateLimitError]'s [Unwrap]. *)
Fixpoint AsGitHubRate (e : error) : option Time :=
  match e with
  | EGitHubRate t _ => Some t
  | EWrap _ e' _ => AsGitHubRate e'
  | ERateLimit _ (Some e') => AsGitHubRate e'
  | _ => None
  end.
Fixpoint AsGitHubAbuse (e : error) : option (option Duration) :=
  match e with
  | EGitHubAbuse d _ => Some d
  | EWrap _ e' _ => AsGitHubAbuse e'
  | ERateLimit _ (Some e') => AsGitHubAbuse e'
  | _ => None
  end.

(** [errors.Is] for the sentinels. *)
Fixpoint IsIdentityConflict (e : error) : bool :=
  match e with
  | EIdentityConflict => true
  | EWrap _ e' _ => IsIdentityConflict e'
  | ERateLimit _ (Some e') => IsIdentityConflict e'
  | _ => false
  end.
Fixpoint IsBundleNotFound (e : error) : bool :=
  match e with
  | EBundleNotFound => true
  | EWrap _ e' _ => IsBundleNotFound e'
  | ERateLimit _ (Some e') => IsBundleNotFound e'
  | _ => false
  end.

(** [apierrors.ReasonForError], and the predicates on it. *)
Fixpoint ReasonForError (e : error) : option StatusReason :=
  match e with
  | EStatus r _ => Some r
  | EWrap _ e' _ => ReasonForError e'
  | ERateLimit _ (Some e') => ReasonForError e'
  | _ => None
  end.
#[export] Instance StatusReason_eq_dec : EqDecision StatusReason.
Proof. solve_decision. Defined.
Definition IsNotFound (e : error) : bool := bool_decide (ReasonForError e = Some NotFound).
Definition IsAlreadyExists (e : error) : bool :=
  bool_decide (ReasonForError e = Some AlreadyExists).
Definition IsForbidden (e : error) : bool := bool_decide (ReasonForError e = Some Forbidden).

(** [os.IsNotExist] looks at the error itself only. *)
Definition IsNotExist (e : error) : bool :=
  match e with EOs b _ => b | _ => false end.

(** ** Texts

    [err.Error()] at time [now]; [RateLimitError.Error] reads the clock. *)
Fixpoint ErrorText (now : Time) (e : error) : string :=
  match e with
  | ENew m => m
  | EWrap pre e' post => pre ++ ErrorText now e' ++ post
  | ERateLimit retryAt inner =>
      let wait := Round (Z.max (Sub retryAt now) 0) Second in
      let message :=
        "github: rate limited, resets in " ++ DurationString wait ++
        " (at " ++ RFC3339 retryAt ++ ")" in
      match inner with
      | Some e' => message ++ ": " ++ ErrorText now e'
      | None => message
      end
  | EIdentityConflict => "repository identity conflict"
  | EBundleNotFound => "bundle not found"
  | ECredentialsMissing => "connection credential secret not found in tenant workspace"
  | EAPIBindingMissing =>
      "tenant has no APIBinding (or secrets claim) to this provider's APIExport"
  | EStatus _ m | EOs _ m | EGitHubRate _ m | EGitHubAbuse _ m => m
  end.
