(* ===== verification/CommitBundle.v ===== *)
(** * commitbundle/store.go, the builder

    Generated source trees wait on disk, outside Kubernetes, until a controller
    commits them.  A bundle is content addressed: its name and digest are
    computed from its files.  This file has the file model, path cleaning, the
    canonicalising builder [buildBundle] and the digest framing; [BundleStore]
    has the directory operations. *)

From S2P Require Import Prelude GoStrings Encoding GoTime Errors.
From Stdlib Require Import Ascii Lia.

#[local] Open Scope string_scope.
#[local] Open Scope Z_scope.

(** ** Limits *)

Definition MaxFiles : Z := 500.
Definition MaxFileBytes : Z := 2 * 1024 * 1024.
Definition MaxBinaryFileBytes : Z := 25 * 1024 * 1024.
Definition MaxTotalBytes : Z := 48 * 1024 * 1024.
Definition MaxPathLength : Z := 1024.

Definition EncodingUTF8 : string := "utf-8".
Definition EncodingBase64 : string := "base64".

Definition DefaultSweepMaxAge : Duration := 24 * Hour.
Definition DefaultSweepInterval : Duration := Hour.

(** ** Data *)

Record File := { f_Path : string; f_Content : string; f_Encoding : string; f_Delete : bool }.

Record FileMeta := { fm_Path : string; fm_Size : Z; fm_Digest : string; fm_Delete : bool }.

Record BundleRef := {
  ref_Name : string; ref_Digest : string; ref_Scope : string; ref_Size : Z;
  ref_FileCount : Z; ref_Files : list FileMeta }.

Record BundleFile := {
  bf_Path : string; bf_Content : string; bf_Encoding : string; bf_Size : Z;
  bf_Digest : string; bf_Delete : bool }.

Record Bundle := {
  b_Name : string; b_Digest : string; b_Scope : string; b_Size : Z;
  b_Files : list BundleFile }.

(** ** Encodings *)

Definition NormalizeEncoding (encoding : string) : error + string :=
  if decide (encoding = "" ∨ encoding = EncodingUTF8) then inr ""
  else if decide (encoding = EncodingBase64) then inr EncodingBase64
  else inl (ENew ("unsupported encoding " +:+ Quote encoding +:+ ": use "
                  +:+ Quote EncodingUTF8 +:+ " or " +:+ Quote EncodingBase64)).

Definition CRLF : string := String (ascii_of_N 13) (String (ascii_of_N 10) "").

Definition DecodeBase64 (content : string) : error + string :=
  if ContainsAny content CRLF
  then inl (ENew "base64 content must not contain line breaks")
  else match base64_decode content with
       | Some data => inr data
       | None => inl (ENew "illegal base64 data")
       end.

(** ** Paths and names *)

Definition NUL : ascii := "000"%char.

Definition cleanPath (raw : string) : error + string :=
  let path := TrimSpace (ReplaceByte raw "\"%char slash) in
  if decide (path = "") then inl (ENew "file path is required")
  else if decide (slen path > MaxPathLength) then
    inl (ENew ("file path " +:+ Quote path +:+ " is too long"))
  else if ContainsByte path NUL then
    inl (ENew ("file path " +:+ Quote path +:+ " contains a null byte"))
  else if HasPrefix path "/" then
    inl (ENew ("file path " +:+ Quote path +:+ " must be relative"))
  else
    let cleaned := Clean path in
    if bool_decide (cleaned = ".") || bool_decide (cleaned = "..") || HasPrefix cleaned "../" then
      inl (ENew ("file path " +:+ Quote path +:+ " escapes the repository"))
    else inr cleaned.

Definition scopeKey (scope : string) : error + string :=
  let scope := TrimSpace scope in
  if decide (scope = "") then inl (ENew "bundle scope is required")
  else inr ("scope-" +:+ hex_encode (stake 16 (sha256 scope))).

Definition validateBundleName (name : string) : option error :=
  let name := TrimSpace name in
  if decide (name = "") then Some (ENew "bundle name is required")
  else if Contains name "/" || Contains name "\" || Contains name ".." then
    Some (ENew ("invalid bundle name " +:+ Quote name))
  else None.

(** ** Contents and digests *)

Definition decodedContent (f : BundleFile) : error + string :=
  if negb (bool_decide (bf_Encoding f = EncodingBase64)) then
    if decide (slen (bf_Content f) > MaxFileBytes) then
      inl (ENew ("file " +:+ Quote (bf_Path f) +:+ " is too large: "
                 +:+ FormatInt (slen (bf_Content f)) +:+ " > "
                 +:+ FormatInt MaxFileBytes +:+ " bytes"))
    else inr (bf_Content f)
  else if decide (slen (bf_Content f) > EncodedLen MaxBinaryFileBytes) then
    inl (ENew ("file " +:+ Quote (bf_Path f) +:+ " is too large: more than "
               +:+ FormatInt MaxBinaryFileBytes +:+ " bytes"))
  else match DecodeBase64 (bf_Content f) with
       | inl e => inl (Wrap ("file " +:+ Quote (bf_Path f)
                             +:+ " has invalid base64 content: ") e)
       | inr data =>
           if decide (slen data > MaxBinaryFileBytes) then
             inl (ENew ("file " +:+ Quote (bf_Path f) +:+ " is too large: "
                        +:+ FormatInt (slen data) +:+ " > "
                        +:+ FormatInt MaxBinaryFileBytes +:+ " bytes"))
           else inr data
       end.

(** The digester: the bytes written to the hash so far. *)
Record bundleDigester := { d_h : string; d_hasDelete : bool }.
Definition newBundleDigester (hasDelete : bool) : bundleDigester :=
  {| d_h := ""; d_hasDelete := hasDelete |}.

Definition byte (n : N) : string := String (ascii_of_N n) "".
Definition uint64_be (n : Z) : string := of_bytes (be_bytes 8 (Z.to_N n)).

(** What [add] writes for one file. *)
Definition frame (hasDelete : bool) (path : string) (deleted : bool) (data : string) : string :=
  path +:+ byte 0 +:+
  (if hasDelete then byte (if deleted then 0 else 1) +:+ uint64_be (slen data) else "") +:+
  data +:+ byte 0.

Definition digester_add (d : bundleDigester) (path : string) (deleted : bool) (data : string)
    : bundleDigester :=
  {| d_h := d_h d +:+ frame (d_hasDelete d) path deleted data; d_hasDelete := d_hasDelete d |}.

Definition digester_sum (d : bundleDigester) : string :=
  "sha256:" +:+ hex_encode (sha256 (d_h d)).

Definition digestBytes (data : string) : string := "sha256:" +:+ hex_encode (sha256 data).

(** ** Building a bundle *)

(** The first loop of [buildBundle]: clean and check each file in turn. *)
Fixpoint collectFiles (seen : gset string) (acc : list BundleFile) (hasDelete : bool)
    (files : list File) : error + (list BundleFile * bool) :=
  match files with
  | [] => inr (acc, hasDelete)
  | f :: fs =>
      match cleanPath (f_Path f) with
      | inl e => inl e
      | inr path =>
          if decide (path ∈ seen) then
            inl (ENew ("conflicting commit operation for path " +:+ Quote path))
          else match NormalizeEncoding (f_Encoding f) with
          | inl e => inl (Wrap ("file " +:+ Quote path +:+ ": ") e)
          | inr encoding =>
              let bf enc := {| bf_Path := path; bf_Content := f_Content f; bf_Encoding := enc;
                               bf_Size := 0; bf_Digest := ""; bf_Delete := f_Delete f |} in
              if f_Delete f then
                if decide (f_Content f ≠ "") then
                  inl (ENew ("deleted file " +:+ Quote path +:+ " cannot include content"))
                else collectFiles ({[path]} ∪ seen) (acc ++ [bf ""])%list true fs
              else collectFiles ({[path]} ∪ seen) (acc ++ [bf encoding])%list hasDelete fs
          end
      end
  end.

(** [sort.Slice] on the path; paths are distinct here, so the order is total. *)
Definition path_le (f g : BundleFile) : Prop := string_le (bf_Path f) (bf_Path g).
#[export] Instance path_le_dec : RelDecision path_le := λ f g, string_le_dec _ _.

(** The second loop: sizes, per-file digests, the running total. *)
Fixpoint sizeFiles (d : bundleDigester) (total : Z) (acc : list BundleFile)
    (files : list BundleFile) : error + (list BundleFile * Z * bundleDigester) :=
  match files with
  | [] => inr (acc, total, d)
  | f :: fs =>
      match decodedContent f with
      | inl e => inl e
      | inr data =>
          let total := total + slen data in
          if decide (total > MaxTotalBytes) then
            inl (ENew ("bundle is too large: " +:+ FormatInt total +:+ " > "
                       +:+ FormatInt MaxTotalBytes +:+ " bytes"))
          else
            let f' := {| bf_Path := bf_Path f; bf_Content := bf_Content f;
                         bf_Encoding := bf_Encoding f; bf_Size := slen data;
                         bf_Digest := if bf_Delete f then bf_Digest f else digestBytes data;
                         bf_Delete := bf_Delete f |} in
            sizeFiles (digester_add d (bf_Path f) (bf_Delete f) data) total (acc ++ [f'])%list fs
      end
  end.

Definition file_meta (f : BundleFile) : FileMeta :=
  {| fm_Path := bf_Path f; fm_Size := bf_Size f; fm_Digest := bf_Digest f;
     fm_Delete := bf_Delete f |}.

Definition bundle_name (digest : string) : string :=
  "bundle-" +:+ stake 24 (TrimPrefix digest "sha256:").

Definition buildBundle (files : list File) : error + (Bundle * BundleRef) :=
  let n := Z.of_nat (length files) in
  if decide (n = 0) then inl (ENew "at least one file is required")
  else if decide (n > MaxFiles) then
    inl (ENew ("too many files: " +:+ FormatInt n +:+ " > " +:+ FormatInt MaxFiles))
  else match collectFiles ∅ [] false files with
  | inl e => inl e
  | inr (bundleFiles, hasDelete) =>
      let bundleFiles := merge_sort path_le bundleFiles in
      match sizeFiles (newBundleDigester hasDelete) 0 [] bundleFiles with
      | inl e => inl e
      | inr (bundleFiles, total, digester) =>
          let digest := digester_sum digester in
          let name := bundle_name digest in
          inr ({| b_Name := name; b_Digest := digest; b_Scope := ""; b_Size := total;
                  b_Files := bundleFiles |},
               {| ref_Name := name; ref_Digest := digest; ref_Scope := ""; ref_Size := total;
                  ref_FileCount := Z.of_nat (length bundleFiles);
                  ref_Files := file_meta <$> bundleFiles |})
      end
  end.

(** ** The specification side

    What a bundle's files carry, read off the files alone: their decoded
    contents, the bytes the digest is taken over, the sized files. *)

Definition content (f : BundleFile) : string :=
  match decodedContent f with inr data => data | inl _ => "" end.
Definition decodable (f : BundleFile) : bool :=
  match decodedContent f with inr _ => true | inl _ => false end.
Definition total_size (files : list BundleFile) : Z :=
  foldr (λ f z, slen (content f) + z) 0 files.

Definition frames (hasDelete : bool) (files : list BundleFile) : string :=
  foldr (λ f acc, frame hasDelete (bf_Path f) (bf_Delete f) (content f) +:+ acc) "" files.
Definition has_delete (files : list BundleFile) : bool := existsb bf_Delete files.

Definition sizedFile (f : BundleFile) : BundleFile :=
  {| bf_Path := bf_Path f; bf_Content := bf_Content f; bf_Encoding := bf_Encoding f;
     bf_Size := slen (content f);
     bf_Digest := if bf_Delete f then bf_Digest f else digestBytes (content f);
     bf_Delete := bf_Delete f |}.

(** The order, size and digest facts [buildBundle] promises of a bundle. *)
Record bundle_wf (b : Bundle) : Prop := {
  wf_count : 1 ≤ Z.of_nat (length (b_Files b)) ≤ MaxFiles;
  wf_paths : Forall (λ f, safe_path (bf_Path f) ∧ ContainsByte (bf_Path f) NUL = false ∧
                          slen (bf_Path f) ≤ MaxPathLength) (b_Files b);
  wf_sorted : StronglySorted path_le (b_Files b);
  wf_nodup : NoDup (bf_Path <$> b_Files b);
  wf_size : b_Size b = foldr (λ f z, bf_Size f + z) 0 (b_Files b);
  wf_total : b_Size b ≤ MaxTotalBytes;
  wf_files : Forall (λ f, ∃ data, decodedContent f = inr data ∧ bf_Size f = slen data ∧
                bf_Digest f = (if bf_Delete f then "" else digestBytes data) ∧
                (bf_Delete f = true → data = "") ∧
                slen data ≤ (if decide (bf_Encoding f = EncodingBase64)
                             then MaxBinaryFileBytes else MaxFileBytes)) (b_Files b);
  wf_digest : b_Digest b =
    digester_sum {| d_h := frames (has_delete (b_Files b)) (b_Files b);
                    d_hasDelete := has_delete (b_Files b) |};
  wf_name : b_Name b = bundle_name (b_Digest b)
}.

(** What the first loop makes of one file. *)
Definition cleanFile (f : File) : error + BundleFile :=
  match cleanPath (f_Path f), NormalizeEncoding (f_Encoding f) with
  | inl e, _ | inr _, inl e => inl e
  | inr path, inr encoding =>
      if decide (f_Delete f = true ∧ f_Content f ≠ "") then inl (ENew "content")
      else inr {| bf_Path := path; bf_Content := f_Content f;
                  bf_Encoding := if f_Delete f then "" else encoding;
                  bf_Size := 0; bf_Digest := ""; bf_Delete := f_Delete f |}
  end.

(** The bundle and reference made of cleaned files, in any order. *)
Definition bundleOf (bfs : list BundleFile) : Bundle * BundleRef :=
  let files := sizedFile <$> merge_sort path_le bfs in
  let digest := digester_sum {| d_h := frames (has_delete bfs) (merge_sort path_le bfs);
                                d_hasDelete := has_delete bfs |} in
  ({| b_Name := bundle_name digest; b_Digest := digest; b_Scope := "";
      b_Size := total_size bfs; b_Files := files |},
   {| ref_Name := bundle_name digest; ref_Digest := digest; ref_Scope := "";
      ref_Size := total_size bfs; ref_FileCount := Z.of_nat (length bfs);
      ref_Files := file_meta <$> files |}).

(** When the builder accepts a list of files. *)
Definition acceptable (bfs : list BundleFile) : Prop :=
  1 ≤ Z.of_nat (length bfs) ≤ MaxFiles ∧ NoDup (bf_Path <$> bfs) ∧
  Forall (λ f, decodable f = true) bfs ∧ total_size bfs ≤ MaxTotalBytes.

(** ** Lemmas: paths *)

Lemma cleanPath_inv raw p :
  cleanPath raw = inr p →
  let path := TrimSpace (ReplaceByte raw "\"%char slash) in
  p = Clean path ∧ path ≠ "" ∧ slen path ≤ MaxPathLength ∧
  ContainsByte path NUL = false ∧ safe_path p.
Proof.
  unfold cleanPath. set (path := TrimSpace _). simpl.
  case_decide; [done|]. case_decide; [done|].
  destruct (ContainsByte path NUL) eqn:Hn; [done|].
  destruct (HasPrefix path "/") eqn:Hp; [done|].
  destruct (bool_decide (Clean path = ".")) eqn:H1; [done|].
  destruct (bool_decide (Clean path = "..")) eqn:H2; [done|].
  destruct (HasPrefix (Clean path) "../") eqn:H3; [done|]. simpl. intros [= <-].
  apply bool_decide_eq_false in H1, H2.
  split_and!; [done|done|lia|done|by apply Clean_relative_safe].
Qed.

Lemma cleanPath_no_byte raw p c :
  cleanPath raw = inr p → c ≠ slash → c ≠ "."%char →
  ContainsByte (TrimSpace (ReplaceByte raw "\"%char slash)) c = false → ContainsByte p c = false.
Proof. intros (-> & _)%cleanPath_inv Hs Hd H. by apply Clean_no_byte. Qed.

Lemma cleanPath_no_backslash raw p :
  cleanPath raw = inr p → ContainsByte p "\"%char = false.
Proof.
  intros H. apply (cleanPath_no_byte raw); [done..|].
  by apply TrimSpace_no_byte, ReplaceByte_gone.
Qed.

(** ** Lemmas: the first loop *)

Lemma collectFiles_cons seen acc hd f fs r :
  collectFiles seen acc hd (f :: fs) = inr r ↔
  ∃ bf, cleanFile f = inr bf ∧ bf_Path bf ∉ seen ∧
    collectFiles ({[bf_Path bf]} ∪ seen) (acc ++ [bf])%list (hd || bf_Delete bf) fs = inr r.
Proof.
  cbn [collectFiles]. unfold cleanFile.
  destruct (cleanPath (f_Path f)) as [e|path]; [naive_solver|].
  destruct (decide (path ∈ seen)) as [Hs|Hs].
  { split; [done|]. intros (bf & Hc & Hns & _). destruct (NormalizeEncoding _); [done|].
    case_decide; [done|]. by injection Hc as <-. }
  destruct (NormalizeEncoding (f_Encoding f)) as [e|enc]; [naive_solver|].
  destruct (f_Delete f) eqn:Hd.
  - destruct (decide (f_Content f ≠ "")) as [Hc|Hc].
    + rewrite decide_True by done. naive_solver.
    + rewrite decide_False by tauto. split.
      * intros H. eexists. split; [reflexivity|]. simpl. by rewrite orb_true_r.
      * intros (bf & [= <-] & _ & H). simpl in H. by rewrite orb_true_r in H.
  - rewrite decide_False by (by intros [? _]). split.
    + intros H. eexists. split; [reflexivity|]. simpl. by rewrite orb_false_r.
    + intros (bf & [= <-] & _ & H). simpl in H. by rewrite orb_false_r in H.
Qed.

(** The loop accepts exactly the lists whose files clean, each to a path of its own. *)
Lemma collectFiles_spec files seen acc hd l hd' :
  collectFiles seen acc hd files = inr (l, hd') ↔
  ∃ bfs, Forall2 (λ f b, cleanFile f = inr b) files bfs ∧ l = (acc ++ bfs)%list ∧
    NoDup (bf_Path <$> bfs) ∧ (∀ p, p ∈ bf_Path <$> bfs → p ∉ seen) ∧
    hd' = hd || has_delete bfs.
Proof.
  revert seen acc hd. induction files as [|f fs IH]; intros seen acc hd.
  { cbn [collectFiles]. split.
    - intros [= <- <-]. exists []. rewrite app_nil_r, orb_false_r.
      split_and!; [constructor|done|constructor| |done]. by intros p ?%elem_of_nil.
    - intros (bfs & Hall & -> & _ & _ & ->). inversion Hall; subst.
      by rewrite app_nil_r, orb_false_r. }
  rewrite collectFiles_cons. split.
  - intros (bf & Hc & Hs & (bfs & H1 & -> & Hnd & Hns & ->)%IH). exists (bf :: bfs).
    rewrite <- app_assoc, <- orb_assoc. split_and!; [by constructor|done| | |done].
    + simpl. constructor; [|done]. intros Hin%Hns. set_solver.
    + intros p [->|Hp%Hns]%elem_of_cons; [done|]. set_solver.
  - intros (bfs & H1 & -> & Hnd & Hns & ->).
    apply Forall2_cons_inv_l in H1 as (bf & bfs' & Hc & Hr & ->).
    apply NoDup_cons in Hnd as [Hn Hnd]. exists bf. split; [done|].
    split; [apply Hns; by left|]. apply IH. exists bfs'.
    rewrite <- app_assoc, <- orb_assoc. split_and!; [done..| |done].
    intros p Hp [->%elem_of_singleton|Hs]%elem_of_union; [done|]. by apply (Hns p); [right|].
Qed.

(** ** Lemmas: the second loop *)

Lemma total_size_nonneg l : 0 ≤ total_size l.
Proof. induction l as [|f l IH]; simpl; [lia|]. pose proof (slen_nonneg (content f)). lia. Qed.

Lemma sizeFiles_spec files d total acc r :
  total ≤ MaxTotalBytes →
  sizeFiles d total acc files = inr r ↔
  Forall (λ f, decodable f = true) files ∧ total + total_size files ≤ MaxTotalBytes ∧
  r = ((acc ++ (sizedFile <$> files))%list, total + total_size files,
       {| d_h := d_h d +:+ frames (d_hasDelete d) files; d_hasDelete := d_hasDelete d |}).
Proof.
  revert d total acc. induction files as [|f fs IH]; intros d total acc Ht; simpl.
  { rewrite app_nil_r, Z.add_0_r, string_app_nil_r. split.
    - intros [= <-]. split; [constructor|]. split; [done|]. by destruct d.
    - intros (_ & _ & ->). by destruct d. }
  destruct (decodedContent f) as [e|data] eqn:Hd.
  { split; [done|]. intros ([Hf _]%Forall_cons & _). unfold decodable in Hf. by rewrite Hd in Hf. }
  assert (data = content f) as -> by (unfold content; by rewrite Hd).
  assert (decodable f = true) as Hdec by (unfold decodable; by rewrite Hd). clear Hd.
  pose proof (total_size_nonneg fs). case_decide as Hbig.
  { split; [done|]. intros (_ & Hle & _). lia. }
  rewrite IH, Forall_cons by lia. simpl.
  rewrite <- app_assoc, <- Z.add_assoc, string_app_assoc. simpl.
  split; [intros (? & ? & ->)|intros ([_ ?] & ? & ->)]; done.
Qed.

Lemma existsb_perm {A} (p : A → bool) l l' : l ≡ₚ l' → existsb p l = existsb p l'.
Proof.
  induction 1; simpl; [done|congruence| |congruence].
  rewrite !orb_assoc. f_equal. apply orb_comm.
Qed.

Lemma total_size_perm l l' : l ≡ₚ l' → total_size l = total_size l'.
Proof. induction 1; simpl; lia. Qed.

#[export] Instance path_le_trans : Transitive path_le.
Proof. intros f g h. unfold path_le. apply string_le_po. Qed.
#[export] Instance path_le_total : Total path_le.
Proof. intros f g. unfold path_le. apply string_le_total. Qed.

(** ** Lemmas: the builder *)

Lemma path_le_antisym f g : path_le f g → path_le g f → bf_Path f = bf_Path g.
Proof. unfold path_le. intros. by apply (anti_symm string_le). Qed.

(** Distinct paths make the sorted order unique. *)
Lemma sorted_unique l l' :
  StronglySorted path_le l → StronglySorted path_le l' → l ≡ₚ l' → NoDup (bf_Path <$> l) → l = l'.
Proof.
  revert l'. induction l as [|f l IH]; intros l' Hs Hs' Hp Hnd.
  { by apply Permutation_nil_l in Hp. }
  destruct l' as [|g l']; [by apply Permutation_nil_r in Hp|].
  apply StronglySorted_inv in Hs as [Hs Hf]. apply StronglySorted_inv in Hs' as [Hs' Hg].
  simpl in Hnd. apply NoDup_cons in Hnd as [Hn Hnd].
  assert (f = g) as ->.
  { assert (g ∈ f :: l) as Hgin by (rewrite Hp; by left).
    assert (f ∈ g :: l') as Hfin by (rewrite <- Hp; by left).
    apply elem_of_cons in Hgin as [->|Hgin]; [done|].
    apply elem_of_cons in Hfin as [->|Hfin]; [done|]. exfalso.
    rewrite Forall_forall in Hf, Hg. specialize (Hf _ Hgin). specialize (Hg _ Hfin).
    apply Hn. rewrite (path_le_antisym f g) by done. by apply list_elem_of_fmap_2. }
  f_equal. apply IH; [done..| |done]. by apply Permutation_cons_inv in Hp.
Qed.

Lemma sort_perm_eq l l' :
  l ≡ₚ l' → NoDup (bf_Path <$> l) → merge_sort path_le l = merge_sort path_le l'.
Proof.
  intros Hp Hnd. apply sorted_unique; [apply StronglySorted_merge_sort; tc_solve..| |].
  - by rewrite !merge_sort_Permutation.
  - by rewrite merge_sort_Permutation.
Qed.

Lemma bundleOf_perm l l' :
  l ≡ₚ l' → NoDup (bf_Path <$> l) → bundleOf l = bundleOf l'.
Proof.
  intros Hp Hnd. unfold bundleOf, has_delete.
  by rewrite (sort_perm_eq l l'), (existsb_perm _ l l'), (total_size_perm l l'),
    (Permutation_length Hp).
Qed.

#[export] Instance acceptable_proper : Proper ((≡ₚ) ==> iff) acceptable.
Proof.
  intros l l' Hp. unfold acceptable.
  by rewrite (total_size_perm l l'), (Permutation_length Hp), Hp.
Qed.

Lemma sizeFiles_sorted bfs hd r :
  sizeFiles (newBundleDigester hd) 0 [] (merge_sort path_le bfs) = inr r ↔
  Forall (λ f, decodable f = true) bfs ∧ total_size bfs ≤ MaxTotalBytes ∧
  r = (sizedFile <$> merge_sort path_le bfs, total_size bfs,
       {| d_h := frames hd (merge_sort path_le bfs); d_hasDelete := hd |}).
Proof.
  assert (merge_sort path_le bfs ≡ₚ bfs) as Hp by apply merge_sort_Permutation.
  rewrite sizeFiles_spec by done. rewrite (total_size_perm _ _ Hp), Z.add_0_l.
  by setoid_rewrite Hp at 1.
Qed.

Lemma cleaned_unique files bfs bfs' :
  Forall2 (λ f b, cleanFile f = inr b) files bfs →
  Forall2 (λ f b, cleanFile f = inr b) files bfs' → bfs' = bfs.
Proof.
  intros H. revert bfs'. induction H; intros bfs' H'; inversion H'; subst; [done|].
  f_equal; [congruence|auto].
Qed.

(** The builder is its specification: clean each file, accept, assemble. *)
Lemma buildBundle_spec files r :
  buildBundle files = inr r ↔
  ∃ bfs, Forall2 (λ f b, cleanFile f = inr b) files bfs ∧ acceptable bfs ∧ r = bundleOf bfs.
Proof.
  unfold buildBundle.
  destruct (decide (Z.of_nat (length files) = 0)) as [Hz|Hz].
  { split; [done|]. intros (bfs & ?%Forall2_length & [? _] & _). lia. }
  destruct (decide (Z.of_nat (length files) > MaxFiles)) as [Hm|Hm].
  { split; [done|]. intros (bfs & ?%Forall2_length & [? _] & _). lia. }
  destruct (collectFiles ∅ [] false files) as [e|[l hd]] eqn:Hc.
  { split; [done|]. intros (bfs & Hall & (_ & Hnd & _) & _).
    assert (collectFiles ∅ [] false files = inr (bfs, has_delete bfs)) as Hc'; [|congruence].
    apply collectFiles_spec. exists bfs. split_and!; [done..| |done].
    intros p _. apply not_elem_of_empty. }
  apply collectFiles_spec in Hc as (bfs & Hall & -> & Hnd & _ & ->).
  rewrite orb_false_l, app_nil_l. pose proof (Forall2_length _ _ _ Hall) as Hlen.
  pose proof (sizeFiles_sorted bfs (has_delete bfs)) as Hspec.
  destruct (sizeFiles _ 0 [] _) as [e|r'].
  - split; [done|]. intros (bfs' & Hall' & (_ & _ & Hd & Ht) & _). exfalso.
    rewrite (cleaned_unique _ _ _ Hall Hall') in Hd, Ht.
    by specialize (proj2 (Hspec _) (conj Hd (conj Ht eq_refl))).
  - destruct (proj1 (Hspec r') eq_refl) as (Hd & Ht & ->).
    rewrite length_fmap, (Permutation_length (merge_sort_Permutation path_le bfs)). split.
    + intros [= <-]. exists bfs. split_and!; [done| |done]. split_and!; [lia..|done|done|done].
    + by intros (bfs' & ->%(cleaned_unique _ _ _ Hall) & _ & ->).
Qed.

(** ** Lemmas: what a built bundle is *)

Lemma decodedContent_sized f : decodedContent (sizedFile f) = decodedContent f.
Proof. done. Qed.

Lemma frames_sized hd l : frames hd (sizedFile <$> l) = frames hd l.
Proof. induction l as [|f l IH]; [done|]. exact (f_equal (String.append _) IH). Qed.

Lemma has_delete_sized l : has_delete (sizedFile <$> l) = has_delete l.
Proof. induction l as [|f l IH]; [done|]. exact (f_equal (orb _) IH). Qed.

Lemma sized_total l : foldr (λ f z, bf_Size f + z) 0 (sizedFile <$> l) = total_size l.
Proof. induction l as [|f l IH]; [done|]. exact (f_equal (Z.add _) IH). Qed.

Lemma sized_paths (l : list BundleFile) : bf_Path <$> (sizedFile <$> l) = bf_Path <$> l.
Proof. by rewrite <- list_fmap_compose. Qed.

Lemma decodedContent_bound f data :
  decodedContent f = inr data →
  slen data ≤ (if decide (bf_Encoding f = EncodingBase64) then MaxBinaryFileBytes else MaxFileBytes).
Proof.
  unfold decodedContent. destruct (decide (bf_Encoding f = EncodingBase64)) as [He|He].
  - rewrite bool_decide_eq_true_2 by done. simpl. case_decide; [done|].
    destruct (DecodeBase64 _); [done|]. case_decide; [done|]. intros [= <-]. lia.
  - rewrite bool_decide_eq_false_2 by done. simpl. case_decide; [done|]. intros [= <-]. lia.
Qed.

(** A cleaned file, with everything the later steps rely on. *)
Lemma cleanFile_inv f b :
  cleanFile f = inr b →
  cleanPath (f_Path f) = inr (bf_Path b) ∧ bf_Content b = f_Content f ∧ bf_Digest b = "" ∧
  bf_Delete b = f_Delete f ∧ (bf_Delete b = true → bf_Content b = "" ∧ bf_Encoding b = "").
Proof.
  unfold cleanFile. destruct (cleanPath _) as [|p]; [done|].
  destruct (NormalizeEncoding _) as [|enc]; [done|]. case_decide as Hd; [done|].
  intros [= <-]. simpl. split_and!; try done. intros H. rewrite H in *.
  split; [|done]. destruct (decide (f_Content f = "")); tauto.
Qed.

Lemma cleanPath_bounds raw p :
  cleanPath raw = inr p →
  safe_path p ∧ ContainsByte p NUL = false ∧ slen p ≤ MaxPathLength.
Proof.
  intros H. pose proof H as (-> & Hne & Hlen & Hn & Hs)%cleanPath_inv.
  split_and!; [done|by apply Clean_no_byte|].
  unfold slen in *. pose proof (Clean_length _ Hne). lia.
Qed.

Lemma cleaned_file_ok f b :
  cleanFile f = inr b → decodable b = true →
  ∃ data, decodedContent b = inr data ∧ bf_Size (sizedFile b) = slen data ∧
    bf_Digest (sizedFile b) = (if bf_Delete b then "" else digestBytes data) ∧
    (bf_Delete b = true → data = "") ∧
    slen data ≤ (if decide (bf_Encoding b = EncodingBase64)
                 then MaxBinaryFileBytes else MaxFileBytes).
Proof.
  intros (Hp & Hc & Hd & Hdel & Hempty)%cleanFile_inv Hdec.
  unfold decodable in Hdec. destruct (decodedContent b) as [|data] eqn:Hdata; [done|].
  exists data. assert (content b = data) as Hcont by (unfold content; by rewrite Hdata).
  split_and!; [done|simpl; congruence| | |by apply decodedContent_bound].
  - simpl. rewrite Hcont. by destruct (bf_Delete b).
  - intros H. destruct (Hempty H) as [H1 H2]. unfold decodedContent in Hdata.
    rewrite H1, H2 in Hdata. simpl in Hdata. congruence.
Qed.

Lemma bundleOf_wf files bfs :
  Forall2 (λ f b, cleanFile f = inr b) files bfs → acceptable bfs →
  bundle_wf (fst (bundleOf bfs)).
Proof.
  intros Hall (Hn & Hnd & Hdec & Ht).
  assert (Forall (λ b, ∃ f, cleanFile f = inr b) bfs) as Hcl by (clear -Hall; induction Hall; eauto).
  assert (Hp : merge_sort path_le bfs ≡ₚ bfs) by apply merge_sort_Permutation.
  rewrite <- Hp in Hcl, Hdec. unfold bundleOf. set (l := merge_sort path_le bfs) in *.
  split; cbn [fst b_Files b_Size b_Digest b_Name].
  - by rewrite length_fmap, Hp.
  - apply Forall_fmap. eapply Forall_impl; [exact Hcl|]. intros b [f Hb]. simpl.
    apply cleanFile_inv in Hb as [Hb _]. by eapply cleanPath_bounds.
  - apply (StronglySorted_fmap sizedFile path_le); [by intros|]. apply StronglySorted_merge_sort; tc_solve.
  - by rewrite sized_paths, Hp.
  - by rewrite sized_total, (total_size_perm _ _ Hp).
  - done.
  - apply Forall_fmap, Forall_forall. intros b Hb. rewrite Forall_forall in Hcl, Hdec.
    destruct (Hcl b Hb) as [f Hf]. destruct (cleaned_file_ok f b Hf (Hdec b Hb)) as (data & H).
    exists data. by rewrite decodedContent_sized.
  - by rewrite has_delete_sized, frames_sized, (existsb_perm _ _ _ Hp : has_delete l = _).
  - done.
Qed.

(** ** Lemmas: framing *)

Lemma land_255_lt n : (N.land n 255 < 256)%N.
Proof. change 255%N with (N.ones 8). rewrite N.land_ones. by apply N.mod_lt. Qed.

Lemma be_bytes_inj k v w :
  (v < 2 ^ (8 * N.of_nat k))%N → (w < 2 ^ (8 * N.of_nat k))%N →
  be_bytes k v = be_bytes k w → v = w.
Proof.
  intros Hv Hw H. apply N.bits_inj. intros i.
  destruct (decide (i < 8 * N.of_nat k)%N) as [Hi|Hi].
  - unfold be_bytes in H. rewrite !fmap_reverse in H. apply (inj reverse) in H.
    set (j := N.to_nat (i / 8)).
    assert (i / 8 < N.of_nat k)%N as Hj by (apply N.Div0.div_lt_upper_bound; lia).
    assert (seq 0 k !! j = Some j) as Hseq by (apply lookup_seq; lia).
    apply (f_equal (lookup j)) in H. rewrite !list_lookup_fmap, Hseq in H.
    injection H as H. apply (f_equal N_of_ascii) in H.
    rewrite !N_ascii_embedding in H by apply land_255_lt.
    apply (f_equal (λ n, N.testbit n (i mod 8))) in H.
    rewrite !N.land_spec, !N.shiftr_spec' in H. unfold j in H. rewrite !N2Nat.id in H.
    replace (N.testbit 255 (i mod 8)) with true in H.
    + rewrite !andb_true_r in H. rewrite (N.div_mod i 8), (N.add_comm (8 * _)) by done. exact H.
    + symmetry. apply (N.ones_spec_low 8). by apply N.mod_lt.
  - assert (∀ u, (u < 2 ^ (8 * N.of_nat k))%N → N.testbit u i = false) as Hz.
    { intros u Hu. destruct (decide (u = 0)%N) as [->|]; [apply N.bits_0|].
      apply N.bits_above_log2. apply N.log2_lt_pow2; [lia|].
      eapply N.lt_le_trans; [exact Hu|]. apply N.pow_le_mono_r; lia. }
    by rewrite !Hz.
Qed.

(** Two strings with the same first occurrence of a separator split alike. *)
Lemma split_at_byte c a b x y :
  ContainsByte a c = false → ContainsByte b c = false →
  a +:+ String c x = b +:+ String c y → a = b ∧ x = y.
Proof.
  revert b. induction a as [|p a IH]; intros [|q b]; simpl; intros Ha Hb H;
    injection H; intros; subst; try done.
  - by rewrite bool_decide_eq_true_2 in Hb.
  - by rewrite bool_decide_eq_true_2 in Ha.
  - apply orb_false_iff in Ha as [_ Ha]. apply orb_false_iff in Hb as [_ Hb].
    destruct (IH b Ha Hb) as [-> ->]; done.
Qed.

Lemma app_inj_length a b x y :
  slen a = slen b → a +:+ x = b +:+ y → a = b ∧ x = y.
Proof.
  unfold slen. revert b. induction a as [|p a IH]; intros [|q b]; simpl; intros Hl H; try lia; try done.
  injection H as -> H. destruct (IH b) as [-> ->]; [lia|done|done].
Qed.

Lemma slen_uint64 n : slen (uint64_be n) = 8.
Proof. unfold slen, uint64_be. by rewrite length_of_bytes, length_be_bytes. Qed.

Lemma uint64_be_inj m n :
  0 ≤ m < 2 ^ 64 → 0 ≤ n < 2 ^ 64 → uint64_be m = uint64_be n → m = n.
Proof.
  intros Hm Hn H. apply (f_equal bytes_of) in H. unfold uint64_be in H.
  rewrite !bytes_of_of_bytes in H. apply be_bytes_inj in H; simpl; lia.
Qed.

(** With deletions in the bundle, each frame can be read back off the stream. *)
Lemma frame_inj p p' del del' d d' r r' :
  ContainsByte p NUL = false → ContainsByte p' NUL = false →
  slen d < 2 ^ 64 → slen d' < 2 ^ 64 →
  frame true p del d +:+ r = frame true p' del' d' +:+ r' →
  p = p' ∧ del = del' ∧ d = d' ∧ r = r'.
Proof.
  intros Hp Hp' Hd Hd' H. unfold frame in H. rewrite !string_app_assoc in H.
  apply split_at_byte in H as [-> H]; [|done..].
  apply app_inj_length in H as [Hdel H]; [|done].
  apply app_inj_length in H as [Hlen H]; [|by rewrite !slen_uint64].
  apply uint64_be_inj in Hlen; [|pose proof (slen_nonneg d); lia|pose proof (slen_nonneg d'); lia].
  apply app_inj_length in H as [-> H]; [|done]. apply app_inj_length in H as [_ ->]; [|done].
  by destruct del, del'.
Qed.

(** What the digest of a bundle is meant to pin down: path, operation, content. *)
Definition file_key (f : BundleFile) : string * bool * string :=
  (bf_Path f, bf_Delete f, content f).

Lemma content_bound f : slen (content f) ≤ MaxBinaryFileBytes.
Proof.
  unfold content. destruct (decodedContent f) as [|data] eqn:H; [done|].
  apply decodedContent_bound in H. revert H. unfold MaxFileBytes, MaxBinaryFileBytes.
  case_decide; lia.
Qed.

Lemma frames_inj l l' :
  Forall (λ f, ContainsByte (bf_Path f) NUL = false) l →
  Forall (λ f, ContainsByte (bf_Path f) NUL = false) l' →
  frames true l = frames true l' → file_key <$> l = file_key <$> l'.
Proof.
  intros Hl. revert l'. induction Hl as [|f l Hf Hl IH]; intros l' Hl' H.
  - destruct l' as [|g l']; [done|]. exfalso. simpl in H. unfold frame in H.
    rewrite string_app_assoc in H. by destruct (bf_Path g).
  - destruct Hl' as [|g l' Hg Hl'].
    + exfalso. simpl in H. unfold frame in H. rewrite string_app_assoc in H. by destruct (bf_Path f).
    + cbn [frames foldr] in H.
      pose proof (content_bound f). pose proof (content_bound g).
      apply frame_inj in H as (Hp & Hd & Hc & H); [|done|done|unfold MaxBinaryFileBytes in *; lia..].
      rewrite !fmap_cons. f_equal; [unfold file_key; congruence|]. by apply IH.
Qed.

Lemma digestBytes_length data : slen (digestBytes data) = 71.
Proof.
  unfold digestBytes. rewrite slen_app. unfold slen at 2. by rewrite hex_encode_length, sha256_length.
Qed.
Lemma digester_sum_length d : slen (digester_sum d) = 71.
Proof. apply (digestBytes_length (d_h d)). Qed.
Lemma digester_sum_inj d d' :
  digester_sum d = digester_sum d' → sha256 (d_h d) = sha256 (d_h d').
Proof. unfold digester_sum. intros H%string_app_inj_l. by apply hex_encode_inj. Qed.

(** ** Properties *)

(** Every path the bundle accepts is repository-relative: its parts are
    non-empty and none is [.] or [..], it has no backslash and no NUL byte, and
    it is at most [MaxPathLength] bytes. *)
Theorem cleanPath_confined (raw p : string) (H : cleanPath raw = inr p) :
  safe_path p ∧ ContainsByte p "\"%char = false ∧ ContainsByte p NUL = false ∧
  slen p ≤ MaxPathLength.
Proof.
  destruct (cleanPath_bounds _ _ H) as (? & ? & ?). pose proof (cleanPath_no_backslash _ _ H).
  by split_and!.
Qed.

Lemma cleanPath_confined_witness :
  cleanPath "  src\./a/../main.go " = inr "src/main.go" ∧ safe_path "src/main.go".
Proof.
  split; [reflexivity|].
  exact (proj1 (cleanPath_confined "  src\./a/../main.go " "src/main.go" eq_refl)).
Defined.

(** C35: a bundle the builder returns is well formed (counts, path order and
    distinctness, sizes, per-file and total limits, digests, the
    content-addressed name), its reference repeats exactly its name, digest,
    size and file metadata, and its paths are exactly the cleaned paths of the
    files handed over. *)
Theorem buildBundle_wf files b r (H : buildBundle files = inr (b, r)) :
  bundle_wf b ∧
  r = {| ref_Name := b_Name b; ref_Digest := b_Digest b; ref_Scope := ""; ref_Size := b_Size b;
         ref_FileCount := Z.of_nat (length files); ref_Files := file_meta <$> b_Files b |} ∧
  bf_Path <$> b_Files b ≡ₚ omap (λ f, match cleanPath (f_Path f) with
                                      | inr p => Some p | inl _ => None end) files.
Proof.
  apply buildBundle_spec in H as (bfs & Hall & Hacc & Hb).
  pose proof (bundleOf_wf _ _ Hall Hacc) as Hwf. rewrite <- Hb in Hwf.
  injection Hb as -> ->. split; [done|]. split.
  - simpl. by rewrite (Forall2_length _ _ _ Hall).
  - simpl. rewrite sized_paths, merge_sort_Permutation. clear -Hall.
    induction Hall as [|f b fs bs (Hp & _)%cleanFile_inv _ IH]; [done|].
    simpl. rewrite Hp, IH. done.
Qed.

(** The order in which files are handed over does not matter: the same
    files in another order give the same bundle, hence the same name. *)
Theorem buildBundle_order files files' r
    (Hp : files ≡ₚ files') (H : buildBundle files = inr r) : buildBundle files' = inr r.
Proof.
  apply buildBundle_spec in H as (bfs & Hall & Hacc & ->).
  destruct (Forall2_perm_l _ _ _ _ Hall Hp) as (bfs' & Hall' & Hp').
  apply buildBundle_spec. exists bfs'. split_and!; [done|by rewrite <- Hp'|].
  apply bundleOf_perm; [done|]. apply Hacc.
Qed.

Definition two_files : list File :=
  [ {| f_Path := "b.txt"; f_Content := "2"; f_Encoding := ""; f_Delete := false |};
    {| f_Path := "./a.txt"; f_Content := "aGk="; f_Encoding := "base64"; f_Delete := false |} ].

Lemma buildBundle_wf_witness :
  ∃ b r, buildBundle two_files = inr (b, r) ∧ bundle_wf b ∧
    bf_Path <$> b_Files b = ["a.txt"; "b.txt"].
Proof.
  eexists _, _. split; [vm_compute; reflexivity|].
  split; [|vm_compute; reflexivity].
  eapply (proj1 (buildBundle_wf two_files _ _ ltac:(vm_compute; reflexivity))).
Defined.

Lemma buildBundle_order_witness :
  ∃ r, buildBundle two_files = inr r ∧ buildBundle (reverse two_files) = inr r.
Proof.
  eexists. split; [vm_compute; reflexivity|].
  apply (buildBundle_order two_files _ _ (symmetry (reverse_Permutation two_files))).
  vm_compute. reflexivity.
Defined.

(** In a bundle that deletes something, the digest pins down every file:
    two built bundles with equal digests have the same paths, operations and
    decoded contents, unless their digest inputs are a SHA-256 collision. *)
Theorem digest_with_deletions files files' b r b' r'
    (H : buildBundle files = inr (b, r)) (H' : buildBundle files' = inr (b', r'))
    (Hd : has_delete (b_Files b) = true) (Hd' : has_delete (b_Files b') = true)
    (Heq : b_Digest b = b_Digest b') :
  file_key <$> b_Files b = file_key <$> b_Files b' ∨
  (frames true (b_Files b) ≠ frames true (b_Files b') ∧
   sha256 (frames true (b_Files b)) = sha256 (frames true (b_Files b'))).
Proof.
  apply buildBundle_spec in H as (bfs & Hall & Hacc & Hb).
  apply buildBundle_spec in H' as (bfs' & Hall' & Hacc' & Hb').
  pose proof (bundleOf_wf _ _ Hall Hacc) as Hwf. rewrite <- Hb in Hwf. cbn [fst] in Hwf.
  pose proof (bundleOf_wf _ _ Hall' Hacc') as Hwf'. rewrite <- Hb' in Hwf'. cbn [fst] in Hwf'.
  rewrite (wf_digest _ Hwf), (wf_digest _ Hwf'), Hd, Hd' in Heq. apply digester_sum_inj in Heq.
  destruct (decide (frames true (b_Files b) = frames true (b_Files b'))) as [Hf|Hf]; [left|by right].
  apply frames_inj; [| |done].
  - eapply Forall_impl; [apply (wf_paths _ Hwf)|]. by intros f (_ & ? & _).
  - eapply Forall_impl; [apply (wf_paths _ Hwf')|]. by intros f (_ & ? & _).
Qed.

Definition one_deletion (body : string) : list File :=
  [ {| f_Path := "old"; f_Content := ""; f_Encoding := ""; f_Delete := true |};
    {| f_Path := "new"; f_Content := body; f_Encoding := ""; f_Delete := false |} ].

Lemma digest_with_deletions_witness :
  ∃ b r, buildBundle (one_deletion "x") = inr (b, r) ∧ has_delete (b_Files b) = true ∧
    (file_key <$> b_Files b = file_key <$> b_Files b ∨
     (frames true (b_Files b) ≠ frames true (b_Files b) ∧
      sha256 (frames true (b_Files b)) = sha256 (frames true (b_Files b)))).
Proof.
  eexists _, _. split; [vm_compute; reflexivity|]. split; [vm_compute; reflexivity|].
  eapply (digest_with_deletions (one_deletion "x") (one_deletion "x")); vm_compute; reflexivity.
Defined.

(** Without a deletion the framing is ambiguous: a one-file bundle whose
    content continues with a NUL, a path and another NUL has the digest, and so
    the name, of a two-file bundle.  Two different change sets then share one
    store entry. *)
Theorem digest_without_deletions_ambiguous :
  ∃ b r b' r',
    buildBundle [ {| f_Path := "a"; f_Content := "x" +:+ byte 0 +:+ "b" +:+ byte 0 +:+ "y";
                     f_Encoding := ""; f_Delete := false |} ] = inr (b, r) ∧
    buildBundle [ {| f_Path := "a"; f_Content := "x"; f_Encoding := ""; f_Delete := false |};
                  {| f_Path := "b"; f_Content := "y"; f_Encoding := ""; f_Delete := false |} ]
      = inr (b', r') ∧
    bf_Path <$> b_Files b = ["a"] ∧ bf_Path <$> b_Files b' = ["a"; "b"] ∧
    b_Name b = b_Name b' ∧ b_Digest b = b_Digest b'.
Proof. by do 4 eexists; repeat split; vm_compute. Qed.
