(* ===== verification/BundleStore.v ===== *)
(** * commitbundle/store.go, the directory

    [Put], [Get], [Delete] and [Sweep] of [FileStore] over a two-level directory
    ([scope-*]/[*.json]) whose system calls may fail. *)

From S2P Require Import Prelude GoStrings Encoding GoTime Errors CommitBundle.
From Stdlib Require Import Ascii Lia.

#[local] Open Scope string_scope.
#[local] Open Scope Z_scope.

(** ** The directory

    [<dir>/<scope key>/<name>.json]; names starting with a dot are temp files.
    A file holds either a marshalled bundle or other bytes. *)
Inductive FileData := Stored (b : Bundle) | RawData (bytes : string).
Inductive Entry := SubDir | RegFile (data : FileData) (mtime : Time).
Inductive TopEntry := TopFile | TopDir (entries : gmap string Entry).
Record FileStore := { st_root : gmap string TopEntry }.

(** The system calls that can fail; [io op = Some e] makes [op] fail with [e]. *)
Inductive FsOp :=
  | OpMkdir | OpStat | OpCreateTemp | OpWrite | OpClose | OpRename | OpRemoveTemp
  | OpRead | OpRemove | OpReadRoot | OpReadScope (scope : string)
  | OpInfo (scope name : string) | OpSweepRemove (scope name : string).

Definition dir_of (s : FileStore) (key : string) : option (gmap string Entry) :=
  match st_root s !! key with Some (TopDir d) => Some d | _ => None end.
Definition set_dir (s : FileStore) (key : string) (d : gmap string Entry) : FileStore :=
  {| st_root := <[key := TopDir d]> (st_root s) |}.
Definition entry_of (s : FileStore) (key file : string) : option Entry :=
  d ← dir_of s key; d !! file.

Definition file_name (name : string) : string := name +:+ ".json".

(** [json.MarshalIndent] then [json.Unmarshal]: strings lose ill-formed UTF-8. *)
Definition json_file (f : BundleFile) : BundleFile :=
  {| bf_Path := json_string (bf_Path f); bf_Content := json_string (bf_Content f);
     bf_Encoding := json_string (bf_Encoding f); bf_Size := bf_Size f;
     bf_Digest := json_string (bf_Digest f); bf_Delete := bf_Delete f |}.
Definition json_bundle (b : Bundle) : Bundle :=
  {| b_Name := json_string (b_Name b); b_Digest := json_string (b_Digest b);
     b_Scope := json_string (b_Scope b); b_Size := b_Size b;
     b_Files := json_file <$> b_Files b |}.

Section Store.
Context (io : FsOp → option error).

Definition mkdir (s : FileStore) (key : string) : error + FileStore :=
  match io OpMkdir, st_root s !! key with
  | Some e, _ => inl e
  | None, Some TopFile => inl (EOs false "not a directory")
  | None, Some (TopDir _) => inr s
  | None, None => inr (set_dir s key ∅)
  end.

(** [NewFileStore]: an existing directory is kept. *)
Definition NewFileStore (dir : string) (existing : option FileStore) : error + FileStore :=
  if decide (TrimSpace dir = "") then inl (ENew "bundle directory is required")
  else match io OpMkdir with
       | Some e => inl (Wrap "create bundle directory: " e)
       | None => inr (default {| st_root := ∅ |} existing)
       end.

(** The configured directory, else one under [TempDir]: its name and what it
    holds.  [on_disk] is the tree below a path, if it exists. *)
Definition EnvDir : string := "CODE_COMMIT_BUNDLE_DIR".
Definition NewFileStoreFromEnv (getenv : string → string) (TempDir : string)
    (on_disk : string → option FileStore) : error + string * FileStore :=
  let dir := TrimSpace (getenv EnvDir) in
  let dir := if decide (dir = "") then Clean (TempDir +:+ "/railgrid-code-commit-bundles") else dir in
  match NewFileStore dir (on_disk dir) with
  | inl err => inl err
  | inr store => inr (dir, store)
  end.

(** The deferred [os.Remove(tmpName)]. *)
Definition removeTemp (key tmp : string) (s : FileStore) : FileStore :=
  match io OpRemoveTemp, dir_of s key with
  | None, Some d => set_dir s key (delete tmp d)
  | _, _ => s
  end.

(** The write path of [Put]: temp file, then rename over the bundle path; [rand]
    is what [os.CreateTemp] puts for the [*] of its pattern. *)
Definition publish (now : Time) (rand key : string) (bundle : Bundle) (s : FileStore)
    : option error * FileStore :=
  let d := default ∅ (dir_of s key) in
  let tmp := "." +:+ b_Name bundle +:+ "-" +:+ rand +:+ ".tmp" in
  match io OpCreateTemp with
  | Some e => (Some (Wrap "create temp bundle: " e), s)
  | None =>
      let created := set_dir s key (<[tmp := RegFile (RawData "") now]> d) in
      match io OpWrite with
      | Some e => (Some (Wrap "write bundle: " e), removeTemp key tmp created)
      | None =>
          let written :=
            set_dir s key (<[tmp := RegFile (Stored (json_bundle bundle)) now]> d) in
          match io OpClose with
          | Some e => (Some (Wrap "close bundle: " e), removeTemp key tmp written)
          | None =>
              match io OpRename with
              | Some e => (Some (Wrap "publish bundle: " e), removeTemp key tmp written)
              | None =>
                  (None, removeTemp key tmp
                     (set_dir s key (<[file_name (b_Name bundle) :=
                                         RegFile (Stored (json_bundle bundle)) now]>
                                       (delete tmp d))))
              end
          end
      end
  end.

(** [os.Chtimes(path, now, now)], errors ignored. *)
Definition touch (now : Time) (key file : string) (s : FileStore) : FileStore :=
  match dir_of s key with
  | Some d =>
      match d !! file with
      | Some (RegFile data _) => set_dir s key (<[file := RegFile data now]> d)
      | _ => s
      end
  | None => s
  end.

Definition Put (now : Time) (rand : string) (ctxErr : option error)
    (store : option FileStore) (scope : string) (files : list File)
    : (error + BundleRef) * option FileStore :=
  match store with
  | None => (inl (ENew "bundle store is nil"), store)
  | Some s =>
    let scope := TrimSpace scope in
    match scopeKey scope with
    | inl e => (inl e, store)
    | inr key =>
      match buildBundle files with
      | inl e => (inl e, store)
      | inr (bundle, ref) =>
        let bundle := {| b_Name := b_Name bundle; b_Digest := b_Digest bundle;
                         b_Scope := scope; b_Size := b_Size bundle;
                         b_Files := b_Files bundle |} in
        let ref := {| ref_Name := ref_Name ref; ref_Digest := ref_Digest ref;
                      ref_Scope := scope; ref_Size := ref_Size ref;
                      ref_FileCount := ref_FileCount ref; ref_Files := ref_Files ref |} in
        match ctxErr with
        | Some e => (inl e, store)
        | None =>
          match mkdir s key with
          | inl e => (inl (Wrap "create scoped bundle directory: " e), store)
          | inr s =>
            let write :=
              match publish now rand key bundle s with
              | (Some e, s) => (inl e, Some s)
              | (None, s) => (inr ref, Some s)
              end in
            match io OpStat, entry_of s key (file_name (b_Name bundle)) with
            | Some e, _ => if IsNotExist e then write
                           else (inl (Wrap "stat bundle: " e), Some s)
            | None, Some _ => (inr ref, Some (touch now key (file_name (b_Name bundle)) s))
            | None, None => write
            end
          end
        end
      end
    end
  end.

Definition Get (ctxErr : option error) (store : option FileStore)
    (scope name digest : string) : error + Bundle :=
  match store with
  | None => inl (ENew "bundle store is nil")
  | Some s =>
    match ctxErr with
    | Some e => inl e
    | None =>
      match scopeKey scope with
      | inl e => inl e
      | inr key =>
        match validateBundleName name with
        | Some e => inl e
        | None =>
          match io OpRead, entry_of s key (file_name name) with
          | Some e, _ =>
              if IsNotExist e then inl (EWrap "" EBundleNotFound (": " +:+ name))
              else inl (Wrap ("read bundle " +:+ Quote name +:+ ": ") e)
          | None, None => inl (EWrap "" EBundleNotFound (": " +:+ name))
          | None, Some SubDir =>
              inl (Wrap ("read bundle " +:+ Quote name +:+ ": ") (EOs false "is a directory"))
          | None, Some (RegFile (RawData _) _) =>
              inl (Wrap ("decode bundle " +:+ Quote name +:+ ": ") (ENew "invalid JSON"))
          | None, Some (RegFile (Stored bundle) _) =>
              if decide (b_Name bundle ≠ name) then
                inl (ENew ("bundle " +:+ Quote name +:+ " has stored name "
                           +:+ Quote (b_Name bundle)))
              else if decide (b_Scope bundle ≠ TrimSpace scope) then
                inl (ENew ("bundle " +:+ Quote name +:+ " scope mismatch"))
              else if decide (TrimSpace digest ≠ "" ∧ b_Digest bundle ≠ digest) then
                inl (ENew ("bundle " +:+ Quote name +:+ " digest mismatch: got "
                           +:+ b_Digest bundle +:+ " want " +:+ digest))
              else inr bundle
          end
        end
      end
    end
  end.

Definition Delete (ctxErr : option error) (store : option FileStore)
    (scope name digest : string) : option error * option FileStore :=
  match store with
  | None => (Some (ENew "bundle store is nil"), store)
  | Some s =>
    match ctxErr with
    | Some e => (Some e, store)
    | None =>
      match scopeKey scope with
      | inl e => (Some e, store)
      | inr key =>
        match validateBundleName name with
        | Some e => (Some e, store)
        | None =>
          let remove :=
            match io OpRemove, entry_of s key (file_name name) with
            | Some e, _ =>
                if IsNotExist e then (None, store)
                else (Some (Wrap ("delete bundle " +:+ Quote name +:+ ": ") e), store)
            | None, None => (None, store)
            | None, Some _ =>
                (None, Some (set_dir s key (delete (file_name name) (default ∅ (dir_of s key)))))
            end in
          if decide (TrimSpace digest ≠ "") then
            match Get ctxErr store scope name digest with
            | inl e => if IsBundleNotFound e then (None, store) else (Some e, store)
            | inr bundle =>
                if decide (b_Digest bundle ≠ digest) then
                  (Some (ENew ("bundle " +:+ Quote name +:+ " digest mismatch: got "
                               +:+ b_Digest bundle +:+ " want " +:+ digest)), store)
                else remove
            end
          else remove
        end
      end
    end
  end.

(** One directory entry of [Sweep]'s inner loop. *)
Definition sweepFile (cutoff : Time) (scope : string)
    (st : gmap string Entry * Z * list error) (file : string * Entry)
    : gmap string Entry * Z * list error :=
  let '(dir, removed, errs) := st in
  let '(name, entry) := file in
  match entry with
  | SubDir => st
  | RegFile _ mtime =>
      if negb (HasSuffix name ".json") && negb (HasSuffix name ".tmp") then st
      else if bool_decide (is_Some (io (OpInfo scope name))) || negb (Before mtime cutoff)
      then st
      else match io (OpSweepRemove scope name) with
           | None => (delete name dir, removed + 1, errs)
           | Some e =>
               if IsNotExist e then (dir, removed + 1, errs)
               else (dir, removed,
                     (errs ++ [Wrap ("remove " +:+ scope +:+ "/" +:+ name +:+ ": ") e])%list)
           end
  end.

(** One scope directory of [Sweep]'s outer loop. *)
Definition sweepScope (cutoff : Time)
    (st : FileStore * Z * list error) (top : string * TopEntry)
    : FileStore * Z * list error :=
  let '(s, removed, errs) := st in
  let '(scope, entry) := top in
  match entry with
  | TopFile => st
  | TopDir entries =>
      if negb (HasPrefix scope "scope-") then st
      else match io (OpReadScope scope) with
           | Some e =>
               (s, removed, (errs ++ [Wrap ("list " +:+ scope +:+ ": ") e])%list)
           | None =>
               let '(d, removed, errs) :=
                 fold_left (sweepFile cutoff scope) (map_to_list entries)
                   (entries, removed, errs) in
               (set_dir s scope d, removed, errs)
           end
  end.

(** [Sweep]; the joined error is nil when the list is empty.  Directories are
    visited in the map's order: each entry is handled on its own. *)
Definition Sweep (now : Time) (maxAge : Duration) (store : option FileStore)
    : Z * list error * option FileStore :=
  match store with
  | None => (0, [ENew "bundle store is nil"], store)
  | Some s =>
      match io OpReadRoot with
      | Some e => (0, [Wrap "list bundle directory: " e], store)
      | None =>
          let cutoff := Add now (- maxAge) in
          let '(s', removed, errs) :=
            fold_left (sweepScope cutoff) (map_to_list (st_root s)) (s, 0, []) in
          (removed, errs, Some s')
      end
  end.
End Store.

(** Every system call succeeds. *)
Definition no_faults : FsOp → option error := λ _, None.

(** A temp file's name. *)
Definition temp_name (file : string) : bool := HasPrefix file "." && HasSuffix file ".tmp".

(** Whether a sweep with this cutoff reclaims an entry of a directory. *)
Definition reclaims (io : FsOp → option error) (cutoff : Time) (scope name : string)
    (e : Entry) : bool :=
  match e with
  | SubDir => false
  | RegFile _ mtime =>
      HasPrefix scope "scope-" && bool_decide (io (OpReadScope scope) = None)
      && (HasSuffix name ".json" || HasSuffix name ".tmp")
      && bool_decide (io (OpInfo scope name) = None) && Before mtime cutoff
      && bool_decide (io (OpSweepRemove scope name) = None)
  end.

(** ** Lemmas: the directory as a partial map *)

Lemma dir_of_set s key d key' :
  dir_of (set_dir s key d) key' = if decide (key = key') then Some d else dir_of s key'.
Proof.
  unfold dir_of, set_dir. simpl. case_decide as H; [subst; by rewrite lookup_insert_eq|].
  by rewrite lookup_insert_ne.
Qed.

Lemma entry_of_set s key d key' file :
  entry_of (set_dir s key d) key' file
  = if decide (key = key') then d !! file else entry_of s key' file.
Proof. unfold entry_of. rewrite dir_of_set. by case_decide. Qed.

Lemma entry_of_dir s key d file : dir_of s key = Some d → entry_of s key file = d !! file.
Proof. unfold entry_of. by intros ->. Qed.

Lemma entry_of_default s key file : entry_of s key file = default ∅ (dir_of s key) !! file.
Proof. unfold entry_of. destruct (dir_of s key); simpl; [done|]. by rewrite lookup_empty. Qed.

Lemma temp_name_tmp name rand : temp_name ("." +:+ name +:+ "-" +:+ rand +:+ ".tmp") = true.
Proof.
  unfold temp_name. apply andb_true_iff. split; [by apply HasPrefix_spec; eexists|].
  apply HasSuffix_spec. exists ("." +:+ name +:+ "-" +:+ rand).
  by rewrite !string_app_assoc.
Qed.

Lemma mkdir_entries io s key s' key' file :
  mkdir io s key = inr s' → entry_of s' key' file = entry_of s key' file.
Proof.
  unfold mkdir. destruct (io OpMkdir); [done|].
  destruct (st_root s !! key) as [[|d]|] eqn:Hd; [done|by intros [= <-]|]. intros [= <-].
  rewrite entry_of_set. case_decide as H; [subst|done].
  unfold entry_of, dir_of. by rewrite Hd, lookup_empty.
Qed.

Lemma mkdir_dir io s key s' : mkdir io s key = inr s' → is_Some (dir_of s' key).
Proof.
  unfold mkdir. destruct (io OpMkdir); [done|].
  destruct (st_root s !! key) as [[|d]|] eqn:Hd; [done|intros [= <-]|intros [= <-]].
  - unfold dir_of. rewrite Hd. by eexists.
  - rewrite dir_of_set, decide_True by done. by eexists.
Qed.

Lemma removeTemp_entry io key tmp s key' file :
  key' ≠ key ∨ file ≠ tmp →
  entry_of (removeTemp io key tmp s) key' file = entry_of s key' file.
Proof.
  intros H. unfold removeTemp. destruct (io OpRemoveTemp); [done|].
  destruct (dir_of s key) as [d|] eqn:Hd; [|done].
  rewrite entry_of_set. case_decide as Hk; [subst key'|done]. destruct H as [|H]; [done|].
  by rewrite (entry_of_dir _ _ d), lookup_delete_ne.
Qed.

Lemma file_name_not_temp name : temp_name (file_name name) = false.
Proof.
  unfold temp_name, file_name. apply andb_false_iff. right.
  destruct (HasSuffix (name +:+ ".json") ".tmp") eqn:H; [|done]. exfalso.
  apply HasSuffix_spec in H as [t H]. apply (f_equal srev) in H.
  rewrite !srev_app in H. discriminate H.
Qed.

Lemma tmp_not_file_name (name rand name' : string) :
  "." +:+ name +:+ "-" +:+ rand +:+ ".tmp" ≠ file_name name'.
Proof.
  intros Heq. pose proof (temp_name_tmp name rand) as Ht. rewrite Heq in Ht.
  by rewrite file_name_not_temp in Ht.
Qed.

(** Removing the temp file leaves it only when the removal fails. *)
Lemma removeTemp_gone io key tmp s :
  io OpRemoveTemp = None → entry_of (removeTemp io key tmp s) key tmp = None.
Proof.
  intros Hio. unfold removeTemp. rewrite Hio. destruct (dir_of s key) as [d|] eqn:Hd.
  - by rewrite entry_of_set, decide_True, lookup_delete_eq by done.
  - unfold entry_of. by rewrite Hd.
Qed.

(** Publishing writes the target whole, or leaves at most its temp file. *)
Lemma publish_frame io now rand key b s r s' :
  publish io now rand key b s = (r, s') →
  let tmp := "." +:+ b_Name b +:+ "-" +:+ rand +:+ ".tmp" in
  (∀ key' file, key' ≠ key ∨ (file ≠ tmp ∧ file ≠ file_name (b_Name b)) →
     entry_of s' key' file = entry_of s key' file) ∧
  entry_of s' key (file_name (b_Name b)) =
    match r with
    | Some _ => entry_of s key (file_name (b_Name b))
    | None => Some (RegFile (Stored (json_bundle b)) now)
    end ∧
  (entry_of s' key tmp = entry_of s key tmp ∨
   (io OpRemoveTemp = None → entry_of s' key tmp = None)).
Proof.
  pose proof (tmp_not_file_name (b_Name b) rand (b_Name b)) as Hf.
  unfold publish. set (tmp := "." +:+ b_Name b +:+ "-" +:+ rand +:+ ".tmp") in *.
  set (d := default ∅ (dir_of s key)). cbv zeta.
  assert (Hkeep : ∀ data key' file, key' ≠ key ∨ file ≠ tmp →
    entry_of (removeTemp io key tmp (set_dir s key (<[tmp := data]> d))) key' file
    = entry_of s key' file).
  { intros data key' file H. rewrite removeTemp_entry by done.
    rewrite entry_of_set. case_decide as Hk; [subst key'|done].
    destruct H as [|H]; [done|]. rewrite lookup_insert_ne by congruence.
    by rewrite entry_of_default. }
  destruct (io OpCreateTemp); [intros [= <- <-]; split_and!; [done..|by left]|].
  assert (Hfail : ∀ data (e : error) r' s2, (Some e, removeTemp io key tmp
      (set_dir s key (<[tmp := data]> d))) = (r', s2) →
    (∀ key' file, key' ≠ key ∨ (file ≠ tmp ∧ file ≠ file_name (b_Name b)) →
       entry_of s2 key' file = entry_of s key' file) ∧
    entry_of s2 key (file_name (b_Name b)) =
      match r' with
      | Some _ => entry_of s key (file_name (b_Name b))
      | None => Some (RegFile (Stored (json_bundle b)) now)
      end ∧
    (entry_of s2 key tmp = entry_of s key tmp ∨
     (io OpRemoveTemp = None → entry_of s2 key tmp = None))).
  { intros data e r' s2 [= <- <-]. split_and!.
    - intros. apply Hkeep. tauto.
    - apply Hkeep. right. congruence.
    - right. apply removeTemp_gone. }
  destruct (io OpWrite); [apply Hfail|]. destruct (io OpClose); [apply Hfail|].
  destruct (io OpRename); [apply Hfail|]. intros [= <- <-]. split_and!.
  - intros key' file H. rewrite removeTemp_entry by tauto.
    rewrite entry_of_set. case_decide as Hk; [subst key'|done].
    destruct H as [|[H1 H2]]; [done|].
    rewrite lookup_insert_ne by done. rewrite lookup_delete_ne by congruence.
    by rewrite entry_of_default.
  - rewrite removeTemp_entry by (right; congruence).
    by rewrite entry_of_set, decide_True, lookup_insert_eq by done.
  - right. apply removeTemp_gone.
Qed.

(** The bundle [Put] writes: the built one under its trimmed scope. *)
Definition scoped (scope : string) (b : Bundle) : Bundle :=
  {| b_Name := b_Name b; b_Digest := b_Digest b; b_Scope := TrimSpace scope;
     b_Size := b_Size b; b_Files := b_Files b |}.

(** The one entry a [Put] of these files is about. *)
Definition target (scope : string) (files : list File) : option (string * string) :=
  match scopeKey (TrimSpace scope), buildBundle files with
  | inr key, inr (b, _) => Some (key, file_name (b_Name b))
  | _, _ => None
  end.

Lemma touch_entry now key file s key' file' :
  entry_of (touch now key file s) key' file' =
  if decide (key' = key ∧ file' = file) then
    match entry_of s key file with
    | Some (RegFile data _) => Some (RegFile data now)
    | o => o
    end
  else entry_of s key' file'.
Proof.
  unfold touch. unfold entry_of at 2. destruct (dir_of s key) as [d|] eqn:Hd; simpl.
  - destruct (d !! file) as [[|data t]|] eqn:Hf.
    + case_decide as H; [destruct H as [-> ->]|done]. by rewrite (entry_of_dir _ _ d).
    + rewrite entry_of_set. destruct (decide (key = key')) as [<-|Hk].
      * destruct (decide (file = file')) as [<-|Hne].
        -- by rewrite decide_True, lookup_insert_eq by done.
        -- rewrite decide_False by naive_solver. rewrite lookup_insert_ne by done.
           by rewrite (entry_of_dir _ _ d).
      * by rewrite decide_False by naive_solver.
    + case_decide as H; [destruct H as [-> ->]|done]. by rewrite (entry_of_dir _ _ d).
  - case_decide as H; [destruct H as [-> ->]|done]. unfold entry_of. by rewrite Hd.
Qed.

Lemma scopeKey_trim scope : scopeKey (TrimSpace scope) = scopeKey scope.
Proof. unfold scopeKey. by rewrite TrimSpace_idemp. Qed.

(** The two ways [Put] may leave its target entry. *)
Definition written (now : Time) (scope : string) (files : list File)
    (before after : option Entry) : Prop :=
  (∃ b ref, buildBundle files = inr (b, ref) ∧
     after = Some (RegFile (Stored (json_bundle (scoped scope b))) now)) ∨
  (∃ data t, before = Some (RegFile data t) ∧ after = Some (RegFile data now)).

(** ** Lemmas: names *)

Lemma bundle_name_bytes d :
  Forall (λ c, hex_char c = true ∨ c ∈ bytes_of "bundle-") (bytes_of (bundle_name (digester_sum d))).
Proof.
  unfold bundle_name, digester_sum. rewrite TrimPrefix_app, bytes_of_app.
  apply Forall_app. split.
  - apply Forall_forall. intros c Hc. by right.
  - unfold stake. rewrite bytes_of_of_bytes. apply Forall_take.
    eapply Forall_impl; [apply hex_encode_chars|]. by left.
Qed.

Lemma bundle_name_lacks d c :
  hex_char c = false → ContainsByte "bundle-" c = false →
  ContainsByte (bundle_name (digester_sum d)) c = false.
Proof.
  intros Hx Hp. pose proof (bundle_name_bytes d) as H.
  destruct (ContainsByte (bundle_name (digester_sum d)) c) eqn:Hc; [|done]. exfalso.
  apply ContainsByte_elem in Hc. rewrite Forall_forall in H.
  destruct (H c Hc) as [|Hin%ContainsByte_elem]; congruence.
Qed.

Lemma bundle_name_plain d : plain (bundle_name (digester_sum d)) = true.
Proof.
  unfold plain. apply forallb_forall. intros c Hc.
  pose proof (bundle_name_bytes d) as H. rewrite Forall_forall in H.
  apply list_elem_of_In in Hc. destruct (H c Hc) as [Hx|Hx].
  - revert Hx. unfold hex_char, in_range. rewrite orb_true_iff, !andb_true_iff, !N.leb_le. lia.
  - assert (Forall (λ c, in_range c 33 126 = true) (bytes_of "bundle-")) as Hall
      by (vm_compute; repeat constructor).
    rewrite Forall_forall in Hall. by apply Hall.
Qed.

Lemma bundle_name_valid d : validateBundleName (bundle_name (digester_sum d)) = None.
Proof.
  unfold validateBundleName. rewrite TrimSpace_plain by apply bundle_name_plain.
  set (name := bundle_name (digester_sum d)).
  rewrite decide_False by (unfold name, bundle_name; done).
  assert (∀ c sub, hex_char c = false → ContainsByte "bundle-" c = false →
    Contains name (String c sub) = false) as Hno.
  { intros c sub Hx Hp. destruct (Contains name (String c sub)) eqn:H; [|done].
    apply Contains_first in H. unfold name in H. by rewrite bundle_name_lacks in H. }
  by rewrite !Hno.
Qed.

Lemma digest_plain d : plain (digester_sum d) = true.
Proof.
  unfold digester_sum. rewrite plain_app. apply andb_true_iff. split; [done|].
  unfold plain. apply forallb_forall. intros c Hc.
  pose proof (hex_encode_chars (sha256 (d_h d))) as H. rewrite Forall_forall in H.
  apply list_elem_of_In, H in Hc. revert Hc. unfold hex_char, in_range. rewrite orb_true_iff, !andb_true_iff, !N.leb_le. lia.
Qed.

(** ** Lemmas: sweeping *)

Lemma sweepFile_dir io cutoff scope d n errs file ent :
  HasPrefix scope "scope-" = true → io (OpReadScope scope) = None →
  fst (fst (sweepFile io cutoff scope (d, n, errs) (file, ent)))
  = if reclaims io cutoff scope file ent then delete file d else d.
Proof.
  intros Hp Hr. unfold sweepFile, reclaims. destruct ent as [|data t]; [done|].
  rewrite Hp, Hr. simpl.
  destruct (HasSuffix file ".json"), (HasSuffix file ".tmp"); simpl; try done;
    destruct (io (OpInfo scope file)); simpl; try done;
    destruct (Before t cutoff); simpl; try done;
    destruct (io (OpSweepRemove scope file)) as [e|]; simpl; try done;
    by destruct (IsNotExist e).
Qed.

Lemma sweepFiles_lookup io cutoff scope l d n errs :
  HasPrefix scope "scope-" = true → io (OpReadScope scope) = None →
  ∀ file, (fst (fst (fold_left (sweepFile io cutoff scope) l (d, n, errs)))) !! file
  = if existsb (λ x, bool_decide (fst x = file) && reclaims io cutoff scope file (snd x)) l
    then None else d !! file.
Proof.
  intros Hp Hr. revert d n errs. induction l as [|[f e] l IH]; intros d n errs file; [done|].
  cbn [fold_left existsb fst snd]. pose proof (sweepFile_dir io cutoff scope d n errs f e Hp Hr) as Hd.
  destruct (sweepFile io cutoff scope (d, n, errs) (f, e)) as [[d1 n1] errs1]. cbn [fst] in Hd.
  subst d1. rewrite IH. destruct (existsb _ l); [by rewrite orb_true_r|]. rewrite orb_false_r.
  destruct (decide (f = file)) as [->|Hf].
  - rewrite bool_decide_eq_true_2 by done. simpl.
    destruct (reclaims io cutoff scope file e); [by rewrite lookup_delete_eq|done].
  - rewrite bool_decide_eq_false_2 by done. simpl.
    destruct (reclaims io cutoff scope f e); [by rewrite lookup_delete_ne|done].
Qed.

Definition survivor (io : FsOp → option error) (cutoff : Time) (scope name : string)
    (e : option Entry) : option Entry :=
  match e with
  | Some x => if reclaims io cutoff scope name x then None else Some x
  | None => None
  end.

Lemma existsb_map_to_list io cutoff scope (d : gmap string Entry) file :
  existsb (λ x, bool_decide (fst x = file) && reclaims io cutoff scope file (snd x))
    (map_to_list d)
  = match d !! file with Some e => reclaims io cutoff scope file e | None => false end.
Proof.
  apply eq_true_iff_eq. rewrite existsb_exists. split.
  - intros ([f e] & Hin & [Hf Hr]%andb_true_iff). apply bool_decide_eq_true in Hf. simpl in *.
    subst f. apply list_elem_of_In, elem_of_map_to_list in Hin. by rewrite Hin.
  - destruct (d !! file) as [e|] eqn:He; [|done]. intros Hr. exists (file, e).
    split; [by apply list_elem_of_In, elem_of_map_to_list|]. simpl.
    by rewrite bool_decide_eq_true_2.
Qed.

Lemma reclaims_outside io cutoff scope file ent :
  HasPrefix scope "scope-" = false ∨ io (OpReadScope scope) ≠ None →
  reclaims io cutoff scope file ent = false.
Proof.
  intros [H|H]; unfold reclaims; destruct ent as [|data t]; [done| |done|]; rewrite ?H; [done|].
  destruct (io (OpReadScope scope)); [|done]. simpl. by rewrite andb_false_r.
Qed.

Lemma sweepScope_entries io cutoff s n errs scope te s1 n1 errs1 :
  st_root s !! scope = Some te →
  sweepScope io cutoff (s, n, errs) (scope, te) = (s1, n1, errs1) →
  (∀ file, entry_of s1 scope file = survivor io cutoff scope file (entry_of s scope file)) ∧
  (∀ key, key ≠ scope → st_root s1 !! key = st_root s !! key).
Proof.
  intros Hte. unfold sweepScope. destruct te as [|d].
  { intros [= <- <- <-]. split; [|done]. intros file. unfold entry_of, dir_of. by rewrite Hte. }
  assert (Hdir : ∀ file, entry_of s scope file = d !! file).
  { intros file. unfold entry_of, dir_of. by rewrite Hte. }
  assert (Hid : (HasPrefix scope "scope-" = false ∨ io (OpReadScope scope) ≠ None) → s1 = s →
    (∀ file, entry_of s1 scope file = survivor io cutoff scope file (entry_of s scope file)) ∧
    (∀ key, key ≠ scope → st_root s1 !! key = st_root s !! key)).
  { intros Hout ->. split; [|done]. intros file. unfold survivor.
    destruct (entry_of s scope file); [|done]. by rewrite reclaims_outside. }
  destruct (HasPrefix scope "scope-") eqn:Hp; simpl; [|intros [= <- <- <-]; apply Hid; auto].
  destruct (io (OpReadScope scope)) as [e|] eqn:Hr; [intros [= <- <- <-]; apply Hid; auto|].
  pose proof (sweepFiles_lookup io cutoff scope (map_to_list d) d n errs Hp Hr) as Hl.
  destruct (fold_left _ _ _) as [[d' n'] errs']. intros [= <- <- <-]. split.
  - intros file. rewrite entry_of_set, decide_True, Hdir by done. cbn [fst] in Hl.
    rewrite Hl, existsb_map_to_list. unfold survivor. by destruct (d !! file).
  - intros key Hk. simpl. by rewrite lookup_insert_ne.
Qed.

Lemma sweepScopes_entries io cutoff l s n errs :
  NoDup l.*1 → (∀ scope te, (scope, te) ∈ l → st_root s !! scope = Some te) →
  ∀ key file, entry_of (fst (fst (fold_left (sweepScope io cutoff) l (s, n, errs)))) key file
  = if decide (key ∈ l.*1) then survivor io cutoff key file (entry_of s key file)
    else entry_of s key file.
Proof.
  revert s n errs. induction l as [|[scope te] l IH]; intros s n errs Hnd Hin key file; [done|].
  cbn [fold_left]. destruct (sweepScope io cutoff (s, n, errs) (scope, te)) as [[s1 n1] e1] eqn:Hs.
  rewrite fmap_cons in Hnd |- *. apply NoDup_cons in Hnd as [Hnot Hnd]. cbn [fst] in *.
  apply sweepScope_entries in Hs as [Hown Hother]; [|apply Hin; by left].
  rewrite IH; [|done|].
  - destruct (decide (key = scope)) as [->|Hk].
    + rewrite decide_False by done. rewrite decide_True by (by left). apply Hown.
    + unfold entry_of, dir_of. rewrite (Hother key Hk).
      destruct (decide (key ∈ l.*1)).
      * by rewrite decide_True by (by right).
      * by rewrite decide_False by (by intros [?|?]%elem_of_cons).
  - intros scope' te' Hin'. rewrite Hother; [apply Hin; by right|].
    intros ->. apply Hnot. apply list_elem_of_fmap. by exists (scope, te').
Qed.

(** A whole sweep, entry by entry. *)
Lemma Sweep_entries io now maxAge s n errs s' scope name :
  io OpReadRoot = None → Sweep io now maxAge (Some s) = (n, errs, Some s') →
  entry_of s' scope name = survivor io (now - maxAge) scope name (entry_of s scope name).
Proof.
  intros Hroot H.
  unfold Sweep in H. rewrite Hroot in H. replace (Add now (- maxAge)) with (now - maxAge) in H
    by (unfold Add; lia).
  pose proof (sweepScopes_entries io (now - maxAge) (map_to_list (st_root s)) s 0 []
    (NoDup_fst_map_to_list _) (λ k te, proj1 (elem_of_map_to_list (st_root s) k te)) scope name) as Hs.
  destruct (fold_left _ _ _) as [[s1 n1] e1]. injection H as <- <- <-. cbn [fst] in Hs. rewrite Hs.
  case_decide as Hin; [done|].
  assert (st_root s !! scope = None) as Hnone.
  { destruct (st_root s !! scope) as [te|] eqn:Hte; [|done]. destruct Hin.
    apply list_elem_of_fmap. exists (scope, te). split; [done|]. by apply elem_of_map_to_list. }
  unfold entry_of, dir_of. by rewrite Hnone.
Qed.

(** ** Properties *)

(** C13: whatever the system calls do, [Put] changes no entry but two, both in the
    directory of its own scope: the temp file [os.CreateTemp] named for it, which
    is gone afterwards unless its removal failed, and, when [Put] succeeds, the
    entry of its bundle name, which is then either the whole new bundle or the
    bytes stored before with a fresh time.  Other temp files stay as they are,
    and a failed [Put] never leaves a partial bundle. *)
Theorem Put_confined io now rand ctxErr s scope files r s' key file
    (H : Put io now rand ctxErr (Some s) scope files = (r, Some s')) :
  entry_of s' key file = entry_of s key file ∨
  ∃ b ref, scopeKey (TrimSpace scope) = inr key ∧ buildBundle files = inr (b, ref) ∧
    ((file = "." +:+ b_Name b +:+ "-" +:+ rand +:+ ".tmp" ∧
      (io OpRemoveTemp = None → entry_of s' key file = None)) ∨
     (file = b_Name b +:+ ".json" ∧ (∃ ref', r = inr ref') ∧
      written now scope files (entry_of s key file) (entry_of s' key file))).
Proof.
  unfold Put in H. destruct (scopeKey (TrimSpace scope)) as [e|own] eqn:Hkey.
  { injection H as _ <-. by left. }
  destruct (buildBundle files) as [e|[b ref]] eqn:Hb; [injection H as _ <-; by left|].
  destruct ctxErr; [injection H as _ <-; by left|].
  destruct (mkdir io s own) as [e|s1] eqn:Hmk; [injection H as _ <-; by left|].
  cbn [b_Name] in H. rewrite <- (mkdir_entries _ _ _ _ key file Hmk).
  set (bundle := {| b_Name := _ |}) in H.
  set (goal := entry_of s' key file = entry_of s1 key file ∨ _).
  assert (Hpub : ∀ w s2, publish io now rand own bundle s1 = (w, s2) →
    (match w with Some e => (inl e, Some s2)
     | None => (inr {| ref_Name := ref_Name ref; ref_Digest := ref_Digest ref;
                       ref_Scope := TrimSpace scope; ref_Size := ref_Size ref;
                       ref_FileCount := ref_FileCount ref; ref_Files := ref_Files ref |}, Some s2)
     end) = (r, Some s') → goal).
  { intros w s2 (Hframe & Htgt & Htmp)%publish_frame Heq. unfold goal.
    assert (s2 = s') as -> by (destruct w; congruence). cbn [b_Name bundle] in *.
    destruct (decide (key = own)) as [->|Hk]; [|left; apply Hframe; by left].
    destruct (decide (file = "." +:+ b_Name b +:+ "-" +:+ rand +:+ ".tmp")) as [->|Ht].
    { destruct Htmp as [Htmp|Htmp]; [by left|]. right. exists b, ref. split_and!; [done..|by left]. }
    destruct (decide (file = file_name (b_Name b))) as [->|Hf]; [|left; apply Hframe; by right].
    destruct w as [e|]; [by left|]. right. exists b, ref. split_and!; [done..|right].
    split; [done|]. split; [injection Heq as <-; by eexists|]. left.
    exists b, ref. split; [done|]. exact Htgt. }
  destruct (publish io now rand own bundle s1) as [w s2] eqn:Hp.
  specialize (Hpub w s2 eq_refl).
  destruct (io OpStat) as [e|].
  { destruct (IsNotExist e); [by apply Hpub; destruct w|injection H as _ <-; by left]. }
  destruct (entry_of s1 own (file_name (b_Name b))) as [ent|] eqn:Hent; [|by apply Hpub; destruct w].
  unfold goal. injection H as <- <-. rewrite touch_entry. case_decide as Hd; [|by left].
  destruct Hd as [-> ->]. rewrite Hent. destruct ent as [|data t]; [by left|].
  right. exists b, ref. split_and!; [done..|right]. split; [done|]. split; [by eexists|].
  right. by exists data, t.
Qed.

(** Storing [two_files] changes the entry of their bundle, in its scope. *)
Lemma Put_confined_witness :
  ∃ key b r s', scopeKey (TrimSpace "tenant") = inr key ∧
    (buildBundle two_files = inr b) ∧
    Put no_faults 5 "r" None (Some {| st_root := ∅ |}) "tenant" two_files = (r, Some s') ∧
    entry_of s' key (file_name (b_Name b.1)) ≠ entry_of {| st_root := ∅ |} key (file_name (b_Name b.1)) ∧
    (entry_of s' key (file_name (b_Name b.1)) = entry_of {| st_root := ∅ |} key (file_name (b_Name b.1)) ∨
     ∃ b' ref, scopeKey (TrimSpace "tenant") = inr key ∧ buildBundle two_files = inr (b', ref) ∧
     ((file_name (b_Name b.1) = "." +:+ b_Name b' +:+ "-" +:+ "r" +:+ ".tmp" ∧
       (no_faults OpRemoveTemp = None → entry_of s' key (file_name (b_Name b.1)) = None)) ∨
      (file_name (b_Name b.1) = b_Name b' +:+ ".json" ∧ (∃ ref', r = inr ref') ∧
       written 5 "tenant" two_files (entry_of {| st_root := ∅ |} key (file_name (b_Name b.1)))
         (entry_of s' key (file_name (b_Name b.1)))))).
Proof.
  eexists _, _, _, _. split; [vm_compute; reflexivity|]. split; [vm_compute; reflexivity|].
  split; [vm_compute; reflexivity|]. split; [vm_compute; discriminate|].
  eapply (Put_confined no_faults 5 "r" None {| st_root := ∅ |} "tenant" two_files).
  vm_compute. reflexivity.
Defined.

(** C12: a bundle put into a scope directory that has no entry under its name
    is what [Get] then returns for the name and digest of the reference, with
    its strings passed through JSON (unchanged when they are valid UTF-8). *)
Theorem Put_then_Get now rand s scope files b ref key
    (Hb : buildBundle files = inr (b, ref)) (Hk : scopeKey scope = inr key)
    (Hroot : st_root s !! key ≠ Some TopFile)
    (Hfree : entry_of s key (file_name (b_Name b)) = None)
    (Hutf8 : ValidString (TrimSpace scope) = true) :
  ∃ ref' s', Put no_faults now rand None (Some s) scope files = (inr ref', Some s') ∧
    ref_Name ref' = b_Name b ∧ ref_Digest ref' = b_Digest b ∧ ref_Scope ref' = TrimSpace scope ∧
    Get no_faults None (Some s') scope (ref_Name ref') (ref_Digest ref')
      = inr (json_bundle (scoped scope b)).
Proof.
  assert (∃ d, b_Name b = bundle_name (digester_sum d) ∧ b_Digest b = digester_sum d ∧
               ref_Name ref = b_Name b ∧ ref_Digest ref = b_Digest b) as (d & Hn & Hd & Hrn & Hrd).
  { apply buildBundle_spec in Hb as (bfs & _ & _ & [= -> ->]). by eexists. }
  unfold Put. rewrite scopeKey_trim, Hk, Hb. cbn [b_Name].
  assert (∃ s1, mkdir no_faults s key = inr s1) as [s1 Hmk].
  { unfold mkdir. destruct (st_root s !! key) as [[|?]|]; [done|by eexists..]. }
  rewrite Hmk. rewrite (mkdir_entries _ _ _ _ _ _ Hmk), Hfree. cbn [no_faults].
  set (bundle := {| b_Name := _ |}).
  destruct (publish no_faults now rand key bundle s1) as [w s2] eqn:Hp.
  assert (w = None) as ->.
  { unfold publish in Hp. cbn in Hp. congruence. }
  apply publish_frame in Hp as (_ & Htgt & _). eexists _, s2. split; [reflexivity|].
  cbn [ref_Name ref_Digest ref_Scope]. rewrite Hrn, Hrd. split_and!; [done..|].
  unfold Get. rewrite Hk, Hn, bundle_name_valid. cbn [no_faults].
  change (b_Name bundle) with (b_Name b) in Htgt. rewrite Hn in Htgt. rewrite Htgt.
  assert (json_string (b_Name b) = bundle_name (digester_sum d)) as Hjn.
  { rewrite Hn. apply json_string_valid, plain_valid, bundle_name_plain. }
  assert (json_string (b_Digest b) = b_Digest b) as Hjd.
  { rewrite Hd. apply json_string_valid, plain_valid, digest_plain. }
  cbn [json_bundle scoped bundle b_Name b_Scope b_Digest].
  rewrite Hjn, Hjd, (json_string_valid _ Hutf8).
  rewrite !decide_False by tauto. done.
Qed.

Definition empty_store : FileStore := {| st_root := ∅ |}.

Lemma Put_then_Get_witness :
  ∃ b ref ref' s', buildBundle two_files = inr (b, ref) ∧
    Put no_faults 5 "r" None (Some empty_store) " tenant " two_files = (inr ref', Some s') ∧
    Get no_faults None (Some s') " tenant " (ref_Name ref') (ref_Digest ref')
      = inr (json_bundle (scoped " tenant " b)).
Proof.
  eexists _, _.
  destruct (Put_then_Get 5 "r" empty_store " tenant " two_files _ _ _
              ltac:(vm_compute; reflexivity) ltac:(vm_compute; reflexivity)
              ltac:(done) ltac:(vm_compute; reflexivity) ltac:(vm_compute; reflexivity))
    as (ref' & s' & HP & _ & _ & _ & HG).
  exists ref', s'. split; [vm_compute; reflexivity|]. split; [exact HP|exact HG].
Defined.

Lemma Get_absent io s scope key name digest :
  scopeKey scope = inr key → validateBundleName name = None → io OpRead = None →
  entry_of s key (file_name name) = None →
  Get io None (Some s) scope name digest = inl (EWrap "" EBundleNotFound (": " +:+ name)).
Proof. intros Hk Hv Hr He. unfold Get. by rewrite Hk, Hv, Hr, He. Qed.

Lemma Get_not_found io s scope key name digest e :
  scopeKey scope = inr key → validateBundleName name = None → io OpRead = None →
  Get io None (Some s) scope name digest = inl e → IsBundleNotFound e = true →
  entry_of s key (file_name name) = None.
Proof.
  intros Hk Hv Hr. unfold Get. rewrite Hk, Hv, Hr.
  destruct (entry_of s key (file_name name)) as [[|[b|]]|]; [by intros [= <-]| |by intros [= <-]|done].
  repeat case_decide; by intros [= <-].
Qed.

(** What [Delete] may do to the one entry it names, given why it may. *)
Lemma remove_exact io s key file (r : option error) s' (P : Prop) msg :
  P →
  match io OpRemove, entry_of s key file with
  | Some e, _ => if IsNotExist e then (None, Some s) else (Some (Wrap msg e), Some s)
  | None, None => (None, Some s)
  | None, Some _ => (None, Some (set_dir s key (delete file (default ∅ (dir_of s key)))))
  end = (r, Some s') →
  (∀ key' f, entry_of s' key' f = entry_of s key' f ∨
     (key' = key ∧ f = file ∧ r = None ∧ entry_of s' key' f = None ∧ P)) ∧
  (io OpRemove = None → entry_of s' key file = None).
Proof.
  intros Hwhy Heq. destruct (io OpRemove) as [e|].
  { assert (s' = s) as -> by (destruct (IsNotExist e); congruence). split; [by left|done]. }
  destruct (entry_of s key file) as [ent|] eqn:Hent; injection Heq as <- <-;
    [|split; [by left|done]].
  split; [|by rewrite entry_of_set, decide_True, lookup_delete_eq by done].
  intros key' f. rewrite entry_of_set. destruct (decide (key = key')) as [<-|Hkk]; [|by left].
  destruct (decide (f = file)) as [->|Hf]; [right; by rewrite lookup_delete_eq|].
  left. by rewrite lookup_delete_ne, entry_of_default by done.
Qed.

(** [Delete] removes at most the one bundle it names.  It removes it only
    after a digest, when one is given, matched the stored one; and once it
    reports success with a working directory, [Get] finds nothing there
    whatever digest is asked for. *)
Theorem Delete_exact io s scope name digest r s' key
    (Hk : scopeKey scope = inr key)
    (H : Delete io None (Some s) scope name digest = (r, Some s')) :
  (∀ key' file, entry_of s' key' file = entry_of s key' file ∨
     (key' = key ∧ file = file_name name ∧ r = None ∧ entry_of s' key' file = None ∧
      (TrimSpace digest = "" ∨
       ∃ b, Get io None (Some s) scope name digest = inr b ∧ b_Digest b = digest))) ∧
  (r = None → io OpRead = None → io OpRemove = None →
   ∀ want, ∃ e, Get io None (Some s') scope name want = inl e ∧ IsBundleNotFound e = true).
Proof.
  unfold Delete in H. rewrite Hk in H.
  destruct (validateBundleName name) as [e|] eqn:Hv.
  { injection H as <- <-. split; [by left|done]. }
  assert (Hgone : io OpRead = None → entry_of s' key (file_name name) = None →
    ∀ want, ∃ e, Get io None (Some s') scope name want = inl e ∧ IsBundleNotFound e = true).
  { intros Hr He want. eexists. by rewrite (Get_absent io s' scope key). }
  case_decide as Hd.
  - destruct (Get io None (Some s) scope name digest) as [e|b] eqn:Hget.
    + assert (s' = s) as -> by (destruct (IsBundleNotFound e); congruence).
      split; [by left|]. intros -> Hr _. apply Hgone; [done|].
      destruct (IsBundleNotFound e) eqn:Hnf; [|done]. by eapply Get_not_found.
    + case_decide as Hdig; [injection H as <- <-; split; [by left|done]|].
      eapply remove_exact in H as [H1 H2]; [split; [exact H1|by auto]|].
      right. exists b. split; [done|]. by destruct (decide (b_Digest b = digest)).
  - eapply remove_exact in H as [H1 H2]; [split; [exact H1|by auto]|].
    left. by destruct (decide (TrimSpace digest = "")).
Qed.

Lemma Delete_exact_witness :
  ∃ r s', Delete no_faults None (Some empty_store) "tenant" "bundle-1" "" = (r, Some s') ∧
    ∃ e, Get no_faults None (Some s') "tenant" "bundle-1" "" = inl e ∧ IsBundleNotFound e = true.
Proof.
  eexists _, empty_store. split; [vm_compute; reflexivity|].
  refine (proj2 (Delete_exact no_faults empty_store "tenant" "bundle-1" "" None empty_store
            "scope-e9da86d351cf9a7642d8c50195c3f466" _ _) _ _ _ "");
    vm_compute; reflexivity.
Defined.

(** With a readable root, a sweep removes exactly the regular [.json] and
    [.tmp] files of [scope-*] directories last written before the cutoff (and
    whose system calls succeed); every other entry, in particular a fresh
    bundle, a subdirectory and a foreign file, is left as it was. *)
Theorem Sweep_exact io now maxAge s n errs s' scope name
    (Hroot : io OpReadRoot = None)
    (H : Sweep io now maxAge (Some s) = (n, errs, Some s')) :
  entry_of s' scope name = survivor io (now - maxAge) scope name (entry_of s scope name).
Proof. by apply (Sweep_entries _ _ _ _ _ _ _ _ _ Hroot H). Qed.

Definition swept_store : FileStore :=
  {| st_root := {[ "scope-1" := TopDir {[ "bundle-1.json" := RegFile (RawData "") 5;
                                          "bundle-2.json" := RegFile (RawData "") 50 ]} ]} |}.

Lemma Sweep_exact_witness :
  ∃ n errs s', Sweep no_faults 60 20 (Some swept_store) = (n, errs, Some s') ∧ n = 1 ∧
    entry_of s' "scope-1" "bundle-1.json" = None ∧
    entry_of s' "scope-1" "bundle-2.json" = Some (RegFile (RawData "") 50).
Proof.
  eexists _, _, _. split; [vm_compute; reflexivity|]. split; [reflexivity|].
  split.
  - refine (Sweep_exact no_faults 60 20 swept_store _ _ _ "scope-1" "bundle-1.json" _ _);
      vm_compute; reflexivity.
  - refine (Sweep_exact no_faults 60 20 swept_store _ _ _ "scope-1" "bundle-2.json" _ _);
      vm_compute; reflexivity.
Defined.
