(* ===== verification/Sweeper.v ===== *)
(** * commitbundle/store.go: the sweeper

    [RunSweeper] sweeps once at startup and then at every tick until its
    context is done.  The clock, the ticker's [select] and the directory, which
    other callers change meanwhile, belong to the world; each sweep is the
    [Sweep] of [BundleStore] on the directory as it is then. *)

From S2P Require Import Prelude GoStrings GoTime Errors CommitBundle BundleStore.
From Stdlib Require Import Lia.

#[local] Open Scope Z_scope.

(** A sweep is recorded with the faults it met and the directory around it. *)
Inductive SwEvent :=
  | SwNow (t : Time)
  | SwSweep (now : Time) (io : FsOp → option error) (before : FileStore)
      (removed : Z) (errs : list error) (after : FileStore)
  | SwLogError (errs : list error)
  | SwLogRemoved (count : Z) (maxAge : Duration)
  | SwSelect (done : bool).

(** [sw_select] is true when [ctx.Done()] is received, false for a tick. *)
Class Sweeping (W : Type) := {
  sw_now : W → Time * W;
  sw_select : W → bool * W;
  sw_io : W → FsOp → option error;
  sw_store : W → FileStore;
  sw_setStore : FileStore → W → W }.

Section Sweeper.
Context {W : Type} `{Sweeping W} (maxAge : Duration).

(** The directory of a non-nil store stays one. *)
Definition sweep_call (now : Time) : M W SwEvent (Z * list error) := λ w,
  match Sweep (sw_io w) now maxAge (Some (sw_store w)) with
  | (n, errs, Some s) => ((n, errs), sw_setStore s w, [SwSweep now (sw_io w) (sw_store w) n errs s])
  | (n, errs, None) => ((n, errs), w, [])
  end.

Definition log (e : SwEvent) : M W SwEvent unit := λ w, (tt, w, [e]).

Definition sweep : M W SwEvent unit :=
  now ← call sw_now SwNow;
  r ← sweep_call now;
  let '(removed, errs) := r in
  _ ← (if decide (errs ≠ []) then log (SwLogError errs) else mret tt);
  if decide (removed > 0) then log (SwLogRemoved removed maxAge) else mret tt.

(** The [for] loop; [None] is running out of fuel. *)
Fixpoint loop (fuel : nat) : M W SwEvent (option unit) :=
  match fuel with
  | O => mret None
  | S fuel =>
      finished ← call sw_select SwSelect;
      if finished : bool then mret (Some tt)
      else _ ← sweep; loop fuel
  end.

Definition RunSweeper (fuel : nat) : M W SwEvent (option unit) := _ ← sweep; loop fuel.
End Sweeper.

(** ** What a run is *)

Definition logging (e : SwEvent) : bool :=
  match e with SwLogError _ | SwLogRemoved _ _ => true | _ => false end.

(** One sweep: a clock reading, the sweep at that reading, its log lines. *)
Inductive swept_once (maxAge : Duration) : list SwEvent → Prop :=
  | swept now io before n errs after logs :
      Sweep io now maxAge (Some before) = (n, errs, Some after) →
      forallb logging logs = true → (errs ≠ [] → SwLogError errs ∈ logs) →
      swept_once maxAge (SwNow now :: SwSweep now io before n errs after :: logs).

(** The schedule after [ticks] ticks: a sweep at startup and one per tick; the
    run is over exactly when the context was seen done. *)
Inductive schedule (maxAge : Duration) : nat → bool → list SwEvent → Prop :=
  | started t : swept_once maxAge t → schedule maxAge 0 false t
  | ticked n t t' : schedule maxAge n false t → swept_once maxAge t' →
      schedule maxAge (S n) false (t ++ SwSelect false :: t')
  | stopped n t : schedule maxAge n false t → schedule maxAge n true (t ++ [SwSelect true]).

(** ** Lemmas *)

Section Runs.
Context {W : Type} `{Sweeping W} (maxAge : Duration).

Lemma sweep_once_emits : emits (sweep (W := W) maxAge) (λ _ t, swept_once maxAge t).
Proof.
  unfold sweep. apply emits_bind, emits_call. intros now. apply emits_bind.
  intros w. unfold sweep_call. unfold Sweep. destruct (sw_io w OpReadRoot) as [e|] eqn:Hr.
  - cbn. intros w1. cbn. apply swept; [unfold Sweep; by rewrite Hr|done|]. intros _. by left.
  - destruct (fold_left _ _ _) as [[s' n] errs] eqn:Hf.
    assert (Sweep (sw_io w) now maxAge (Some (sw_store w)) = (n, errs, Some s')) as Hs
      by (unfold Sweep; by rewrite Hr, Hf).
    apply emits_bind.
    destruct (decide (errs ≠ [])) as [He|He]; intros w1; cbn; intros w2;
      destruct (decide (n > 0)); cbn; apply swept; try done; intros _; by left.
Qed.

Lemma loop_emits fuel n t0 : schedule maxAge n false t0 →
  emits (loop (W := W) maxAge fuel) (λ r t, match r with
    | Some _ => ∃ k, (k < n + fuel)%nat ∧ schedule maxAge k true (t0 ++ t)
    | None => schedule maxAge (n + fuel) false (t0 ++ t)
    end).
Proof.
  revert n t0. induction fuel as [|fuel IH]; intros n t0 Hs; cbn [loop].
  { apply emits_ret. by rewrite app_nil_r, Nat.add_0_r. }
  apply emits_bind, emits_call. intros [|].
  - apply emits_ret. exists n. split; [lia|]. by constructor.
  - apply emits_bind. eapply emits_mono; [apply sweep_once_emits|]. intros [] t Ht.
    eapply emits_mono; [apply (IH (S n) (t0 ++ SwSelect false :: t)); by constructor|].
    intros r u Hr. cbn beta in Hr. rewrite <- app_assoc in Hr. cbn [app] in *.
    rewrite Nat.add_succ_r. destruct r as [[]|]; [|done].
    destruct Hr as (k & Hk & Hr). exists k. by split; [lia|].
Qed.

Lemma RunSweeper_emits fuel : emits (RunSweeper (W := W) maxAge fuel) (λ r t, match r with
    | Some _ => ∃ k, (k < fuel)%nat ∧ schedule maxAge k true t
    | None => schedule maxAge fuel false t
    end).
Proof.
  unfold RunSweeper. apply emits_bind. eapply emits_mono; [apply sweep_once_emits|].
  intros [] t Ht. eapply emits_mono; [apply (loop_emits fuel 0 t); by constructor|]. done.
Qed.

(** Every sweep of a schedule is the store's at its clock reading. *)
Lemma schedule_sweeps n b t now io before k errs after :
  schedule maxAge n b t → SwSweep now io before k errs after ∈ t →
  Sweep io now maxAge (Some before) = (k, errs, Some after) ∧ SwNow now ∈ t.
Proof.
  assert (Hone : ∀ u, swept_once maxAge u → SwSweep now io before k errs after ∈ u →
    Sweep io now maxAge (Some before) = (k, errs, Some after) ∧ SwNow now ∈ u).
  { intros u [now' io' b' n' e' a' logs Hs Hl _] Hin.
    apply elem_of_cons in Hin as [Hin|Hin]; [done|]. apply elem_of_cons in Hin as [Hin|Hin].
    - injection Hin as -> -> -> -> -> ->. split; [done|by left].
    - apply list_elem_of_In in Hin. by apply (proj1 (forallb_forall _ _) Hl) in Hin. }
  induction 1 as [t Ht|m t t' _ IH Ht|m t _ IH]; intros Hin.
  - by apply Hone.
  - apply elem_of_app in Hin as [Hin|Hin]; [destruct (IH Hin); split; [done|]; by apply elem_before|].
    apply elem_of_cons in Hin as [Hin|Hin]; [done|].
    destruct (Hone _ Ht Hin). split; [done|]. apply elem_after. by right.
  - apply elem_of_app in Hin as [Hin|Hin]; [destruct (IH Hin); split; [done|]; by apply elem_before|].
    by apply list_elem_of_singleton in Hin.
Qed.
End Runs.

(** ** Property *)

(** C37: the sweeper runs its schedule: one sweep at startup, one per tick, and
    it stops exactly when its context is done.  Whatever else happens to the
    directory between the ticks and whatever system calls fail, no sweep takes
    a file that is not older than [maxAge]; and a sweep that meets no fault on
    an older bundle or temp file of a scope removes it. *)
Theorem RunSweeper_sweeps {W} `{Sweeping W} maxAge fuel (w w' : W) r t
    (Hrun : RunSweeper maxAge fuel w = (r, w', t)) :
  (∃ n, schedule maxAge n (bool_decide (r = Some tt)) t ∧ (n ≤ fuel)%nat ∧ (r = None → n = fuel)) ∧
  ∀ now io before k errs after scope name data mtime,
    SwSweep now io before k errs after ∈ t →
    entry_of before scope name = Some (RegFile data mtime) →
    (now - maxAge ≤ mtime → entry_of after scope name = Some (RegFile data mtime)) ∧
    (mtime < now - maxAge → io OpReadRoot = None → io (OpReadScope scope) = None →
     io (OpInfo scope name) = None → io (OpSweepRemove scope name) = None →
     HasPrefix scope "scope-" = true → HasSuffix name ".json" || HasSuffix name ".tmp" = true →
     entry_of after scope name = None).
Proof.
  pose proof (RunSweeper_emits (W := W) maxAge fuel w) as He. rewrite Hrun in He.
  assert (∃ n, schedule maxAge n (bool_decide (r = Some tt)) t ∧ (n ≤ fuel)%nat ∧ (r = None → n = fuel))
    as (n & Hsch & Hn).
  { destruct r as [[]|]; [destruct He as (k & Hk & He)|]; eexists; (split; [exact He|]); [|done].
    split; [lia|done]. }
  split; [by exists n|]. intros now io before k errs after scope name data mtime Hin Hent.
  destruct (schedule_sweeps maxAge _ _ _ _ _ _ _ _ _ Hsch Hin) as [Hs _].
  destruct (io OpReadRoot) as [e|] eqn:Hroot.
  { unfold Sweep in Hs. rewrite Hroot in Hs. injection Hs as _ _ <-. by split. }
  rewrite (Sweep_entries _ _ _ _ _ _ _ scope name Hroot Hs), Hent.
  cbn [survivor reclaims]. unfold Before. split.
  - intros Hm. rewrite (proj2 (Z.ltb_ge mtime (now - maxAge)) Hm). by rewrite andb_false_r.
  - intros Hm _ H1 H2 H3 H4 H5. rewrite H4, H5, (proj2 (Z.ltb_lt _ _) Hm).
    by rewrite !bool_decide_eq_true_2.
Qed.

(** Two ticks, then the context is done. *)
Definition ticker_world : Sweeping (nat * FileStore) := {|
  sw_now := λ w, (60, w);
  sw_select := λ w, match w.1 with O => (true, w) | S n => (false, (n, w.2)) end;
  sw_io := λ _, no_faults; sw_store := snd; sw_setStore := λ s w, (w.1, s) |}.

Definition ticker_run : option unit * (nat * FileStore) * list SwEvent :=
  RunSweeper (H := ticker_world) 20 5 (2%nat, swept_store).

Lemma RunSweeper_sweeps_witness :
  (∃ n, schedule 20 n true ticker_run.2) ∧
  ∃ n errs after, SwSweep 60 no_faults swept_store n errs after ∈ ticker_run.2 ∧
    entry_of after "scope-1" "bundle-1.json" = None ∧
    entry_of after "scope-1" "bundle-2.json" = Some (RegFile (RawData "") 50).
Proof.
  assert (Hrun : RunSweeper (H := ticker_world) 20 5 (2%nat, swept_store)
                 = (Some tt, ticker_run.1.2, ticker_run.2)) by (vm_compute; reflexivity).
  destruct (RunSweeper_sweeps (H := ticker_world) 20 5 (2%nat, swept_store) _ _ _ Hrun)
    as [(n & Hs & _) Hall].
  split; [by exists n|].
  assert (Hin : ∃ k errs after, SwSweep 60 no_faults swept_store k errs after ∈ ticker_run.2).
  { do 3 eexists. vm_compute. right. left. }
  destruct Hin as (k & errs & after & Hin). exists k, errs, after. split; [exact Hin|]. split.
  - refine (proj2 (Hall 60 no_faults swept_store k errs after "scope-1"%string "bundle-1.json"%string
      (RawData "") 5 Hin _) _ _ _ _ _ _ _); vm_compute; reflexivity.
  - refine (proj1 (Hall 60 no_faults swept_store k errs after "scope-1"%string "bundle-2.json"%string
      (RawData "") 50 Hin _) _); vm_compute; [reflexivity|discriminate].
Defined.
