(* ===== verification/RequestCache.v ===== *)
(** * backend/github/request_cache.go, the state behind one gate

    One [requestState] per credential and host: the throttle deadline, the
    backoff, and a bounded response cache.  Its fields are only touched by the
    caller that holds the state's gate, so the operations here are sequential;
    [RequestGate] has the gate itself. *)

From S2P Require Import Prelude GoStrings Encoding GoTime Errors.
From Stdlib Require Import Ascii Lia.

#[local] Open Scope string_scope.
#[local] Open Scope Z_scope.

(** ** Constants *)

Definition packageCacheTTL : Duration := 2 * Minute.
Definition maxRequestStates : nat := 64.
Definition maxCachedResponses : nat := 256.
Definition maxCachedBytes : Z := Z.shiftl 1 20.

(** ** HTTP

    Header keys are canonical, as [net/http] stores them. *)
Definition Header : Type := gmap string (list string).
Definition Header_Get (h : Header) (key : string) : string :=
  match h !! key with Some (v :: _) => v | _ => "" end.
Definition hRemaining : string := "X-Ratelimit-Remaining".
Definition hReset : string := "X-Ratelimit-Reset".
Definition hRetryAfter : string := "Retry-After".

Record Request := { rq_Method : string; rq_Scheme : string; rq_Host : string; rq_URL : string }.

(** A response and, when reading its body fails, the error. *)
Record Response := {
  rr_Status : Z; rr_Header : Header; rr_Body : string; rr_ReadErr : option error }.

Definition MethodGet : string := "GET".

(** ** State *)

Record cachedResponse := {
  cr_status : Z; cr_header : Header; cr_body : string; cr_expires : Time }.

(** The fields of a [requestState] its gate protects; in-flight listings are
    named by a flight number. *)
Record requestState := {
  s_until : Time; s_backoff : Duration; s_listings : gmap string nat;
  s_responses : gmap string cachedResponse; s_bytes : Z }.

Definition newRequestState : requestState :=
  {| s_until := zeroTime; s_backoff := 0; s_listings := ∅; s_responses := ∅; s_bytes := 0 |}.

Definition set_cache (s : requestState) (r : gmap string cachedResponse) (n : Z) : requestState :=
  {| s_until := s_until s; s_backoff := s_backoff s; s_listings := s_listings s;
     s_responses := r; s_bytes := n |}.
Definition set_listings (s : requestState) (l : gmap string nat) : requestState :=
  {| s_until := s_until s; s_backoff := s_backoff s; s_listings := l;
     s_responses := s_responses s; s_bytes := s_bytes s |}.

Definition credentialHash (token : string) : string := sha256 token.

(** [string(append(scope[:], ...))] hashed. *)
Definition cacheKey (scope : string) (rest : string) : string := sha256 (scope +:+ rest).

(** ** Throttle bookkeeping *)

Definition rate_limit_body (body : string) : bool :=
  Contains (ToLower body) "rate limit" || Contains body "secondary-rate-limits"
  || Contains body "#abuse-rate-limits".

Definition is_throttled (resp : Response) (body : string) : bool :=
  bool_decide (rr_Status resp = 429)
  || (bool_decide (rr_Status resp = 403)
      && (bool_decide (Header_Get (rr_Header resp) hRetryAfter ≠ "")
          || bool_decide (Header_Get (rr_Header resp) hRemaining = "0")
          || rate_limit_body body)).

Definition nextBackoff (backoff : Duration) : Duration :=
  if decide (backoff = 0) then Minute else Z.min (backoff * 2) (15 * Minute).

Section RequestState.
Context (ParseTime : string → option Time).

(** When a throttled response allows a retry. *)
Definition retryAt (resp : Response) (backoff : Duration) (now : Time) : Time :=
  let retry := Add now backoff in
  let raw := Header_Get (rr_Header resp) hRetryAfter in
  let retry :=
    if decide (raw ≠ "") then
      match ParseInt raw 32 with
      | Some seconds =>
          if decide (0 ≤ seconds) then Add now (seconds * Second)
          else match ParseTime raw with Some date => date | None => retry end
      | None => match ParseTime raw with Some date => date | None => retry end
      end
    else retry in
  if After retry now then retry else Add now Second.

Definition headerReset (resp : Response) : Time :=
  if decide (Header_Get (rr_Header resp) hRemaining = "0") then
    match ParseInt (Header_Get (rr_Header resp) hReset) 64 with
    | Some reset => Add (Unix reset) Second
    | None => zeroTime
    end
  else zeroTime.

Definition observe (s : requestState) (resp : Response) (body : string) (now : Time)
    : bool * requestState :=
  let until := headerReset resp in
  let throttled := is_throttled resp body in
  let '(until, backoff) :=
    if throttled then
      let backoff := nextBackoff (s_backoff s) in
      let retry := retryAt resp backoff now in
      (if After retry until then retry else until, backoff)
    else (until, if bool_decide (200 ≤ rr_Status resp < 300) then 0 else s_backoff s) in
  (throttled,
   {| s_until := if After until (s_until s) then until else s_until s; s_backoff := backoff;
      s_listings := s_listings s; s_responses := s_responses s; s_bytes := s_bytes s |}).

(** ** Response cache *)

Definition body_sum (r : gmap string cachedResponse) : Z :=
  wsum (λ v, slen (cr_body v)) r.

Definition live (now : Time) (v : cachedResponse) : bool := Before now (cr_expires v).

(** The loop over [s.responses]: each expired entry leaves and is uncounted. *)
Definition expire (s : requestState) (now : Time) : requestState :=
  let '(kept, bytes) :=
    map_fold (λ k v '(m, n), if live now v then (m, n) else (delete k m, n - slen (cr_body v)))
      (s_responses s, s_bytes s) (s_responses s) in
  set_cache s kept bytes.

Definition store (s : requestState) (key : string) (value : cachedResponse) : requestState :=
  if decide (slen (cr_body value) > maxCachedBytes) then s
  else
    let '(resps, bytes) :=
      match s_responses s !! key with
      | Some previous => (delete key (s_responses s), s_bytes s - slen (cr_body previous))
      | None => (s_responses s, s_bytes s)
      end in
    let '(resps, bytes) :=
      if decide ((maxCachedResponses ≤ size resps)%nat ∨
                 bytes + slen (cr_body value) > maxCachedBytes)
      then (∅, 0) else (resps, bytes) in
    set_cache s (<[key := value]> resps) (bytes + slen (cr_body value)).

(** [v.response(req)]: a hit never restores an old rate budget. *)
Definition cached_response (v : cachedResponse) : Response :=
  {| rr_Status := cr_status v;
     rr_Header := delete hReset (delete hRemaining (cr_header v));
     rr_Body := cr_body v; rr_ReadErr := None |}.

Definition retryError (s : requestState) (err : error) (now : Time) : error :=
  if Before now (s_until s) && bool_decide (AsRateLimit err = None)
  then ERateLimit (s_until s) (Some err) else err.

(** ** RoundTrip

    [now], [observedAt], [later] are the successive clock readings; the result
    says what was sent upstream.  [send] is the part after the throttle check. *)
Definition send (base : Request → error + Response) (observedAt later : Time)
    (key : string) (ttl : Duration) (cacheable : bool) (req : Request) (s : requestState)
    : (error + Response) * requestState * list Request :=
  match base req with
  | inl e => (inl e, s, [req])
  | inr resp =>
    let '(headerThrottle, s) := observe s resp "" observedAt in
    let reads := bool_decide (rr_Status resp = 403) || bool_decide (rr_Status resp = 429)
                 || (cacheable && bool_decide (rr_Status resp = 200)) in
    match (if reads then rr_ReadErr resp else None) with
    | Some e => (inl (retryError s e later), s, [req])
    | None =>
      let body := if reads then stake (Z.to_nat (maxCachedBytes + 1)) (rr_Body resp) else "" in
      let '(throttled, s) :=
        if headerThrottle then (true, s) else observe s resp body observedAt in
      if throttled then
        (inl (ERateLimit (s_until s) (Some (ENew ("HTTP " +:+ FormatInt (rr_Status resp))))),
         s, [req])
      else if cacheable && bool_decide (rr_Status resp = 200)
              && bool_decide (slen body ≤ maxCachedBytes)
      then (inr resp,
            store s key {| cr_status := rr_Status resp; cr_header := rr_Header resp;
                           cr_body := body; cr_expires := Add later ttl |}, [req])
      else (inr resp, s, [req])
    end
  end.

Definition RoundTrip (base : Request → error + Response) (now observedAt later : Time)
    (scope : string) (ttl : Duration) (req : Request) (s : requestState)
    : (error + Response) * requestState * list Request :=
  let key := cacheKey scope (rq_URL req) in
  let s := expire s now in
  let cacheable := bool_decide (rq_Method req = MethodGet) && bool_decide (0 < ttl) in
  match (if cacheable then s_responses s !! key else None) with
  | Some v => (inr (cached_response v), s, [])
  | None =>
    if Before now (s_until s) then (inl (ERateLimit (s_until s) None), s, [])
    else send base observedAt later key ttl cacheable req s
  end.
End RequestState.

(** What holds of a state between requests: the counter is the sum of the
    cached bodies, and the entry and byte limits hold. *)
Record cache_ok (s : requestState) : Prop := {
  ok_bytes : s_bytes s = body_sum (s_responses s);
  ok_size : (size (s_responses s) ≤ maxCachedResponses)%nat;
  ok_limit : s_bytes s ≤ maxCachedBytes }.

(** ** Lemmas: expiry and storing *)

Lemma body_sum_nonneg r : 0 ≤ body_sum r.
Proof. apply wsum_nonneg. intros v. apply slen_nonneg. Qed.

Lemma expire_spec s now :
  s_responses (expire s now) = filter (λ kv, live now kv.2 = true) (s_responses s) ∧
  s_bytes (expire s now)
    = s_bytes s - wsum (λ v, if live now v then 0 else slen (cr_body v)) (s_responses s).
Proof.
  unfold expire. set (R := s_responses s). set (f := λ k v, _).
  assert (∀ k, (map_fold f (R, s_bytes s) R).1 !! k =
      match R !! k with Some v => if live now v then R !! k else None | None => R !! k end) as H1.
  { apply (map_fold_weak_ind (λ acc m, ∀ k, acc.1 !! k =
      match m !! k with Some v => if live now v then R !! k else None | None => R !! k end)).
    - intros k. by rewrite lookup_empty.
    - intros k v m [r n] Hk IH j. simpl in *. destruct (decide (j = k)) as [->|Hjk].
      + rewrite lookup_insert_eq. specialize (IH k). rewrite Hk in IH.
        destruct (live now v); [done|]. simpl. by rewrite lookup_delete_eq.
      + rewrite lookup_insert_ne by done. rewrite <- IH.
        destruct (live now v); simpl; [done|]. by rewrite lookup_delete_ne. }
  assert ((map_fold f (R, s_bytes s) R).2 =
     s_bytes s - wsum (λ v, if live now v then 0 else slen (cr_body v)) R) as H2.
  { apply (map_fold_weak_ind (λ acc m, acc.2 =
      s_bytes s - wsum (λ v, if live now v then 0 else slen (cr_body v)) m)).
    - rewrite wsum_empty. simpl. lia.
    - intros k v m [r n] Hk IH. rewrite wsum_insert by done. simpl in *.
      destruct (live now v); simpl; lia. }
  destruct (map_fold f (R, s_bytes s) R) as [r n]. simpl in *. split; [|done].
  apply map_eq. intros k. rewrite H1. rewrite map_lookup_filter.
  destruct (R !! k) as [v|]; simpl; [|done]. case_guard as Hv; simpl in *.
  - by rewrite Hv.
  - by destruct (live now v).
Qed.

Lemma expire_ok s now : cache_ok s → cache_ok (expire s now).
Proof.
  intros [Hb Hs Hl]. destruct (expire_spec s now) as [Hr Hn].
  pose proof (wsum_filter (λ v, slen (cr_body v)) (live now) (s_responses s)) as Hsum.
  split.
  - rewrite Hn, Hr, Hb. unfold body_sum. rewrite Hsum. lia.
  - rewrite Hr. eapply Nat.le_trans; [|exact Hs]. apply map_size_filter.
  - rewrite Hn. assert (0 ≤ wsum (λ v, if live now v then 0 else slen (cr_body v)) (s_responses s));
      [|lia]. apply wsum_nonneg. intros v. pose proof (slen_nonneg (cr_body v)). by destruct (live now v).
Qed.

Lemma store_ok s key v : cache_ok s → cache_ok (store s key v).
Proof.
  intros [Hb Hs Hl]. unfold store. case_decide as Hbig; [done|].
  set (p := match s_responses s !! key with Some _ => _ | None => _ end).
  assert (p.1 = delete key (s_responses s) ∧ p.2 = body_sum (delete key (s_responses s)))
    as [Hp1 Hp2].
  { unfold p. destruct (s_responses s !! key) as [prev|] eqn:Hk; simpl.
    - split; [done|]. rewrite Hb. unfold body_sum.
      rewrite (wsum_delete (λ v, slen (cr_body v)) (s_responses s) key prev Hk). lia.
    - by rewrite delete_id by done. }
  destruct p as [r n]. simpl in *. subst r n. case_decide as Hfull.
  - split; simpl; [|rewrite map_size_insert_None by done; rewrite map_size_empty;
                    unfold maxCachedResponses; lia|lia].
    unfold body_sum. rewrite wsum_insert by done. rewrite wsum_empty. lia.
  - split; simpl; [unfold body_sum; rewrite wsum_insert by apply lookup_delete_eq; lia| |lia].
    rewrite map_size_insert_None by apply lookup_delete_eq. lia.
Qed.

(** ** Lemmas: throttling *)

Section Throttle.
Context (ParseTime : string → option Time).

Lemma observe_fields s resp body now :
  let s' := (observe ParseTime s resp body now).2 in
  s_listings s' = s_listings s ∧ s_responses s' = s_responses s ∧ s_bytes s' = s_bytes s ∧
  s_until s ≤ s_until s'.
Proof.
  unfold observe. destruct (is_throttled resp body); simpl; split_and!; try done;
    unfold After; repeat case_match; lia.
Qed.

Lemma observe_ok s resp body now :
  cache_ok s → cache_ok (observe ParseTime s resp body now).2.
Proof.
  intros [H1 H2 H3]. destruct (observe_fields s resp body now) as (_ & Hr & Hb & _).
  split; by rewrite ?Hr, ?Hb.
Qed.

Lemma observe_fst s resp body now :
  (observe ParseTime s resp body now).1 = is_throttled resp body.
Proof. unfold observe. by destruct (is_throttled resp body). Qed.

Lemma retryAt_after resp backoff now : now < retryAt ParseTime resp backoff now.
Proof.
  unfold retryAt. set (r := if decide _ then _ else _). unfold After, Add.
  destruct (now <? r) eqn:H; [lia|]. unfold Second. lia.
Qed.

Lemma nextBackoff_bounds b :
  b = 0 ∨ Minute ≤ b ≤ 15 * Minute → Minute ≤ nextBackoff b ≤ 15 * Minute.
Proof. unfold nextBackoff, Minute, Second. case_decide; lia. Qed.

(** What a throttled answer leaves behind. *)
Lemma observe_throttled s resp body now :
  (observe ParseTime s resp body now).1 = true →
  now < s_until (observe ParseTime s resp body now).2 ∧
  s_backoff (observe ParseTime s resp body now).2 = nextBackoff (s_backoff s).
Proof.
  unfold observe. destruct (is_throttled resp body) eqn:Ht; [|done]. intros _. simpl.
  pose proof (retryAt_after resp (nextBackoff (s_backoff s)) now) as Hr. split; [|done].
  unfold After. repeat case_match; lia.
Qed.

Lemma observe_backoff s resp body now :
  s_backoff s = 0 ∨ Minute ≤ s_backoff s ≤ 15 * Minute →
  let s' := (observe ParseTime s resp body now).2 in
  s_backoff s' = 0 ∨ Minute ≤ s_backoff s' ≤ 15 * Minute.
Proof.
  intros H. unfold observe. destruct (is_throttled resp body); simpl.
  - right. by apply nextBackoff_bounds.
  - case_bool_decide; [by left|done].
Qed.
End Throttle.

(** The cache hit a request may be served from. *)
Definition hit (scope : string) (ttl : Duration) (req : Request) (now : Time) (s : requestState)
    : option cachedResponse :=
  if bool_decide (rq_Method req = MethodGet) && bool_decide (0 < ttl)
  then match s_responses s !! cacheKey scope (rq_URL req) with
       | Some v => if live now v then Some v else None
       | None => None
       end
  else None.

Lemma expire_lookup s now key :
  s_responses (expire s now) !! key
  = match s_responses s !! key with
    | Some v => if live now v then Some v else None
    | None => None
    end.
Proof.
  destruct (expire_spec s now) as [-> _]. rewrite map_lookup_filter.
  destruct (s_responses s !! key) as [v|]; simpl; [|done].
  case_guard as Hv; simpl in *; destruct (live now v); done.
Qed.

Lemma expire_until s now : s_until (expire s now) = s_until s.
Proof. unfold expire. by destruct (map_fold _ _ _). Qed.
Lemma expire_listings s now : s_listings (expire s now) = s_listings s.
Proof. unfold expire. by destruct (map_fold _ _ _). Qed.
Lemma store_until s key v : s_until (store s key v) = s_until s.
Proof. unfold store. repeat case_match; done. Qed.
Lemma store_listings s key v : s_listings (store s key v) = s_listings s.
Proof. unfold store. repeat case_match; done. Qed.

(** What [RoundTrip] inspects of a body: at most one byte over the limit. *)
Definition inspected (resp : Response) : string :=
  stake (Z.to_nat (maxCachedBytes + 1)) (rr_Body resp).

Definition backoff_ok (s : requestState) : Prop :=
  s_backoff s = 0 ∨ Minute ≤ s_backoff s ≤ 15 * Minute.

Lemma expire_backoff s now : s_backoff (expire s now) = s_backoff s.
Proof. unfold expire. by destruct (map_fold _ _ _). Qed.
Lemma store_backoff s key v : s_backoff (store s key v) = s_backoff s.
Proof. unfold store. repeat case_match; done. Qed.

Lemma newRequestState_ok : cache_ok newRequestState ∧ backoff_ok newRequestState.
Proof. split; [split; vm_compute; [done| |]|by left]; [|intros [=]]. lia. Qed.

Section RoundTripLemmas.
Context (ParseTime : string → option Time).

Lemma send_sent base observedAt later key ttl cacheable req s :
  (send ParseTime base observedAt later key ttl cacheable req s).2 = [req].
Proof.
  unfold send. destruct (base req); [done|].
  destruct (observe _ _ _ "" _) as [thr s1]. case_match; [done|].
  destruct (if thr then _ else observe _ _ _ _ _) as [thr2 s2]. by repeat case_match.
Qed.

(** A property kept by each state operation is kept by [RoundTrip]. *)
Lemma send_preserves (P : requestState → Prop) base observedAt later key ttl cacheable req s :
  (∀ s resp body t, P s → P (observe ParseTime s resp body t).2) →
  (∀ s k v, P s → P (store s k v)) →
  P s → P (send ParseTime base observedAt later key ttl cacheable req s).1.2.
Proof.
  intros Ho Hst Hs. unfold send. destruct (base req) as [e|resp]; [done|].
  pose proof (Ho _ resp "" observedAt Hs) as H1.
  destruct (observe ParseTime s resp "" observedAt) as [thr s1]. simpl in H1.
  case_match; [done|].
  match goal with |- context [observe ParseTime s1 resp ?b _] => set (body := b) end.
  assert (P (if thr then (true, s1) else observe ParseTime s1 resp body observedAt).2) as H2
    by (destruct thr; [done|by apply Ho]).
  destruct (if thr then (true, s1) else _) as [thr2 s2]. simpl in H2.
  destruct thr2; [done|]. repeat case_match; simpl; auto.
Qed.

Lemma RoundTrip_preserves (P : requestState → Prop) base now observedAt later scope ttl req s :
  (∀ s t, P s → P (expire s t)) →
  (∀ s resp body t, P s → P (observe ParseTime s resp body t).2) →
  (∀ s k v, P s → P (store s k v)) →
  P s → P (RoundTrip ParseTime base now observedAt later scope ttl req s).1.2.
Proof.
  intros He Ho Hst Hs. unfold RoundTrip. apply (He _ now) in Hs.
  repeat case_match; try exact Hs; by apply send_preserves.
Qed.

Lemma RoundTrip_until_mono base now observedAt later scope ttl req s :
  s_until s ≤ s_until (RoundTrip ParseTime base now observedAt later scope ttl req s).1.2.
Proof.
  apply (RoundTrip_preserves (λ s', s_until s ≤ s_until s')); [| | |done].
  - intros s' t. by rewrite expire_until.
  - intros s' resp body t H. destruct (observe_fields ParseTime s' resp body t) as (_ & _ & _ & Hu). lia.
  - intros s' k v. by rewrite store_until.
Qed.

Lemma RoundTrip_ok base now observedAt later scope ttl req s :
  cache_ok s → backoff_ok s →
  cache_ok (RoundTrip ParseTime base now observedAt later scope ttl req s).1.2 ∧
  backoff_ok (RoundTrip ParseTime base now observedAt later scope ttl req s).1.2.
Proof.
  intros Hc Hb. split.
  - apply RoundTrip_preserves; [|by intros; apply observe_ok| |done].
    + intros. by apply expire_ok.
    + intros. by apply store_ok.
  - apply RoundTrip_preserves; [|by intros; apply observe_backoff| |done]; unfold backoff_ok.
    + intros s' t. by rewrite expire_backoff.
    + intros s' k v. by rewrite store_backoff.
Qed.

Lemma RoundTrip_listings base now observedAt later scope ttl req s :
  s_listings (RoundTrip ParseTime base now observedAt later scope ttl req s).1.2 = s_listings s.
Proof.
  apply (RoundTrip_preserves (λ s', s_listings s' = s_listings s)); [| | |done].
  - intros s' t. by rewrite expire_listings.
  - intros s' resp body t <-. apply observe_fields.
  - intros s' k v. by rewrite store_listings.
Qed.

Lemma send_throttled base observedAt later key ttl cacheable req s resp :
  base req = inr resp → rr_ReadErr resp = None →
  is_throttled resp "" = true ∨ is_throttled resp (inspected resp) = true →
  let '(r, s', _) := send ParseTime base observedAt later key ttl cacheable req s in
  observedAt < s_until s' ∧ ∃ inner, r = inl (ERateLimit (s_until s') inner).
Proof.
  intros Hresp Hread Ht. unfold send. rewrite Hresp, Hread.
  pose proof (observe_throttled ParseTime s resp "" observedAt) as Ho.
  rewrite observe_fst in Ho. pose proof (observe_fst ParseTime s resp "" observedAt) as Hf.
  destruct (observe ParseTime s resp "" observedAt) as [thr s1]. simpl in Ho, Hf. subst thr.
  set (reads := orb _ _).
  assert (reads = true) as Hreads.
  { revert Ht. unfold is_throttled, reads.
    destruct (bool_decide (rr_Status resp = 429)), (bool_decide (rr_Status resp = 403)); simpl;
      [done..|naive_solver]. }
  rewrite Hreads. destruct (is_throttled resp "") eqn:Hthr.
  { destruct (Ho eq_refl). split; [done|by eexists]. }
  destruct Ht as [Ht|Ht]; [done|]. fold (inspected resp).
  pose proof (observe_throttled ParseTime s1 resp (inspected resp) observedAt) as Ho2.
  pose proof (observe_fst ParseTime s1 resp (inspected resp) observedAt) as Hf2.
  destruct (observe ParseTime s1 resp _ observedAt) as [thr2 s2]. simpl in Hf2, Ho2.
  rewrite Ht in Hf2. subst thr2. destruct (Ho2 eq_refl). split; [done|by eexists].
Qed.

(** Nothing is sent before the deadline. *)
Lemma RoundTrip_quiet s base now observedAt later scope ttl req :
  now < s_until s → (RoundTrip ParseTime base now observedAt later scope ttl req s).2 = [].
Proof.
  intros Hn. unfold RoundTrip. rewrite expire_until.
  assert (Before now (s_until s) = true) as -> by (unfold Before; lia).
  by destruct (if bool_decide _ && bool_decide _ then _ else _).
Qed.
End RoundTripLemmas.

(** ** Properties *)

(** What reaches the host.  A live cached answer is served without a
    request; while the state is throttled nothing is sent and the caller gets
    the shared deadline; otherwise exactly the one request goes out. *)
Theorem RoundTrip_sends ParseTime base now observedAt later scope ttl req s :
  let '(r, s', sent) := RoundTrip ParseTime base now observedAt later scope ttl req s in
  match hit scope ttl req now s with
  | Some v => r = inr (cached_response v) ∧ s' = expire s now ∧ sent = []
  | None =>
      if Before now (s_until s)
      then r = inl (ERateLimit (s_until s) None) ∧ s' = expire s now ∧ sent = []
      else sent = [req]
  end.
Proof.
  unfold RoundTrip, hit. rewrite expire_lookup, expire_until.
  set (c := andb _ _).
  pose proof (send_sent ParseTime base observedAt later (cacheKey scope (rq_URL req)) ttl c req
    (expire s now)) as Hsent.
  destruct c; [destruct (match s_responses s !! _ with Some _ => _ | None => _ end); [done|]|];
    (destruct (Before now (s_until s)); [done|]);
    by destruct (send _ _ _ _ _ _ _ _ _) as [[r s'] sent].
Qed.

(** C25: a request keeps the state's invariants: the byte counter is exact, at
    most 256 entries and 1 MiB are cached, the backoff is zero or between one
    and fifteen minutes, the deadline never moves back, and the in-flight
    listings are untouched. *)
Theorem RoundTrip_invariant ParseTime base now observedAt later scope ttl req s
    (Hc : cache_ok s) (Hb : backoff_ok s) :
  let s' := (RoundTrip ParseTime base now observedAt later scope ttl req s).1.2 in
  cache_ok s' ∧ backoff_ok s' ∧ s_until s ≤ s_until s' ∧ s_listings s' = s_listings s.
Proof.
  destruct (RoundTrip_ok ParseTime base now observedAt later scope ttl req s Hc Hb).
  split_and!; [done|done|apply RoundTrip_until_mono|apply RoundTrip_listings].
Qed.

Definition get_req : Request :=
  {| rq_Method := "GET"; rq_Scheme := "https"; rq_Host := "api.github.com";
     rq_URL := "https://api.github.com/user/packages" |}.
Definition resp429 : Response :=
  {| rr_Status := 429; rr_Header := {[ hRetryAfter := ["30"] ]}; rr_Body := "slow down";
     rr_ReadErr := None |}.

Lemma RoundTrip_invariant_witness :
  cache_ok (RoundTrip (λ _, None) (λ _, inr resp429) 1 2 3 "" Minute get_req newRequestState).1.2.
Proof.
  exact (proj1 (RoundTrip_invariant (λ _, None) (λ _, inr resp429) 1 2 3 "" Minute get_req
    newRequestState (proj1 newRequestState_ok) (proj2 newRequestState_ok))).
Defined.

(** After a throttled answer the deadline lies after the moment it was
    observed, the caller is told that deadline, and no request, whatever its
    key, is sent on this state before it. *)
Theorem RoundTrip_throttled ParseTime base now observedAt later scope ttl req s resp
    (Hresp : base req = inr resp) (Hmiss : hit scope ttl req now s = None)
    (Hopen : Before now (s_until s) = false) (Hread : rr_ReadErr resp = None)
    (Ht : is_throttled resp "" = true ∨ is_throttled resp (inspected resp) = true) :
  let '(r, s', _) := RoundTrip ParseTime base now observedAt later scope ttl req s in
  observedAt < s_until s' ∧ (∃ inner, r = inl (ERateLimit (s_until s') inner)) ∧
  ∀ base2 now2 observed2 later2 scope2 ttl2 req2, now2 < s_until s' →
    (RoundTrip ParseTime base2 now2 observed2 later2 scope2 ttl2 req2 s').2 = [].
Proof.
  unfold RoundTrip at 1. unfold hit in Hmiss. rewrite expire_lookup, expire_until, Hopen.
  rewrite Hmiss.
  pose proof (send_throttled ParseTime base observedAt later (cacheKey scope (rq_URL req)) ttl
    (bool_decide (rq_Method req = MethodGet) && bool_decide (0 < ttl)) req (expire s now) resp
    Hresp Hread Ht) as H.
  destruct (send _ _ _ _ _ _ _ _ _) as [[r s'] sent]. destruct H as [H1 H2].
  split_and!; [done|done|]. intros. by apply RoundTrip_quiet.
Qed.

Lemma RoundTrip_throttled_witness :
  ∃ r s' sent,
    RoundTrip (λ _, None) (λ _, inr resp429) 1 2 3 "" Minute get_req newRequestState = (r, s', sent) ∧
    s_until s' = 2 + 30 * Second ∧ sent = [get_req] ∧ 2 < s_until s' ∧
    (RoundTrip (λ _, None) (λ _, inr resp429) 4 5 6 "" Minute get_req s').2 = [].
Proof.
  pose proof (RoundTrip_throttled (λ _, None) (λ _, inr resp429) 1 2 3 "" Minute get_req
    newRequestState resp429 eq_refl ltac:(vm_compute; reflexivity) ltac:(vm_compute; reflexivity)
    eq_refl ltac:(left; vm_compute; reflexivity)) as H.
  destruct (RoundTrip (λ _, None) (λ _, inr resp429) 1 2 3 "" Minute get_req newRequestState)
    as [[r s'] sent] eqn:E. destruct H as (H1 & _ & H2).
  assert (s_until s' = 2 + 30 * Second ∧ sent = [get_req]) as [Hu Hs].
  { vm_compute in E. injection E as <- <- <-. vm_compute. done. }
  exists r, s', sent. split_and!; [done|exact Hu|exact Hs|exact H1|]. apply H2.
  rewrite Hu. vm_compute. reflexivity.
Defined.
