(* ===== verification/RequestGate.v ===== *)
(** * backend/github/request_cache.go, the gates; package_cache.go

    Callers run concurrently.  [acquire] looks a state up, creates or evicts
    under the cache's mutex and then waits for the state's one-token gate;
    [release] gives the token back.  A package listing keeps its state pinned by
    an in-flight entry while it fetches without the gate, and takes the gate
    once more to publish.  The system is a step relation: one step per critical
    section or channel operation, any caller may take the next one, the clock
    reading of a step is arbitrary, and Go's map iteration order is any order. *)

From S2P Require Import Prelude GoStrings Encoding GoTime Errors RequestCache.
From Stdlib Require Import Ascii Lia.

#[local] Open Scope string_scope.
#[local] Open Scope Z_scope.

(** ** State *)

Definition requestIdentity : Type := string * string.

(** A [requestState] with the fields the cache's mutex protects and its gate:
    [g_token] says whether the channel holds its token. *)
Record gateState := {
  g_lastUsed : Time; g_users : Z; g_token : bool; g_data : requestState }.

Definition set_users (g : gateState) (u : Z) (now : Time) : gateState :=
  {| g_lastUsed := now; g_users := u; g_token := g_token g; g_data := g_data g |}.
Definition set_token (g : gateState) (b : bool) : gateState :=
  {| g_lastUsed := g_lastUsed g; g_users := g_users g; g_token := b; g_data := g_data g |}.
Definition set_data (g : gateState) (d : requestState) : gateState :=
  {| g_lastUsed := g_lastUsed g; g_users := g_users g; g_token := g_token g; g_data := d |}.

(** The cache: allocated states, and the map from identities to them. *)
Record requestCache := {
  rc_heap : gmap nat gateState; rc_states : gmap requestIdentity nat; rc_next : nat }.

(** ** acquire *)

Definition evictable (now : Time) (g : gateState) : bool :=
  bool_decide (g_users g = 0) && bool_decide (s_listings (g_data g) = ∅)
  && negb (Before now (s_until (g_data g))).

(** The scan over the states whose gate is free: long idle ones leave, the
    least recently used evictable one is remembered. *)
Fixpoint scan (now : Time) (heap : gmap nat gateState) (l : list (requestIdentity * nat))
    (states : gmap requestIdentity nat) (oldest : option (requestIdentity * Time))
    : gmap requestIdentity nat * option (requestIdentity * Time) :=
  match l with
  | [] => (states, oldest)
  | (k, sid) :: l =>
      match heap !! sid with
      | Some g =>
          if g_token g then
            if evictable now g && (Hour <=? Sub now (g_lastUsed g))
            then scan now heap l (delete k states) oldest
            else if evictable now g &&
                    match oldest with None => true | Some (_, t) => Before (g_lastUsed g) t end
            then scan now heap l states (Some (k, g_lastUsed g))
            else scan now heap l states oldest
          else scan now heap l states oldest
      | None => scan now heap l states oldest
      end
  end.

Definition newGateState (now : Time) : gateState :=
  {| g_lastUsed := now; g_users := 0; g_token := true; g_data := newRequestState |}.

(** [acquire] up to the unlock; [None] is the capacity error. *)
Definition acquire_lock (now : Time) (order : list (requestIdentity * nat))
    (key : requestIdentity) (c : requestCache) : option nat * requestCache :=
  let '(states, oldest) := scan now (rc_heap c) order (rc_states c) None in
  match states !! key with
  | Some sid =>
      (Some sid,
       {| rc_heap := alter (λ g, set_users g (g_users g + 1) now) sid (rc_heap c);
          rc_states := states; rc_next := rc_next c |})
  | None =>
      let states :=
        match oldest with
        | Some (evict, _) =>
            if decide (maxRequestStates ≤ size states)%nat then delete evict states else states
        | None => states
        end in
      if decide (maxRequestStates ≤ size states)%nat then
        (None, {| rc_heap := rc_heap c; rc_states := states; rc_next := rc_next c |})
      else
        let sid := rc_next c in
        (Some sid,
         {| rc_heap := <[sid := set_users (newGateState now) 1 now]> (rc_heap c);
            rc_states := <[key := sid]> states; rc_next := S sid |})
  end.

Definition release (now : Time) (sid : nat) (c : requestCache) : requestCache :=
  {| rc_heap := alter (λ g, set_token (set_users g (g_users g - 1) now) true) sid (rc_heap c);
     rc_states := rc_states c; rc_next := rc_next c |}.

Definition update (sid : nat) (f : gateState → gateState) (c : requestCache) : requestCache :=
  {| rc_heap := alter f sid (rc_heap c); rc_states := rc_states c; rc_next := rc_next c |}.

(** ** cachedPackageListing

    What a caller that holds the gate finds, and how a finished fetch is
    published; a flight is named by the caller that runs it. *)
Inductive Lookup := Cached (body : string) | Join (flight : nat) | CapacityReached | Start.

Definition listing_lookup (key : string) (fresh : bool) (s : requestState) : Lookup :=
  match s_responses s !! key with
  | Some cached =>
      if negb fresh then Cached (cr_body cached)
      else match s_listings s !! key with
           | Some f => Join f
           | None => if decide (maxCachedResponses ≤ size (s_listings s))%nat
                     then CapacityReached else Start
           end
  | None =>
      match s_listings s !! key with
      | Some f => Join f
      | None => if decide (maxCachedResponses ≤ size (s_listings s))%nat
                then CapacityReached else Start
      end
  end.

Definition listing_begin (key : string) (flight : nat) (s : requestState) : requestState :=
  set_listings s (<[key := flight]> (s_listings s)).

(** [fetched] is the marshalled complete listing or the fetch's error; the
    flight's result is what the waiters get. *)
Definition listing_publish (key : string) (fetched : error + string) (now later : Time)
    (s : requestState) : (error + string) * requestState :=
  let s := match fetched with
           | inl _ => s
           | inr body => store s key {| cr_status := 200; cr_header := ∅; cr_body := body;
                                        cr_expires := Add now packageCacheTTL |}
           end in
  let result := match fetched with
                | inl e => inl (retryError s e later)
                | inr body => inr body
                end in
  (result, set_listings s (delete key (s_listings s))).

(** ** The system *)

(** Where a caller is. *)
Inductive pc :=
  | Waiting (id : requestIdentity) (sid : nat)
  | Holding (id : requestIdentity) (sid : nat)
  | Fetching (id : requestIdentity) (sid : nat) (key : string)
  | Publishing (id : requestIdentity) (sid : nat) (key : string).

Record system := { y_cache : requestCache; y_callers : gmap nat pc }.

Definition init : system :=
  {| y_cache := {| rc_heap := ∅; rc_states := ∅; rc_next := 0 |}; y_callers := ∅ |}.

Definition data_of (c : requestCache) (sid : nat) : option requestState :=
  g_data <$> rc_heap c !! sid.
Definition token_of (c : requestCache) (sid : nat) : option bool := g_token <$> rc_heap c !! sid.

Section System.
Context (ParseTime : string → option Time).

Inductive step : system → system → Prop :=
  | S_acquire t id now order sid c cs c' :
      cs !! t = None → order ≡ₚ map_to_list (rc_states c) →
      acquire_lock now order id c = (Some sid, c') →
      step {| y_cache := c; y_callers := cs |}
           {| y_cache := c'; y_callers := <[t := Waiting id sid]> cs |}
  | S_capacity id now order c cs c' :
      order ≡ₚ map_to_list (rc_states c) →
      acquire_lock now order id c = (None, c') →
      step {| y_cache := c; y_callers := cs |} {| y_cache := c'; y_callers := cs |}
  | S_cancel t id sid c cs :
      cs !! t = Some (Waiting id sid) →
      step {| y_cache := c; y_callers := cs |}
           {| y_cache := update sid (λ g, set_users g (g_users g - 1) (g_lastUsed g)) c;
              y_callers := delete t cs |}
  | S_gate t id sid c cs :
      cs !! t = Some (Waiting id sid) → token_of c sid = Some true →
      step {| y_cache := c; y_callers := cs |}
           {| y_cache := update sid (λ g, set_token g false) c;
              y_callers := <[t := Holding id sid]> cs |}
  | S_roundtrip t id sid c cs base now observedAt later scope ttl req :
      cs !! t = Some (Holding id sid) →
      step {| y_cache := c; y_callers := cs |}
           {| y_cache := update sid (λ g, set_data g
                (RoundTrip ParseTime base now observedAt later scope ttl req (g_data g)).1.2) c;
              y_callers := cs |}
  | S_expire t id sid c cs now :
      cs !! t = Some (Holding id sid) →
      step {| y_cache := c; y_callers := cs |}
           {| y_cache := update sid (λ g, set_data g (expire (g_data g) now)) c; y_callers := cs |}
  | S_release t id sid c cs now :
      cs !! t = Some (Holding id sid) →
      step {| y_cache := c; y_callers := cs |}
           {| y_cache := release now sid c; y_callers := delete t cs |}
  | S_listing t id sid c cs now key fresh s :
      cs !! t = Some (Holding id sid) → data_of c sid = Some s →
      listing_lookup key fresh s = Start →
      step {| y_cache := c; y_callers := cs |}
           {| y_cache := release now sid (update sid (λ g, set_data g (listing_begin key t (g_data g))) c);
              y_callers := <[t := Fetching id sid key]> cs |}
  | S_publish_gate t id sid c cs key :
      cs !! t = Some (Fetching id sid key) → token_of c sid = Some true →
      step {| y_cache := c; y_callers := cs |}
           {| y_cache := update sid (λ g, set_token g false) c;
              y_callers := <[t := Publishing id sid key]> cs |}
  | S_publish t id sid c cs key fetched now later :
      cs !! t = Some (Publishing id sid key) →
      step {| y_cache := c; y_callers := cs |}
           {| y_cache := update sid (λ g, set_token
                (set_data g (listing_publish key fetched now later (g_data g)).2) true) c;
              y_callers := delete t cs |}.
End System.

(** ** The invariant *)

Definition pc_id (p : pc) : requestIdentity :=
  match p with Waiting i _ | Holding i _ | Fetching i _ _ | Publishing i _ _ => i end.
Definition pc_sid (p : pc) : nat :=
  match p with Waiting _ s | Holding _ s | Fetching _ s _ | Publishing _ s _ => s end.
Definition pc_key (p : pc) : option string :=
  match p with Fetching _ _ k | Publishing _ _ k => Some k | _ => None end.

(** Callers that hold the gate's token. *)
Definition holds (p : pc) : bool :=
  match p with Holding _ _ | Publishing _ _ _ => true | _ => false end.
(** Callers counted in [users]. *)
Definition counted (p : pc) : bool :=
  match p with Waiting _ _ | Holding _ _ => true | _ => false end.

Definition indicator (f : pc → bool) (sid : nat) (p : pc) : Z :=
  if f p && bool_decide (pc_sid p = sid) then 1 else 0.
Definition callers_on (f : pc → bool) (sid : nat) (cs : gmap nat pc) : Z :=
  wsum (indicator f sid) cs.

Record inv (c : requestCache) (cs : gmap nat pc) : Prop := {
  i_map : ∀ t p, cs !! t = Some p → rc_states c !! pc_id p = Some (pc_sid p);
  i_heap : ∀ id sid, rc_states c !! id = Some sid → is_Some (rc_heap c !! sid);
  i_inj : ∀ id1 id2 sid,
    rc_states c !! id1 = Some sid → rc_states c !! id2 = Some sid → id1 = id2;
  i_fresh : ∀ sid, is_Some (rc_heap c !! sid) → (sid < rc_next c)%nat;
  i_users : ∀ sid g, rc_heap c !! sid = Some g → g_users g = callers_on counted sid cs;
  i_token : ∀ sid g, rc_heap c !! sid = Some g →
    callers_on holds sid cs = if g_token g then 0 else 1;
  i_flight : ∀ t p key g, cs !! t = Some p → pc_key p = Some key →
    rc_heap c !! pc_sid p = Some g → s_listings (g_data g) !! key = Some t;
  i_data : ∀ sid g, rc_heap c !! sid = Some g → cache_ok (g_data g) ∧ backoff_ok (g_data g);
  i_size : (size (rc_states c) ≤ maxRequestStates)%nat }.

(** ** Lemmas: counting callers *)

Lemma indicator_nonneg f sid p : 0 ≤ indicator f sid p.
Proof. unfold indicator. by destruct (_ && _). Qed.

Lemma callers_on_pos f sid cs t p :
  cs !! t = Some p → f p = true → pc_sid p = sid → 1 ≤ callers_on f sid cs.
Proof.
  intros Ht Hf <-.
  pose proof (wsum_ge (indicator f (pc_sid p)) cs t p (indicator_nonneg f _) Ht) as H.
  unfold indicator in H at 1. rewrite Hf, bool_decide_eq_true_2 in H by done. exact H.
Qed.

Lemma callers_on_two f sid cs t1 t2 p1 p2 :
  t1 ≠ t2 → cs !! t1 = Some p1 → cs !! t2 = Some p2 → f p1 = true → f p2 = true →
  pc_sid p1 = sid → pc_sid p2 = sid → 2 ≤ callers_on f sid cs.
Proof.
  intros Hne H1 H2 Hf1 Hf2 Hs1 Hs2. unfold callers_on.
  rewrite (wsum_delete _ _ _ _ H1). unfold indicator at 1.
  rewrite Hf1, bool_decide_eq_true_2 by done. cbn [andb].
  assert (1 ≤ callers_on f sid (delete t1 cs)); [|unfold callers_on in *; lia].
  apply (callers_on_pos f sid (delete t1 cs) t2 p2); [by rewrite lookup_delete_ne|done|done].
Qed.

Lemma callers_on_none f sid cs :
  (∀ t p, cs !! t = Some p → pc_sid p ≠ sid) → callers_on f sid cs = 0.
Proof.
  unfold callers_on. induction cs as [|t p cs Ht IH] using map_ind; [done|]. intros H.
  rewrite wsum_insert by done. rewrite IH.
  - unfold indicator. rewrite bool_decide_eq_false_2; [by rewrite andb_false_r|].
    apply (H t). apply lookup_insert_eq.
  - intros t' p' H'. apply (H t'). rewrite lookup_insert_ne; [done|congruence].
Qed.

Definition opt_ind (f : pc → bool) (o : option pc) : Z :=
  match o with Some p => if f p then 1 else 0 | None => 0 end.

(** One caller on state [sid] moves from [old] to [new]. *)
Lemma callers_on_move f sid sid' cs t (new : option pc) :
  (∀ p, cs !! t = Some p → pc_sid p = sid) → (∀ p, new = Some p → pc_sid p = sid) →
  callers_on f sid' (partial_alter (λ _, new) t cs)
  = if decide (sid' = sid)
    then callers_on f sid' cs - opt_ind f (cs !! t) + opt_ind f new
    else callers_on f sid' cs.
Proof.
  intros Hold Hnew. unfold callers_on. rewrite wsum_alter.
  assert (∀ o : option pc, (∀ p, o = Some p → pc_sid p = sid) →
    from_option (indicator f sid') 0 o = if decide (sid' = sid) then opt_ind f o else 0) as Ho.
  { intros [p|] Hp; simpl; [|by case_decide]. unfold indicator. rewrite (Hp p) by done.
    case_decide as Hs; [subst; rewrite bool_decide_eq_true_2 by done; by rewrite andb_true_r|].
    rewrite bool_decide_eq_false_2 by congruence. by rewrite andb_false_r. }
  rewrite (Ho _ Hold), (Ho _ Hnew). case_decide; lia.
Qed.

Lemma no_callers_on_unreferenced c cs sid :
  inv c cs → (∀ id, rc_states c !! id ≠ Some sid) → ∀ t p, cs !! t = Some p → pc_sid p ≠ sid.
Proof. intros Hi Hno t p Ht <-. by apply (Hno (pc_id p)), (i_map _ _ Hi t). Qed.

(** An evictable state has no caller, waiting, holding or fetching. *)
Lemma evictable_idle c cs now sid g :
  inv c cs → rc_heap c !! sid = Some g → evictable now g = true →
  ∀ t p, cs !! t = Some p → pc_sid p ≠ sid.
Proof.
  intros Hi Hg He t p Ht Hs. unfold evictable in He.
  apply andb_true_iff in He as [He _]. apply andb_true_iff in He as [Hu Hl].
  apply bool_decide_eq_true in Hu, Hl.
  destruct (pc_key p) as [key|] eqn:Hk.
  - rewrite <- Hs in Hg. pose proof (i_flight _ _ Hi t p key g Ht Hk Hg) as H.
    by rewrite Hl in H.
  - assert (counted p = true) as Hc by (by destruct p).
    pose proof (callers_on_pos counted sid cs t p Ht Hc Hs).
    pose proof (i_users _ _ Hi sid g Hg). lia.
Qed.

(** ** Lemmas: steps keep the invariant *)

Definition with_states (c : requestCache) (m : gmap requestIdentity nat) : requestCache :=
  {| rc_heap := rc_heap c; rc_states := m; rc_next := rc_next c |}.

(** One caller moves on one existing state, which is updated by [f]. *)
Lemma inv_move c cs t (new : option pc) sid g f :
  inv c cs → rc_heap c !! sid = Some g →
  (∀ p, cs !! t = Some p → pc_sid p = sid) →
  (∀ p, new = Some p → pc_sid p = sid ∧ rc_states c !! pc_id p = Some sid) →
  g_users (f g) = g_users g - opt_ind counted (cs !! t) + opt_ind counted new →
  (if g_token (f g) then 0 else 1)
    = (if g_token g then 0 else 1) - opt_ind holds (cs !! t) + opt_ind holds new →
  (∀ t' key, t' ≠ t → s_listings (g_data g) !! key = Some t' →
     s_listings (g_data (f g)) !! key = Some t') →
  (∀ p key, new = Some p → pc_key p = Some key → s_listings (g_data (f g)) !! key = Some t) →
  cache_ok (g_data (f g)) ∧ backoff_ok (g_data (f g)) →
  inv (update sid f c) (partial_alter (λ _, new) t cs).
Proof.
  intros Hi Hg Hold Hnew Hu Ht Hfl Hfn Hd.
  assert (Hl : ∀ sid' g', rc_heap (update sid f c) !! sid' = Some g' →
     (sid' = sid ∧ g' = f g) ∨ (sid' ≠ sid ∧ rc_heap c !! sid' = Some g')).
  { intros sid' g'. simpl. rewrite lookup_alter_Some. naive_solver. }
  assert (Hcs : ∀ t' p, partial_alter (λ _, new) t cs !! t' = Some p →
     (t' = t ∧ new = Some p) ∨ (t' ≠ t ∧ cs !! t' = Some p)).
  { intros t' p. rewrite lookup_partial_alter. case_decide; [subst|]; auto. }
  assert (Hmove : ∀ h sid', callers_on h sid' (partial_alter (λ _, new) t cs)
     = if decide (sid' = sid) then callers_on h sid' cs - opt_ind h (cs !! t) + opt_ind h new
       else callers_on h sid' cs).
  { intros h sid'. apply callers_on_move; [done|]. intros p Hp. by apply Hnew. }
  split; simpl.
  - intros t' p [[-> Hp]|[_ Hp]]%Hcs; [destruct (Hnew p Hp); congruence|by eapply i_map].
  - intros id' sid' H. destruct (i_heap _ _ Hi id' sid' H) as [g' Hg'].
    apply lookup_alter_is_Some. by eexists.
  - apply (i_inj _ _ Hi).
  - intros sid' H%lookup_alter_is_Some. by eapply i_fresh.
  - intros sid' g' H. rewrite Hmove. destruct (Hl _ _ H) as [[-> ->]|[Hn Hg']].
    + rewrite decide_True by done. rewrite Hu. by rewrite (i_users _ _ Hi sid g).
    + rewrite decide_False by done. by eapply i_users.
  - intros sid' g' H. rewrite Hmove. destruct (Hl _ _ H) as [[-> ->]|[Hn Hg']].
    + rewrite decide_True by done. rewrite Ht. by rewrite (i_token _ _ Hi sid g).
    + rewrite decide_False by done. by eapply i_token.
  - intros t' p key g' Hp Hk H. destruct (Hl _ _ H) as [[Hs ->]|[Hn Hg']].
    + destruct (Hcs _ _ Hp) as [[-> Hp']|[Hne Hp']]; [by eapply Hfn|].
      apply Hfl; [done|]. apply (i_flight _ _ Hi t' p key g); [done..|congruence].
    + destruct (Hcs _ _ Hp) as [[-> Hp']|[Hne Hp']]; [by destruct (Hnew p Hp')|].
      by apply (i_flight _ _ Hi t' p key g').
  - intros sid' g' H. destruct (Hl _ _ H) as [[-> ->]|[_ Hg']]; [done|by eapply i_data].
  - apply (i_size _ _ Hi).
Qed.

(** Dropping map entries of states nobody refers to. *)
Lemma inv_shrink c cs m :
  inv c cs → m ⊆ rc_states c →
  (∀ k sid, rc_states c !! k = Some sid → m !! k = None →
     ∀ t p, cs !! t = Some p → pc_sid p ≠ sid) →
  inv (with_states c m) cs.
Proof.
  intros Hi Hsub Hdrop.
  assert (∀ id sid, m !! id = Some sid → rc_states c !! id = Some sid) as Hm
    by (intros; by eapply lookup_weaken).
  split; simpl.
  - intros t p Ht. pose proof (i_map _ _ Hi t p Ht) as H.
    destruct (m !! pc_id p) as [sid|] eqn:E; [apply Hm in E; congruence|].
    by destruct (Hdrop _ _ H E t p Ht).
  - intros id sid H%Hm. by eapply i_heap.
  - intros id1 id2 sid H1%Hm H2%Hm. by eapply i_inj.
  - apply (i_fresh _ _ Hi).
  - apply (i_users _ _ Hi).
  - apply (i_token _ _ Hi).
  - apply (i_flight _ _ Hi).
  - apply (i_data _ _ Hi).
  - eapply Nat.le_trans; [by apply map_subseteq_size|apply (i_size _ _ Hi)].
Qed.

(** What the scan removes and proposes is evictable. *)
Lemma scan_spec now heap l states oldest states' oldest' :
  scan now heap l states oldest = (states', oldest') →
  states' ⊆ states ∧
  (∀ k, states !! k ≠ None → states' !! k = None →
     ∃ sid g, (k, sid) ∈ l ∧ heap !! sid = Some g ∧ evictable now g = true) ∧
  (∀ k t, oldest' = Some (k, t) → oldest = Some (k, t) ∨
     ∃ sid g, (k, sid) ∈ l ∧ heap !! sid = Some g ∧ evictable now g = true).
Proof.
  revert states oldest. induction l as [|[k sid] l IH]; intros states oldest; simpl.
  { intros [= <- <-]. split_and!; [done| |by left]. intros k H1 H2. congruence. }
  assert (Hskip : scan now heap l states oldest = (states', oldest') →
    states' ⊆ states ∧
    (∀ k0, states !! k0 ≠ None → states' !! k0 = None →
       ∃ sid0 g, (k0, sid0) ∈ (k, sid) :: l ∧ heap !! sid0 = Some g ∧ evictable now g = true) ∧
    (∀ k0 t, oldest' = Some (k0, t) → oldest = Some (k0, t) ∨
       ∃ sid0 g, (k0, sid0) ∈ (k, sid) :: l ∧ heap !! sid0 = Some g ∧ evictable now g = true)).
  { intros (H1 & H2 & H3)%IH. split_and!; [done| |].
    - intros k0 Ha Hb. destruct (H2 k0 Ha Hb) as (s0 & g & ? & ?). exists s0, g. split; [by right|done].
    - intros k0 t Ha. destruct (H3 k0 t Ha) as [|(s0 & g & ? & ?)]; [by left|right].
      exists s0, g. split; [by right|done]. }
  destruct (heap !! sid) as [g|] eqn:Hg; [|done]. destruct (g_token g); [|done].
  destruct (evictable now g) eqn:He; [|done]. cbn [andb].
  destruct (Hour <=? Sub now (g_lastUsed g)).
  - intros (H1 & H2 & H3)%IH. split_and!.
    + etransitivity; [exact H1|apply delete_subseteq].
    + intros k0 Ha Hb. destruct (decide (k0 = k)) as [->|Hk].
      { exists sid, g. split; [by left|done]. }
      destruct (H2 k0) as (s0 & g0 & ? & ?); [by rewrite lookup_delete_ne|done|].
      exists s0, g0. split; [by right|done].
    + intros k0 t Ha. destruct (H3 k0 t Ha) as [|(s0 & g0 & ? & ?)]; [by left|right].
      exists s0, g0. split; [by right|done].
  - case_match; [|done]. intros (H1 & H2 & H3)%IH. split_and!; [done| |].
    + intros k0 Ha Hb. destruct (H2 k0 Ha Hb) as (s0 & g0 & ? & ?).
      exists s0, g0. split; [by right|done].
    + intros k0 t Ha. right. destruct (H3 k0 t Ha) as [[= <- <-]|(s0 & g0 & ? & ?)].
      * exists sid, g. split; [by left|done].
      * exists s0, g0. split; [by right|done].
Qed.

Lemma delete_size_lt (m : gmap requestIdentity nat) k :
  (size (delete k m) ≤ size m)%nat.
Proof. apply map_subseteq_size, delete_subseteq. Qed.

(** The map part of [acquire_lock], before the state is looked up or made. *)
Lemma inv_scan c cs now order states oldest :
  inv c cs → order ≡ₚ map_to_list (rc_states c) →
  scan now (rc_heap c) order (rc_states c) None = (states, oldest) →
  inv (with_states c states) cs ∧
  ∀ k t, oldest = Some (k, t) → inv (with_states c (delete k states)) cs.
Proof.
  intros Hi Hord (H1 & H2 & H3)%scan_spec.
  assert (Hin : ∀ k sid, (k, sid) ∈ order → rc_states c !! k = Some sid).
  { intros k sid. rewrite Hord. apply elem_of_map_to_list. }
  assert (Hdrop : ∀ k sid, rc_states c !! k = Some sid → states !! k = None →
     ∀ t p, cs !! t = Some p → pc_sid p ≠ sid).
  { intros k sid Hk Hs. destruct (H2 k) as (sid' & g & Hl & Hg & He); [congruence|done|].
    apply Hin in Hl. assert (sid' = sid) as -> by congruence. by eapply evictable_idle. }
  split; [by apply inv_shrink|]. intros k t Hold.
  destruct (H3 k t Hold) as [|(sid & g & Hl & Hg & He)]; [done|].
  apply inv_shrink; [done| |].
  - etransitivity; [apply delete_subseteq|done].
  - intros k' sid' Hk' Hs. destruct (decide (k' = k)) as [->|Hne].
    + apply Hin in Hl. assert (sid' = sid) as -> by congruence. by eapply evictable_idle.
    + rewrite lookup_delete_ne in Hs by done. by eapply Hdrop.
Qed.

(** A fresh state with its first caller. *)
Lemma inv_new c cs t id now :
  inv c cs → cs !! t = None → rc_states c !! id = None →
  (size (rc_states c) < maxRequestStates)%nat →
  inv {| rc_heap := <[rc_next c := set_users (newGateState now) 1 now]> (rc_heap c);
         rc_states := <[id := rc_next c]> (rc_states c); rc_next := S (rc_next c) |}
      (<[t := Waiting id (rc_next c)]> cs).
Proof.
  intros Hi Ht Hid Hsize. pose proof (i_fresh _ _ Hi) as Hfr.
  remember (rc_next c) as sid eqn:Hsid. clear Hsid.
  assert (Hnone : rc_heap c !! sid = None).
  { destruct (rc_heap c !! sid) as [g|] eqn:E; [|done].
    specialize (Hfr sid ltac:(by eexists)). lia. }
  assert (Hunref : ∀ k, rc_states c !! k ≠ Some sid).
  { intros k Hk. destruct (i_heap _ _ Hi k sid Hk). congruence. }
  assert (Hfree : ∀ t p, cs !! t = Some p → pc_sid p ≠ sid)
    by (by eapply no_callers_on_unreferenced).
  assert (Hmove : ∀ h sid', callers_on h sid' (<[t := Waiting id sid]> cs)
     = if decide (sid' = sid) then opt_ind h (Some (Waiting id sid)) else callers_on h sid' cs).
  { intros h sid'. change (<[t := Waiting id sid]> cs)
      with (partial_alter (λ _, Some (Waiting id sid)) t cs).
    rewrite (callers_on_move h sid) by (rewrite ?Ht; naive_solver). rewrite Ht.
    case_decide; [subst|done]. rewrite (callers_on_none h sid cs) by done. simpl. lia. }
  split; simpl.
  - intros t' p [[<- <-]|[Hne Hp]]%lookup_insert_Some; simpl.
    + apply lookup_insert_eq.
    + pose proof (i_map _ _ Hi t' p Hp). rewrite lookup_insert_ne; [done|]. congruence.
  - intros id' sid' [[<- <-]|[Hne Hs]]%lookup_insert_Some.
    + rewrite lookup_insert_eq. by eexists.
    + apply lookup_insert_is_Some. destruct (decide (sid = sid')); [by left|right].
      split; [done|]. by eapply i_heap.
  - intros id1 id2 sid' [[<- <-]|[Hn1 H1]]%lookup_insert_Some
      [[<- Hx]|[Hn2 H2]]%lookup_insert_Some; [done| | |by eapply i_inj].
    + by destruct (Hunref id2).
    + subst sid'. by destruct (Hunref id1).
  - intros sid' [<-|[Hne H]]%lookup_insert_is_Some; [lia|].
    specialize (Hfr sid' H). lia.
  - intros sid' g. rewrite Hmove, lookup_insert_Some. intros [[<- <-]|[Hne Hg]].
    + by rewrite decide_True by done.
    + rewrite decide_False by congruence. by eapply i_users.
  - intros sid' g. rewrite Hmove, lookup_insert_Some. intros [[<- <-]|[Hne Hg]].
    + by rewrite decide_True by done.
    + rewrite decide_False by congruence. by eapply i_token.
  - intros t' p key g [[<- <-]|[Hne Hp]]%lookup_insert_Some Hk Hg; [done|].
    rewrite lookup_insert_ne in Hg; [by eapply i_flight|]. symmetry. by eapply Hfree.
  - intros sid' g [[<- <-]|[Hne Hg]]%lookup_insert_Some; [apply newRequestState_ok|].
    by eapply i_data.
  - rewrite map_size_insert_None by done. lia.
Qed.

Lemma inv_acquire c cs now order id r c' :
  inv c cs → order ≡ₚ map_to_list (rc_states c) → acquire_lock now order id c = (r, c') →
  match r with
  | Some sid => ∀ t, cs !! t = None → inv c' (<[t := Waiting id sid]> cs)
  | None => inv c' cs
  end.
Proof.
  intros Hi Hord. unfold acquire_lock.
  destruct (scan now (rc_heap c) order (rc_states c) None) as [states oldest] eqn:Hscan.
  destruct (inv_scan _ _ _ _ _ _ Hi Hord Hscan) as [Hs Ho].
  destruct (states !! id) as [sid|] eqn:Hid.
  - intros [= <- <-] t Ht. destruct (i_heap _ _ Hs id sid Hid) as [g Hg].
    eapply (inv_move _ cs t (Some (Waiting id sid)) sid g
      (λ g, set_users g (g_users g + 1) now)) in Hs; [exact Hs|done|..]; rewrite ?Ht; simpl; try done.
    + by intros p [= <-].
    + lia.
    + lia.
    + by intros p key [= <-].
    + by apply (i_data _ _ Hi sid).
  - set (m := match oldest with Some _ => _ | None => _ end).
    assert (inv (with_states c m) cs ∧ m !! id = None) as [Hm Hmid].
    { unfold m. destruct oldest as [[k t0]|]; [|done]. case_decide; [|done].
      split; [by eapply Ho|]. destruct (decide (k = id)) as [->|]; [apply lookup_delete_eq|].
      by rewrite lookup_delete_ne. }
    destruct (decide (maxRequestStates ≤ size m)%nat); intros [= <- <-]; [done|].
    intros t Ht. apply (inv_new (with_states c m) cs t id now); simpl; [done..|lia].
Qed.

Lemma update_update sid f h c : update sid f (update sid h c) = update sid (f ∘ h) c.
Proof.
  unfold update. simpl. f_equal. apply map_eq. intros j. destruct (decide (sid = j)) as [->|Hj].
  - rewrite !lookup_alter_eq. by destruct (rc_heap c !! j).
  - by rewrite !lookup_alter_ne.
Qed.

Lemma caller_state c cs t p :
  inv c cs → cs !! t = Some p → ∃ g, rc_heap c !! pc_sid p = Some g.
Proof. intros Hi Ht. exact (i_heap _ _ Hi _ _ (i_map _ _ Hi t p Ht)). Qed.

(** The move of a caller that is already on a state, to [new] on the same one. *)
Lemma inv_move_on c cs t p (new : option pc) g f :
  inv c cs → cs !! t = Some p → rc_heap c !! pc_sid p = Some g →
  (∀ q, new = Some q → pc_sid q = pc_sid p ∧ pc_id q = pc_id p) →
  g_users (f g) = g_users g - opt_ind counted (Some p) + opt_ind counted new →
  (if g_token (f g) then 0 else 1)
    = (if g_token g then 0 else 1) - opt_ind holds (Some p) + opt_ind holds new →
  (∀ t' key, t' ≠ t → s_listings (g_data g) !! key = Some t' →
     s_listings (g_data (f g)) !! key = Some t') →
  (∀ q key, new = Some q → pc_key q = Some key → s_listings (g_data (f g)) !! key = Some t) →
  cache_ok (g_data (f g)) ∧ backoff_ok (g_data (f g)) →
  inv (update (pc_sid p) f c) (partial_alter (λ _, new) t cs).
Proof.
  intros Hi Ht Hg Hnew Hu Htok Hl Hk Hd.
  apply (inv_move c cs t new (pc_sid p) g f); rewrite ?Ht; try done.
  - by intros q [= ->].
  - intros q [Hs Hid]%Hnew. rewrite Hs, Hid. split; [done|]. by eapply i_map.
Qed.

(** A caller that holds the token: the token is out. *)
Lemma holder_token c cs t p g :
  inv c cs → cs !! t = Some p → holds p = true → rc_heap c !! pc_sid p = Some g →
  g_token g = false.
Proof.
  intros Hi Ht Hh Hg. pose proof (i_token _ _ Hi _ g Hg) as H.
  pose proof (callers_on_pos holds _ cs t p Ht Hh eq_refl). destruct (g_token g); [lia|done].
Qed.

Lemma listing_publish_listings key fetched now later s :
  s_listings (listing_publish key fetched now later s).2 = delete key (s_listings s).
Proof. unfold listing_publish. destruct fetched; simpl; by rewrite ?store_listings. Qed.

Lemma listing_publish_ok key fetched now later s :
  cache_ok s → backoff_ok s →
  cache_ok (listing_publish key fetched now later s).2 ∧
  backoff_ok (listing_publish key fetched now later s).2.
Proof.
  intros Hc Hb. unfold listing_publish. destruct fetched as [e|body]; simpl.
  - by destruct Hc.
  - set (v := {| cr_status := _ |}). pose proof (store_ok s key v Hc) as [H1 H2 H3].
    split; [by split|]. unfold backoff_ok. simpl. by rewrite store_backoff.
Qed.

Lemma listing_lookup_start key fresh s :
  listing_lookup key fresh s = Start → s_listings s !! key = None.
Proof.
  unfold listing_lookup. destruct (s_responses s !! key), (s_listings s !! key); try done;
    by destruct fresh.
Qed.

Section Preservation.
Context (ParseTime : string → option Time).

(** A caller that holds the gate changes the data behind it. *)
Lemma inv_use c cs t id sid (f : requestState → requestState) :
  inv c cs → cs !! t = Some (Holding id sid) →
  (∀ s, s_listings (f s) = s_listings s) →
  (∀ s, cache_ok s → backoff_ok s → cache_ok (f s) ∧ backoff_ok (f s)) →
  inv (update sid (λ g, set_data g (f (g_data g))) c) cs.
Proof.
  intros Hi Ht Hl Hf. destruct (caller_state _ _ _ _ Hi Ht) as [g Hg]. simpl in Hg.
  rewrite <- (insert_id cs t _ Ht). change (<[t := Holding id sid]> cs)
    with (partial_alter (λ _, Some (Holding id sid)) t cs).
  eapply (inv_move_on c cs t (Holding id sid)); simpl; [done..| | | | | |].
  - by intros q [= <-].
  - lia.
  - lia.
  - intros t' key _. by rewrite Hl.
  - by intros q key [= <-].
  - apply Hf; apply (i_data _ _ Hi sid g Hg).
Qed.

Lemma step_inv y y' :
  step ParseTime y y' → inv (y_cache y) (y_callers y) → inv (y_cache y') (y_callers y').
Proof.
  intros Hstep Hi. destruct Hstep as
    [t id now order sid c cs c' Ht Hord Hacq|id now order c cs c' Hord Hacq|t id sid c cs Ht
    |t id sid c cs Ht Htok|t id sid c cs base now obs later scope ttl req Ht|t id sid c cs now Ht
    |t id sid c cs now Ht|t id sid c cs now key fresh s Ht Hs Hstart|t id sid c cs key Ht Htok
    |t id sid c cs key fetched now later Ht]; cbn [y_cache y_callers] in *.
  - by apply (inv_acquire _ _ _ _ _ _ _ Hi Hord Hacq).
  - apply (inv_acquire _ _ _ _ _ _ _ Hi Hord Hacq).
  - destruct (caller_state _ _ _ _ Hi Ht) as [g Hg].
    apply (inv_move_on c cs t (Waiting id sid) None g); simpl; try done; try lia.
    apply (i_data _ _ Hi sid g Hg).
  - destruct (caller_state _ _ _ _ Hi Ht) as [g Hg]. simpl in Hg.
    unfold token_of in Htok. rewrite Hg in Htok. injection Htok as Htok.
    apply (inv_move_on c cs t (Waiting id sid) (Some (Holding id sid)) g); simpl; try done; try lia.
    + by intros q [= <-].
    + by rewrite Htok.
    + by intros q key [= <-].
    + apply (i_data _ _ Hi sid g Hg).
  - apply (inv_use c cs t id sid (λ s,
      (RoundTrip ParseTime base now obs later scope ttl req s).1.2)); [done..| |].
    + intros s. apply RoundTrip_listings.
    + intros s ? ?. by apply RoundTrip_ok.
  - apply (inv_use c cs t id sid (λ s, expire s now)); [done..| |].
    + intros s. apply expire_listings.
    + intros s ? ?. split; [by apply expire_ok|]. unfold backoff_ok. by rewrite expire_backoff.
  - destruct (caller_state _ _ _ _ Hi Ht) as [g Hg]. simpl in Hg.
    pose proof (holder_token _ _ _ _ _ Hi Ht eq_refl Hg) as Htok.
    apply (inv_move_on c cs t (Holding id sid) None g
      (λ g, set_token (set_users g (g_users g - 1) now) true)); simpl; try done; try lia.
    + by rewrite Htok.
    + apply (i_data _ _ Hi sid g Hg).
  - destruct (caller_state _ _ _ _ Hi Ht) as [g Hg]. simpl in Hg.
    pose proof (holder_token _ _ _ _ _ Hi Ht eq_refl Hg) as Htok.
    unfold data_of in Hs. rewrite Hg in Hs. injection Hs as <-.
    apply listing_lookup_start in Hstart.
    change (release now sid) with
      (update sid (λ g, set_token (set_users g (g_users g - 1) now) true)).
    rewrite update_update.
    apply (inv_move_on c cs t (Holding id sid) (Some (Fetching id sid key)) g); simpl; try done; try lia.
    + by intros q [= <-].
    + by rewrite Htok.
    + intros t' k' Hne Hk'. rewrite lookup_insert_ne; [done|]. intros <-. congruence.
    + intros q k' [= <-] [= <-]. apply lookup_insert_eq.
    + destruct (i_data _ _ Hi sid g Hg) as [[H1 H2 H3] H4]. done.
  - destruct (caller_state _ _ _ _ Hi Ht) as [g Hg]. simpl in Hg.
    unfold token_of in Htok. rewrite Hg in Htok. injection Htok as Htok.
    apply (inv_move_on c cs t (Fetching id sid key) (Some (Publishing id sid key)) g);
      simpl; try done; try lia.
    + by intros q [= <-].
    + by rewrite Htok.
    + intros q k' [= <-] [= <-]. by apply (i_flight _ _ Hi t (Fetching id sid key)).
    + apply (i_data _ _ Hi sid g Hg).
  - destruct (caller_state _ _ _ _ Hi Ht) as [g Hg]. simpl in Hg.
    pose proof (holder_token _ _ _ _ _ Hi Ht eq_refl Hg) as Htok.
    pose proof (i_flight _ _ Hi t _ key g Ht eq_refl Hg) as Hfl.
    apply (inv_move_on c cs t (Publishing id sid key) None g
      (λ g, set_token (set_data g (listing_publish key fetched now later (g_data g)).2) true));
      try done; cbn [set_token set_data g_users g_token g_data opt_ind counted holds]; try lia.
    + by rewrite Htok.
    + intros t' k' Hne Hk'. rewrite listing_publish_listings, lookup_delete_ne; [done|].
      intros <-. congruence.
    + destruct (i_data _ _ Hi sid g Hg). by apply listing_publish_ok.
Qed.

Lemma init_inv : inv (y_cache init) (y_callers init).
Proof. split; simpl; try (by intros; simplify_map_eq). rewrite map_size_empty. unfold maxRequestStates. lia. Qed.

Lemma reachable_inv y : steps (step ParseTime) init y → inv (y_cache y) (y_callers y).
Proof.
  apply (steps_invariant _ (λ y, inv (y_cache y) (y_callers y))); [|apply init_inv].
  intros x z Hx Hs. by eapply step_inv.
Qed.
End Preservation.

Lemma holder_exists sid cs : 1 ≤ callers_on holds sid cs →
  ∃ t p, cs !! t = Some p ∧ holds p = true ∧ pc_sid p = sid.
Proof.
  unfold callers_on. induction cs as [|t p cs Ht IH] using map_ind; [rewrite wsum_empty; lia|].
  rewrite wsum_insert by done. destruct (holds p && bool_decide (pc_sid p = sid)) eqn:Hp.
  - apply andb_true_iff in Hp as [Hh Hs]. apply bool_decide_eq_true in Hs. intros _.
    exists t, p. split; [apply lookup_insert_eq|done].
  - unfold indicator at 1. rewrite Hp, Z.add_0_l. intros (t' & p' & Ht' & H')%IH.
    exists t', p'. split; [|done]. rewrite lookup_insert_ne; [done|congruence].
Qed.

(** ** Properties *)

(** Requests for one credential and host are serialised: in every
    reachable state at most one caller is past the gate of an identity, whether
    for a request or to publish a listing. *)
Theorem gate_serializes ParseTime y t1 t2 p1 p2
    (H : steps (step ParseTime) init y)
    (H1 : y_callers y !! t1 = Some p1) (H2 : y_callers y !! t2 = Some p2)
    (Hp1 : holds p1 = true) (Hp2 : holds p2 = true) (Hid : pc_id p1 = pc_id p2) : t1 = t2.
Proof.
  pose proof (reachable_inv _ _ H) as Hi. destruct (decide (t1 = t2)) as [|Hne]; [done|]. exfalso.
  pose proof (i_map _ _ Hi t1 p1 H1) as Hm1. pose proof (i_map _ _ Hi t2 p2 H2) as Hm2.
  rewrite Hid in Hm1. assert (pc_sid p1 = pc_sid p2) as Hs by congruence.
  destruct (caller_state _ _ _ _ Hi H2) as [g Hg]. pose proof (i_token _ _ Hi _ g Hg) as Htok.
  pose proof (callers_on_two holds (pc_sid p2) _ t1 t2 p1 p2 Hne H1 H2 Hp1 Hp2 Hs eq_refl).
  destruct (g_token g); lia.
Qed.

(** Caller 0 acquires and passes the gate. *)
Definition id0 : requestIdentity := ("cred", "https://api.github.com").
Definition held_system : system :=
  {| y_cache := update 0%nat (λ g, set_token g false) (acquire_lock 5 [] id0 (y_cache init)).2;
     y_callers := {[ 0%nat := Holding id0 0 ]} |}.

Lemma gate_serializes_witness :
  steps (step (λ _, None)) init held_system ∧
  y_callers held_system !! 0%nat = Some (Holding id0 0) ∧ 0%nat = 0%nat.
Proof.
  assert (steps (step (λ _, None)) init held_system) as Hs.
  { eapply steps_step; [eapply steps_step; [apply steps_refl|]|].
    - apply (S_acquire _ 0%nat id0 5 [] 0%nat _ _ (acquire_lock 5 [] id0 (y_cache init)).2);
        [done|done|reflexivity].
    - apply (S_gate _ 0%nat id0 0%nat); reflexivity. }
  split; [exact Hs|]. split; [reflexivity|].
  exact (gate_serializes (λ _, None) held_system 0%nat 0%nat _ _ Hs eq_refl eq_refl eq_refl eq_refl
    eq_refl).
Defined.

(** C24: in every reachable state at most [maxRequestStates] identities are
    kept; a caller that waits, holds or fetches still has its state under its
    identity (it is never evicted); the users counter is exact; the token is out
    exactly while some caller holds the gate, so no release blocks and no
    waiter waits on a lost token; and every cache is within its limits. *)
Theorem gate_sound ParseTime y (H : steps (step ParseTime) init y) :
  (size (rc_states (y_cache y)) ≤ maxRequestStates)%nat ∧
  (∀ t p, y_callers y !! t = Some p → rc_states (y_cache y) !! pc_id p = Some (pc_sid p)) ∧
  ∀ sid g, rc_heap (y_cache y) !! sid = Some g →
    g_users g = callers_on counted sid (y_callers y) ∧
    (g_token g = false ↔ ∃ t p, y_callers y !! t = Some p ∧ holds p = true ∧ pc_sid p = sid) ∧
    cache_ok (g_data g) ∧ backoff_ok (g_data g).
Proof.
  pose proof (reachable_inv _ _ H) as Hi. split; [apply Hi|]. split; [apply Hi|].
  intros sid g Hg. split; [by apply (i_users _ _ Hi)|]. split; [|by apply (i_data _ _ Hi sid)].
  pose proof (i_token _ _ Hi sid g Hg) as Ht. split.
  - intros Hf. rewrite Hf in Ht. apply holder_exists. lia.
  - intros (t & p & Hp & Hh & Hs). pose proof (callers_on_pos holds sid _ t p Hp Hh Hs).
    destruct (g_token g); [lia|done].
Qed.

Lemma gate_sound_witness :
  steps (step (λ _, None)) init held_system ∧
  (size (rc_states (y_cache held_system)) ≤ maxRequestStates)%nat.
Proof.
  assert (steps (step (λ _, None)) init held_system) as Hs.
  { eapply steps_step; [eapply steps_step; [apply steps_refl|]|].
    - apply (S_acquire _ 0%nat id0 5 [] 0%nat _ _ (acquire_lock 5 [] id0 (y_cache init)).2);
        [done|done|reflexivity].
    - apply (S_gate _ 0%nat id0 0%nat); reflexivity. }
  split; [exact Hs|]. exact (proj1 (gate_sound _ _ Hs)).
Defined.

(** Only a complete successful listing becomes visible.  Publishing a
    failed fetch leaves the cached answers as they were; publishing a listing
    of at most 1 MiB makes exactly it the answer of the next non-fresh lookup;
    either way the flight is over and the other flights are untouched. *)
Theorem listing_publish_visible key fetched now later s :
  let '(result, s') := listing_publish key fetched now later s in
  s_listings s' = delete key (s_listings s) ∧
  match fetched with
  | inl e => s_responses s' = s_responses s ∧ result = inl (retryError s e later)
  | inr body =>
      result = inr body ∧
      (slen body ≤ maxCachedBytes →
        listing_lookup key false s' = Cached body ∧
        ∃ v, s_responses s' !! key = Some v ∧ cr_expires v = now + packageCacheTTL)
  end.
Proof.
  unfold listing_publish. destruct fetched as [e|body]; simpl; [done|].
  split; [by rewrite store_listings|]. split; [done|]. intros Hb. unfold listing_lookup. simpl.
  set (v := {| cr_status := _ |}).
  assert (s_responses (store s key v) !! key = Some v) as Hl.
  { unfold store. rewrite decide_False by (simpl; lia).
    destruct (s_responses s !! key); case_decide; apply lookup_insert_eq. }
  rewrite Hl. split; [done|]. by exists v.
Qed.
