(* ===== verification/Api.v ===== *)
(** * The API types of [apis/v1alpha1]

    One record per Go struct, with the struct's fields in order; field names
    carry a two-letter prefix because Rocq projections share one name space.
    String enumerations stay strings, pointers become options, the embedded
    [metav1.ObjectMeta] is the record of the metadata fields the provider
    reads.  Kind constants, finalizers and label keys follow. *)

From S2P Require Import Prelude GoTime.

#[local] Open Scope string_scope.

(** ** Kubernetes metadata the objects embed *)

Record OwnerReference := {
  or_APIVersion : string; or_Kind : string; or_Name : string; or_UID : string;
  or_Controller : option bool; or_BlockOwnerDeletion : option bool }.

Record ObjectMeta := {
  om_Name : string; om_Namespace : string; om_UID : string; om_Generation : Z;
  om_Labels : gmap string string; om_Annotations : gmap string string;
  om_Finalizers : list string; om_DeletionTimestamp : option Time;
  om_OwnerReferences : list OwnerReference }.

Record Condition := {
  c_Type : string; c_Status : string; c_ObservedGeneration : Z;
  c_LastTransitionTime : Time; c_Reason : string; c_Message : string }.

Definition ConditionTrue : string := "True".
Definition ConditionFalse : string := "False".

(** ** types_common.go *)

Record LocalSecretReference := { ls_Name : string; ls_Namespace : string; ls_Key : string }.

Definition GitProvider : Type := string.
Definition ProviderGitHub : GitProvider := "github".
Definition ConditionReady : string := "Ready".
Definition ReasonReconciling : string := "Reconciling".
Definition ReasonReady : string := "Ready".
Definition ReasonError : string := "Error".
Definition ReasonRateLimited : string := "RateLimited".

(** ** types_connection.go *)

Definition ConnectionCredentialType : Type := string.
Definition CredentialTypePAT : ConnectionCredentialType := "pat".
Definition CredentialTypeGitHubApp : ConnectionCredentialType := "github-app".
Definition CredentialTypeOAuth : ConnectionCredentialType := "oauth".

Record ConnectionSpec := {
  cs_Provider : GitProvider; cs_Type : ConnectionCredentialType; cs_Owner : string;
  cs_SecretRef : LocalSecretReference; cs_BaseURL : string }.
Record ConnectionStatus := {
  ct_ObservedGeneration : Z; ct_Login : string; ct_Scopes : list string;
  ct_Conditions : list Condition }.
Record Connection := {
  cn_Meta : ObjectMeta; cn_Spec : ConnectionSpec; cn_Status : ConnectionStatus }.

Definition ConditionValidated : string := "Validated".
Definition FinalizerConnection : string := "connections.code.railgrid.ai/finalizer".

(** ** types_repository.go *)

Definition RepositoryVisibility : Type := string.
Definition VisibilityPrivate : RepositoryVisibility := "private".
Definition VisibilityPublic : RepositoryVisibility := "public".
Definition VisibilityInternal : RepositoryVisibility := "internal".

Record RepositorySpec := {
  rs_ConnectionRef : string; rs_Name : string; rs_Owner : string;
  rs_Visibility : RepositoryVisibility; rs_Description : string;
  rs_DefaultBranch : string; rs_AutoInit : bool }.
Record RepositoryStatus := {
  rt_ObservedGeneration : Z; rt_RepoID : string; rt_HTMLURL : string;
  rt_CloneURL : string; rt_SSHURL : string; rt_Conditions : list Condition }.
Record Repository := {
  rp_Meta : ObjectMeta; rp_Spec : RepositorySpec; rp_Status : RepositoryStatus }.

Definition FinalizerRepository : string := "repositories.code.railgrid.ai/finalizer".

(** ** types_deploykey.go *)

Record DeployKeySpec := {
  ds_RepositoryRef : string; ds_Title : string; ds_PublicKey : string; ds_ReadOnly : bool }.
Record DeployKeyStatus := {
  dt_ObservedGeneration : Z; dt_KeyID : string; dt_SecretRef : option LocalSecretReference;
  dt_Conditions : list Condition }.
Record DeployKey := {
  dk_Meta : ObjectMeta; dk_Spec : DeployKeySpec; dk_Status : DeployKeyStatus }.

Definition FinalizerDeployKey : string := "deploykeys.code.railgrid.ai/finalizer".

(** ** types_collaborator.go *)

Definition CollaboratorPermission : Type := string.
Definition PermissionPull : CollaboratorPermission := "pull".
Definition PermissionPush : CollaboratorPermission := "push".
Definition PermissionAdmin : CollaboratorPermission := "admin".

Record CollaboratorSpec := {
  ls_RepositoryRef : string; ls_Username : string; ls_Permission : CollaboratorPermission }.
Record CollaboratorStatus := {
  lt_ObservedGeneration : Z; lt_InvitationID : string; lt_Conditions : list Condition }.
Record Collaborator := {
  cl_Meta : ObjectMeta; cl_Spec : CollaboratorSpec; cl_Status : CollaboratorStatus }.

Definition ConditionInvitationPending : string := "InvitationPending".
Definition FinalizerCollaborator : string := "collaborators.code.railgrid.ai/finalizer".

(** ** types_package.go *)

Record PackageVersion := { pv_Digest : string; pv_Tags : list string; pv_CreatedAt : string }.
Record PackageSpec := { ps_RepositoryRef : string }.
Record PackageStatus := {
  pt_ObservedGeneration : Z; pt_PackageName : string; pt_Type : string;
  pt_Visibility : string; pt_HTMLURL : string; pt_VersionCount : Z; pt_UpdatedAt : string;
  pt_ImageRepository : string; pt_Versions : list PackageVersion;
  pt_LastSyncTime : option Time; pt_Conditions : list Condition }.
Record Package := { pk_Meta : ObjectMeta; pk_Spec : PackageSpec; pk_Status : PackageStatus }.

Definition LabelRepository : string := "code.railgrid.ai/repository".

(** ** types_repositorycommit.go *)

Record RepositoryCommitBundleReference := { br_Name : string; br_Digest : string }.
Record RepositoryCommitSource := { so_BundleRef : RepositoryCommitBundleReference }.
Record RepositoryCommitSpec := {
  ms_RepositoryRef : string; ms_Branch : string; ms_Message : string;
  ms_Source : RepositoryCommitSource }.

Definition RepositoryCommitPhase : Type := string.
Definition RepositoryCommitPhasePending : RepositoryCommitPhase := "Pending".
Definition RepositoryCommitPhaseRunning : RepositoryCommitPhase := "Running".
Definition RepositoryCommitPhaseSucceeded : RepositoryCommitPhase := "Succeeded".
Definition RepositoryCommitPhaseFailed : RepositoryCommitPhase := "Failed".

Definition RepositoryCommitRateLimitWindow : Duration := (15 * Minute)%Z.

Record RepositoryCommitSourceStatus := {
  ss_Digest : string; ss_Size : Z; ss_FileCount : Z }.
Record RepositoryCommitFileStatus := {
  fs_Path : string; fs_Size : Z; fs_Digest : string; fs_Delete : bool }.
Record RepositoryCommitStatus := {
  mt_ObservedGeneration : Z; mt_Phase : RepositoryCommitPhase;
  mt_StartedAt : option Time; mt_CompletedAt : option Time; mt_Branch : string;
  mt_CommitSHA : string; mt_CommitURL : string;
  mt_Source : option RepositoryCommitSourceStatus;
  mt_Files : list RepositoryCommitFileStatus; mt_Conditions : list Condition }.
Record RepositoryCommit := {
  rc_Meta : ObjectMeta; rc_Spec : RepositoryCommitSpec; rc_Status : RepositoryCommitStatus }.

(** ** types_repositorycheckout.go *)

Record RepositoryCheckoutSpec := { hs_RepositoryRef : string; hs_Ref : string }.
Definition AnnotationCheckoutBinaryEncoding : string := "code.railgrid.ai/binary-encoding".

Definition RepositoryCheckoutPhase : Type := string.
Definition RepositoryCheckoutPhasePending : RepositoryCheckoutPhase := "Pending".
Definition RepositoryCheckoutPhaseRunning : RepositoryCheckoutPhase := "Running".
Definition RepositoryCheckoutPhaseSucceeded : RepositoryCheckoutPhase := "Succeeded".
Definition RepositoryCheckoutPhaseFailed : RepositoryCheckoutPhase := "Failed".

Record RepositoryCheckoutStatus := {
  ht_ObservedGeneration : Z; ht_Phase : RepositoryCheckoutPhase;
  ht_StartedAt : option Time; ht_CompletedAt : option Time; ht_Ref : string;
  ht_CommitSHA : string; ht_Source : option RepositoryCommitSourceStatus;
  ht_BundleRef : option RepositoryCommitBundleReference; ht_Skipped : list string;
  ht_Conditions : list Condition }.
Record RepositoryCheckout := {
  rh_Meta : ObjectMeta; rh_Spec : RepositoryCheckoutSpec; rh_Status : RepositoryCheckoutStatus }.

(** ** types_repositorybuildstatus.go *)

Definition RepositoryBuildStatusAction : Type := string.
Definition RepositoryBuildStatusActionStatus : RepositoryBuildStatusAction := "status".
Definition RepositoryBuildStatusActionRerun : RepositoryBuildStatusAction := "rerun".

Record RepositoryBuildStatusSpec := {
  bs_RepositoryRef : string; bs_WorkflowFileName : string; bs_Ref : string;
  bs_Action : RepositoryBuildStatusAction; bs_MaxLogLines : Z }.

Definition RepositoryBuildStatusPhase : Type := string.
Definition RepositoryBuildStatusPhasePending : RepositoryBuildStatusPhase := "Pending".
Definition RepositoryBuildStatusPhaseRunning : RepositoryBuildStatusPhase := "Running".
Definition RepositoryBuildStatusPhaseSucceeded : RepositoryBuildStatusPhase := "Succeeded".
Definition RepositoryBuildStatusPhaseFailed : RepositoryBuildStatusPhase := "Failed".

Record RepositoryBuildStatusJob := {
  bj_Name : string; bj_Status : string; bj_Conclusion : string; bj_FailureLog : string }.
Record RepositoryBuildStatusRun := {
  bn_Found : bool; bn_RunID : Z; bn_HTMLURL : string; bn_HeadSHA : string;
  bn_Status : string; bn_Conclusion : string; bn_Jobs : list RepositoryBuildStatusJob }.
Record RepositoryBuildStatusStatus := {
  bt_ObservedGeneration : Z; bt_Phase : RepositoryBuildStatusPhase;
  bt_CompletedAt : option Time; bt_Run : option RepositoryBuildStatusRun;
  bt_Dispatched : bool; bt_Conditions : list Condition }.
Record RepositoryBuildStatus := {
  rb_Meta : ObjectMeta; rb_Spec : RepositoryBuildStatusSpec;
  rb_Status : RepositoryBuildStatusStatus }.

(** ** corev1.Secret, as far as the provider uses it *)

Record Secret := {
  sc_Meta : ObjectMeta; sc_Type : string; sc_Data : gmap string string }.

(** ** The kinds the provider's client is used with *)

Inductive Kind :=
  | KConnection | KRepository | KDeployKey | KCollaborator | KPackage
  | KCommit | KCheckout | KBuildStatus | KSecret.

Definition obj (k : Kind) : Type :=
  match k with
  | KConnection => Connection
  | KRepository => Repository
  | KDeployKey => DeployKey
  | KCollaborator => Collaborator
  | KPackage => Package
  | KCommit => RepositoryCommit
  | KCheckout => RepositoryCheckout
  | KBuildStatus => RepositoryBuildStatus
  | KSecret => Secret
  end.

Definition meta (k : Kind) : obj k → ObjectMeta :=
  match k with
  | KConnection => cn_Meta
  | KRepository => rp_Meta
  | KDeployKey => dk_Meta
  | KCollaborator => cl_Meta
  | KPackage => pk_Meta
  | KCommit => rc_Meta
  | KCheckout => rh_Meta
  | KBuildStatus => rb_Meta
  | KSecret => sc_Meta
  end.

(** ** Field updates *)

Definition om_set_Finalizers (m : ObjectMeta) (f : list string) : ObjectMeta :=
  {| om_Name := om_Name m; om_Namespace := om_Namespace m; om_UID := om_UID m;
     om_Generation := om_Generation m; om_Labels := om_Labels m;
     om_Annotations := om_Annotations m; om_Finalizers := f;
     om_DeletionTimestamp := om_DeletionTimestamp m;
     om_OwnerReferences := om_OwnerReferences m |}.

Definition cn_set_Meta (c : Connection) (m : ObjectMeta) : Connection :=
  {| cn_Meta := m; cn_Spec := cn_Spec c; cn_Status := cn_Status c |}.
Definition cn_set_Status (c : Connection) (s : ConnectionStatus) : Connection :=
  {| cn_Meta := cn_Meta c; cn_Spec := cn_Spec c; cn_Status := s |}.
Definition rp_set_Meta (r : Repository) (m : ObjectMeta) : Repository :=
  {| rp_Meta := m; rp_Spec := rp_Spec r; rp_Status := rp_Status r |}.
Definition rp_set_Status (r : Repository) (s : RepositoryStatus) : Repository :=
  {| rp_Meta := rp_Meta r; rp_Spec := rp_Spec r; rp_Status := s |}.
Definition dk_set_Meta (d : DeployKey) (m : ObjectMeta) : DeployKey :=
  {| dk_Meta := m; dk_Spec := dk_Spec d; dk_Status := dk_Status d |}.
Definition dk_set_Status (d : DeployKey) (s : DeployKeyStatus) : DeployKey :=
  {| dk_Meta := dk_Meta d; dk_Spec := dk_Spec d; dk_Status := s |}.
Definition cl_set_Meta (c : Collaborator) (m : ObjectMeta) : Collaborator :=
  {| cl_Meta := m; cl_Spec := cl_Spec c; cl_Status := cl_Status c |}.
Definition cl_set_Status (c : Collaborator) (s : CollaboratorStatus) : Collaborator :=
  {| cl_Meta := cl_Meta c; cl_Spec := cl_Spec c; cl_Status := s |}.
Definition pk_set_Status (p : Package) (s : PackageStatus) : Package :=
  {| pk_Meta := pk_Meta p; pk_Spec := pk_Spec p; pk_Status := s |}.
Definition rc_set_Status (c : RepositoryCommit) (s : RepositoryCommitStatus) : RepositoryCommit :=
  {| rc_Meta := rc_Meta c; rc_Spec := rc_Spec c; rc_Status := s |}.
Definition rh_set_Status (c : RepositoryCheckout) (s : RepositoryCheckoutStatus)
    : RepositoryCheckout :=
  {| rh_Meta := rh_Meta c; rh_Spec := rh_Spec c; rh_Status := s |}.
Definition rb_set_Status (c : RepositoryBuildStatus) (s : RepositoryBuildStatusStatus)
    : RepositoryBuildStatus :=
  {| rb_Meta := rb_Meta c; rb_Spec := rb_Spec c; rb_Status := s |}.

(** ** Decidable equality, for [reflect.DeepEqual] on statuses *)

#[export] Instance Condition_eq_dec : EqDecision Condition.
Proof. solve_decision. Defined.
#[export] Instance LocalSecretReference_eq_dec : EqDecision LocalSecretReference.
Proof. solve_decision. Defined.
#[export] Instance PackageVersion_eq_dec : EqDecision PackageVersion.
Proof. solve_decision. Defined.
#[export] Instance SourceStatus_eq_dec : EqDecision RepositoryCommitSourceStatus.
Proof. solve_decision. Defined.
#[export] Instance FileStatus_eq_dec : EqDecision RepositoryCommitFileStatus.
Proof. solve_decision. Defined.
#[export] Instance CommitStatus_eq_dec : EqDecision RepositoryCommitStatus.
Proof. solve_decision. Defined.
#[export] Instance BundleReference_eq_dec : EqDecision RepositoryCommitBundleReference.
Proof. solve_decision. Defined.
#[export] Instance CheckoutStatus_eq_dec : EqDecision RepositoryCheckoutStatus.
Proof. solve_decision. Defined.
#[export] Instance BuildJob_eq_dec : EqDecision RepositoryBuildStatusJob.
Proof. solve_decision. Defined.
#[export] Instance BuildRun_eq_dec : EqDecision RepositoryBuildStatusRun.
Proof. solve_decision. Defined.
#[export] Instance BuildStatus_eq_dec : EqDecision RepositoryBuildStatusStatus.
Proof. solve_decision. Defined.
#[export] Instance Kind_eq_dec : EqDecision Kind.
Proof. solve_decision. Defined.
#[export] Instance OwnerReference_eq_dec : EqDecision OwnerReference.
Proof. solve_decision. Defined.
#[export] Instance ObjectMeta_eq_dec : EqDecision ObjectMeta.
Proof. solve_decision. Defined.
#[export] Instance PackageSpec_eq_dec : EqDecision PackageSpec.
Proof. solve_decision. Defined.
#[export] Instance PackageStatus_eq_dec : EqDecision PackageStatus.
Proof. solve_decision. Defined.
#[export] Instance Package_eq_dec : EqDecision Package.
Proof. solve_decision. Defined.
