(* ===== verification/Backend.v ===== *)
(** * backend/interface.go: the seam between the controllers and a git host

    The data that crosses it, a git host as a record of operations on a world
    [W] (the optional Go interfaces are optional fields), the registry, and
    the stub host of [backend/stub]. *)

From S2P Require Import Prelude GoStrings GoTime Errors Api.
From Stdlib Require Import Ascii Lia.

#[local] Open Scope string_scope.

(** ** Data *)

Record Credential := { cr_Token : string }.

Record RepositoryResult := {
  rr_RepoID : string; rr_HTMLURL : string; rr_CloneURL : string; rr_SSHURL : string }.

Definition EncodingBase64 : string := "base64".

Record RepositoryCommitFile := {
  cf_Path : string; cf_Content : string; cf_Encoding : string; cf_Delete : bool }.

Record RepositoryCommitInput := {
  ci_Message : string; ci_Branch : string; ci_IdempotencyKey : string;
  ci_Files : list RepositoryCommitFile }.

Record RepositoryCommitResult := {
  co_CommitSHA : string; co_CommitURL : string; co_Branch : string; co_Files : list string }.

Record DeployKeyResult := { kr_KeyID : string }.

Record CollaboratorResult := { lr_Pending : bool; lr_InvitationID : string }.

Record PackageVersion := { v_Digest : string; v_Tags : list string; v_CreatedAt : string }.

Record PackageInfo := {
  pi_Name : string; pi_Type : string; pi_Visibility : string; pi_HTMLURL : string;
  pi_ImageRepository : string; pi_VersionCount : Z; pi_UpdatedAt : string;
  pi_Versions : list PackageVersion }.

Record WorkflowRunQuery := {
  wq_WorkflowFileName : string; wq_HeadSHA : string; wq_MaxLogLines : Z }.

Record WorkflowJobStatus := {
  wj_Name : string; wj_Status : string; wj_Conclusion : string; wj_FailureLog : string }.

Record WorkflowRunStatus := {
  wr_Found : bool; wr_RunID : Z; wr_HTMLURL : string; wr_HeadSHA : string;
  wr_Status : string; wr_Conclusion : string; wr_Jobs : list WorkflowJobStatus }.

Record RepositoryCheckoutInput := {
  hi_Ref : string; hi_MaxFiles : Z; hi_MaxFileBytes : Z; hi_IncludeBinary : bool;
  hi_MaxBinaryFileBytes : Z; hi_MaxTotalBytes : Z }.

Record RepositoryCheckoutResult := {
  hr_Ref : string; hr_CommitSHA : string; hr_Files : list RepositoryCommitFile;
  hr_Skipped : list string }.

(** ** A git host

    [ListPackages] takes the context's [FreshContainerPackages] flag. *)
Record GitBackend (W : Type) := {
  gb_Name : string;
  gb_ValidateConnection :
    Connection → Credential → W → (error + (string * list string)) * W;
  gb_EnsureRepository :
    Connection → Credential → Repository → W → (error + RepositoryResult) * W;
  gb_DeleteRepository : Connection → Credential → Repository → W → option error * W;
  gb_EnsureDeployKey : Connection → Credential → Repository → DeployKey → string → W →
    (error + DeployKeyResult) * W;
  gb_DeleteDeployKey : Connection → Credential → Repository → string → W → option error * W;
  gb_EnsureCollaborator : Connection → Credential → Repository → Collaborator → W →
    (error + CollaboratorResult) * W;
  gb_RemoveCollaborator : Connection → Credential → Repository → Collaborator → W →
    option error * W;
  (* optional capabilities *)
  gb_CommitFiles : option (Connection → Credential → Repository → RepositoryCommitInput → W →
    (error + RepositoryCommitResult) * W);
  gb_CheckoutFiles : option (Connection → Credential → Repository → RepositoryCheckoutInput →
    W → (error + RepositoryCheckoutResult) * W);
  gb_ListPackages : option (bool → Connection → Credential → Repository → W →
    (error + list PackageInfo) * W);
  gb_LatestWorkflowRun : option (Connection → Credential → Repository → WorkflowRunQuery → W →
    (error + WorkflowRunStatus) * W);
  gb_DispatchWorkflow : option (Connection → Credential → Repository → string → string → W →
    option error * W) }.
#[global] Arguments gb_Name {W}.
#[global] Arguments gb_ValidateConnection {W}.
#[global] Arguments gb_EnsureRepository {W}.
#[global] Arguments gb_DeleteRepository {W}.
#[global] Arguments gb_EnsureDeployKey {W}.
#[global] Arguments gb_DeleteDeployKey {W}.
#[global] Arguments gb_EnsureCollaborator {W}.
#[global] Arguments gb_RemoveCollaborator {W}.
#[global] Arguments gb_CommitFiles {W}.
#[global] Arguments gb_CheckoutFiles {W}.
#[global] Arguments gb_ListPackages {W}.
#[global] Arguments gb_LatestWorkflowRun {W}.
#[global] Arguments gb_DispatchWorkflow {W}.

(** ** The registry *)

Abbreviation Registry W := (gmap string (GitBackend W)) (only parsing).

Section Registry.
Context {W : Type}.
Implicit Types r : Registry W.

Definition NewRegistry : Registry W := ∅.

(** A nil backend is [None]. *)
Definition Register (r : Registry W) (b : option (GitBackend W)) : option error * Registry W :=
  match b with
  | None => (Some (ENew "backend: cannot register nil or unnamed backend"), r)
  | Some b =>
      if decide (gb_Name b = "") then
        (Some (ENew "backend: cannot register nil or unnamed backend"), r)
      else match r !! gb_Name b with
           | Some _ => (Some (ENew ("backend: " ++ Quote (gb_Name b) ++ " already registered")), r)
           | None => (None, <[gb_Name b := b]> r)
           end
  end.

Definition Registry_Get (r : Registry W) (name : string) : option (GitBackend W) := r !! name.

Definition Names (r : Registry W) : list string :=
  merge_sort string_le (fst <$> map_to_list r).

End Registry.

(** ** The stub host *)

Definition stub_owner (conn : Connection) (repo : Repository) : string :=
  if decide (rs_Owner (rp_Spec repo) = "") then cs_Owner (cn_Spec conn)
  else rs_Owner (rp_Spec repo).

Definition stub_ValidateConnection (conn : Connection) : error + (string * list string) :=
  let login := cs_Owner (cn_Spec conn) in
  inr (if decide (login = "") then "stub-user" else login, ["repo"]).

Definition stub_EnsureRepository (conn : Connection) (repo : Repository)
    : error + RepositoryResult :=
  let full := stub_owner conn repo ++ "/" ++ rs_Name (rp_Spec repo) in
  inr {| rr_RepoID := "stub-" ++ rs_Name (rp_Spec repo);
         rr_HTMLURL := "https://stub.example/" ++ full;
         rr_CloneURL := "https://stub.example/" ++ full ++ ".git";
         rr_SSHURL := "git@stub.example:" ++ full ++ ".git" |}.

Definition stub_CommitFiles (conn : Connection) (repo : Repository)
    (input : RepositoryCommitInput) : error + RepositoryCommitResult :=
  let branch := ci_Branch input in
  let branch := if decide (branch = "") then rs_DefaultBranch (rp_Spec repo) else branch in
  let branch := if decide (branch = "") then "main" else branch in
  let sha := "stub-commit-" ++ rs_Name (rp_Spec repo) in
  inr {| co_CommitSHA := sha;
         co_CommitURL := "https://stub.example/" ++ stub_owner conn repo ++ "/"
                         ++ rs_Name (rp_Spec repo) ++ "/commit/" ++ sha;
         co_Branch := branch; co_Files := cf_Path <$> ci_Files input |}.

Definition stub_EnsureDeployKey (key : DeployKey) (publicKey : string)
    : error + DeployKeyResult :=
  if decide (publicKey = "") then
    inl (ENew ("stub: no public key supplied for deploy key " ++ Quote (om_Name (dk_Meta key))))
  else inr {| kr_KeyID := "stub-key-" ++ om_Name (dk_Meta key) |}.

Definition stub_EnsureCollaborator (collab : Collaborator) : error + CollaboratorResult :=
  inr {| lr_Pending := false; lr_InvitationID := "stub-invite-" ++ om_Name (cl_Meta collab) |}.

(** [NewNamed(name)]; the only optional capability is committing. *)
Definition NewNamed {W : Type} (name : string) : GitBackend W := {|
  gb_Name := name;
  gb_ValidateConnection := λ conn _ w, (stub_ValidateConnection conn, w);
  gb_EnsureRepository := λ conn _ repo w, (stub_EnsureRepository conn repo, w);
  gb_DeleteRepository := λ _ _ _ w, (None, w);
  gb_EnsureDeployKey := λ _ _ _ key pub w, (stub_EnsureDeployKey key pub, w);
  gb_DeleteDeployKey := λ _ _ _ _ w, (None, w);
  gb_EnsureCollaborator := λ _ _ _ collab w, (stub_EnsureCollaborator collab, w);
  gb_RemoveCollaborator := λ _ _ _ _ w, (None, w);
  gb_CommitFiles := Some (λ conn _ repo input w, (stub_CommitFiles conn repo input, w));
  gb_CheckoutFiles := None; gb_ListPackages := None; gb_LatestWorkflowRun := None;
  gb_DispatchWorkflow := None |}.
Definition New {W : Type} : GitBackend W := NewNamed ProviderGitHub.

(** Names of a registry are the keys backends were registered under. *)
Definition registry_wf {W} (r : Registry W) : Prop :=
  ∀ name b, r !! name = Some b → gb_Name b = name ∧ name ≠ "".

(** ** Lemmas: the registry *)

Lemma Names_elem {W} (r : Registry W) n : n ∈ Names r ↔ is_Some (r !! n).
Proof.
  unfold Names. rewrite merge_sort_Permutation, list_elem_of_fmap. split.
  - intros ([k b] & -> & H%elem_of_map_to_list). by eexists.
  - intros [b H]. exists (n, b). split; [done|]. by apply elem_of_map_to_list.
Qed.

Lemma Register_lookup {W} (r r' : Registry W) b n :
  Register r (Some b) = (None, r') →
  r' !! n = if decide (n = gb_Name b) then Some b else r !! n.
Proof.
  unfold Register. case_decide; [done|]. destruct (r !! gb_Name b); [done|].
  intros [= <-]. case_decide as H1; [subst; by rewrite lookup_insert_eq|].
  by rewrite lookup_insert_ne.
Qed.

(** ** Property *)

(** Registration refuses nil, unnamed and duplicate hosts and then leaves
    the registry as it was; a success makes exactly that host retrievable under
    its name and keeps every other entry; [Names] is the sorted, duplicate-free
    list of the registered names. *)
Theorem Registry_sound {W} (r r' : Registry W) (b : option (GitBackend W)) (e : option error)
    (Hwf : registry_wf r) (H : Register r b = (e, r')) :
  registry_wf r' ∧ StronglySorted string_le (Names r') ∧ NoDup (Names r') ∧
  match e with
  | Some _ => r' = r ∧ (b = None ∨ ∃ b', b = Some b' ∧ (gb_Name b' = "" ∨ gb_Name b' ∈ Names r))
  | None => ∃ b', b = Some b' ∧ gb_Name b' ∉ Names r ∧ gb_Name b' ≠ "" ∧
      Registry_Get r' (gb_Name b') = Some b' ∧
      ∀ n, n ≠ gb_Name b' → Registry_Get r' n = Registry_Get r n
  end.
Proof.
  unfold Registry_Get.
  assert (StronglySorted string_le (Names r') ∧ NoDup (Names r')) as [Hs Hn].
  { unfold Names. split; [apply StronglySorted_merge_sort; tc_solve|].
    rewrite merge_sort_Permutation. exact (NoDup_fst_map_to_list (M:=gmap string) r'). }
  destruct b as [b|]; [|injection H as <- <-; split_and!; auto].
  simpl in H. destruct (decide (gb_Name b = "")) as [He|He].
  { injection H as <- <-. split_and!; auto. right. exists b. auto. }
  destruct (r !! gb_Name b) as [b0|] eqn:Hb.
  { injection H as <- <-. split_and!; auto. right. exists b. split; [done|]. right.
    apply Names_elem. by eexists. }
  injection H as <- <-. split_and!; [|done|done|].
  - intros name b'. rewrite lookup_insert_Some. intros [[<- <-]|[_ H]]; [done|by apply Hwf].
  - exists b. split_and!; try done.
    + rewrite Names_elem, Hb. by intros [? ?].
    + apply lookup_insert_eq.
    + intros n Hne. by rewrite lookup_insert_ne.
Qed.

Lemma Registry_sound_witness :
  ∃ r' : Registry unit, Register NewRegistry (Some New) = (None, r') ∧ Names r' = ["github"] ∧
    registry_wf r'.
Proof.
  eexists. split; [reflexivity|]. split; [reflexivity|].
  refine (proj1 (Registry_sound (W:=unit) NewRegistry _ (Some New) None _ eq_refl)).
  intros name b H. discriminate H.
Defined.
