(* ===== verification/Tenant.v ===== *)
(** * tenant/: resolving a Connection's credential

    [CredentialResolver.Resolve] turns the data of a Secret into the token a
    git host is called with: a trimmed PAT or OAuth token, or an installation
    token exchanged for a GitHub App key.  PEM and X.509 parsing, RSA, URL
    parsing, JSON decoding and the HTTP client are parameters. *)

From S2P Require Import Prelude GoStrings Encoding GoTime Errors Api Backend.
From Stdlib Require Import Ascii Lia.

#[local] Open Scope string_scope.
#[local] Open Scope Z_scope.

(** ** credentials.go *)

Definition DefaultCredentialsNamespace (getenv : string → string) : string :=
  let v := getenv "RAILGRID_TENANT_CREDENTIALS_NAMESPACE" in
  if decide (v ≠ "") then v else "default".

Definition DefaultTokenKey : string := "token".

(** ** github_app.go *)

(** [base64.RawURLEncoding.EncodeToString] *)
Definition RawURLEncode (s : string) : string :=
  TrimRightByte "="%char
    (ReplaceByte (ReplaceByte (base64_encode s) "+"%char "-"%char) "/"%char "_"%char).

Record Url := {
  u_Scheme : string; u_Host : string; u_HasUser : bool; u_RawQuery : string;
  u_Fragment : string; u_String : string }.

Record TokenRequest := { tr_URL : string; tr_Authorization : string }.

(** The status, and the body as far as it was read or the read error. *)
Record TokenResponse := { ts_Status : Z; ts_Body : option string }.

Definition RSAPrivateKeyType : string := "RSA PRIVATE KEY".
Definition jwt_header : string :=
  "{" +:+ dquote +:+ "alg" +:+ dquote +:+ ":" +:+ dquote +:+ "RS256" +:+ dquote +:+ "," +:+
  dquote +:+ "typ" +:+ dquote +:+ ":" +:+ dquote +:+ "JWT" +:+ dquote +:+ "}".
Definition jwt_claims (appID : Z) (now : Time) : string :=
  "{" +:+ dquote +:+ "exp" +:+ dquote +:+ ":" +:+ FormatInt (Add now (9 * Minute) / Second)
  +:+ "," +:+ dquote +:+ "iat" +:+ dquote +:+ ":" +:+ FormatInt (Add now (- Minute) / Second)
  +:+ "," +:+ dquote +:+ "iss" +:+ dquote +:+ ":" +:+ dquote +:+ FormatInt appID +:+ dquote +:+ "}".

Section Resolve.
Context {W Key : Type}.
Context (pem_Decode : string → option (string * string * string))
        (ParsePKCS1 ParsePKCS8 : string → option Key) (BitLen : Key → Z)
        (Sign : Key → string → option string) (url_Parse : string → option Url)
        (newRequestOk : string → bool)
        (http_Do : TokenRequest → W → option TokenResponse * W)
        (parse_token : string → option (string * Time)).

(** The App identifiers: positive 64-bit integers, blanks around them ignored. *)
Definition parse_id (what : string) (data : gmap string string) (key : string) : error + Z :=
  match ParseInt (TrimSpace (default "" (data !! key))) 64 with
  | Some n => if decide (n ≤ 0) then inl (ENew what) else inr n
  | None => inl (ENew what)
  end.

Definition parse_key (data : gmap string string) : error + Key :=
  let privateKey := default "" (data !! "privateKey") in
  if decide (slen privateKey > 32768) then inl (ENew "GitHub App private key exceeds limit")
  else match pem_Decode privateKey with
  | None => inl (ENew "GitHub App privateKey must contain one RSA private key")
  | Some (ty, bytes, rest) =>
      if decide (TrimSpace rest ≠ "") then
        inl (ENew "GitHub App privateKey must contain one RSA private key")
      else
        match (if decide (ty = RSAPrivateKeyType) then ParsePKCS1 bytes else ParsePKCS8 bytes) with
        | Some key =>
            if decide (BitLen key < 2048) then
              inl (ENew "GitHub App requires a valid RSA key of at least 2048 bits")
            else inr key
        | None => inl (ENew "GitHub App requires a valid RSA key of at least 2048 bits")
        end
  end.

Definition api_base (baseURL : string) : error + string :=
  if decide (baseURL = "") then inr "https://api.github.com"
  else match url_Parse baseURL with
  | None => inl (ENew "GitHub App baseURL must be an HTTPS API endpoint")
  | Some u =>
      if bool_decide (u_Scheme u ≠ "https") || bool_decide (u_Host u = "") || u_HasUser u
         || bool_decide (u_RawQuery u ≠ "") || bool_decide (u_Fragment u ≠ "")
      then inl (ENew "GitHub App baseURL must be an HTTPS API endpoint")
      else
        let base := TrimRightByte slash (u_String u) in
        inr (if HasSuffix base "/api/v3" then base else base +:+ "/api/v3")
  end.

Definition Resolve (conn : Connection) (data : gmap string string) (now : Time) (w : W)
    : (error + Credential) * W :=
  let ty := cs_Type (cn_Spec conn) in
  if decide (ty ≠ CredentialTypeGitHubApp) then
    if decide (ty ≠ CredentialTypePAT ∧ ty ≠ CredentialTypeOAuth ∧ ty ≠ "") then
      (inl (ENew "unsupported Code credential type"), w)
    else
      let key := ls_Key (cs_SecretRef (cn_Spec conn)) in
      let key := if decide (key = "") then DefaultTokenKey else key in
      let token := TrimSpace (default "" (data !! key)) in
      if decide (token = "") then (inl (ENew "code credential token missing"), w)
      else (inr {| cr_Token := token |}, w)
  else
    match parse_id "GitHub App appID must be positive" data "appID" with
    | inl e => (inl e, w)
    | inr appID =>
    match parse_id "GitHub App installationID must be positive" data "installationID" with
    | inl e => (inl e, w)
    | inr installationID =>
    match parse_key data with
    | inl e => (inl e, w)
    | inr key =>
      let unsigned := RawURLEncode jwt_header +:+ "." +:+ RawURLEncode (jwt_claims appID now) in
      match Sign key (sha256 unsigned) with
      | None => (inl (ENew "GitHub App signing failed"), w)
      | Some signature =>
      match api_base (cs_BaseURL (cn_Spec conn)) with
      | inl e => (inl e, w)
      | inr base =>
        let url := base +:+ "/app/installations/" +:+ FormatInt installationID
                   +:+ "/access_tokens" in
        if negb (newRequestOk url) then (inl (ENew "parse request URL"), w)
        else
          let '(response, w) := http_Do
            {| tr_URL := url;
               tr_Authorization := "Bearer " +:+ unsigned +:+ "." +:+ RawURLEncode signature |} w in
          match response with
          | None => (inl (ENew "GitHub installation token request failed"), w)
          | Some response =>
              if decide (ts_Status response ≠ 201) then
                (inl (ENew ("GitHub installation token returned HTTP "
                            +:+ FormatInt (ts_Status response))), w)
              else match ts_Body response with
              | None => (inl (ENew "invalid installation token response"), w)
              | Some body =>
                  if decide (slen body > 65536) then
                    (inl (ENew "invalid installation token response"), w)
                  else match parse_token body with
                  | None => (inl (ENew "invalid or expiring installation token"), w)
                  | Some (token, expiresAt) =>
                      if bool_decide (token = "") || negb (After expiresAt (Add now (5 * Minute)))
                      then (inl (ENew "invalid or expiring installation token"), w)
                      else (inr {| cr_Token := token |}, w)
                  end
              end
          end
      end
      end
    end
    end
    end.
End Resolve.

(** What an accepted installation exchange went through. *)
Definition exchanged {W Key : Type} (pem_Decode : string → option (string * string * string))
    (ParsePKCS1 ParsePKCS8 : string → option Key) (BitLen : Key → Z)
    (Sign : Key → string → option string) (url_Parse : string → option Url)
    (http_Do : TokenRequest → W → option TokenResponse * W)
    (parse_token : string → option (string * Time))
    (conn : Connection) (data : gmap string string) (now : Time) (w : W)
    (cred : Credential) (w' : W) : Prop :=
  ∃ appID installationID key signature base body expiresAt,
    parse_id "GitHub App appID must be positive" data "appID" = inr appID ∧ 0 < appID ∧
    parse_id "GitHub App installationID must be positive" data "installationID"
      = inr installationID ∧ 0 < installationID ∧
    parse_key pem_Decode ParsePKCS1 ParsePKCS8 BitLen data = inr key ∧ 2048 ≤ BitLen key ∧
    Sign key (sha256 (RawURLEncode jwt_header +:+ "." +:+ RawURLEncode (jwt_claims appID now)))
      = Some signature ∧
    api_base url_Parse (cs_BaseURL (cn_Spec conn)) = inr base ∧
    http_Do {| tr_URL := base +:+ "/app/installations/" +:+ FormatInt installationID
                         +:+ "/access_tokens";
               tr_Authorization :=
                 "Bearer " +:+ (RawURLEncode jwt_header +:+ "." +:+
                   RawURLEncode (jwt_claims appID now)) +:+ "." +:+ RawURLEncode signature |} w
      = (Some {| ts_Status := 201; ts_Body := Some body |}, w') ∧
    slen body ≤ 65536 ∧ parse_token body = Some (cr_Token cred, expiresAt) ∧
    now + 5 * Minute < expiresAt.

(** ** Lemmas *)

Lemma parse_id_pos what data key n : parse_id what data key = inr n → 0 < n.
Proof.
  unfold parse_id. destruct (ParseInt _ _) as [z|]; [|done]. case_decide; [done|].
  intros [= <-]. lia.
Qed.

Lemma parse_key_bits {Key} pem_Decode (P1 P8 : string → option Key) BitLen data key :
  parse_key pem_Decode P1 P8 BitLen data = inr key → 2048 ≤ BitLen key.
Proof.
  unfold parse_key. case_decide; [done|]. destruct (pem_Decode _) as [[[ty bytes] rest]|]; [|done].
  case_decide; [done|]. destruct (if decide _ then P1 bytes else P8 bytes) as [k|]; [|done].
  case_decide; [done|]. intros [= <-]. lia.
Qed.

(** ** Property *)

(** A resolved credential is never empty.  For a PAT or OAuth connection it
    is the trimmed value of the Secret's key and nothing is sent; for a GitHub
    App it is the token of one 201 answer to an exchange signed with a key of at
    least 2048 bits for positive App and installation ids, and it stays valid
    for more than five minutes. *)
Theorem Resolve_sound {W Key : Type} pem_Decode (P1 P8 : string → option Key) BitLen Sign
    url_Parse newRequestOk http_Do parse_token conn data now (w w' : W) cred
    (H : Resolve pem_Decode P1 P8 BitLen Sign url_Parse newRequestOk http_Do parse_token
           conn data now w = (inr cred, w')) :
  cr_Token cred ≠ "" ∧
  if decide (cs_Type (cn_Spec conn) = CredentialTypeGitHubApp)
  then exchanged pem_Decode P1 P8 BitLen Sign url_Parse http_Do parse_token conn data now w cred w'
  else w' = w ∧ TrimSpace (cr_Token cred) = cr_Token cred ∧
    let key := ls_Key (cs_SecretRef (cn_Spec conn)) in
    cr_Token cred = TrimSpace (default "" (data !! (if decide (key = "") then DefaultTokenKey else key))).
Proof.
  unfold Resolve in H. destruct (decide (cs_Type (cn_Spec conn) = CredentialTypeGitHubApp)) as [Ht|Ht].
  - rewrite decide_False in H by tauto.
    destruct (parse_id _ data "appID") as [|appID] eqn:Ha; [done|].
    destruct (parse_id _ data "installationID") as [|inst] eqn:Hi; [done|].
    destruct (parse_key pem_Decode P1 P8 BitLen data) as [|key] eqn:Hk; [done|].
    destruct (Sign key _) as [signature|] eqn:Hs; [|done].
    destruct (api_base url_Parse _) as [|base] eqn:Hb; [done|].
    destruct (negb (newRequestOk _)); [done|].
    destruct (http_Do _ w) as [response w1] eqn:Hd.
    destruct response as [[status body]|]; [|done]. cbn [ts_Status ts_Body] in H.
    destruct (decide (status ≠ 201)) as [|Hst]; [done|]. destruct body as [body|]; [|done].
    destruct (decide (slen body > 65536)) as [|Hlen]; [done|].
    destruct (parse_token body) as [[token expiresAt]|] eqn:Hp; [|done].
    destruct (bool_decide (token = "")) eqn:Htok; [done|]. apply bool_decide_eq_false in Htok.
    destruct (negb (After expiresAt (Add now (5 * Minute)))) eqn:Hexp; [done|].
    injection H as <- <-. split; [done|].
    assert (status = 201) as -> by (destruct (decide (status = 201)); tauto).
    exists appID, inst, key, signature, base, body, expiresAt.
    split_and!; try done; [by eapply parse_id_pos|by eapply parse_id_pos|by eapply parse_key_bits|].
    apply negb_false_iff in Hexp. unfold After, Add in Hexp. lia.
  - rewrite decide_True in H by done. case_decide; [done|].
    set (token := TrimSpace _) in H. destruct (decide (token = "")) as [|Hne]; [done|].
    injection H as <- <-. split_and!; [done|done| |done]. apply TrimSpace_idemp.
Qed.

Definition pat_connection : Connection :=
  {| cn_Meta := {| om_Name := "c"; om_Namespace := ""; om_UID := ""; om_Generation := 1;
       om_Labels := ∅; om_Annotations := ∅; om_Finalizers := []; om_DeletionTimestamp := None;
       om_OwnerReferences := [] |};
     cn_Spec := {| cs_Provider := "github"; cs_Type := CredentialTypePAT; cs_Owner := "o";
       cs_SecretRef := {| ls_Name := "s"; ls_Namespace := ""; ls_Key := "" |}; cs_BaseURL := "" |};
     cn_Status := {| ct_ObservedGeneration := 0; ct_Login := ""; ct_Scopes := [];
       ct_Conditions := [] |} |}.

Lemma Resolve_sound_witness :
  let r := Resolve (W:=unit) (Key:=unit) (λ _, None) (λ _, None) (λ _, None) (λ _, 0) (λ _ _, None)
    (λ _, None) (λ _, true) (λ _ w, (None, w)) (λ _, None) pat_connection
    {[ "token" := " ghp_1" +:+ String (ascii_of_N 10) "" ]} 0 tt in
  r = (inr {| cr_Token := "ghp_1" |}, tt) ∧ "ghp_1" ≠ "".
Proof.
  split; [vm_compute; reflexivity|].
  refine (proj1 (Resolve_sound (W:=unit) (Key:=unit) (λ _, None) (λ _, None) (λ _, None) (λ _, 0)
    (λ _ _, None) (λ _, None) (λ _, true) (λ _ w, (None, w)) (λ _, None) pat_connection
    {[ "token" := " ghp_1" +:+ String (ascii_of_N 10) "" ]} 0 tt tt {| cr_Token := "ghp_1" |} _)).
  vm_compute. reflexivity.
Defined.
