(* ===== verification/Env.v ===== *)
(** * What the controllers run against

    The Kubernetes API of one workspace, the clock and the commit-bundle store
    are operations on a world [W]; apimachinery's condition and finalizer
    helpers are a class with the documented laws.  Every call leaves an event,
    with its result, in the trace. *)

From S2P Require Import Prelude GoStrings GoTime Errors CommitBundle Api Backend.
From Stdlib Require Import Ascii Lia.

#[local] Open Scope string_scope.

(** ** Events *)

Inductive BackendCall :=
  | CValidate (conn : Connection) (cred : Credential) (r : error + (string * list string))
  | CEnsureRepository (conn : Connection) (cred : Credential) (repo : Repository)
      (r : error + RepositoryResult)
  | CDeleteRepository (conn : Connection) (cred : Credential) (repo : Repository)
      (r : option error)
  | CEnsureDeployKey (conn : Connection) (cred : Credential) (repo : Repository)
      (key : DeployKey) (pub : string) (r : error + DeployKeyResult)
  | CDeleteDeployKey (conn : Connection) (cred : Credential) (repo : Repository) (id : string)
      (r : option error)
  | CEnsureCollaborator (conn : Connection) (cred : Credential) (repo : Repository)
      (collab : Collaborator) (r : error + CollaboratorResult)
  | CRemoveCollaborator (conn : Connection) (cred : Credential) (repo : Repository)
      (collab : Collaborator) (r : option error)
  | CCommitFiles (conn : Connection) (cred : Credential) (repo : Repository)
      (input : RepositoryCommitInput) (r : error + RepositoryCommitResult)
  | CCheckoutFiles (conn : Connection) (cred : Credential) (repo : Repository)
      (input : RepositoryCheckoutInput) (r : error + RepositoryCheckoutResult)
  | CListPackages (fresh : bool) (conn : Connection) (cred : Credential) (repo : Repository)
      (r : error + list PackageInfo)
  | CLatestWorkflowRun (conn : Connection) (cred : Credential) (repo : Repository)
      (q : WorkflowRunQuery) (r : error + WorkflowRunStatus)
  | CDispatchWorkflow (conn : Connection) (cred : Credential) (repo : Repository)
      (workflow ref : string) (r : option error).

Inductive Event :=
  | EvCluster (name : string) (r : option error)
  | EvNow (t : Time)
  | EvGet (k : Kind) (ns name : string) (r : error + obj k)
  | EvList (k : Kind) (labels : gmap string string) (r : error + list (obj k))
  | EvCreate (k : Kind) (o : obj k) (r : error + obj k)
  | EvUpdate (k : Kind) (o : obj k) (r : error + obj k)
  | EvStatus (k : Kind) (o : obj k) (r : error + obj k)
  | EvDelete (k : Kind) (o : obj k) (r : option error)
  | EvBundlePut (scope : string) (files : list File) (r : error + BundleRef)
  | EvBundleGet (scope name digest : string) (r : error + Bundle)
  | EvBundleDelete (scope name digest : string) (r : option error)
  | EvCredential (r : error + Credential)
  | EvKeygen (r : error + (string * string))
  | EvBackend (c : BackendCall).

(** ** Operations *)

(** The workspace client, the clock, the bundle store ([commitbundle.Store]),
    the installation-token exchange and key generation, which also reach
    outside the process.  A successful write returns the object the server
    answered with. *)
Class Env (W : Type) := {
  env_cluster : string → W → option error * W;
  env_now : W → Time * W;
  env_get : ∀ k, string → string → W → (error + obj k) * W;
  env_list : ∀ k, gmap string string → W → (error + list (obj k)) * W;
  env_create : ∀ k, obj k → W → (error + obj k) * W;
  env_update : ∀ k, obj k → W → (error + obj k) * W;
  env_status : ∀ k, obj k → W → (error + obj k) * W;
  env_delete : ∀ k, obj k → W → option error * W;
  env_bundle_put : string → list File → W → (error + BundleRef) * W;
  env_bundle_get : string → string → string → W → (error + Bundle) * W;
  env_bundle_delete : string → string → string → W → option error * W;
  env_resolve : Connection → gmap string string → W → (error + Credential) * W;
  env_keygen : string → W → (error + (string * string)) * W;
  env_getenv : string → string }.

(** apimachinery: conditions and finalizers. *)
Class ApiMachinery := {
  SetStatusCondition : Time → list Condition → Condition → list Condition;
  FindStatusCondition : list Condition → string → option Condition;
  AddFinalizer : list string → string → list string;
  RemoveFinalizer : list string → string → list string }.

Definition IsStatusConditionTrue `{ApiMachinery} (l : list Condition) (ty : string) : bool :=
  match FindStatusCondition l ty with
  | Some c => bool_decide (c_Status c = ConditionTrue)
  | None => false
  end.
Definition ContainsFinalizer (l : list string) (f : string) : bool := bool_decide (f ∈ l).

(** The documented behaviour the proofs use. *)
Class ApiMachineryLaws `{ApiMachinery} := {
  find_set now l c :
    ∃ t, FindStatusCondition (SetStatusCondition now l c) (c_Type c)
      = Some {| c_Type := c_Type c; c_Status := c_Status c;
                c_ObservedGeneration := c_ObservedGeneration c; c_LastTransitionTime := t;
                c_Reason := c_Reason c; c_Message := c_Message c |};
  find_set_other now l c ty : ty ≠ c_Type c →
    FindStatusCondition (SetStatusCondition now l c) ty = FindStatusCondition l ty;
  add_finalizer l f g : g ∈ AddFinalizer l f ↔ g = f ∨ g ∈ l;
  remove_finalizer l f g : g ∈ RemoveFinalizer l f ↔ g ≠ f ∧ g ∈ l }.

(** ** Effects *)

Abbreviation Eff W := (M W Event) (only parsing).

(** [ctrl.Result] *)
Record Result := { Requeue : bool; RequeueAfter : Duration }.
Definition NoRequeue : Result := {| Requeue := false; RequeueAfter := 0 |}.
Definition RequeueNow : Result := {| Requeue := true; RequeueAfter := 0 |}.
Definition RequeueIn (d : Duration) : Result := {| Requeue := false; RequeueAfter := d |}.

Section Calls.
Context {W : Type} `{Env W}.

Definition get_cluster (name : string) : Eff W (option error) :=
  call (env_cluster name) (EvCluster name).
Definition Now : Eff W Time := call env_now EvNow.
Definition k_get (k : Kind) (ns name : string) : Eff W (error + obj k) :=
  call (env_get k ns name) (EvGet k ns name).
Definition k_list (k : Kind) (labels : gmap string string) : Eff W (error + list (obj k)) :=
  call (env_list k labels) (EvList k labels).
Definition k_create (k : Kind) (o : obj k) : Eff W (error + obj k) :=
  call (env_create k o) (EvCreate k o).
Definition k_update (k : Kind) (o : obj k) : Eff W (error + obj k) :=
  call (env_update k o) (EvUpdate k o).
Definition k_status (k : Kind) (o : obj k) : Eff W (error + obj k) :=
  call (env_status k o) (EvStatus k o).
Definition k_delete (k : Kind) (o : obj k) : Eff W (option error) :=
  call (env_delete k o) (EvDelete k o).
Definition bundle_put (scope : string) (files : list File) : Eff W (error + BundleRef) :=
  call (env_bundle_put scope files) (EvBundlePut scope files).
Definition bundle_get (scope name digest : string) : Eff W (error + Bundle) :=
  call (env_bundle_get scope name digest) (EvBundleGet scope name digest).
Definition bundle_delete (scope name digest : string) : Eff W (option error) :=
  call (env_bundle_delete scope name digest) (EvBundleDelete scope name digest).
Definition resolve_token (conn : Connection) (data : gmap string string)
    : Eff W (error + Credential) :=
  call (env_resolve conn data) EvCredential.
Definition keygen (comment : string) : Eff W (error + (string * string)) :=
  call (env_keygen comment) EvKeygen.

Definition validate_connection (b : GitBackend W) conn cred :=
  call (gb_ValidateConnection b conn cred) (λ r, EvBackend (CValidate conn cred r)).
Definition ensure_repository (b : GitBackend W) conn cred repo :=
  call (gb_EnsureRepository b conn cred repo)
    (λ r, EvBackend (CEnsureRepository conn cred repo r)).
Definition delete_repository (b : GitBackend W) conn cred repo :=
  call (gb_DeleteRepository b conn cred repo)
    (λ r, EvBackend (CDeleteRepository conn cred repo r)).
Definition ensure_deploy_key (b : GitBackend W) conn cred repo key pub :=
  call (gb_EnsureDeployKey b conn cred repo key pub)
    (λ r, EvBackend (CEnsureDeployKey conn cred repo key pub r)).
Definition delete_deploy_key (b : GitBackend W) conn cred repo id :=
  call (gb_DeleteDeployKey b conn cred repo id)
    (λ r, EvBackend (CDeleteDeployKey conn cred repo id r)).
Definition ensure_collaborator (b : GitBackend W) conn cred repo collab :=
  call (gb_EnsureCollaborator b conn cred repo collab)
    (λ r, EvBackend (CEnsureCollaborator conn cred repo collab r)).
Definition remove_collaborator (b : GitBackend W) conn cred repo collab :=
  call (gb_RemoveCollaborator b conn cred repo collab)
    (λ r, EvBackend (CRemoveCollaborator conn cred repo collab r)).
End Calls.

(** Symbolic execution across the calls above. *)
Ltac is_call m :=
  lazymatch m with
  | get_cluster _ => idtac | Now => idtac | k_get _ _ _ => idtac | k_list _ _ => idtac
  | k_create _ _ => idtac | k_update _ _ => idtac | k_status _ _ => idtac
  | k_delete _ _ => idtac | bundle_put _ _ => idtac | bundle_get _ _ _ => idtac
  | bundle_delete _ _ _ => idtac | resolve_token _ _ => idtac | keygen _ => idtac
  | validate_connection _ _ _ => idtac | ensure_repository _ _ _ _ => idtac
  | delete_repository _ _ _ _ => idtac | ensure_deploy_key _ _ _ _ _ _ => idtac
  | delete_deploy_key _ _ _ _ _ => idtac | ensure_collaborator _ _ _ _ _ => idtac
  | remove_collaborator _ _ _ _ _ => idtac
  end.
Ltac env_step :=
  first
    [ emit_step
    | lazymatch goal with
      | |- emits ?m _ => is_call m; apply emits_call; intros ?
      end ].
Ltac env_run := repeat (env_step; cbn beta iota; cbn [app]).

Ltac env_all :=
  repeat (first
    [ all_step
    | lazymatch goal with
      | |- emits ?m _ => is_call m; apply emits_all_call; intros ?
      end ]; cbn beta iota zeta).

(** ** A concrete machinery

    What apimachinery's helpers do, for running the definitions on examples. *)

Fixpoint set_condition (now : Time) (l : list Condition) (c : Condition) : list Condition :=
  match l with
  | [] => [ {| c_Type := c_Type c; c_Status := c_Status c;
               c_ObservedGeneration := c_ObservedGeneration c; c_LastTransitionTime := now;
               c_Reason := c_Reason c; c_Message := c_Message c |} ]
  | d :: l =>
      if decide (c_Type d = c_Type c) then
        {| c_Type := c_Type c; c_Status := c_Status c;
           c_ObservedGeneration := c_ObservedGeneration c;
           c_LastTransitionTime :=
             if decide (c_Status d = c_Status c) then c_LastTransitionTime d else now;
           c_Reason := c_Reason c; c_Message := c_Message c |} :: l
      else d :: set_condition now l c
  end.
Definition find_condition (l : list Condition) (ty : string) : option Condition :=
  List.find (λ c, bool_decide (c_Type c = ty)) l.

#[export] Instance machinery : ApiMachinery := {
  SetStatusCondition := set_condition;
  FindStatusCondition := find_condition;
  AddFinalizer := λ l f, if decide (f ∈ l) then l else (l ++ [f])%list;
  RemoveFinalizer := λ l f, filter (λ g, g ≠ f) l }.

#[export] Instance machinery_laws : ApiMachineryLaws.
Proof.
  split.
  - intros now l c. simpl. induction l as [|d l [t IH]]; simpl.
    + exists now. unfold find_condition. simpl. by rewrite bool_decide_eq_true_2.
    + case_decide as Hd.
      * eexists. unfold find_condition. simpl. by rewrite bool_decide_eq_true_2.
      * exists t. unfold find_condition in *. simpl. by rewrite bool_decide_eq_false_2.
  - intros now l c ty Hty. simpl. induction l as [|d l IH]; simpl.
    + unfold find_condition. simpl. by rewrite bool_decide_eq_false_2.
    + case_decide as Hd; unfold find_condition in *; simpl.
      * rewrite !bool_decide_eq_false_2 by congruence. done.
      * case_bool_decide; [done|]. exact IH.
  - intros l f g. simpl. case_decide; [naive_solver|]. set_solver.
  - intros l f g. simpl. by rewrite list_elem_of_filter.
Qed.

(** ** A fixed environment

    Reads answer from given tables and writes succeed with the object written:
    enough to run a handler on an example. *)
Definition fixed_env (now : Time) (get : ∀ k, string → string → error + obj k)
    (lst : ∀ k, error + list (obj k)) (bundle : error + Bundle) : Env unit := {|
  env_cluster := λ _ w, (None, w);
  env_now := λ w, (now, w);
  env_get := λ k ns name w, (get k ns name, w);
  env_list := λ k _ w, (lst k, w);
  env_create := λ k o w, (inr o, w);
  env_update := λ k o w, (inr o, w);
  env_status := λ k o w, (inr o, w);
  env_delete := λ k o w, (None, w);
  env_bundle_put := λ _ _ w, (inl (ENew "read only"), w);
  env_bundle_get := λ _ _ _ w, (bundle, w);
  env_bundle_delete := λ _ _ _ w, (None, w);
  env_resolve := λ _ _ w, (inr {| cr_Token := "token" |}, w);
  env_keygen := λ _ w, (inr ("private", "ssh-ed25519 AAAA"), w);
  env_getenv := λ _, "" |}.

Definition named (name uid : string) : ObjectMeta :=
  {| om_Name := name; om_Namespace := ""; om_UID := uid; om_Generation := 1;
     om_Labels := ∅; om_Annotations := ∅; om_Finalizers := []; om_DeletionTimestamp := None;
     om_OwnerReferences := [] |}.
Definition demo_connection : Connection :=
  {| cn_Meta := named "conn" "c-1";
     cn_Spec := {| cs_Provider := ProviderGitHub; cs_Type := CredentialTypePAT; cs_Owner := "acme";
       cs_SecretRef := {| ls_Name := "secret"; ls_Namespace := ""; ls_Key := "" |};
       cs_BaseURL := "" |};
     cn_Status := {| ct_ObservedGeneration := 0; ct_Login := ""; ct_Scopes := [];
       ct_Conditions := [] |} |}.
Definition demo_repository : Repository :=
  {| rp_Meta := named "repo" "r-1";
     rp_Spec := {| rs_ConnectionRef := "conn"; rs_Name := "app"; rs_Owner := "";
       rs_Visibility := VisibilityPrivate; rs_Description := ""; rs_DefaultBranch := "main";
       rs_AutoInit := true |};
     rp_Status := {| rt_ObservedGeneration := 0; rt_RepoID := ""; rt_HTMLURL := "";
       rt_CloneURL := ""; rt_SSHURL := ""; rt_Conditions := [] |} |}.
Definition demo_secret : Secret :=
  {| sc_Meta := named "secret" "s-1"; sc_Type := "Opaque"; sc_Data := {[ "token" := "t" ]} |}.
