(* ===== verification/Shared.v ===== *)
(** * controller/shared: what the reconcilers have in common *)

From S2P Require Import Prelude GoStrings GoTime Errors Api Backend Tenant Env.
From Stdlib Require Import Ascii Lia.

#[local] Open Scope string_scope.
#[local] Open Scope Z_scope.

Section Shared.
Context {W : Type} `{Env W} `{ApiMachinery}.

(** [err.Error()], which may read the clock. *)
Definition error_text (e : error) : Eff W string :=
  now ← Now;
  mret (ErrorText now e).

(** The client is the world's; only its resolution can fail. *)
Definition ClusterClient (clusterName : string) : Eff W (error + unit) :=
  r ← get_cluster clusterName;
  match r with
  | Some e => mret (inl (Wrap ("getting cluster " +:+ clusterName +:+ ": ") e))
  | None => mret (inr tt)
  end.

(** [SetCondition]; the clock reading is the one apimachinery would take. *)
Definition SetCondition (conds : list Condition) (condType status reason msg : string)
    (observedGen : Z) : Eff W (list Condition) :=
  now ← Now;
  mret (SetStatusCondition now conds
    {| c_Type := condType; c_Status := status; c_ObservedGeneration := observedGen;
       c_LastTransitionTime := zeroTime; c_Reason := reason; c_Message := msg |}).

Definition ResolveConnection (ref : string) : Eff W (error + Connection) :=
  r ← k_get KConnection "" ref;
  match r with
  | inl e =>
      if IsNotFound e then mret (inl (ENew ("connection " +:+ Quote ref +:+ " not found")))
      else mret (inl (Wrap ("get connection " +:+ Quote ref +:+ ": ") e))
  | inr conn => mret (inr conn)
  end.

Definition ResolveRepository (ref : string) : Eff W (error + Repository) :=
  r ← k_get KRepository "" ref;
  match r with
  | inl e =>
      if IsNotFound e then mret (inl (ENew ("repository " +:+ Quote ref +:+ " not found")))
      else mret (inl (Wrap ("get repository " +:+ Quote ref +:+ ": ") e))
  | inr repo => mret (inr repo)
  end.

Definition ResolveCredential (conn : Connection) : Eff W (error + Credential) :=
  let ref := cs_SecretRef (cn_Spec conn) in
  let ns := if decide (ls_Namespace ref = "") then DefaultCredentialsNamespace env_getenv
            else ls_Namespace ref in
  r ← k_get KSecret ns (ls_Name ref);
  match r with
  | inl e =>
      if IsNotFound e then mret (inl ECredentialsMissing)
      else if IsForbidden e then mret (inl EAPIBindingMissing)
      else mret (inl (Wrap ("get credential secret " +:+ ns +:+ "/" +:+ ls_Name ref +:+ ": ") e))
  | inr secret => resolve_token conn (sc_Data secret)
  end.

End Shared.

(** [RateLimitWait]: how long to wait, and the condition message. *)
Definition RateLimitWait (err : error) (now : Time) : option (Duration * string) :=
  match AsRateLimit err with
  | Some retryAt =>
      Some (Z.max (Sub retryAt now) Second,
            "GitHub rate limit; retrying at " +:+ RFC3339 retryAt)
  | None => None
  end.

(** ** Lemmas *)

Section Emits.
Context {W : Type} `{Env W} `{ApiMachinery}.

(** Calls that change nothing outside. *)
Definition reads (e : Event) : Prop :=
  match e with
  | EvCluster _ _ | EvNow _ | EvGet _ _ _ _ | EvList _ _ _ | EvCredential _ => True
  | _ => False
  end.

Lemma error_text_reads e : emits (error_text e) (λ _ t, Forall reads t).
Proof. unfold error_text. env_run. by repeat constructor. Qed.
Lemma ClusterClient_reads n : emits (ClusterClient n) (λ _ t, Forall reads t).
Proof. unfold ClusterClient. env_run; by repeat constructor. Qed.
Lemma SetCondition_reads l ty s r m g : emits (SetCondition l ty s r m g) (λ _ t, Forall reads t).
Proof. unfold SetCondition. env_run; by repeat constructor. Qed.
Lemma ResolveConnection_reads n : emits (ResolveConnection n) (λ _ t, Forall reads t).
Proof. unfold ResolveConnection. env_run; by repeat constructor. Qed.
Lemma ResolveRepository_reads n : emits (ResolveRepository n) (λ _ t, Forall reads t).
Proof. unfold ResolveRepository. env_run; by repeat constructor. Qed.
Lemma ResolveCredential_reads c : emits (ResolveCredential c) (λ _ t, Forall reads t).
Proof. unfold ResolveCredential. env_run; by repeat constructor. Qed.
End Emits.

(** ** Property *)

(** A rate-limited error, however deeply wrapped, is waited out: the wait is
    at least a second, ends no earlier than the host's reset (for resets a
    [Duration] can express), and the message depends on the reset only, so
    writing it again changes nothing; any other error is not waited for. *)
Theorem RateLimitWait_spec (err : error) (now : Time) :
  match RateLimitWait err now with
  | Some (wait, msg) => ∃ retryAt, AsRateLimit err = Some retryAt ∧
      Second ≤ wait ≤ maxDuration ∧
      (retryAt - now ≤ maxDuration → retryAt ≤ now + wait) ∧
      (∀ later err', AsRateLimit err' = Some retryAt →
         ∃ wait', RateLimitWait err' later = Some (wait', msg))
  | None => AsRateLimit err = None
  end.
Proof.
  unfold RateLimitWait. destruct (AsRateLimit err) as [retryAt|]; [|done].
  exists retryAt. pose proof (Sub_range retryAt now) as Hr. split_and!; [done| | | |].
  - lia.
  - unfold Second, maxDuration in *. lia.
  - unfold Sub, minDuration, maxDuration. lia.
  - intros later err' ->. by eexists.
Qed.
