(* ===== verification/CommitController.v ===== *)
(** * controller/repositorycommit: a commit request's life

    One [Reconcile] pass moves a RepositoryCommit from pending to running and,
    through the git host, to its terminal phase; the source bundle is deleted
    once the terminal status is recorded. *)

From S2P Require Import Prelude GoStrings GoTime Errors CommitBundle Api Backend Tenant Env Shared.
From Stdlib Require Import Ascii Lia.

#[local] Open Scope string_scope.
#[local] Open Scope Z_scope.

Definition bundleArrivalTimeout : Duration := 30 * Second.

Definition isTerminal (phase : RepositoryCommitPhase) : bool :=
  bool_decide (phase = RepositoryCommitPhaseSucceeded)
  || bool_decide (phase = RepositoryCommitPhaseFailed).

Definition repositoryCommitIdempotencyKey (commit : RepositoryCommit) : string :=
  if decide (om_UID (rc_Meta commit) ≠ "") then om_UID (rc_Meta commit)
  else om_Name (rc_Meta commit).

Definition bundleArrivalTimedOut (startedAt : option Time) (now : Time) : bool :=
  match startedAt with
  | None => false
  | Some t => bool_decide (bundleArrivalTimeout ≤ Sub now t)
  end.

(** When to retry a commit that failed on a host rate limit. *)
Definition rateLimitRetry (err : error) (startedAt : option Time) (now : Time) : option Time :=
  match AsRateLimit err, startedAt with
  | Some limited, Some started =>
      let earliest := Add now Second in
      let retryAt := if Before limited earliest then earliest else limited in
      if After retryAt (Add started RepositoryCommitRateLimitWindow) then None else Some retryAt
  | _, _ => None
  end.

(** Status updates of the records' fields. *)
Definition mt_set_conditions (s : RepositoryCommitStatus) (l : list Condition)
    : RepositoryCommitStatus :=
  {| mt_ObservedGeneration := mt_ObservedGeneration s; mt_Phase := mt_Phase s;
     mt_StartedAt := mt_StartedAt s; mt_CompletedAt := mt_CompletedAt s;
     mt_Branch := mt_Branch s; mt_CommitSHA := mt_CommitSHA s; mt_CommitURL := mt_CommitURL s;
     mt_Source := mt_Source s; mt_Files := mt_Files s; mt_Conditions := l |}.

Definition mt_set_running (s : RepositoryCommitStatus) (gen : Z) (now : Time)
    : RepositoryCommitStatus :=
  {| mt_ObservedGeneration := gen; mt_Phase := RepositoryCommitPhaseRunning;
     mt_StartedAt := match mt_StartedAt s with Some t => Some t | None => Some now end;
     mt_CompletedAt := mt_CompletedAt s; mt_Branch := mt_Branch s;
     mt_CommitSHA := mt_CommitSHA s; mt_CommitURL := mt_CommitURL s; mt_Source := mt_Source s;
     mt_Files := mt_Files s; mt_Conditions := mt_Conditions s |}.

Definition mt_set_failed (s : RepositoryCommitStatus) (gen : Z) (now : Time)
    : RepositoryCommitStatus :=
  {| mt_ObservedGeneration := gen; mt_Phase := RepositoryCommitPhaseFailed;
     mt_StartedAt := match mt_StartedAt s with Some t => Some t | None => Some now end;
     mt_CompletedAt := Some now; mt_Branch := mt_Branch s;
     mt_CommitSHA := mt_CommitSHA s; mt_CommitURL := mt_CommitURL s; mt_Source := mt_Source s;
     mt_Files := mt_Files s; mt_Conditions := mt_Conditions s |}.

Definition commit_file (f : BundleFile) : RepositoryCommitFile :=
  {| cf_Path := bf_Path f; cf_Content := bf_Content f; cf_Encoding := bf_Encoding f;
     cf_Delete := bf_Delete f |}.
Definition commit_file_status (f : BundleFile) : RepositoryCommitFileStatus :=
  {| fs_Path := bf_Path f; fs_Size := bf_Size f; fs_Digest := bf_Digest f;
     fs_Delete := bf_Delete f |}.

Definition mt_set_succeeded (s : RepositoryCommitStatus) (gen : Z) (now : Time)
    (res : RepositoryCommitResult) (bundle : Bundle) : RepositoryCommitStatus :=
  {| mt_ObservedGeneration := gen; mt_Phase := RepositoryCommitPhaseSucceeded;
     mt_StartedAt := mt_StartedAt s; mt_CompletedAt := Some now; mt_Branch := co_Branch res;
     mt_CommitSHA := co_CommitSHA res; mt_CommitURL := co_CommitURL res;
     mt_Source := Some {| ss_Digest := b_Digest bundle; ss_Size := b_Size bundle;
                          ss_FileCount := Z.of_nat (length (b_Files bundle)) |};
     mt_Files := commit_file_status <$> b_Files bundle; mt_Conditions := mt_Conditions s |}.

Section Commit.
Context {W : Type} `{Env W} `{ApiMachinery}.

Definition updateStatusIfChanged (commit : RepositoryCommit) : Eff W (option error) :=
  r ← k_get KCommit "" (om_Name (rc_Meta commit));
  match r with
  | inl e => mret (Some e)
  | inr current =>
      if decide (rc_Status current = rc_Status commit) then mret None
      else
        u ← k_status KCommit (rc_set_Status current (rc_Status commit));
        match u with
        | inl e => mret (Some (Wrap ("update repositorycommit " +:+
                                     Quote (om_Name (rc_Meta commit)) +:+ " status: ") e))
        | inr _ => mret None
        end
  end.

(** [SetCondition] on the commit's conditions, as the status to write next. *)
Definition with_ready (commit : RepositoryCommit) (s : RepositoryCommitStatus)
    (status reason message : string) : Eff W RepositoryCommit :=
  conds ← SetCondition (mt_Conditions s) ConditionReady status reason message
            (om_Generation (rc_Meta commit));
  mret (rc_set_Status commit (mt_set_conditions s conds)).

Definition fail (commit : RepositoryCommit) (message : string) : Eff W (option error) :=
  now ← Now;
  next ← with_ready commit
           (mt_set_failed (rc_Status commit) (om_Generation (rc_Meta commit)) now)
           ConditionFalse ReasonError message;
  r ← updateStatusIfChanged next;
  match r with
  | Some e => mret (Some (Wrap ("update repositorycommit " +:+
                                Quote (om_Name (rc_Meta commit)) +:+ " failure status: ") e))
  | None => mret None
  end.

(** [r.Bundles] may be nil. *)
Definition failAndDeleteBundle (hasBundles : bool) (commit : RepositoryCommit)
    (message bundleScope : string) (bundleRef : RepositoryCommitBundleReference)
    : Eff W (option error) :=
  r ← fail commit message;
  match r with
  | Some e => mret (Some e)
  | None =>
      if negb hasBundles || bool_decide (br_Name bundleRef = "") then mret None
      else
        _ ← bundle_delete bundleScope (br_Name bundleRef) (br_Digest bundleRef);
        mret None
  end.

Definition waitForRateLimit (commit : RepositoryCommit) (retryAt : Time)
    : Eff W (error + Result) :=
  now ← Now;
  let wait := Z.max (Sub retryAt now) Second in
  next ← with_ready commit (rc_Status commit) ConditionFalse ReasonRateLimited
           ("GitHub rate limit; retrying in " +:+ FormatInt (Round wait Second / Second) +:+ "s");
  r ← updateStatusIfChanged next;
  match r with
  | Some e => mret (inl e)
  | None => mret (inr (RequeueIn wait))
  end.

(** The steps of [Reconcile] after the running status is recorded: [fail] is
    its closure over the request. *)
Definition commitBundle (fail : string → Eff W (error + Result)) (commit : RepositoryCommit)
    (bundleScope : string) (bundleRef : RepositoryCommitBundleReference)
    (b : GitBackend W)
    (committer : Connection → Credential → Repository → RepositoryCommitInput → W →
                 (error + RepositoryCommitResult) * W)
    (conn : Connection) (cred : Credential) (repo : Repository) : Eff W (error + Result) :=
  ensured ← ensure_repository b conn cred repo;
  match ensured with
  | inl err =>
      now ← Now;
      match rateLimitRetry err (mt_StartedAt (rc_Status commit)) now with
      | Some retryAt => waitForRateLimit commit retryAt
      | None =>
          text ← error_text err;
          fail ("ensure repository: " +:+ text)
      end
  | inr _ =>
      got ← bundle_get bundleScope (br_Name bundleRef) (br_Digest bundleRef);
      match got with
      | inl err =>
          now ← Now;
          if IsBundleNotFound err
             && negb (bundleArrivalTimedOut (mt_StartedAt (rc_Status commit)) now)
          then mret (inr (RequeueIn Second))
          else
            text ← error_text err;
            fail text
      | inr bundle =>
          let input := {| ci_Message := ms_Message (rc_Spec commit);
                          ci_Branch := ms_Branch (rc_Spec commit);
                          ci_IdempotencyKey := repositoryCommitIdempotencyKey commit;
                          ci_Files := commit_file <$> b_Files bundle |} in
          result ← call (committer conn cred repo input)
                     (λ r, EvBackend (CCommitFiles conn cred repo input r));
          match result with
          | inl err =>
              now ← Now;
              match rateLimitRetry err (mt_StartedAt (rc_Status commit)) now with
              | Some retryAt => waitForRateLimit commit retryAt
              | None =>
                  text ← error_text err;
                  fail text
              end
          | inr res =>
              completed ← Now;
              next ← with_ready commit
                       (mt_set_succeeded (rc_Status commit) (om_Generation (rc_Meta commit))
                          completed res bundle)
                       ConditionTrue ReasonReady "Commit succeeded.";
              r ← updateStatusIfChanged next;
              match r with
              | Some e => mret (inl (Wrap ("update repositorycommit " +:+
                                   Quote (om_Name (rc_Meta commit)) +:+ " status: ") e))
              | None =>
                  _ ← bundle_delete bundleScope (br_Name bundleRef) (br_Digest bundleRef);
                  mret (inr NoRequeue)
              end
          end
      end
  end.

(** Resolving everything the commit needs, each failure terminal. *)
Definition runCommit (fail : string → Eff W (error + Result)) (backends : Registry W)
    (commit : RepositoryCommit) (bundleScope : string)
    (bundleRef : RepositoryCommitBundleReference) : Eff W (error + Result) :=
  let failWith e := text ← error_text e; fail text in
  repo ← ResolveRepository (ms_RepositoryRef (rc_Spec commit));
  match repo with
  | inl e => failWith e
  | inr repo =>
    conn ← ResolveConnection (rs_ConnectionRef (rp_Spec repo));
    match conn with
    | inl e => failWith e
    | inr conn =>
      match Registry_Get backends (cs_Provider (cn_Spec conn)) with
      | None => fail ("git provider " +:+ Quote (cs_Provider (cn_Spec conn))
                      +:+ " is not registered")
      | Some b =>
        match gb_CommitFiles b with
        | None => fail ("git provider " +:+ Quote (cs_Provider (cn_Spec conn))
                        +:+ " does not support committing files")
        | Some committer =>
          cred ← ResolveCredential conn;
          match cred with
          | inl e => failWith e
          | inr cred => commitBundle fail commit bundleScope bundleRef b committer conn cred repo
          end
        end
      end
    end
  end.

Definition Reconcile (backends : option (Registry W)) (hasBundles : bool)
    (clusterName ns name : string) : Eff W (error + Result) :=
  _ ←? ClusterClient clusterName;
  got ← k_get KCommit ns name;
  match got with
  | inl e => if IsNotFound e then mret (inr NoRequeue) else mret (inl e)
  | inr commit =>
      if bool_decide (om_DeletionTimestamp (rc_Meta commit) ≠ None)
         || isTerminal (mt_Phase (rc_Status commit))
      then mret (inr NoRequeue)
      else
        let bundleRef := so_BundleRef (ms_Source (rc_Spec commit)) in
        let failFor c message :=
          r ← failAndDeleteBundle hasBundles c message clusterName bundleRef;
          match r with Some e => mret (inl e) | None => mret (inr NoRequeue) end in
        if negb hasBundles then failFor commit "bundle store is unavailable"
        else match backends with
        | None => failFor commit "git backends are unavailable"
        | Some backends =>
            now ← Now;
            commit ← with_ready commit
                       (mt_set_running (rc_Status commit) (om_Generation (rc_Meta commit)) now)
                       ConditionFalse ReasonReconciling "Commit is running.";
            r ← updateStatusIfChanged commit;
            match r with
            | Some e => mret (inl e)
            | None => runCommit (failFor commit) backends commit clusterName bundleRef
            end
        end
  end.
End Commit.

(** ** Trace vocabulary *)

(** The event shows that a commit object's terminal phase is recorded. *)
Definition records_terminal (e : Event) : bool :=
  match e with
  | EvStatus KCommit o (inr _) => isTerminal (mt_Phase (rc_Status o))
  | EvGet KCommit _ _ (inr o) => isTerminal (mt_Phase (rc_Status o))
  | _ => false
  end.

(** Bundle deletions only happen once the terminal phase is recorded, and
    nothing follows one. *)
Fixpoint delete_last (settled : bool) (t : list Event) : bool :=
  match t with
  | [] => true
  | e :: t =>
      match e with
      | EvBundleDelete _ _ _ _ => settled && bool_decide (t = [])
      | _ => delete_last (settled || records_terminal e) t
      end
  end.

(** The status says what the host and the bundle in the trace say. *)
Definition committed_by (prior : list Event) (s : RepositoryCommitStatus) : Prop :=
  ∃ scope name digest bundle conn cred repo input res,
    EvBundleGet scope name digest (inr bundle) ∈ prior ∧
    EvBackend (CCommitFiles conn cred repo input (inr res)) ∈ prior ∧
    ci_Files input = commit_file <$> b_Files bundle ∧
    mt_CommitSHA s = co_CommitSHA res ∧ mt_CommitURL s = co_CommitURL res ∧
    mt_Branch s = co_Branch res ∧ mt_Files s = commit_file_status <$> b_Files bundle ∧
    is_Some (mt_CompletedAt s).

(** Every success that is written is backed by what happened before. *)
Fixpoint backed (prior t : list Event) : Prop :=
  match t with
  | [] => True
  | e :: t =>
      match e with
      | EvStatus KCommit o _ =>
          mt_Phase (rc_Status o) = RepositoryCommitPhaseSucceeded →
          committed_by prior (rc_Status o)
      | _ => True
      end ∧ backed (e :: prior) t
  end.

Definition is_commit_call (e : Event) : bool :=
  match e with EvBackend (CCommitFiles _ _ _ _ _) => true | _ => false end.
Definition commit_calls (t : list Event) : nat := length (filter (λ e, is_commit_call e = true) t).

(** The event neither deletes a bundle nor records a success. *)
Definition neutral (e : Event) : Prop :=
  match e with
  | EvBundleDelete _ _ _ _ => False
  | EvStatus KCommit o _ => mt_Phase (rc_Status o) ≠ RepositoryCommitPhaseSucceeded
  | _ => True
  end.

(** What one pass leaves, with at most [n] commit calls. *)
Record pass_ok (n : nat) (t : list Event) : Prop := {
  po_delete : delete_last false t = true;
  po_backed : backed [] t;
  po_calls : (commit_calls t ≤ n)%nat }.

#[local] Open Scope list_scope.

(** ** Lemmas: traces *)

Lemma delete_last_mono t : delete_last false t = true → delete_last true t = true.
Proof.
  induction t as [|e t IH]; [done|]. destruct e; cbn [delete_last orb andb]; try apply IH; try done;
    (destruct (records_terminal _); [done|apply IH]).
Qed.

Lemma delete_last_any s t : delete_last false t = true → delete_last s t = true.
Proof. destruct s; [apply delete_last_mono|done]. Qed.

Lemma delete_last_app s pre t :
  Forall neutral pre → delete_last false t = true → delete_last s (pre ++ t) = true.
Proof.
  intros Hpre Ht. revert s. induction Hpre as [|e pre He _ IH]; intros s; cbn [app].
  - by apply delete_last_any.
  - destruct e; cbn [delete_last]; try apply IH. done.
Qed.

Lemma committed_by_mono prior prior' s :
  prior ⊆ prior' → committed_by prior s → committed_by prior' s.
Proof.
  intros Hsub (sc & n & d & b & c & cr & rp & i & rs & H1 & H2 & H3).
  exists sc, n, d, b, c, cr, rp, i, rs. split; [by apply Hsub|]. split; [by apply Hsub|done].
Qed.

Lemma backed_mono prior prior' t : prior ⊆ prior' → backed prior t → backed prior' t.
Proof.
  revert prior prior'. induction t as [|e t IH]; intros prior prior' Hsub; [done|].
  cbn [backed]. intros [H1 H2]. split.
  - destruct e; try done. destruct k; try done. intros H. by eapply committed_by_mono, H1.
  - eapply IH; [|exact H2]. intros x [->|Hx]%elem_of_cons; [by left|right; by apply Hsub].
Qed.

Lemma backed_app prior pre t : Forall neutral pre → backed [] t → backed prior (pre ++ t).
Proof.
  intros Hpre Ht. revert prior. induction Hpre as [|e pre He _ IH]; intros prior; cbn [app].
  - eapply backed_mono; [|exact Ht]. intros x Hx. by apply elem_of_nil in Hx.
  - cbn [backed]. split; [|apply IH]. destruct e; try done. by destruct k.
Qed.

Lemma commit_calls_app a b : commit_calls (a ++ b) = (commit_calls a + commit_calls b)%nat.
Proof. unfold commit_calls. by rewrite filter_app, length_app. Qed.

Lemma pass_ok_app n m pre t :
  Forall neutral pre → (commit_calls pre ≤ n)%nat → pass_ok m t → pass_ok (n + m) (pre ++ t).
Proof.
  intros Hpre Hn [H1 H2 H3]. split; [by apply delete_last_app|by apply backed_app|].
  rewrite commit_calls_app. lia.
Qed.

Lemma pass_ok_neutral n t : Forall neutral t → (commit_calls t ≤ n)%nat → pass_ok n t.
Proof.
  intros Hpre Hn. rewrite <- (app_nil_r t), <- (Nat.add_0_r n).
  apply pass_ok_app; [done|done|]. by split.
Qed.

Lemma reads_neutral t : Forall reads t → Forall neutral t.
Proof. intros H. eapply Forall_impl; [exact H|]. by intros []. Qed.
Lemma reads_calls t : Forall reads t → commit_calls t = 0%nat.
Proof.
  induction 1 as [|e t He _ IH]; [done|]. unfold commit_calls in *. rewrite filter_cons.
  rewrite decide_False; [done|]. by destruct e.
Qed.

Lemma pass_ok_reads n pre t : Forall reads pre → pass_ok n t → pass_ok n (pre ++ t).
Proof.
  intros Hpre. apply (pass_ok_app 0); [by apply reads_neutral|]. by rewrite reads_calls.
Qed.

(** The event writes at most the status [s]. *)
Definition writes_only (s : RepositoryCommitStatus) (e : Event) : Prop :=
  match e with
  | EvBundleDelete _ _ _ _ => False
  | EvStatus KCommit o _ => rc_Status o = s
  | EvBackend _ => False
  | _ => True
  end.

Lemma writes_only_neutral s t :
  mt_Phase s ≠ RepositoryCommitPhaseSucceeded → Forall (writes_only s) t → Forall neutral t.
Proof.
  intros Hs H. eapply Forall_impl; [exact H|]. intros e He. destruct e; try done.
  destruct k; try done. simpl in *. congruence.
Qed.

Lemma writes_only_calls s t : Forall (writes_only s) t → commit_calls t = 0%nat.
Proof.
  induction 1 as [|e t He _ IH]; [done|]. unfold commit_calls in *. rewrite filter_cons.
  rewrite decide_False; [done|]. destruct e; try done.
Qed.

Lemma reads_writes_only s t : Forall reads t → Forall (writes_only s) t.
Proof. intros H. eapply Forall_impl; [exact H|]. by intros []. Qed.

(** A recorded terminal phase allows the deletion that ends the pass. *)
Lemma delete_last_settled s st t sc n d x :
  Forall (writes_only st) t → Exists (λ e, records_terminal e = true) t →
  delete_last s (t ++ [EvBundleDelete sc n d x]) = true.
Proof.
  intros Hw He. revert s. induction Hw as [|e t Hew Hw IH]; intros s.
  { by apply Exists_nil in He. }
  cbn [app]. assert (∀ b, delete_last (b || true) (t ++ [EvBundleDelete sc n d x]) = true) as Hset.
  { intros b. rewrite orb_true_r. clear -Hw. induction Hw as [|e t He _ IH].
    - cbn [app delete_last]. by rewrite bool_decide_eq_true_2.
    - cbn [app]. destruct e; try done; exact IH. }
  apply Exists_cons in He as [He|He].
  - destruct e; try done; cbn [delete_last]; rewrite He; apply Hset.
  - destruct e; try done; cbn [delete_last]; by apply IH.
Qed.

Lemma backed_settled prior st t e :
  (mt_Phase st = RepositoryCommitPhaseSucceeded → committed_by prior st) →
  Forall (writes_only st) t → neutral e ∨ (∃ a b c d, e = EvBundleDelete a b c d) →
  backed prior (t ++ [e]) ∧ backed prior t.
Proof.
  intros Hst Hw He. revert prior Hst. induction Hw as [|x t Hx _ IH]; intros prior Hst.
  - cbn [app backed]. split; [|done]. split; [|done]. destruct e; try done. destruct k; try done.
    destruct He as [He|(? & ? & ? & ? & ?)]; done.
  - cbn [app backed]. destruct (IH (x :: prior)) as [H1 H2].
    { intros Hs. eapply committed_by_mono; [|by apply Hst]. intros y Hy. by right. }
    assert (match x with
            | EvStatus KCommit o _ => mt_Phase (rc_Status o) = RepositoryCommitPhaseSucceeded →
                committed_by prior (rc_Status o)
            | _ => True end).
    { destruct x; try done. destruct k; try done. simpl in Hx. by rewrite Hx. }
    done.
Qed.

Lemma backed_prefix pre X prior :
  Forall neutral pre → (∀ prior', pre ⊆ prior' → prior ⊆ prior' → backed prior' X) →
  backed prior (pre ++ X).
Proof.
  intros Hpre. revert prior. induction Hpre as [|e pre He _ IH]; intros prior HX; cbn [app].
  - by apply HX; [intros x ?%elem_of_nil|].
  - cbn [backed]. split; [destruct e; try done; by destruct k|].
    apply IH. intros prior' H1 H2. apply HX.
    + intros x [->|Hx]%elem_of_cons; [apply H2; by left|by apply H1].
    + intros x Hx. apply H2. by right.
Qed.

(** The end of a successful pass. *)
Lemma pass_ok_success pre s t rest :
  Forall neutral pre → (commit_calls pre ≤ 1)%nat → committed_by pre s →
  Forall (writes_only s) t →
  rest = [] ∨ (∃ x y z u, rest = [EvBundleDelete x y z u] ∧
               Exists (λ e, records_terminal e = true) t) →
  pass_ok 1 (pre ++ t ++ rest).
Proof.
  intros Hpre Hc Hcb Hw Hrest. split.
  - apply delete_last_app; [done|]. destruct Hrest as [->|(x & y & z & u & -> & He)].
    + rewrite app_nil_r. clear -Hw. induction Hw as [|e t He _ IH]; [done|].
      destruct e; cbn [delete_last]; try done; by apply delete_last_any.
    + by eapply delete_last_settled.
  - apply backed_prefix; [done|]. intros prior' Hsub _.
    assert (mt_Phase s = RepositoryCommitPhaseSucceeded → committed_by prior' s) as Hst
      by (intros _; by eapply committed_by_mono).
    destruct Hrest as [->|(x & y & z & u & -> & He)].
    + rewrite app_nil_r. refine (proj2 (backed_settled _ s t (EvNow 0) Hst Hw _)); by left.
    + refine (proj1 (backed_settled _ s t _ Hst Hw _)). right. by do 4 eexists.
  - rewrite !commit_calls_app, (writes_only_calls s t Hw).
    destruct Hrest as [->|(x & y & z & u & -> & _)]; unfold commit_calls at 2; simpl; lia.
Qed.

Section Specs.
Context {W : Type} `{Env W} `{ApiMachinery}.

Lemma update_spec commit :
  emits (updateStatusIfChanged commit) (λ r t,
    Forall (writes_only (rc_Status commit)) t ∧
    (r = None → isTerminal (mt_Phase (rc_Status commit)) = true →
     Exists (λ e, records_terminal e = true) t)).
Proof.
  unfold updateStatusIfChanged. env_run.
  - split; [by repeat constructor|done].
  - split; [by repeat constructor|]. intros _ Ht. constructor. simpl. congruence.
  - split; [by repeat constructor|done].
  - split; [by repeat constructor|]. intros _ Ht. constructor 2. by constructor.
Qed.

Lemma with_ready_spec commit s st re msg :
  emits (with_ready commit s st re msg) (λ c t, Forall reads t ∧ rc_Meta c = rc_Meta commit ∧
    ∃ l, rc_Status c = mt_set_conditions s l).
Proof.
  unfold with_ready, SetCondition. env_run. split; [by repeat constructor|].
  split; [done|by eexists].
Qed.

Lemma fail_spec commit msg :
  emits (fail commit msg) (λ r t, ∃ s, mt_Phase s = RepositoryCommitPhaseFailed ∧
    Forall (writes_only s) t ∧ (r = None → Exists (λ e, records_terminal e = true) t)).
Proof.
  unfold fail. env_step. env_step. cbn beta iota. env_step.
  eapply emits_mono; [apply with_ready_spec|]. intros c t (Hr & _ & l & Hl). env_step.
  eapply emits_mono; [apply update_spec|]. intros r t' [Hw He].
  assert (mt_Phase (rc_Status c) = RepositoryCommitPhaseFailed) as Hp by (by rewrite Hl).
  assert (∀ u, Forall (writes_only (rc_Status c)) ([EvNow a] ++ t ++ t' ++ u) ↔
    Forall (writes_only (rc_Status c)) u) as Hall.
  { intros u. rewrite !Forall_app. split; [tauto|]. intros Hu.
    split_and!; [by repeat constructor|by apply reads_writes_only|done|done]. }
  destruct r as [e|]; env_step; exists (rc_Status c); (split; [done|]);
    (split; [by apply Hall|]); [done|]. intros _.
  rewrite app_nil_r. apply Exists_app. right. apply Exists_app. right. apply He; [done|].
  by rewrite Hp.
Qed.

Lemma failAndDelete_spec hb commit msg sc ref :
  emits (failAndDeleteBundle hb commit msg sc ref) (λ r t, pass_ok 0 t).
Proof.
  unfold failAndDeleteBundle. env_step. eapply emits_mono; [apply fail_spec|].
  intros r t (s & Hs & Hw & He). assert (mt_Phase s ≠ RepositoryCommitPhaseSucceeded) as Hns.
  { rewrite Hs. discriminate. }
  pose proof (writes_only_neutral s t Hns Hw) as Hneu.
  pose proof (writes_only_calls s t Hw) as Hc.
  destruct r as [e|].
  - env_step. rewrite app_nil_r. apply pass_ok_neutral; [done|lia].
  - destruct (negb hb || bool_decide (br_Name ref = "")).
    + env_step. rewrite app_nil_r. apply pass_ok_neutral; [done|lia].
    + env_step. env_step. cbn beta iota. env_step. cbn [app]. split.
      * eapply delete_last_settled; [done|by apply He].
      * apply backed_app; [done|]. by cbn.
      * rewrite commit_calls_app. simpl. unfold commit_calls at 2. simpl. lia.
Qed.


(** [waitForRateLimit] writes the commit's own phase and asks for a delay of at
    least a second. *)
Lemma wait_spec commit retryAt :
  emits (waitForRateLimit commit retryAt) (λ r t,
    ∃ s, mt_Phase s = mt_Phase (rc_Status commit) ∧ Forall (writes_only s) t ∧
      ∀ res, r = inr res → Second ≤ RequeueAfter res).
Proof.
  unfold waitForRateLimit. env_step. env_step. cbn beta iota zeta. env_step.
  eapply emits_mono; [apply with_ready_spec|]. intros c t (Hr & _ & l & Hl). env_step.
  eapply emits_mono; [apply update_spec|]. intros r t' [Hw _].
  destruct r as [e|]; env_step; exists (rc_Status c); (split; [by rewrite Hl|]);
    (split; [rewrite !Forall_app; split_and!;
      [by repeat constructor|by apply reads_writes_only|done|constructor]|]); [done|].
  intros res [= <-]. simpl. lia.
Qed.

Lemma wait_ok commit retryAt :
  mt_Phase (rc_Status commit) ≠ RepositoryCommitPhaseSucceeded →
  emits (waitForRateLimit commit retryAt) (λ r t, pass_ok 0 t).
Proof.
  intros Hp. eapply emits_mono; [apply wait_spec|]. intros r t (s & Hs & Hw & _).
  apply pass_ok_neutral; [eapply writes_only_neutral; [|exact Hw]; congruence|].
  by rewrite (writes_only_calls s).
Qed.

(** A step after [pre], whose continuation is fine on its own. *)
Lemma pass_ok_cons n m e t :
  neutral e → (commit_calls [e] ≤ n)%nat → pass_ok m t → pass_ok (n + m) (e :: t).
Proof. intros He Hn. apply (pass_ok_app n m [e]); [by constructor|done]. Qed.

Lemma commitBundle_ok fail commit sc ref b committer conn cred repo :
  mt_Phase (rc_Status commit) = RepositoryCommitPhaseRunning →
  (∀ msg, emits (fail msg) (λ _ t, pass_ok 0 t)) →
  emits (commitBundle fail commit sc ref b committer conn cred repo) (λ r t, pass_ok 1 t).
Proof.
  intros Hrun Hfail. unfold commitBundle.
  assert (mt_Phase (rc_Status commit) ≠ RepositoryCommitPhaseSucceeded) as Hns
    by (rewrite Hrun; discriminate).
  assert (Hweak : ∀ t, pass_ok 0 t → pass_ok 1 t).
  { intros t [H1 H2 H3]. split; [done|done|lia]. }
  assert (Hfailing : ∀ pre e (pfx : string → string), Forall neutral pre → (commit_calls pre ≤ 1)%nat →
    emits (text ← error_text e; fail (pfx text)) (λ _ t, pass_ok 1 (pre ++ t))).
  { intros pre e pfx Hpre Hc. env_step. eapply emits_mono; [apply error_text_reads|].
    intros text t Ht. eapply emits_mono; [apply Hfail|]. intros r t' Ht'.
    apply (pass_ok_app 1 0); [done|done|]. by apply pass_ok_reads. }
  assert (Hwait : ∀ pre at_, Forall neutral pre → (commit_calls pre ≤ 1)%nat →
    emits (waitForRateLimit commit at_) (λ _ t, pass_ok 1 (pre ++ t))).
  { intros pre at_ Hpre Hc. eapply emits_mono; [by apply wait_ok|]. intros r t Ht.
    by apply (pass_ok_app 1 0). }
  env_step. env_step. cbn beta iota. destruct a as [err|res0].
  { env_step. env_step. cbn beta iota. destruct (rateLimitRetry _ _ _).
    - apply (Hwait [_; _]); [by repeat constructor|vm_compute; lia].
    - apply (Hfailing [_; _] _ (λ text, "ensure repository: " +:+ text));
        [by repeat constructor|vm_compute; lia]. }
  env_step. env_step. cbn beta iota. destruct a as [err|bundle].
  { env_step. env_step. cbn beta iota. destruct (_ && _).
    - env_step. apply pass_ok_neutral; [by repeat constructor|vm_compute; lia].
    - apply (Hfailing [_; _; _] _ (λ text, text)); [by repeat constructor|vm_compute; lia]. }
  cbv zeta. env_step. env_step. cbn beta iota. destruct a as [err|res].
  { env_step. env_step. cbn beta iota. destruct (rateLimitRetry _ _ _).
    - apply (Hwait [_; _; _; _]); [by repeat constructor|vm_compute; lia].
    - apply (Hfailing [_; _; _; _] _ (λ text, text)); [by repeat constructor|vm_compute; lia]. }
  apply emits_bind. apply emits_call. intros completed.
  apply emits_bind. eapply emits_mono; [apply with_ready_spec|]. intros c t (Hr & _ & l & Hl).
  apply emits_bind. eapply emits_mono; [apply update_spec|]. intros r t' [Hw He].
  assert (Hgood : ∀ rest, rest = [] ∨ (∃ x y z u, rest = [EvBundleDelete x y z u] ∧ r = None) →
    pass_ok 1 (EvBackend (CEnsureRepository conn cred repo (inr res0)) ::
      EvBundleGet sc (br_Name ref) (br_Digest ref) (inr bundle) ::
      EvBackend (CCommitFiles conn cred repo
        {| ci_Message := ms_Message (rc_Spec commit); ci_Branch := ms_Branch (rc_Spec commit);
           ci_IdempotencyKey := repositoryCommitIdempotencyKey commit;
           ci_Files := commit_file <$> b_Files bundle |} (inr res)) ::
      EvNow completed :: t ++ t' ++ rest)).
  { intros rest Hrest. apply (pass_ok_success (_ :: _ :: _ :: _ :: t) (rc_Status c)).
    - repeat constructor. by apply reads_neutral.
    - unfold commit_calls. rewrite !filter_cons. simpl.
      pose proof (reads_calls t Hr) as Hc. unfold commit_calls in Hc. rewrite Hc. done.
    - rewrite Hl. do 9 eexists. split; [by right; left|]. split; [by right; right; left|].
      simpl. by split_and!.
    - done.
    - destruct Hrest as [->|(x & y & z & u & -> & ->)]; [by left|right].
      do 4 eexists. split; [done|]. apply He; [done|]. by rewrite Hl. }
  destruct r as [e|].
  - env_step. rewrite app_nil_r. rewrite <- (app_nil_r t') at 1. apply Hgood. by left.
  - env_step. env_step. cbn beta iota. env_step. cbn [app]. apply Hgood. right. by do 4 eexists.
Qed.

Lemma runCommit_ok fail backends commit sc ref :
  mt_Phase (rc_Status commit) = RepositoryCommitPhaseRunning →
  (∀ msg, emits (fail msg) (λ _ t, pass_ok 0 t)) →
  emits (runCommit fail backends commit sc ref) (λ r t, pass_ok 1 t).
Proof.
  intros Hrun Hfail. unfold runCommit.
  assert (Hweak : ∀ t, pass_ok 0 t → pass_ok 1 t).
  { intros t [H1 H2 H3]. split; [done|done|lia]. }
  assert (Hf : ∀ pre msg, Forall reads pre → emits (fail msg) (λ _ t, pass_ok 1 (pre ++ t))).
  { intros pre msg Hpre. eapply emits_mono; [apply Hfail|]. intros r t Ht.
    apply Hweak. by apply pass_ok_reads. }
  assert (Hfw : ∀ pre e, Forall reads pre →
    emits (text ← error_text e; fail text) (λ _ t, pass_ok 1 (pre ++ t))).
  { intros pre e Hpre. env_step. eapply emits_mono; [apply error_text_reads|].
    intros text t Ht. eapply emits_mono; [apply Hfail|]. intros r t' Ht'.
    apply Hweak. apply pass_ok_reads; [done|]. by apply pass_ok_reads. }
  apply emits_bind. eapply emits_mono; [apply ResolveRepository_reads|]. intros [e|repo] t1 H1.
  { by apply Hfw. }
  apply emits_bind. eapply emits_mono; [apply ResolveConnection_reads|]. intros [e|conn] t2 H2.
  { eapply emits_mono; [by apply (Hfw (t1 ++ t2)%list), Forall_app|]. intros r t. by rewrite app_assoc. }
  assert (Forall reads (t1 ++ t2)%list) as H12 by (by apply Forall_app).
  destruct (Registry_Get _ _) as [b|].
  2: { eapply emits_mono; [by apply (Hf (t1 ++ t2)%list)|]. intros r t. by rewrite app_assoc. }
  destruct (gb_CommitFiles b) as [committer|].
  2: { eapply emits_mono; [by apply (Hf (t1 ++ t2)%list)|]. intros r t. by rewrite app_assoc. }
  apply emits_bind. eapply emits_mono; [apply ResolveCredential_reads|]. intros [e|cred] t3 H3.
  { eapply emits_mono; [by apply (Hfw (t1 ++ t2 ++ t3)%list); rewrite app_assoc; apply Forall_app|].
    intros r t. by rewrite !app_assoc. }
  eapply emits_mono; [by apply commitBundle_ok|]. intros r t Ht.
  do 3 (apply pass_ok_reads; [done|]). done.
Qed.

Lemma Reconcile_ok backends hb cl ns name :
  emits (Reconcile backends hb cl ns name) (λ r t, pass_ok 1 t).
Proof.
  unfold Reconcile.
  assert (Hweak : ∀ t, pass_ok 0 t → pass_ok 1 t).
  { intros t [H1 H2 H3]. split; [done|done|lia]. }
  assert (Hnil : ∀ t, Forall reads t → pass_ok 1 t).
  { intros t Ht. apply pass_ok_neutral; [by apply reads_neutral|]. rewrite (reads_calls t Ht). lia. }
  apply emits_bind_res. eapply emits_mono; [apply ClusterClient_reads|]. intros [e|_] t1 H1; [by apply Hnil|].
  apply emits_bind. apply emits_call. intros [e|commit].
  { destruct (IsNotFound e); apply emits_ret; apply Hnil; apply Forall_app;
      (split; [done|by repeat constructor]). }
  destruct (_ || _).
  { apply emits_ret. apply Hnil; apply Forall_app. split; [done|by repeat constructor]. }
  assert (Hff : ∀ c msg, emits
    (r ← failAndDeleteBundle hb c msg cl (so_BundleRef (ms_Source (rc_Spec commit)));
     match r with Some e => mret (inl e) | None => mret (inr NoRequeue) end)
    (λ _ t, pass_ok 0 t)).
  { intros c msg. apply emits_bind. eapply emits_mono; [apply failAndDelete_spec|].
    intros [e|] t Ht; apply emits_ret; by rewrite app_nil_r. }
  assert (Hpre : ∀ t, pass_ok 1 t → pass_ok 1 (t1 ++ EvGet KCommit ns name (inr commit) :: t)).
  { intros t Ht. apply pass_ok_reads; [done|]. apply (pass_ok_reads _ [_]); [by repeat constructor|done]. }
  cbv zeta. destruct (negb hb).
  { eapply emits_mono; [apply Hff|]. intros r t Ht. by apply Hpre, Hweak. }
  destruct backends as [backends|].
  2: { eapply emits_mono; [apply Hff|]. intros r t Ht. by apply Hpre, Hweak. }
  apply emits_bind. apply emits_call. intros now.
  apply emits_bind. eapply emits_mono; [apply with_ready_spec|]. intros c t2 (H2 & Hm & l & Hl).
  apply emits_bind. eapply emits_mono; [apply update_spec|]. intros r t3 [H3 _].
  assert (mt_Phase (rc_Status c) = RepositoryCommitPhaseRunning) as Hrun by (by rewrite Hl).
  assert (Forall neutral t3) as Hn3.
  { eapply writes_only_neutral; [|exact H3]. rewrite Hrun. discriminate. }
  assert (Hall : ∀ t, pass_ok 1 t → pass_ok 1 (t1 ++ EvGet KCommit ns name (inr commit)
     :: EvNow now :: t2 ++ t3 ++ t)).
  { intros t Ht. apply Hpre. apply (pass_ok_reads _ [_]); [by repeat constructor|].
    apply pass_ok_reads; [done|]. apply (pass_ok_app 0); [done|by rewrite (writes_only_calls _ _ H3)|done]. }
  destruct r as [e|].
  - apply emits_ret. cbn [app]. apply Hall. by apply Hnil.
  - eapply emits_mono; [apply runCommit_ok; [done|]|].
    + intros msg. apply Hff.
    + intros r t Ht. by apply Hall.
Qed.
End Specs.

(** What a pass may touch outside: the commit's own status, bundles of its own
    workspace, and git hosts. *)
Definition own_event (cl : string) (e : Event) : Prop :=
  match e with
  | EvCluster c _ => c = cl
  | EvBundleGet s _ _ _ | EvBundleDelete s _ _ _ => s = cl
  | EvStatus k _ _ => k = KCommit
  | EvCreate _ _ _ | EvUpdate _ _ _ | EvDelete _ _ _ | EvBundlePut _ _ _ | EvKeygen _ => False
  | EvBackend c =>
      match c with CEnsureRepository _ _ _ _ | CCommitFiles _ _ _ _ _ => True | _ => False end
  | _ => True
  end.

Lemma delete_last_split s t t1 sc n d x t2 :
  delete_last s t = true → t = t1 ++ EvBundleDelete sc n d x :: t2 →
  t2 = [] ∧ (s = true ∨ Exists (λ e, records_terminal e = true) t1).
Proof.
  intros H ->. revert s H. induction t1 as [|e t1 IH]; intros s; cbn [app].
  - cbn [delete_last]. intros [Hs Ht]%andb_true_iff. apply bool_decide_eq_true in Ht. auto.
  - intros H. assert (∀ b, delete_last (b || records_terminal e)
        (t1 ++ EvBundleDelete sc n d x :: t2) = true → b = s →
      t2 = [] ∧ (s = true ∨ Exists (λ e, records_terminal e = true) (e :: t1))) as Hgo.
    { intros b [Ht [Hs|He]]%IH ->; (split; [done|]); [|right; by apply Exists_cons; right].
      apply orb_true_iff in Hs as [->|Hs]; [by left|right]. by apply Exists_cons; left. }
    destruct e; try (by eapply Hgo); cbn [delete_last] in H.
    apply andb_true_iff in H as [_ H]. apply bool_decide_eq_true in H.
    by destruct t1.
Qed.

Lemma backed_split prior t t1 o u t2 :
  backed prior t → t = t1 ++ EvStatus KCommit o u :: t2 →
  mt_Phase (rc_Status o) = RepositoryCommitPhaseSucceeded →
  committed_by (reverse t1 ++ prior) (rc_Status o).
Proof.
  intros H -> Hp. revert prior H. induction t1 as [|e t1 IH]; intros prior; cbn [app backed].
  - intros [H _]. by apply H.
  - intros [_ H]. apply IH in H. rewrite reverse_cons, <- app_assoc. exact H.
Qed.

Section Own.
Context {W : Type} `{Env W} `{ApiMachinery}.

Ltac own :=
  repeat (first
    [ all_step
    | lazymatch goal with
      | |- emits ?m _ => is_call m; apply emits_all_call; intros ?
      | H : ∀ _, emits (?f _) _ |- emits (?f _) _ => apply H
      end ]; cbn beta iota zeta); try done.

Lemma update_own cl c : emits (updateStatusIfChanged c) (λ _ t, Forall (own_event cl) t).
Proof. unfold updateStatusIfChanged. own. Qed.
Lemma with_ready_own cl c s st re m :
  emits (with_ready c s st re m) (λ _ t, Forall (own_event cl) t).
Proof. unfold with_ready, SetCondition. own. Qed.
Lemma wait_own cl c t0 : emits (waitForRateLimit c t0) (λ _ t, Forall (own_event cl) t).
Proof. unfold waitForRateLimit. own; [apply with_ready_own|apply update_own]. Qed.
Lemma fail_own hb c m cl ref :
  emits (failAndDeleteBundle hb c m cl ref) (λ _ t, Forall (own_event cl) t).
Proof. unfold failAndDeleteBundle, fail. own; [apply with_ready_own|apply update_own]. Qed.

Lemma commitBundle_own cl fail commit ref b committer conn cred repo :
  (∀ m, emits (fail m) (λ _ t, Forall (own_event cl) t)) →
  emits (commitBundle fail commit cl ref b committer conn cred repo)
    (λ _ t, Forall (own_event cl) t).
Proof.
  intros Hf. unfold commitBundle, error_text.
  own; first [apply wait_own|apply with_ready_own|apply update_own].
Qed.

Lemma runCommit_own cl fail backends commit ref :
  (∀ m, emits (fail m) (λ _ t, Forall (own_event cl) t)) →
  emits (runCommit fail backends commit cl ref) (λ _ t, Forall (own_event cl) t).
Proof.
  intros Hf. unfold runCommit, error_text, ResolveRepository, ResolveConnection, ResolveCredential.
  own; by apply commitBundle_own.
Qed.

Lemma Reconcile_own backends hb cl ns name :
  emits (Reconcile backends hb cl ns name) (λ _ t, Forall (own_event cl) t).
Proof.
  unfold Reconcile, ClusterClient.
  own; first [apply fail_own|apply with_ready_own|apply update_own|apply runCommit_own].
  intros m. own. apply fail_own.
Qed.
End Own.

Definition read_commit (e : Event) : option RepositoryCommit :=
  match e with EvGet KCommit _ _ (inr c) => Some c | _ => None end.

Lemma rateLimitRetry_some err started now t :
  rateLimitRetry err started now = Some t →
  ∃ limited s0, AsRateLimit err = Some limited ∧ started = Some s0 ∧
    t = Z.max limited (now + Second) ∧ t ≤ s0 + RepositoryCommitRateLimitWindow.
Proof.
  unfold rateLimitRetry. destruct (AsRateLimit err) as [limited|]; [|done].
  destruct started as [s0|]; [|done]. cbv zeta. unfold Before, After, Add.
  intros Ht. exists limited, s0. split; [done|]. split; [done|].
  destruct (limited <? now + Second) eqn:Hlt;
    (destruct (_ <? _) eqn:Hw in Ht; [done|]); injection Ht as <-; lia.
Qed.

(** ** Properties *)

(** C11: a source bundle is deleted only after the commit's terminal phase is
    recorded in the API, found there or written successfully, and the deletion
    is the last thing a pass does: a crash never loses the bundle of a commit
    that is still to be applied. *)
Theorem bundle_deleted_after_terminal {W} `{Env W} `{ApiMachinery} backends hb cl ns name
    (w w' : W) r t t1 sc n d x t2
    (Hrun : Reconcile backends hb cl ns name w = (r, w', t))
    (Ht : t = t1 ++ EvBundleDelete sc n d x :: t2) :
  t2 = [] ∧ Exists (λ e, records_terminal e = true) t1 ∧ sc = cl.
Proof.
  pose proof (Reconcile_ok backends hb cl ns name w) as Hok.
  pose proof (Reconcile_own backends hb cl ns name w) as Hown. rewrite Hrun in Hok, Hown.
  destruct (delete_last_split _ _ _ _ _ _ _ _ (po_delete _ _ Hok) Ht) as [-> [?|He]]; [done|].
  split; [done|]. split; [done|]. rewrite Ht in Hown. apply Forall_app in Hown as [_ Hown].
  by inversion Hown.
Qed.

(** C1: a success is recorded only for a commit the host made: before a status
    with phase Succeeded is written, [CommitFiles] answered with the recorded
    branch, SHA and URL for exactly the files of the fetched bundle, the file
    list is the bundle's, and the host was asked to commit at most once. *)
Theorem success_backed {W} `{Env W} `{ApiMachinery} backends hb cl ns name
    (w w' : W) r t t1 o u t2
    (Hrun : Reconcile backends hb cl ns name w = (r, w', t))
    (Ht : t = t1 ++ EvStatus KCommit o u :: t2)
    (Hp : mt_Phase (rc_Status o) = RepositoryCommitPhaseSucceeded) :
  committed_by t1 (rc_Status o) ∧ (commit_calls t ≤ 1)%nat.
Proof.
  pose proof (Reconcile_ok backends hb cl ns name w) as Hok. rewrite Hrun in Hok.
  split; [|apply Hok]. eapply committed_by_mono; [|by eapply backed_split; [apply Hok|..]].
  intros e. rewrite app_nil_r. by rewrite elem_of_reverse.
Qed.

(** A pass stays in its workspace: it writes only commit statuses, touches
    only bundles of its own scope, never creates, updates or deletes an object,
    and asks a host only to ensure the repository and to commit. *)
Theorem commit_scope {W} `{Env W} `{ApiMachinery} backends hb cl ns name (w : W) :
  Forall (own_event cl) (Reconcile backends hb cl ns name w).2.
Proof.
  pose proof (Reconcile_own backends hb cl ns name w) as Hown.
  by destruct (Reconcile backends hb cl ns name w) as [[r w'] t].
Qed.

(** Terminal phases absorb: a pass over a commit that is being deleted, or
    already succeeded or failed, reads it and does nothing else. *)
Theorem terminal_absorbs {W} `{Env W} `{ApiMachinery} backends hb cl ns name
    (w w' : W) r t commit
    (Hrun : Reconcile backends hb cl ns name w = (r, w', t))
    (Hget : t !! 1%nat = Some (EvGet KCommit ns name (inr commit)))
    (Hterm : om_DeletionTimestamp (rc_Meta commit) ≠ None ∨
             isTerminal (mt_Phase (rc_Status commit)) = true) :
  r = inr NoRequeue ∧ t = [EvCluster cl None; EvGet KCommit ns name (inr commit)].
Proof.
  assert (emits (Reconcile backends hb cl ns name) (λ r t,
    t !! 1%nat = Some (EvGet KCommit ns name (inr commit)) →
    r = inr NoRequeue ∧ t = [EvCluster cl None; EvGet KCommit ns name (inr commit)])) as Hem.
  { unfold Reconcile, ClusterClient. apply emits_bind_res. apply emits_bind. apply emits_call.
    intros [e|]; [by apply emits_ret|]. apply emits_ret. cbn [app]. apply emits_bind.
    apply emits_call. intros [e|c].
    { destruct (IsNotFound e); apply emits_ret; intros Hx%(f_equal (mbind read_commit)); done. }
    destruct (bool_decide (om_DeletionTimestamp (rc_Meta c) ≠ None)
      || isTerminal (mt_Phase (rc_Status c))) eqn:Hb.
    { apply emits_ret. intros Hx. pose proof Hx as Hy%(f_equal (mbind read_commit)).
      injection Hy as ->. done. }
    eapply emits_mono; [apply emits_True|]. intros r1 t1 _ Hy%(f_equal (mbind read_commit)).
    injection Hy as ->. exfalso.
    apply orb_false_iff in Hb as [H1 H2]. apply bool_decide_eq_false in H1.
    destruct Hterm as [Hd|Hd]; [tauto|congruence]. }
  specialize (Hem w). rewrite Hrun in Hem. by apply Hem.
Qed.

(** The retry after a rate limit lies at least a second ahead, not before
    the host's reset, and within the window after the commit started; outside
    the window, without a start time, or for another error there is none. *)
Theorem rateLimitRetry_window (err : error) (started : option Time) (now : Time) :
  match rateLimitRetry err started now with
  | Some t => ∃ limited s0, AsRateLimit err = Some limited ∧ started = Some s0 ∧
      limited ≤ t ∧ now + Second ≤ t ∧ (t = limited ∨ t = now + Second) ∧
      t ≤ s0 + RepositoryCommitRateLimitWindow
  | None => ∀ limited s0, AsRateLimit err = Some limited → started = Some s0 →
      s0 + RepositoryCommitRateLimitWindow < Z.max limited (now + Second)
  end.
Proof.
  destruct (rateLimitRetry err started now) as [t|] eqn:Hr.
  - apply rateLimitRetry_some in Hr as (limited & s0 & ? & ? & -> & ?).
    exists limited, s0. split_and!; [done|done|lia..].
  - intros limited s0 Ha ->. unfold rateLimitRetry in Hr. rewrite Ha in Hr. cbv zeta in Hr.
    unfold Before, After, Add in Hr.
    destruct (limited <? now + Second) eqn:Hlt; destruct (_ <? _) eqn:Hw in Hr; try done; lia.
Qed.

(** ** A run of the handler on an example *)

Definition demo_commit (phase : RepositoryCommitPhase) : RepositoryCommit :=
  {| rc_Meta := named "commit" "m-1";
     rc_Spec := {| ms_RepositoryRef := "repo"; ms_Branch := ""; ms_Message := "Add a file";
       ms_Source := {| so_BundleRef := {| br_Name := "bundle-1"; br_Digest := "" |} |} |};
     rc_Status := {| mt_ObservedGeneration := 0; mt_Phase := phase; mt_StartedAt := None;
       mt_CompletedAt := None; mt_Branch := ""; mt_CommitSHA := ""; mt_CommitURL := "";
       mt_Source := None; mt_Files := []; mt_Conditions := [] |} |}.
Definition demo_bundle : Bundle :=
  {| b_Name := "bundle-1"; b_Digest := "sha256:00"; b_Scope := "ws"; b_Size := 2;
     b_Files := [ {| bf_Path := "a.txt"; bf_Content := "hi"; bf_Encoding := ""; bf_Size := 2;
                     bf_Digest := ""; bf_Delete := false |} ] |}.
Definition demo_get (phase : RepositoryCommitPhase) (k : Kind) (ns name : string) : error + obj k :=
  match k with
  | KConnection => inr demo_connection
  | KRepository => inr demo_repository
  | KSecret => inr demo_secret
  | KCommit => inr (demo_commit phase)
  | _ => inl (EStatus NotFound "not found")
  end.
Definition demo_env (phase : RepositoryCommitPhase) : Env unit :=
  fixed_env 5 (demo_get phase) (λ _, inr []) (inr demo_bundle).
Definition demo_run (phase : RepositoryCommitPhase) :=
  Reconcile (H := demo_env phase) (Some {[ "github" := New ]}) true "ws" "" "commit" tt.


Lemma bundle_deleted_after_terminal_witness :
  ∃ t, demo_run "" = (inr NoRequeue, tt, t) ∧ length t = 18%nat ∧
    t = take 17 t ++ EvBundleDelete "ws" "bundle-1" "" None :: drop 18 t ∧
    Exists (λ e, records_terminal e = true) (take 17 t).
Proof.
  eexists. split; [vm_compute; reflexivity|]. split; [vm_compute; reflexivity|].
  split; [vm_compute; reflexivity|].
  eapply (bundle_deleted_after_terminal (H := demo_env "") (Some {[ "github" := New ]}) true "ws" ""
    "commit" tt tt); [vm_compute; reflexivity|vm_compute; reflexivity].
Defined.

Lemma success_backed_witness :
  ∃ t o u, demo_run "" = (inr NoRequeue, tt, t) ∧
    t = take 16 t ++ EvStatus KCommit o u :: drop 17 t ∧
    mt_CommitSHA (rc_Status o) = "stub-commit-app" ∧ committed_by (take 16 t) (rc_Status o).
Proof.
  eexists _, _, _. split; [vm_compute; reflexivity|]. split; [vm_compute; reflexivity|].
  split; [vm_compute; reflexivity|].
  refine (proj1 (success_backed (H := demo_env "") (Some {[ "github" := New ]}) true "ws" ""
    "commit" tt tt _ _ _ _ _ _ _ _ _)); vm_compute; reflexivity.
Defined.

Lemma terminal_absorbs_witness :
  ∃ t, demo_run RepositoryCommitPhaseFailed = (inr NoRequeue, tt, t) ∧
    t = [EvCluster "ws" None;
         EvGet KCommit "" "commit" (inr (demo_commit RepositoryCommitPhaseFailed))].
Proof.
  eexists. split; [vm_compute; reflexivity|].
  refine (proj2 (terminal_absorbs (H := demo_env RepositoryCommitPhaseFailed)
    (Some {[ "github" := New ]}) true "ws" "" "commit" tt tt _ _
    (demo_commit RepositoryCommitPhaseFailed) _ _ _)); [vm_compute; reflexivity..|].
  right. vm_compute. reflexivity.
Defined.
