(* ===== verification/CommitProgress.v ===== *)
(** * controller/repositorycommit: every request comes to an end

    [CommitController] describes one pass.  Here passes follow one another as
    the work queue runs them, against a workspace that answers: [Workspace]
    gives a world the stored RepositoryCommit and a clock that does not run
    backwards.  The backend may refuse and rate-limit as long as it likes. *)

From S2P Require Import Prelude GoStrings GoTime Errors CommitBundle Api Backend Tenant Env Shared CommitController.
From Stdlib Require Import Ascii Lia.

#[local] Open Scope string_scope.
#[local] Open Scope Z_scope.

(** ** The stored object *)

(** A [metav1.Time] is written in whole seconds. *)
Definition floor_second (t : Time) : Time := t / Second * Second.
Definition stored_condition (c : Condition) : Condition :=
  {| c_Type := c_Type c; c_Status := c_Status c; c_ObservedGeneration := c_ObservedGeneration c;
     c_LastTransitionTime := floor_second (c_LastTransitionTime c); c_Reason := c_Reason c;
     c_Message := c_Message c |}.
Definition stored_status (s : RepositoryCommitStatus) : RepositoryCommitStatus :=
  {| mt_ObservedGeneration := mt_ObservedGeneration s; mt_Phase := mt_Phase s;
     mt_StartedAt := floor_second <$> mt_StartedAt s;
     mt_CompletedAt := floor_second <$> mt_CompletedAt s;
     mt_Branch := mt_Branch s; mt_CommitSHA := mt_CommitSHA s; mt_CommitURL := mt_CommitURL s;
     mt_Source := mt_Source s; mt_Files := mt_Files s;
     mt_Conditions := stored_condition <$> mt_Conditions s |}.

(** Time passes and the stored commit stays as it is. *)
Definition calm {W} (clock : W → Time) (commit : W → RepositoryCommit) (w w' : W) : Prop :=
  clock w ≤ clock w' ∧ commit w' = commit w.

(** A workspace that answers, with one commit in it; only the controller's
    status writes change the commit. *)
Class Workspace (W : Type) `{Env W} (backends : Registry W) := {
  ws_clock : W → Time;
  ws_commit : W → RepositoryCommit;
  ws_whole w : floor_second <$> mt_StartedAt (rc_Status (ws_commit w))
               = mt_StartedAt (rc_Status (ws_commit w));
  ws_now w t w' : env_now w = (t, w') →
    ws_clock w ≤ t ≤ ws_clock w' ∧ ws_commit w' = ws_commit w;
  ws_cluster n w r w' : env_cluster n w = (r, w') → r = None ∧ calm ws_clock ws_commit w w';
  ws_get k ns n w r w' : env_get k ns n w = (r, w') → calm ws_clock ws_commit w w';
  ws_get_commit ns w r w' :
    env_get KCommit ns (om_Name (rc_Meta (ws_commit w))) w = (r, w') → r = inr (ws_commit w);
  ws_status o w r w' : om_Name (rc_Meta o) = om_Name (rc_Meta (ws_commit w)) →
    env_status KCommit o w = (r, w') →
    r = inr (ws_commit w') ∧ ws_clock w ≤ ws_clock w' ∧
    ws_commit w' = rc_set_Status (ws_commit w) (stored_status (rc_Status o));
  ws_bundle_get s n d w r w' : env_bundle_get s n d w = (r, w') → calm ws_clock ws_commit w w';
  ws_bundle_delete s n d w r w' :
    env_bundle_delete s n d w = (r, w') → calm ws_clock ws_commit w w';
  ws_resolve c data w r w' : env_resolve c data w = (r, w') → calm ws_clock ws_commit w w';
  ws_ensure p b conn cred repo w r w' : Registry_Get backends p = Some b →
    gb_EnsureRepository b conn cred repo w = (r, w') → calm ws_clock ws_commit w w';
  ws_commits p b f conn cred repo input w r w' : Registry_Get backends p = Some b →
    gb_CommitFiles b = Some f → f conn cred repo input w = (r, w') →
    calm ws_clock ws_commit w w' }.

(** ** The work queue *)

Section Queue.
Context {W : Type} `{Env W} `{ApiMachinery} (backends : Registry W) `{!Workspace W backends}.
Context (hasBundles : bool) (clusterName ns : string).

Definition settled (w : W) : Prop := isTerminal (mt_Phase (rc_Status (ws_commit w))) = true.

Definition pass : Eff W (error + Result) := λ w,
  Reconcile (Some backends) hasBundles clusterName ns (om_Name (rc_Meta (ws_commit w))) w.

(** The queue runs a request again if the pass failed or asked for it, not
    before the delay asked for. *)
Definition asks_again (r : error + Result) : Prop :=
  match r with inl _ => True | inr res => Requeue res = true ∨ 0 < RequeueAfter res end.
Definition delay (r : error + Result) : Duration :=
  match r with inl _ => 0 | inr res => RequeueAfter res end.
Definition wakes (r : error + Result) (w w' : W) : Prop :=
  ws_commit w' = ws_commit w ∧ ws_clock w + delay r ≤ ws_clock w'.

(** Within [n] passes the commit is settled, whenever the queue runs them, and
    no pass leaves it unsettled without being run again. *)
Fixpoint settles_within (n : nat) (w : W) : Prop :=
  settled w ∨
  match n with
  | O => False
  | S n => runs pass (λ r w1, settled w1 ∨
             asks_again r ∧ ∀ w2, wakes r w1 w2 → settles_within n w2) w
  end.

(** Enough for the rate-limit window at the shortest delay of a second. *)
Definition enough_passes : nat := Z.to_nat (RepositoryCommitRateLimitWindow / Second + 2).
End Queue.

(** ** Lemmas: one pass *)

Ltac runs_step :=
  lazymatch goal with
  | |- runs (mret _) _ _ => apply runs_ret
  | |- runs (mbind _ _) _ _ => apply runs_bind
  | |- runs (bind_res _ _) _ _ => apply runs_bind_res
  end; cbn beta iota.

Section Progress.
Context {W : Type} `{Env W} `{ApiMachinery} (backends : Registry W) `{!Workspace W backends}.

Abbreviation is_calm := (calm ws_clock ws_commit) (only parsing).

Lemma calm_refl w : is_calm w w.
Proof. by split. Qed.
Lemma calm_trans w1 w2 w3 : is_calm w1 w2 → is_calm w2 w3 → is_calm w1 w3.
Proof. intros [H1 H2] [H3 H4]. split; [lia|congruence]. Qed.

(** A routine that lets time pass and leaves the commit. *)
Definition quiet {A} (m : Eff W A) : Prop := ∀ w, runs m (λ _ w', is_calm w w') w.

Lemma quiet_ret {A} (a : A) : quiet (mret a).
Proof. intros w. apply runs_ret, calm_refl. Qed.
Lemma quiet_bind {A B} (m : Eff W A) (f : A → Eff W B) :
  quiet m → (∀ a, quiet (f a)) → quiet (m ≫= f).
Proof.
  intros Hm Hf w. apply runs_bind. eapply runs_mono; [apply Hm|]. intros a w1 H1.
  eapply runs_mono; [apply Hf|]. intros b w2 H2. by apply (calm_trans w w1).
Qed.
Lemma quiet_run {A} (m : Eff W A) w (Q : A → W → Prop) :
  quiet m → (∀ a w', is_calm w w' → Q a w') → runs m Q w.
Proof. intros Hm HQ. eapply runs_mono; [apply Hm|]. eauto. Qed.

Lemma Now_runs w : runs Now (λ t w', ws_clock w ≤ t ≤ ws_clock w' ∧ is_calm w w') w.
Proof.
  apply runs_call. intros t w' Hop. apply ws_now in Hop as [Ht Hc]. split; [lia|split; [lia|done]].
Qed.
Lemma quiet_Now : quiet Now.
Proof. intros w. eapply runs_mono; [apply Now_runs|]. by intros ? ? [_ ?]. Qed.
Lemma quiet_get k ns n : quiet (k_get k ns n).
Proof. intros w. apply runs_call. intros. by eapply ws_get. Qed.
Lemma quiet_bundle_get s n d : quiet (bundle_get s n d).
Proof. intros w. apply runs_call. intros. by eapply ws_bundle_get. Qed.
Lemma quiet_bundle_delete s n d : quiet (bundle_delete s n d).
Proof. intros w. apply runs_call. intros. by eapply ws_bundle_delete. Qed.
Lemma quiet_resolve c data : quiet (resolve_token c data).
Proof. intros w. apply runs_call. intros. by eapply ws_resolve. Qed.

Ltac quiet_all :=
  repeat first [ apply quiet_ret | apply quiet_Now | apply quiet_get | apply quiet_resolve
               | apply quiet_bind; [|intros ?] | case_match ].

Lemma quiet_error_text e : quiet (error_text e).
Proof. unfold error_text. quiet_all. Qed.
Lemma quiet_ResolveRepository n : quiet (ResolveRepository n).
Proof. unfold ResolveRepository. quiet_all. Qed.
Lemma quiet_ResolveConnection n : quiet (ResolveConnection n).
Proof. unfold ResolveConnection. quiet_all. Qed.
Lemma quiet_ResolveCredential c : quiet (ResolveCredential c).
Proof.
  unfold ResolveCredential. cbv zeta. apply quiet_bind; [exact (quiet_get KSecret _ _)|].
  intros r. quiet_all.
Qed.

(** The commit in memory is the stored one's. *)
Definition ours (commit : RepositoryCommit) (w : W) : Prop :=
  rc_Meta commit = rc_Meta (ws_commit w).

Lemma with_ready_runs commit s st re msg w (Q : RepositoryCommit → W → Prop) :
  (∀ l w', is_calm w w' → Q (rc_set_Status commit (mt_set_conditions s l)) w') →
  runs (with_ready commit s st re msg) Q w.
Proof.
  intros HQ. unfold with_ready, SetCondition. do 2 runs_step.
  eapply quiet_run; [apply quiet_Now|]. intros t w' Hw. do 2 runs_step. by apply HQ.
Qed.

(** What a status write leaves in the workspace. *)
Definition written (s : RepositoryCommitStatus) (w w' : W) : Prop :=
  ws_clock w ≤ ws_clock w' ∧ rc_Meta (ws_commit w') = rc_Meta (ws_commit w) ∧
  mt_Phase (rc_Status (ws_commit w')) = mt_Phase s ∧
  mt_StartedAt (rc_Status (ws_commit w')) = floor_second <$> mt_StartedAt s.

Lemma update_runs commit w : ours commit w →
  runs (updateStatusIfChanged commit) (λ r w', r = None ∧ written (rc_Status commit) w w') w.
Proof.
  intros Ho. unfold updateStatusIfChanged. runs_step. rewrite Ho. apply runs_call.
  intros r w1 Hop. pose proof (ws_get_commit _ _ _ _ Hop) as ->.
  apply (ws_get KCommit) in Hop as [Hc1 Hc2]. case_decide as Hs.
  - runs_step. split; [done|]. split_and!; [lia|by rewrite Hc2| |]; rewrite Hc2, <- Hs; [done|].
    symmetry. apply ws_whole.
  - runs_step. apply runs_call. intros r w2 Hst.
    apply ws_status in Hst as (-> & Hc3 & Hc4); [|by rewrite Hc2]. runs_step.
    split; [done|]. split_and!; [lia|by rewrite Hc4, <- Hc2| |]; by rewrite Hc4.
Qed.

Lemma written_calm s w w1 w2 : written s w w1 → is_calm w1 w2 → written s w w2.
Proof. intros (H1 & H2 & H3 & H4) [Hc He]. unfold written. rewrite He. split_and!; [lia|done..]. Qed.
Lemma calm_written s w w1 w2 : is_calm w w1 → written s w1 w2 → written s w w2.
Proof. intros [Hc He] (H1 & H2 & H3 & H4). unfold written. rewrite <- He. split_and!; [lia|done..]. Qed.
Lemma ours_calm c w w' : ours c w → is_calm w w' → ours c w'.
Proof. unfold ours. by intros Ho [_ ->]. Qed.

(** [failAndDeleteBundle] settles the commit. *)
Lemma failAndDelete_runs hb commit msg sc ref w : ours commit w →
  runs (failAndDeleteBundle hb commit msg sc ref)
    (λ r w', r = None ∧ ws_clock w ≤ ws_clock w' ∧ settled backends w') w.
Proof.
  intros Ho. unfold failAndDeleteBundle, fail. do 2 runs_step.
  eapply quiet_run; [apply quiet_Now|]. intros t w1 Hc1. runs_step.
  apply with_ready_runs. intros l w2 Hc2. runs_step.
  assert (is_calm w w2) as Hc by (by apply (calm_trans w w1)).
  eapply runs_mono; [apply update_runs; by apply (ours_calm commit w)|].
  intros r w3 [-> Hw]. runs_step. apply (calm_written _ w) in Hw as (Hk & _ & Hp & _); [|done].
  assert (settled backends w3) as Hs by (unfold settled; by rewrite Hp).
  destruct (_ || _); [runs_step; done|]. runs_step.
  eapply quiet_run; [apply quiet_bundle_delete|]. intros u w4 [Hc4 He]. runs_step.
  split_and!; [done|lia|]. unfold settled in *. by rewrite He.
Qed.

(** ** Lemmas: retries *)

Lemma rateLimitRetry_within err started now retryAt :
  rateLimitRetry err (Some started) now = Some retryAt →
  now + Second ≤ retryAt ∧ now ≤ started + RepositoryCommitRateLimitWindow.
Proof.
  unfold rateLimitRetry. destruct (AsRateLimit err) as [limited|]; [|done].
  destruct (After _ _) eqn:Ha; [done|]. intros [= <-].
  unfold After, Before, Add in *. apply Z.ltb_ge in Ha. revert Ha.
  destruct (limited <? now + Second) eqn:Hb; [apply Z.ltb_lt in Hb|apply Z.ltb_ge in Hb];
    unfold Second in *; lia.
Qed.

Lemma bundleArrival_window started now :
  bundleArrivalTimedOut (Some started) now = false → now ≤ started + RepositoryCommitRateLimitWindow.
Proof.
  unfold bundleArrivalTimedOut. intros Hb%bool_decide_eq_false. revert Hb.
  unfold Sub, bundleArrivalTimeout, RepositoryCommitRateLimitWindow, Minute, Second, maxDuration, minDuration. lia.
Qed.

(** A pass that leaves the commit unsettled: it asks to be run again after at
    least a second, and it was still within the window after the start. *)
Definition waits (s : RepositoryCommitStatus) (r : error + Result) (w w' : W) : Prop :=
  ∃ d started, r = inr (RequeueIn d) ∧ Second ≤ d ∧ mt_StartedAt s = Some started ∧
    ws_clock w ≤ started + RepositoryCommitRateLimitWindow ∧ written s w w'.

Definition ends (s : RepositoryCommitStatus) (r : error + Result) (w w' : W) : Prop :=
  ws_clock w ≤ ws_clock w' ∧ (settled backends w' ∨ waits s r w w').

(** From here on [w] is where the pass recorded its running status. *)
Lemma waitForRateLimit_runs commit retryAt started w w1 :
  ours commit w → mt_StartedAt (rc_Status commit) = Some started → is_calm w w1 →
  ws_clock w ≤ started + RepositoryCommitRateLimitWindow →
  runs (waitForRateLimit commit retryAt) (λ r w', ends (rc_Status commit) r w w') w1.
Proof.
  intros Ho Hs Hc Hw. unfold waitForRateLimit. runs_step.
  eapply quiet_run; [apply quiet_Now|]. intros t w2 Hc2. cbv zeta. runs_step.
  apply with_ready_runs. intros l w3 Hc3. runs_step.
  assert (is_calm w w3) as Hc' by (by apply (calm_trans w w2); [apply (calm_trans w w1)|]).
  eapply runs_mono; [apply update_runs; by apply (ours_calm commit w)|].
  intros r w4 [-> Hwr]. runs_step. apply (calm_written _ w) in Hwr; [|done]. split; [apply Hwr|].
  right. eexists _, started. split_and!; [done|lia|done|done|exact Hwr].
Qed.

(** The controller's failure closure. *)
Definition failing (fail : string → Eff W (error + Result)) (commit : RepositoryCommit) : Prop :=
  ∀ msg w, ours commit w →
    runs (fail msg) (λ r w', ws_clock w ≤ ws_clock w' ∧ settled backends w') w.

Lemma failing_ends fail commit s w w1 e pre : failing fail commit → ours commit w → is_calm w w1 →
  runs (text ← error_text e; fail (pre +:+ text)) (λ r w', ends s r w w') w1.
Proof.
  intros Hf Ho Hc. runs_step. eapply quiet_run; [apply quiet_error_text|]. intros text w2 Hc2.
  assert (is_calm w w2) as Hc' by (by apply (calm_trans w w1)).
  eapply runs_mono; [apply Hf; by apply (ours_calm commit w)|]. intros r w3 [Hk Hs].
  pose proof (proj1 Hc'). split; [lia|by left].
Qed.

(** What is done about a host error: wait it out, or fail. *)
Lemma hostError_runs fail commit started e pre w w1 :
  failing fail commit → ours commit w → is_calm w w1 →
  mt_StartedAt (rc_Status commit) = Some started →
  runs (now ← Now;
        match rateLimitRetry e (mt_StartedAt (rc_Status commit)) now with
        | Some retryAt => waitForRateLimit commit retryAt
        | None => text ← error_text e; fail (pre +:+ text)
        end) (λ r w', ends (rc_Status commit) r w w') w1.
Proof.
  intros Hf Ho Hc Hs. rewrite Hs. runs_step. eapply runs_mono; [apply Now_runs|].
  intros t w2 [Ht Hc2]. assert (is_calm w w2) as Hc' by (by apply (calm_trans w w1)).
  destruct (rateLimitRetry e (Some started) t) as [retryAt|] eqn:Hr.
  - apply rateLimitRetry_within in Hr as [_ Hwin].
    apply (waitForRateLimit_runs commit retryAt started w w2); try done.
    pose proof (proj1 Hc). lia.
  - by apply (failing_ends fail commit).
Qed.

Lemma commitBundle_runs fail commit sc ref p b f conn cred repo started w w1 :
  failing fail commit → ours commit w → is_calm w w1 →
  mt_StartedAt (rc_Status commit) = Some started →
  written (rc_Status commit) w w →
  Registry_Get backends p = Some b → gb_CommitFiles b = Some f →
  runs (commitBundle fail commit sc ref b f conn cred repo)
    (λ r w', ends (rc_Status commit) r w w') w1.
Proof.
  intros Hf Ho Hc Hs Hown Hb Hcf. unfold commitBundle. runs_step. apply runs_call.
  intros r w2 Hop%(ws_ensure p); [|done]. assert (is_calm w w2) as Hc2 by (by apply (calm_trans w w1)).
  destruct r as [err|_]; [by apply (hostError_runs fail commit started)|].
  runs_step. eapply quiet_run; [apply quiet_bundle_get|]. intros got w3 Hc3.
  assert (is_calm w w3) as Hc' by (by apply (calm_trans w w2)).
  destruct got as [err|bundle].
  - runs_step. eapply runs_mono; [apply Now_runs|]. intros t w4 [Ht Hc4].
    assert (is_calm w w4) as Hc5 by (by apply (calm_trans w w3)).
    destruct (_ && _) eqn:Hb2.
    + runs_step. apply andb_true_iff in Hb2 as [_ Hb2%negb_true_iff]. rewrite Hs in Hb2.
      apply bundleArrival_window in Hb2. split; [apply Hc5|]. right.
      eexists _, started. split_and!; [done|done|done| |by apply (written_calm _ w w)].
      pose proof (proj1 Hc'). lia.
    + by apply (failing_ends fail commit _ w w4 err "").
  - cbv zeta. runs_step. apply runs_call. intros r w4 Hop2%(ws_commits p b); [|done..].
    assert (is_calm w w4) as Hc5 by (by apply (calm_trans w w3)).
    destruct r as [err|res]; [by apply (hostError_runs fail commit started err "" w w4)|].
    runs_step. eapply quiet_run; [apply quiet_Now|]. intros t w5 Hc6. runs_step.
    apply with_ready_runs. intros l w6 Hc7. runs_step.
    assert (is_calm w w6) as Hc8 by (apply (calm_trans w w5); [by apply (calm_trans w w4)|done]).
    eapply runs_mono; [apply update_runs; by apply (ours_calm commit w)|].
    intros r w7 [-> (Hk & _ & Hp & _)]. cbn beta iota. runs_step.
    eapply quiet_run; [apply quiet_bundle_delete|]. intros u w8 [Hc9 He]. runs_step.
    pose proof (proj1 Hc8). split; [lia|]. left. unfold settled. by rewrite He, Hp.
Qed.

Lemma runCommit_runs fail commit sc ref started w :
  failing fail commit → ours commit w → mt_StartedAt (rc_Status commit) = Some started →
  written (rc_Status commit) w w →
  runs (runCommit fail backends commit sc ref) (λ r w', ends (rc_Status commit) r w w') w.
Proof.
  intros Hf Ho Hs Hown. unfold runCommit. cbv zeta. runs_step.
  eapply quiet_run; [apply quiet_ResolveRepository|]. intros [e|repo] w1 Hc1.
  { by apply (failing_ends fail commit _ w w1 e ""). }
  runs_step. eapply quiet_run; [apply quiet_ResolveConnection|]. intros [e|conn] w2 Hc2;
    assert (is_calm w w2) as Hc by (by apply (calm_trans w w1)).
  { by apply (failing_ends fail commit _ w w2 e ""). }
  assert (Hfail : ∀ msg, runs (fail msg) (λ r w', ends (rc_Status commit) r w w') w2).
  { intros msg. eapply runs_mono; [apply Hf; by apply (ours_calm commit w)|].
    intros r w3 [Hk Hst]. pose proof (proj1 Hc). split; [lia|by left]. }
  destruct (Registry_Get backends _) as [b|] eqn:Hb; [|apply Hfail].
  destruct (gb_CommitFiles b) as [f|] eqn:Hcf; [|apply Hfail].
  runs_step. eapply quiet_run; [apply quiet_ResolveCredential|]. intros [e|cred] w3 Hc3;
    assert (is_calm w w3) as Hc' by (by apply (calm_trans w w2)).
  { by apply (failing_ends fail commit _ w w3 e ""). }
  by eapply (commitBundle_runs fail commit _ _ _ b f conn cred repo started w w3).
Qed.

(** A pass over an unsettled commit that is not being deleted. *)
Lemma pass_runs hb clusterName ns w :
  om_DeletionTimestamp (rc_Meta (ws_commit w)) = None → ¬ settled backends w →
  runs (pass backends hb clusterName ns) (λ r w1, settled backends w1 ∨
    ∃ d s, r = inr (RequeueIn d) ∧ Second ≤ d ∧ ws_clock w ≤ ws_clock w1 ∧
      rc_Meta (ws_commit w1) = rc_Meta (ws_commit w) ∧
      mt_StartedAt (rc_Status (ws_commit w1)) = Some (floor_second s) ∧
      ws_clock w ≤ s + RepositoryCommitRateLimitWindow ∧
      (mt_StartedAt (rc_Status (ws_commit w)) = Some s ∨
       mt_StartedAt (rc_Status (ws_commit w)) = None ∧ s ≤ ws_clock w1)) w.
Proof.
  intros Hdel Hns.
  change (runs (Reconcile (Some backends) hb clusterName ns (om_Name (rc_Meta (ws_commit w)))) (λ r w1, settled backends w1 ∨
    ∃ d s, r = inr (RequeueIn d) ∧ Second ≤ d ∧ ws_clock w ≤ ws_clock w1 ∧
      rc_Meta (ws_commit w1) = rc_Meta (ws_commit w) ∧
      mt_StartedAt (rc_Status (ws_commit w1)) = Some (floor_second s) ∧
      ws_clock w ≤ s + RepositoryCommitRateLimitWindow ∧
      (mt_StartedAt (rc_Status (ws_commit w)) = Some s ∨
       mt_StartedAt (rc_Status (ws_commit w)) = None ∧ s ≤ ws_clock w1)) w).
  unfold Reconcile, ClusterClient. do 2 runs_step. apply runs_call.
  intros r w1 [-> Hc1]%ws_cluster. do 2 runs_step. rewrite <- (proj2 Hc1). apply runs_call.
  intros r w2 Hop. pose proof (ws_get_commit _ _ _ _ Hop) as ->. apply (ws_get KCommit) in Hop.
  assert (is_calm w w2) as Hc2 by (by apply (calm_trans w w1)). rewrite (proj2 Hc1). clear w1 Hc1 Hop.
  rewrite (bool_decide_eq_false_2 (_ ≠ None)) by (by rewrite Hdel; intros []).
  unfold settled in Hns. rewrite not_true_iff_false in Hns. rewrite Hns. cbn [orb]. cbv zeta.
  set (commit := ws_commit w) in *.
  assert (Hfail : ∀ c, failing (λ msg, r ← failAndDeleteBundle hb c msg clusterName
      (so_BundleRef (ms_Source (rc_Spec commit)));
      match r with Some e => mret (inl e) | None => mret (inr NoRequeue) end) c).
  { intros c msg w0 Ho. runs_step. eapply runs_mono; [by apply failAndDelete_runs|].
    intros r w' (-> & Hk & Hs). by runs_step. }
  assert (ours commit w2) as Ho by (symmetry; by rewrite (proj2 Hc2)).
  destruct (negb hb).
  { eapply runs_mono; [by apply (Hfail commit)|]. intros r w' [_ Hs]. by left. }
  runs_step. eapply runs_mono; [apply Now_runs|]. intros now w3 [Hnow Hc3].
  assert (is_calm w w3) as Hc by (by apply (calm_trans w w2)). runs_step.
  apply with_ready_runs. intros l w4 Hc4. runs_step.
  assert (is_calm w w4) as Hc' by (by apply (calm_trans w w3)).
  set (running := rc_set_Status commit _). pose proof (proj1 Hc2). pose proof (proj1 Hc).
  eapply runs_mono; [apply update_runs; by apply (ours_calm running w)|].
  intros r w5 [-> Hwr]. pose proof (calm_written _ w w4 w5 Hc' Hwr) as (Hk & Hm & Hp & Hst).
  set (s := match mt_StartedAt (rc_Status commit) with Some t => t | None => now end).
  assert (mt_StartedAt (rc_Status running) = Some s) as Hs.
  { unfold running, s. cbn. by destruct (mt_StartedAt (rc_Status commit)). }
  eapply runs_mono.
  - apply (runCommit_runs _ running clusterName _ s w5); [apply Hfail|by unfold ours; rewrite Hm|done|].
    split_and!; [lia|done|done|by rewrite Hst].
  - intros r w6 [_ [Hse|(d & st & -> & Hd & Hst' & Hwin & (Hk6 & Hm6 & Hp6 & Hs6))]]; [by left|right].
    exists d, s. rewrite Hst' in Hs, Hs6. injection Hs as Heq. rewrite Heq in *. clear Heq.
    split_and!; [done|done|lia|by rewrite Hm6, Hm|done|lia|].
    unfold s. destruct (mt_StartedAt (rc_Status commit)) as [t|]; [by left|right]. split; [done|].
    pose proof (proj1 Hc4). destruct Hwr as [Hkw _]. lia.
Qed.

Lemma floor_second_bounds t : floor_second t ≤ t.
Proof. unfold floor_second. pose proof (Z.mul_div_le t Second). unfold Second in *. lia. Qed.

#[global] Instance settled_dec w : Decision (settled backends w).
Proof. unfold settled. apply _. Defined.

(** A started commit has a pass left for each second of its window. *)
Lemma started_settles hb clusterName ns n w s :
  om_DeletionTimestamp (rc_Meta (ws_commit w)) = None →
  mt_StartedAt (rc_Status (ws_commit w)) = Some s →
  s + RepositoryCommitRateLimitWindow - ws_clock w < Z.of_nat n * Second →
  settles_within backends hb clusterName ns (S n) w.
Proof.
  revert w. induction n as [|n IH]; intros w Hdel Hst Hslack;
    (destruct (decide (settled backends w)) as [?|Hns]; [by left|right]);
    (eapply runs_mono; [by apply pass_runs|]);
    intros r w1 [?|(d & s' & -> & Hd & Hk & Hm & Hs1 & Hwin & [Heq|[Heq _]])]; try (by left); try congruence;
    rewrite Hst in Heq; injection Heq as ->.
  - lia.
  - right. split; [right; cbn; unfold Second in Hd; lia|]. intros w2 [He Hw]. cbn [delay RequeueAfter RequeueIn] in Hw.
    pose proof (ws_whole w) as Hwh. rewrite Hst in Hwh. injection Hwh as Hfl. rewrite Hfl in Hs1.
    apply IH; rewrite ?He; [by rewrite Hm|done|]. lia.
Qed.
End Progress.

(** ** Property *)

(** C3: every commit request comes to an end.  In a workspace that answers, a
    RepositoryCommit that is not being deleted reaches Succeeded or Failed
    within 902 passes, whatever the host answers and however long the queue
    delays a pass: a pass that leaves it unsettled asks to be run again, and
    the window after the start, in which the host's rate limit is waited out
    in steps of at least a second, is fifteen minutes. *)
Theorem commit_settles {W} `{Env W} `{ApiMachinery} (backends : Registry W) `{!Workspace W backends}
    hasBundles clusterName ns w
    (Hdel : om_DeletionTimestamp (rc_Meta (ws_commit w)) = None)
    (Hpast : ∀ s, mt_StartedAt (rc_Status (ws_commit w)) = Some s → s ≤ ws_clock w) :
  settles_within backends hasBundles clusterName ns enough_passes w.
Proof.
  change enough_passes with (S 901). destruct (mt_StartedAt (rc_Status (ws_commit w))) as [s|] eqn:Hst.
  { apply (started_settles backends hasBundles clusterName ns 901 w s Hdel Hst).
    pose proof (Hpast s eq_refl). unfold RepositoryCommitRateLimitWindow, Minute, Second. lia. }
  destruct (decide (settled backends w)) as [?|Hns]; [by left|right].
  eapply runs_mono; [by apply pass_runs|].
  intros r w1 [?|(d & s & -> & Hd & Hk & Hm & Hs1 & Hwin & [?|[_ Hs]])]; [by left|congruence|right].
  split; [right; cbn; unfold Second in Hd; lia|]. intros w2 [He Hw]. cbn [delay RequeueAfter RequeueIn] in Hw.
  apply (started_settles backends hasBundles clusterName ns 900 w2 (floor_second s)); rewrite ?He; [by rewrite Hm|done|].
  pose proof (floor_second_bounds s). unfold RepositoryCommitRateLimitWindow, Minute, Second in *. lia.
Qed.

(** ** A run: a host that only ever rate-limits *)

(** The clock and the stored commit. *)
Definition Desk : Type := Time * RepositoryCommit.
Definition whole_commit (c : RepositoryCommit) : RepositoryCommit :=
  rc_set_Status c (stored_status (rc_Status c)).
Definition desk_get (c : RepositoryCommit) (k : Kind) (ns name : string) : error + obj k :=
  match k return error + obj k with
  | KCommit => inr (whole_commit c)
  | k => demo_get "" k ns name
  end.
Definition desk_status (k : Kind) : obj k → Desk → (error + obj k) * Desk :=
  match k return obj k → Desk → (error + obj k) * Desk with
  | KCommit => λ o w, let c := rc_set_Status (whole_commit w.2) (stored_status (rc_Status o)) in
                      (inr c, (w.1, c))
  | _ => λ o w, (inr o, w)
  end.
Definition desk_env : Env Desk := {|
  env_cluster := λ _ w, (None, w);
  env_now := λ w, (w.1, (w.1 + 1, w.2));
  env_get := λ k ns n w, (desk_get w.2 k ns n, w);
  env_list := λ _ _ w, (inr [], w); env_create := λ _ o w, (inr o, w);
  env_update := λ _ o w, (inr o, w);
  env_status := desk_status;
  env_delete := λ _ _ w, (None, w);
  env_bundle_put := λ _ _ w, (inl (ENew "read only"), w);
  env_bundle_get := λ _ _ _ w, (inr demo_bundle, w);
  env_bundle_delete := λ _ _ _ w, (None, w);
  env_resolve := λ _ _ w, (inr {| cr_Token := "token" |}, w);
  env_keygen := λ _ w, (inl (ENew "no keys"), w); env_getenv := λ _, "" |}.

(** It asks for five more seconds every time. *)
Definition limiting_host : GitBackend Desk := {|
  gb_Name := ProviderGitHub;
  gb_ValidateConnection := λ conn _ w, (stub_ValidateConnection conn, w);
  gb_EnsureRepository := λ conn _ repo w, (stub_EnsureRepository conn repo, w);
  gb_DeleteRepository := λ _ _ _ w, (None, w);
  gb_EnsureDeployKey := λ _ _ _ key pub w, (stub_EnsureDeployKey key pub, w);
  gb_DeleteDeployKey := λ _ _ _ _ w, (None, w);
  gb_EnsureCollaborator := λ _ _ _ collab w, (stub_EnsureCollaborator collab, w);
  gb_RemoveCollaborator := λ _ _ _ _ w, (None, w);
  gb_CommitFiles := Some (λ _ _ _ _ w, (inl (ERateLimit (w.1 + 5 * Second) None), w));
  gb_CheckoutFiles := None; gb_ListPackages := None; gb_LatestWorkflowRun := None;
  gb_DispatchWorkflow := None |}.
Definition desk_hosts : Registry Desk := {[ ProviderGitHub := limiting_host ]}.

Lemma floor_second_idem t : floor_second (floor_second t) = floor_second t.
Proof. unfold floor_second. by rewrite Z.div_mul. Qed.
Lemma stored_status_idem s : stored_status (stored_status s) = stored_status s.
Proof.
  destruct s as [g p st co b sha url src fs cs]. unfold stored_status. cbn. f_equal.
  - destruct st; simpl; [by rewrite floor_second_idem|done].
  - destruct co; simpl; [by rewrite floor_second_idem|done].
  - rewrite <- list_fmap_compose. apply list_fmap_ext. intros i c _.
    destruct c. unfold stored_condition. cbn. by rewrite floor_second_idem.
Qed.

Lemma desk_hosts_limiting p b : Registry_Get desk_hosts p = Some b → b = limiting_host.
Proof. unfold Registry_Get, desk_hosts. intros Hb. by apply lookup_singleton_Some in Hb as [_ <-]. Qed.

Definition desk_workspace : Workspace (H := desk_env) Desk desk_hosts.
Proof.
  refine (Build_Workspace Desk desk_env desk_hosts fst (λ w, whole_commit w.2) _ _ _ _ _ _ _ _ _ _ _).
  - intros [t c]. cbn. destruct (mt_StartedAt (rc_Status c)); simpl; [by rewrite floor_second_idem|done].
  - intros [t c] t' w' [= <- <-]. cbn. split; [lia|done].
  - by intros n w r w' [= <- <-].
  - by intros k ns n w r w' [= <- <-].
  - by intros ns w r w' [= <- <-].
  - intros o [t c] r w' _ [= <- <-]. cbn. unfold whole_commit. cbn. rewrite stored_status_idem.
    split_and!; [done|lia|done].
  - by intros s n d w r w' [= <- <-].
  - by intros s n d w r w' [= <- <-].
  - by intros c data w r w' [= <- <-].
  - intros p b conn cred repo w r w' ->%desk_hosts_limiting Hop. by injection Hop as <- <-.
  - intros p b f conn cred repo input w r w' ->%desk_hosts_limiting Hf Hop.
    injection Hf as <-. by injection Hop as <- <-.
Defined.

Definition desk_start : Desk := (1000 * Second, demo_commit "").

(** Its first pass waits; 902 of them end it. *)
Lemma commit_settles_witness :
  let E := desk_env in let S := desk_workspace in
  ¬ settled desk_hosts desk_start ∧
  runs (pass desk_hosts true "ws" "") (λ r w1, asks_again r ∧ ¬ settled desk_hosts w1) desk_start ∧
  settles_within desk_hosts true "ws" "" enough_passes desk_start.
Proof.
  intros E S. split; [vm_compute; discriminate|]. split; [vm_compute; split; [by right|discriminate]|].
  apply (commit_settles desk_hosts true "ws" "" desk_start); [reflexivity|discriminate].
Defined.
