(* ===== verification/Packages.v ===== *)
(** * controller/packages: crawling a repository's packages

    The crawler lists a repository's packages on its host and makes the set of
    Package objects labelled for it match.  Go's map iteration is taken in the
    map's own order. *)

From S2P Require Import Prelude GoStrings Encoding GoTime Errors Api Backend Tenant Env Shared.
From Stdlib Require Import Ascii Lia.

#[local] Open Scope string_scope.
#[local] Open Scope Z_scope.

Definition defaultCrawlInterval : Duration := 2 * Minute.
Definition recentCommitWindow : Duration := 10 * Minute.
Definition recentCommitCrawlInterval : Duration := 30 * Second.

(** ** Names *)

(** Characters outside [a-z0-9] become dashes, runs of them one dash. *)
Fixpoint sanitize_from (lastDash : bool) (s : string) : string :=
  match s with
  | EmptyString => ""
  | String c r =>
      if in_range c 97 122 || in_range c 48 57 then String c (sanitize_from false r)
      else if lastDash then sanitize_from true r
      else String "-" (sanitize_from true r)
  end.
Definition sanitize (s : string) : string :=
  TrimByte "-"%char (sanitize_from false (ToLower s)).

Definition maxBase : Z := 253 - 1 - 10.
Definition NUL1 : string := String (ascii_of_N 0) "".

Definition packageObjectName (repo pkgType pkgName : string) : string :=
  let sum := sha256 (repo +:+ NUL1 +:+ pkgType +:+ NUL1 +:+ pkgName) in
  let suffix := stake 10 (hex_encode sum) in
  let base := sanitize (repo +:+ "-" +:+ pkgType +:+ "-" +:+ pkgName) in
  let base := if decide (slen base > maxBase)
              then TrimRightByte "-"%char (stake (Z.to_nat maxBase) base) else base in
  base +:+ "-" +:+ suffix.

(** ** Polling *)

(** Up to a quarter of the interval on top, in [int64] arithmetic. *)
Definition first_byte (s : string) : Z :=
  match s with String c _ => Z.of_N (N_of_ascii c) | EmptyString => 0 end.
Definition jitter (base : Duration) (repo : Repository) : Duration :=
  if base <=? 0 then base
  else
    let extra := Z.quot (wrap64 (first_byte (sha256 (om_UID (rp_Meta repo))) * base)) (255 * 4) in
    wrap64 (base + extra).

(** The configured interval: what [SetupWithManager] leaves in a reconciler that
    has none. *)
Definition crawlIntervalFromEnv (getenv : string → string) : Duration :=
  let v := getenv "CODE_PACKAGE_CRAWL_INTERVAL" in
  if decide (v = "") then defaultCrawlInterval
  else match ParseDuration v with
       | Some d => if 0 <? d then d else defaultCrawlInterval
       | None => defaultCrawlInterval
       end.
Definition SetupWithManager (getenv : string → string) (crawlInterval : Duration) : Duration :=
  if crawlInterval =? 0 then crawlIntervalFromEnv getenv else crawlInterval.

Definition nextCrawl (crawlInterval : Duration) (repo : Repository) (recentCommit : bool)
    : Duration :=
  let interval := jitter crawlInterval repo in
  if recentCommit && (recentCommitCrawlInterval <? interval)
  then recentCommitCrawlInterval else interval.

(** ** Comparing statuses *)

Definition packageVersions (l : list Backend.PackageVersion) : list Api.PackageVersion :=
  (λ v, {| pv_Digest := v_Digest v; pv_Tags := v_Tags v; pv_CreatedAt := v_CreatedAt v |}) <$> l.

Definition stringsEqual (a b : list string) : bool := bool_decide (a = b).

Fixpoint packageVersionsEqual (a b : list Api.PackageVersion) : bool :=
  match a, b with
  | [], [] => true
  | x :: a, y :: b =>
      bool_decide (pv_Digest x = pv_Digest y) && bool_decide (pv_CreatedAt x = pv_CreatedAt y)
      && stringsEqual (pv_Tags x) (pv_Tags y) && packageVersionsEqual a b
  | _, _ => false
  end.

Section Packages.
Context {W : Type} `{Env W} `{ApiMachinery}.

Definition packageStatusEqual (a b : PackageStatus) : bool :=
  bool_decide (pt_PackageName a = pt_PackageName b) &&
  bool_decide (pt_Type a = pt_Type b) &&
  bool_decide (pt_Visibility a = pt_Visibility b) &&
  bool_decide (pt_HTMLURL a = pt_HTMLURL b) &&
  bool_decide (pt_VersionCount a = pt_VersionCount b) &&
  bool_decide (pt_UpdatedAt a = pt_UpdatedAt b) &&
  bool_decide (pt_ImageRepository a = pt_ImageRepository b) &&
  bool_decide (pt_ObservedGeneration a = pt_ObservedGeneration b) &&
  packageVersionsEqual (pt_Versions a) (pt_Versions b) &&
  IsStatusConditionTrue (pt_Conditions a) ConditionReady.

(** The status a crawl observes for a package object. *)
Definition observed (pkg : Package) (info : PackageInfo) (now : Time) (conds : list Condition)
    : PackageStatus :=
  {| pt_ObservedGeneration := om_Generation (pk_Meta pkg); pt_PackageName := pi_Name info;
     pt_Type := pi_Type info; pt_Visibility := pi_Visibility info;
     pt_HTMLURL := pi_HTMLURL info; pt_VersionCount := pi_VersionCount info;
     pt_UpdatedAt := pi_UpdatedAt info; pt_ImageRepository := pi_ImageRepository info;
     pt_Versions := packageVersions (pi_Versions info); pt_LastSyncTime := Some now;
     pt_Conditions := conds |}.

(** What a slice [conds] reads after [SetStatusCondition] turned a copy of it into
    [next]: the two share their array, so a condition that was there is changed in
    place and shows through, while a new one is appended past the end of [conds]. *)
Definition in_place (conds next : list Condition) (condType : string) : list Condition :=
  match FindStatusCondition conds condType with Some _ => next | None => conds end.
Definition pt_set_Conditions (s : PackageStatus) (conds : list Condition) : PackageStatus :=
  {| pt_ObservedGeneration := pt_ObservedGeneration s; pt_PackageName := pt_PackageName s;
     pt_Type := pt_Type s; pt_Visibility := pt_Visibility s; pt_HTMLURL := pt_HTMLURL s;
     pt_VersionCount := pt_VersionCount s; pt_UpdatedAt := pt_UpdatedAt s;
     pt_ImageRepository := pt_ImageRepository s; pt_Versions := pt_Versions s;
     pt_LastSyncTime := pt_LastSyncTime s; pt_Conditions := conds |}.

(** [next.Conditions] starts as [pkg.Status.Conditions], the same slice. *)
Definition updateStatus (pkg : Package) (info : PackageInfo) : Eff W (option error) :=
  now ← Now;
  let conds := pt_Conditions (pk_Status pkg) in
  nextConds ← SetCondition conds ConditionReady ConditionTrue ReasonReady ""
                (om_Generation (pk_Meta pkg));
  let next := observed pkg info now nextConds in
  let status := pt_set_Conditions (pk_Status pkg) (in_place conds nextConds ConditionReady) in
  if packageStatusEqual status next then mret None
  else
    u ← k_status KPackage (pk_set_Status pkg next);
    match u with
    | inl e => mret (Some (Wrap ("update package " +:+ Quote (om_Name (pk_Meta pkg))
                                 +:+ " status: ") e))
    | inr _ => mret None
    end.

(** The Package object a crawl creates. *)
Definition new_package (repo : Repository) (name : string) : Package :=
  {| pk_Meta := {| om_Name := name; om_Namespace := ""; om_UID := ""; om_Generation := 0;
       om_Labels := {[ LabelRepository := om_Name (rp_Meta repo) ]}; om_Annotations := ∅;
       om_Finalizers := []; om_DeletionTimestamp := None;
       om_OwnerReferences := [ {| or_APIVersion := "code.railgrid.ai/v1alpha1";
         or_Kind := "Repository"; or_Name := om_Name (rp_Meta repo);
         or_UID := om_UID (rp_Meta repo); or_Controller := Some true;
         or_BlockOwnerDeletion := Some true |} ] |};
     pk_Spec := {| ps_RepositoryRef := om_Name (rp_Meta repo) |};
     pk_Status := {| pt_ObservedGeneration := 0; pt_PackageName := ""; pt_Type := "";
       pt_Visibility := ""; pt_HTMLURL := ""; pt_VersionCount := 0; pt_UpdatedAt := "";
       pt_ImageRepository := ""; pt_Versions := []; pt_LastSyncTime := None;
       pt_Conditions := [] |} |}.

Definition create (repo : Repository) (name : string) (info : PackageInfo)
    : Eff W (option error) :=
  c ← k_create KPackage (new_package repo name);
  match c with
  | inr pkg => updateStatus pkg info
  | inl e =>
      if IsAlreadyExists e then
        g ← k_get KPackage "" name;
        match g with
        | inl e => mret (Some e)
        | inr pkg => updateStatus pkg info
        end
      else mret (Some (Wrap ("create package " +:+ Quote name +:+ ": ") e))
  end.

(** [map[string]T] built by assignment: the last entry of a name wins. *)
Definition by_name {A : Type} (name : A → string) (l : list A) : gmap string A :=
  foldl (λ m x, <[name x := x]> m) ∅ l.

Definition repo_labels (repo : Repository) : gmap string string :=
  {[ LabelRepository := om_Name (rp_Meta repo) ]}.

Definition listOwned (repo : Repository) : Eff W (error + gmap string Package) :=
  r ← k_list KPackage (repo_labels repo);
  match r with
  | inl e => mret (inl (Wrap ("list packages for repository "
                              +:+ Quote (om_Name (rp_Meta repo)) +:+ ": ") e))
  | inr items => mret (inr (by_name (λ p : Package, om_Name (pk_Meta p)) items))
  end.

Definition info_name (repo : Repository) (info : PackageInfo) : string :=
  packageObjectName (om_Name (rp_Meta repo)) (pi_Type info) (pi_Name info).

(** [c.Delete], a missing object being fine. *)
Definition delete_package (what : string) (x : string * Package) : Eff W (option error) :=
  r ← k_delete KPackage (snd x);
  match r with
  | Some e => if IsNotFound e then mret None
              else mret (Some (Wrap (what +:+ Quote (fst x) +:+ ": ") e))
  | None => mret None
  end.

Definition sync (repo : Repository) (infos : list PackageInfo) : Eff W (option error) :=
  existing ← listOwned repo;
  match existing with
  | inl e => mret (Some e)
  | inr existing =>
      let desired := by_name (info_name repo) infos in
      r ← for_each (map_to_list existing) (λ x,
            match desired !! fst x with
            | Some _ => mret None
            | None => delete_package "delete stale package " x
            end);
      match r with
      | Some e => mret (Some e)
      | None =>
          for_each (map_to_list desired) (λ x,
            match existing !! fst x with
            | Some cur => updateStatus cur (snd x)
            | None => create repo (fst x) (snd x)
            end)
      end
  end.

Definition deleteAll (repo : Repository) : Eff W (option error) :=
  existing ← listOwned repo;
  match existing with
  | inl e => mret (Some e)
  | inr existing => for_each (map_to_list existing) (delete_package "delete package ")
  end.

Definition commit_recent (repo : Repository) (now : Time) (commit : RepositoryCommit) : bool :=
  match mt_CompletedAt (rc_Status commit) with
  | None => false
  | Some completed =>
      bool_decide (ms_RepositoryRef (rc_Spec commit) = om_Name (rp_Meta repo))
      && bool_decide (mt_Phase (rc_Status commit) = RepositoryCommitPhaseSucceeded)
      && (Sub now completed <? recentCommitWindow)
  end.

Definition recentlyCommitted (repo : Repository) (now : Time) : Eff W bool :=
  r ← k_list KCommit (repo_labels repo);
  match r with
  | inl _ => mret false
  | inr commits => mret (existsb (commit_recent repo now) commits)
  end.

Definition Reconcile (backends : Registry W) (crawlInterval : Duration)
    (clusterName ns name : string) : Eff W (error + Result) :=
  _ ←? ClusterClient clusterName;
  got ← k_get KRepository ns name;
  match got with
  | inl e => if IsNotFound e then mret (inr NoRequeue) else mret (inl e)
  | inr repo =>
      if bool_decide (om_DeletionTimestamp (rp_Meta repo) ≠ None) then mret (inr NoRequeue)
      else
        conn ←? ResolveConnection (rs_ConnectionRef (rp_Spec repo));
        match Registry_Get backends (cs_Provider (cn_Spec conn)) with
        | None => mret (inr NoRequeue)
        | Some b =>
          match gb_ListPackages b with
          | None =>
              r ← deleteAll repo;
              match r with Some e => mret (inl e) | None => mret (inr NoRequeue) end
          | Some lister =>
              cred ←? ResolveCredential conn;
              now ← Now;
              recent ← recentlyCommitted repo now;
              infos ← call (lister recent conn cred repo)
                        (λ r, EvBackend (CListPackages recent conn cred repo r));
              match infos with
              | inl e =>
                  match AsRateLimit e with
                  | Some retryAt =>
                      now ← Now;
                      mret (inr (RequeueIn (Z.max (Sub retryAt now) Second)))
                  | None => mret (inl e)
                  end
              | inr infos =>
                  r ← sync repo infos;
                  match r with
                  | Some e => mret (inl e)
                  | None => mret (inr (RequeueIn (nextCrawl crawlInterval repo recent)))
                  end
              end
          end
        end
  end.

(** ** dependencies.go *)

(** Which update events of a commit start the fast crawl. *)
Definition commitSucceeded (old new : RepositoryCommit) : bool :=
  negb (bool_decide (mt_Phase (rc_Status old) = RepositoryCommitPhaseSucceeded))
  && bool_decide (mt_Phase (rc_Status new) = RepositoryCommitPhaseSucceeded).

(** Requests are object keys, namespace then name. *)
Definition commitHandler (commit : RepositoryCommit) : list (string * string) :=
  if decide (ms_RepositoryRef (rc_Spec commit) = "") then []
  else [("", ms_RepositoryRef (rc_Spec commit))].

Definition secret_ns (conn : Connection) : string :=
  let ns := ls_Namespace (cs_SecretRef (cn_Spec conn)) in
  if decide (ns = "") then DefaultCredentialsNamespace env_getenv else ns.

Definition repositoriesForDependency (objNs objName : string) (secret : bool)
    : Eff W (list (string * string)) :=
  connections ←
    (if secret then
       r ← k_list KConnection ∅;
       match r with
       | inl _ => mret None
       | inr conns =>
           mret (Some (list_to_set (C := gset string)
             ((λ c, om_Name (cn_Meta c)) <$>
              filter (λ c, ls_Name (cs_SecretRef (cn_Spec c)) = objName ∧ secret_ns c = objNs)
                conns)))
       end
     else mret (Some {[ objName ]}));
  match connections with
  | None => mret []
  | Some connections =>
      if decide (connections = ∅) then mret []
      else
        r ← k_list KRepository ∅;
        match r with
        | inl _ => mret []
        | inr repos =>
            mret ((λ r, (om_Namespace (rp_Meta r), om_Name (rp_Meta r))) <$>
                  filter (λ r, rs_ConnectionRef (rp_Spec r) ∈ connections) repos)
        end
  end.
End Packages.

(** ** Lemmas: names *)

Definition name_char (c : ascii) : bool :=
  in_range c 97 122 || in_range c 48 57 || bool_decide (c = "-"%char).
Definition alnum (c : ascii) : bool := in_range c 97 122 || in_range c 48 57.

Lemma sanitize_from_chars b s : Forall (λ c, name_char c = true) (bytes_of (sanitize_from b s)).
Proof.
  revert b. induction s as [|c s IH]; intros b; simpl; [constructor|].
  destruct (in_range c 97 122 || in_range c 48 57) eqn:Hc; simpl.
  - constructor; [|apply IH]. unfold name_char. by rewrite Hc.
  - destruct b; [apply IH|]. constructor; [done|apply IH].
Qed.

Lemma TrimLeftByte_Forall (P : ascii → Prop) c s :
  Forall P (bytes_of s) → Forall P (bytes_of (TrimLeftByte c s)).
Proof.
  induction s as [|a s IH]; simpl; [done|]. intros [Ha Hs]%Forall_cons.
  case_match; [by apply IH|by constructor].
Qed.

Lemma bytes_of_srev s : bytes_of (srev s) = reverse (bytes_of s).
Proof. unfold srev. by rewrite bytes_of_of_bytes. Qed.

Lemma TrimRightByte_Forall (P : ascii → Prop) c s :
  Forall P (bytes_of s) → Forall P (bytes_of (TrimRightByte c s)).
Proof.
  intros H. unfold TrimRightByte. rewrite bytes_of_srev. apply Forall_reverse, TrimLeftByte_Forall.
  rewrite bytes_of_srev. by apply Forall_reverse.
Qed.

Lemma stake_Forall (P : ascii → Prop) n s :
  Forall P (bytes_of s) → Forall P (bytes_of (stake n s)).
Proof. intros H. unfold stake. rewrite bytes_of_of_bytes. by apply Forall_take. Qed.

Lemma TrimLeftByte_split c s : ∃ p, bytes_of s = (p ++ bytes_of (TrimLeftByte c s))%list ∧
  Forall (λ a, a = c) p ∧ head (bytes_of (TrimLeftByte c s)) ≠ Some c.
Proof.
  induction s as [|a s (p & H1 & H2 & H3)]; simpl; [by exists []|].
  case_decide as Hac.
  - exists (a :: p). split; [by rewrite H1|]. split; [by constructor|done].
  - exists []. split; [done|]. split; [constructor|]. simpl. congruence.
Qed.

(** Trimming on the right keeps a prefix; what goes are the trimmed bytes. *)
Lemma TrimRightByte_split c s : ∃ q, bytes_of s = (bytes_of (TrimRightByte c s) ++ q)%list ∧
  Forall (λ a, a = c) q ∧ last (bytes_of (TrimRightByte c s)) ≠ Some c.
Proof.
  unfold TrimRightByte. rewrite bytes_of_srev.
  destruct (TrimLeftByte_split c (srev s)) as (p & H1 & H2 & H3). exists (reverse p).
  rewrite bytes_of_srev in H1. split.
  - by rewrite <- reverse_app, <- H1, reverse_involutive.
  - split; [by apply Forall_reverse|]. by rewrite last_reverse.
Qed.

Lemma TrimRightByte_head c s a :
  head (bytes_of s) = Some a → a ≠ c → head (bytes_of (TrimRightByte c s)) = Some a.
Proof.
  intros Hh Ha. destruct (TrimRightByte_split c s) as (q & H1 & H2 & _).
  destruct (bytes_of (TrimRightByte c s)) as [|b l]; rewrite H1 in Hh; simpl in *; [|done].
  destruct H2 as [|x q Hx _]; [done|]. injection Hh as ->. congruence.
Qed.

Lemma name_char_alnum c : name_char c = true → c ≠ "-"%char → alnum c = true.
Proof.
  unfold name_char, alnum. intros H Hc. rewrite bool_decide_eq_false_2 in H by done.
  by rewrite orb_false_r in H.
Qed.

(** Lower-case letters, digits and dashes, starting and ending in a letter or digit. *)
Definition dns_label (s : string) : Prop :=
  Forall (λ c, name_char c = true) (bytes_of s) ∧
  (∃ a, head (bytes_of s) = Some a ∧ alnum a = true) ∧
  (∃ z, last (bytes_of s) = Some z ∧ alnum z = true).

Lemma sanitize_chars s : Forall (λ c, name_char c = true) (bytes_of (sanitize s)).
Proof. apply TrimRightByte_Forall, TrimLeftByte_Forall, sanitize_from_chars. Qed.

Lemma sanitize_head s : sanitize s ≠ "" → ∃ a, head (bytes_of (sanitize s)) = Some a ∧ alnum a = true.
Proof.
  intros Hne. pose proof (sanitize_chars s) as Hc. unfold sanitize, TrimByte in *.
  set (l := TrimLeftByte _ _) in *.
  destruct (TrimRightByte_split "-"%char l) as (q & H1 & H2 & H3).
  assert (head (bytes_of l) ≠ Some "-"%char) as Hl
    by (destruct (TrimLeftByte_split "-"%char (sanitize_from false (ToLower s))) as (? & ? & ? & ?); done).
  destruct (bytes_of (TrimRightByte "-" l)) as [|b r] eqn:E.
  { destruct Hne. apply bytes_of_inj. by rewrite E. }
  exists b. split; [done|]. apply Forall_cons in Hc as [Hb _]. apply name_char_alnum; [done|].
  rewrite H1 in Hl. simpl in Hl. congruence.
Qed.

Lemma alnum_hex c : hex_char c = true → alnum c = true.
Proof.
  unfold hex_char, alnum, in_range. rewrite !orb_true_iff, !andb_true_iff, !N.leb_le. lia.
Qed.

Lemma hex_suffix s : length (bytes_of (stake 10 (hex_encode (sha256 s)))) = 10%nat.
Proof.
  unfold stake. rewrite bytes_of_of_bytes, length_take, length_bytes_of, hex_encode_length.
  rewrite sha256_length. done.
Qed.

(** The base of an object name: bounded, still starting with a letter or digit. *)
Lemma base_ok base : Forall (λ c, name_char c = true) (bytes_of base) →
  (∃ a, head (bytes_of base) = Some a ∧ alnum a = true) →
  let b := if decide (slen base > maxBase)
           then TrimRightByte "-"%char (stake (Z.to_nat maxBase) base) else base in
  slen b ≤ maxBase ∧ Forall (λ c, name_char c = true) (bytes_of b) ∧
  (∃ a, head (bytes_of b) = Some a ∧ alnum a = true).
Proof.
  intros Hc (a & Ha & Hal). simpl. case_decide as Hlen.
  - destruct (TrimRightByte_split "-"%char (stake (Z.to_nat maxBase) base)) as (q & H1 & _ & _).
    split_and!.
    + apply (f_equal length) in H1. rewrite length_app in H1. unfold stake at 1 in H1.
      rewrite bytes_of_of_bytes, length_take, !length_bytes_of in H1. unfold slen, maxBase in *. lia.
    + by apply TrimRightByte_Forall, stake_Forall.
    + exists a. split; [|done]. apply TrimRightByte_head.
      * unfold stake. rewrite bytes_of_of_bytes. by destruct (bytes_of base).
      * intros ->. by vm_compute in Hal.
  - split; [lia|]. split; [done|]. by exists a.
Qed.

Lemma last_app_some {A} (l k : list A) : k ≠ [] → last (l ++ k)%list = last k.
Proof. intros H. rewrite last_app. destruct (last k) eqn:E; [done|]. by apply last_None in E. Qed.

(** ** Lemmas: maps built by assignment *)

Lemma by_name_lookup {A} (name : A → string) (l : list A) n x :
  by_name name l !! n = Some x → x ∈ l ∧ name x = n.
Proof.
  unfold by_name. induction l as [|y l IH] using rev_ind; [done|].
  rewrite foldl_app. simpl. rewrite lookup_insert_Some. intros [[<- <-]|[_ H]].
  - split; [|done]. apply elem_of_app. right. by left.
  - destruct (IH H) as [Hx Hn]. split; [|done]. apply elem_of_app. by left.
Qed.

(** ** Lemmas: the handler's pieces *)

(** Every call in the trace was answered without an error. *)
Definition succeeded (e : Event) : Prop :=
  match e with
  | EvList _ _ (inl _) | EvDelete _ _ (Some _) | EvCreate _ _ (inl _) | EvStatus _ _ (inl _)
  | EvGet _ _ _ (inl _) => False
  | _ => True
  end.

(** The object records what the host lists, for its generation, and has a [Ready]
    condition (of any status: it is set in place before the comparison). *)
Definition settled `{ApiMachinery} (pkg : Package) (info : PackageInfo) : Prop :=
  let s := pk_Status pkg in
  pt_PackageName s = pi_Name info ∧ pt_Type s = pi_Type info ∧
  pt_Visibility s = pi_Visibility info ∧ pt_HTMLURL s = pi_HTMLURL info ∧
  pt_VersionCount s = pi_VersionCount info ∧ pt_UpdatedAt s = pi_UpdatedAt info ∧
  pt_ImageRepository s = pi_ImageRepository info ∧
  pt_ObservedGeneration s = om_Generation (pk_Meta pkg) ∧
  pt_Versions s = packageVersions (pi_Versions info) ∧
  is_Some (FindStatusCondition (pt_Conditions s) ConditionReady).

Lemma packageVersionsEqual_spec a b : packageVersionsEqual a b = true ↔ a = b.
Proof.
  revert b. induction a as [|[d tg c] a IH]; intros [|[d' tg' c'] b]; simpl; try done.
  unfold stringsEqual. rewrite !andb_true_iff, !bool_decide_eq_true, IH. simpl.
  split; [by intros [[[-> ->] ->] ->]|by intros [= -> -> -> ->]].
Qed.

Section Pieces.
Context {W : Type} `{Env W} `{ApiMachineryLaws}.

Lemma updateStatus_compare pkg info now now' m g :
  let conds := pt_Conditions (pk_Status pkg) in
  let next := SetStatusCondition now conds {| c_Type := ConditionReady;
    c_Status := ConditionTrue; c_ObservedGeneration := g; c_LastTransitionTime := zeroTime;
    c_Reason := m; c_Message := "" |} in
  IsStatusConditionTrue next ConditionReady = true ∧
  (packageStatusEqual (pt_set_Conditions (pk_Status pkg) (in_place conds next ConditionReady))
     (observed pkg info now' next) = true ↔ settled pkg info).
Proof.
  cbv zeta. match goal with |- context [SetStatusCondition now ?l ?c] =>
    destruct (find_set now l c) as [t Ht]; set (next := SetStatusCondition now l c) in * end.
  cbn [c_Type] in Ht. unfold IsStatusConditionTrue. rewrite Ht. split; [done|].
  unfold packageStatusEqual, IsStatusConditionTrue, settled, in_place. cbn.
  rewrite !andb_true_iff, !bool_decide_eq_true, packageVersionsEqual_spec.
  destruct (FindStatusCondition (pt_Conditions (pk_Status pkg)) ConditionReady) as [c|] eqn:Hf;
    [rewrite Ht|rewrite Hf]; cbn; rewrite ?is_Some_alt; naive_solver.
Qed.

(** What [updateStatus] does when nothing fails: nothing if the object is
    settled, else one write of the observed status, [Ready] being true. *)
Definition status_written (pkg : Package) (info : PackageInfo) (o : Package) : Prop :=
  ∃ now conds, o = pk_set_Status pkg (observed pkg info now conds) ∧
    IsStatusConditionTrue conds ConditionReady = true.

Definition updates (pkg : Package) (info : PackageInfo) (t : list Event) : Prop :=
  (settled pkg info ∧ Forall reads t) ∨
  (¬ settled pkg info ∧ ∃ o u t1, status_written pkg info o ∧ Forall reads t1 ∧
     t = (t1 ++ [EvStatus KPackage o (inr u)])%list).

Lemma updateStatus_spec pkg info :
  emits (updateStatus pkg info) (λ r t, Forall succeeded t → r = None ∧ updates pkg info t).
Proof.
  unfold updateStatus, SetCondition. env_step. env_step. cbn beta iota zeta.
  env_step. env_step. env_step. cbn beta iota zeta. env_step.
  match goal with |- context [SetStatusCondition ?now _ {| c_Type := _; c_Status := _;
    c_ObservedGeneration := ?g; c_LastTransitionTime := _; c_Reason := ?m; c_Message := _ |}] =>
    destruct (updateStatus_compare pkg info now a m g) as [Htrue Hcmp] end.
  cbv zeta in *. destruct (packageStatusEqual _ _) eqn:Heq.
  - env_step. intros _. split; [done|]. left. split; [by apply Hcmp|by repeat constructor].
  - env_step. env_step. cbn beta iota. destruct a1 as [e|u]; env_step; cbn [app].
    + rewrite !Forall_cons. by intros (_ & _ & ? & _).
    + intros _. split; [done|]. right. split; [by intros ?%Hcmp|].
      eexists _, u, [EvNow a; EvNow a0]. split; [|split; [by repeat constructor|reflexivity]].
      by eexists _, _.
Qed.

(** Fault-free creation: the object, then its status. *)
Definition creates (repo : Repository) (name : string) (info : PackageInfo) (t : list Event) : Prop :=
  ∃ pkg t', t = EvCreate KPackage (new_package repo name) (inr pkg) :: t' ∧ updates pkg info t'.

Lemma create_spec repo name info :
  emits (create repo name info) (λ r t, Forall succeeded t → r = None ∧ creates repo name info t).
Proof.
  unfold create. env_step. env_step. cbn beta iota. destruct a as [e|pkg].
  - eapply emits_mono; [apply emits_True|]. intros r t _ [Hx _]%Forall_cons. done.
  - eapply emits_mono; [apply updateStatus_spec|]. intros r t Ht [_ Hs]%Forall_cons.
    destruct (Ht Hs) as [-> Hu]. split; [done|]. by exists pkg, t.
Qed.

Lemma delete_package_spec what x :
  emits (delete_package what x) (λ r t, Forall succeeded t →
    r = None ∧ t = [EvDelete KPackage (snd x) None]).
Proof.
  unfold delete_package. env_step. env_step. cbn beta iota. destruct a as [e|].
  - destruct (IsNotFound e); env_step; cbn [app]; by intros [? _]%Forall_cons.
  - by env_step.
Qed.

(** The diff a fault-free [sync] carries out, as its trace. *)
Definition sync_diff (repo : Repository) (existing : gmap string Package)
    (desired : gmap string PackageInfo) (deletions changes : list (list Event)) : Prop :=
  Forall2 (λ (x : string * Package) t, match desired !! fst x with
                  | Some _ => t = []
                  | None => t = [EvDelete KPackage (snd x) None]
                  end) (map_to_list existing) deletions ∧
  Forall2 (λ (x : string * PackageInfo) t, match existing !! fst x with
                  | Some pkg => updates pkg (snd x) t
                  | None => creates repo (fst x) (snd x) t
                  end) (map_to_list desired) changes.

Lemma sync_spec repo infos :
  emits (sync repo infos) (λ r t, Forall succeeded t → r = None ∧
    ∃ items deletions changes,
      t = EvList KPackage (repo_labels repo) (inr items) :: (concat deletions ++ concat changes)%list ∧
      sync_diff repo (by_name (λ p : Package, om_Name (pk_Meta p)) items)
        (by_name (info_name repo) infos) deletions changes).
Proof.
  unfold sync, listOwned. apply emits_bind. apply emits_bind. apply emits_call.
  intros [e|items]; apply emits_ret; cbn [app].
  { apply emits_ret. by intros [? _]%Forall_cons. }
  cbv zeta. set (existing := by_name _ items). set (desired := by_name _ infos).
  apply emits_bind. eapply emits_mono.
  { apply (emits_for_each_ok _ _ succeeded (λ (x : string * Package) t, match desired !! fst x with
      | Some _ => t = [] | None => t = [EvDelete KPackage (snd x) None] end)).
    intros x _. destruct (desired !! fst x); [|apply delete_package_spec].
    apply (emits_ret (A := option error)). done. }
  intros [e|] t1 Ht1.
  { apply emits_ret. intros [_ [Hs _]%Forall_app]%Forall_cons. by destruct (Ht1 Hs). }
  eapply emits_mono.
  { apply (emits_for_each_ok _ _ succeeded (λ (x : string * PackageInfo) t, match existing !! fst x with
      | Some pkg => updates pkg (snd x) t | None => creates repo (fst x) (snd x) t end)).
    intros x _. destruct (existing !! fst x); [apply updateStatus_spec|apply create_spec]. }
  intros r t2 Ht2 [_ [Hs1 Hs2]%Forall_app]%Forall_cons.
  destruct (Ht1 Hs1) as (_ & ts1 & Hd & ->). destruct (Ht2 Hs2) as (-> & ts2 & Hc & ->).
  split; [done|]. exists items, ts1, ts2. by repeat split.
Qed.
End Pieces.

(** ** Lemmas: reading the diff off the trace *)

Lemma elem_of_concat {A} (x : A) ls : x ∈ concat ls ↔ ∃ l, l ∈ ls ∧ x ∈ l.
Proof. rewrite list_elem_of_In, in_concat. setoid_rewrite list_elem_of_In. done. Qed.

Lemma Forall2_elem_r {A B} (P : A → B → Prop) l k y :
  Forall2 P l k → y ∈ k → ∃ x, x ∈ l ∧ P x y.
Proof.
  induction 1 as [|x y' l k HP _ IH]; [by intros ?%elem_of_nil|].
  intros [->|Hy]%elem_of_cons; [exists x; split; [by left|done]|].
  destruct (IH Hy) as (x' & ? & ?). exists x'. split; [by right|done].
Qed.
Lemma Forall2_elem_l {A B} (P : A → B → Prop) l k x :
  Forall2 P l k → x ∈ l → ∃ y, y ∈ k ∧ P x y.
Proof. intros H%Forall2_flip Hx. eapply Forall2_elem_r in H; [|done]. exact H. Qed.

(** What kind of write an event is. *)
Definition deleted (e : Event) : option Package :=
  match e with EvDelete KPackage o None => Some o | _ => None end.
Definition created (e : Event) : option Package :=
  match e with EvCreate KPackage o (inr _) => Some o | _ => None end.

Lemma reads_no_writes t e : Forall reads t → e ∈ t → deleted e = None ∧ created e = None.
Proof. rewrite Forall_forall. intros H He. specialize (H e He). by destruct e. Qed.

Section Diff.
Context `{ApiMachinery}.

Lemma updates_no_writes pkg info t e :
  updates pkg info t → e ∈ t → deleted e = None ∧ created e = None.
Proof.
  intros [[_ Hr]|(_ & o & u & t1 & _ & Hr & ->)]; [by apply reads_no_writes|].
  intros [He|He%list_elem_of_singleton]%elem_of_app; [by eapply reads_no_writes|by subst].
Qed.

Lemma diff_deleted repo existing desired ds cs o :
  sync_diff repo existing desired ds cs →
  (∃ e, e ∈ (concat ds ++ concat cs)%list ∧ deleted e = Some o) ↔
  ∃ name, existing !! name = Some o ∧ desired !! name = None.
Proof.
  intros [Hd Hc]. split.
  - intros (e & [He|He]%elem_of_app & Ho); apply elem_of_concat in He as (t & Ht & He).
    + destruct (Forall2_elem_r _ _ _ _ Hd Ht) as ([n p] & Hin & HP). simpl in HP.
      apply elem_of_map_to_list in Hin. exists n.
      destruct (desired !! n); subst t; [by apply elem_of_nil in He|].
      apply list_elem_of_singleton in He as ->. injection Ho as ->. done.
    + destruct (Forall2_elem_r _ _ _ _ Hc Ht) as ([n i] & _ & HP). simpl in HP. exfalso.
      assert (deleted e = None); [|congruence].
      destruct (existing !! n); [by eapply updates_no_writes|].
      destruct HP as (pkg & t' & -> & Hu). apply elem_of_cons in He as [->|He]; [done|].
      by eapply updates_no_writes.
  - intros (name & Ho & Hn).
    destruct (Forall2_elem_l _ _ _ (name, o) Hd) as (t & Ht & HP);
      [by apply elem_of_map_to_list|]. simpl in HP. rewrite Hn in HP. subst t.
    exists (EvDelete KPackage o None). split; [|done]. apply elem_of_app. left.
    apply elem_of_concat. eexists. split; [exact Ht|by left].
Qed.

Lemma diff_created repo existing desired ds cs o :
  sync_diff repo existing desired ds cs →
  (∃ e, e ∈ (concat ds ++ concat cs)%list ∧ created e = Some o) ↔
  ∃ name, is_Some (desired !! name) ∧ existing !! name = None ∧ o = new_package repo name.
Proof.
  intros [Hd Hc]. split.
  - intros (e & [He|He]%elem_of_app & Ho); apply elem_of_concat in He as (t & Ht & He).
    + destruct (Forall2_elem_r _ _ _ _ Hd Ht) as ([n p] & Hin & HP). simpl in HP. exfalso.
      destruct (desired !! n); subst t; [by apply elem_of_nil in He|].
      by apply list_elem_of_singleton in He as ->.
    + destruct (Forall2_elem_r _ _ _ _ Hc Ht) as ([n i] & Hin & HP). simpl in HP.
      apply elem_of_map_to_list in Hin. exists n. split; [by eexists|].
      destruct (existing !! n) as [p|].
      { exfalso. assert (created e = None) by (by eapply updates_no_writes). congruence. }
      destruct HP as (pkg & t' & -> & Hu). apply elem_of_cons in He as [->|He].
      * by injection Ho as <-.
      * exfalso. assert (created e = None) by (by eapply updates_no_writes). congruence.
  - intros (name & [info Hi] & Hn & ->).
    destruct (Forall2_elem_l _ _ _ (name, info) Hc) as (t & Ht & HP);
      [by apply elem_of_map_to_list|]. simpl in HP. rewrite Hn in HP.
    destruct HP as (pkg & t' & -> & _). exists (EvCreate KPackage (new_package repo name) (inr pkg)).
    split; [|done]. apply elem_of_app. right.
    apply elem_of_concat. eexists. split; [exact Ht|by left].
Qed.
(** The status writes of a chunk. *)
Lemma updates_status pkg info t o u :
  updates pkg info t → EvStatus KPackage o (inr u) ∈ t →
  ¬ settled pkg info ∧ status_written pkg info o.
Proof.
  intros [[_ Hr]|(Hn & o' & u' & t1 & Ho & Hr & ->)].
  - intros He. rewrite Forall_forall in Hr. by specialize (Hr _ He).
  - rewrite elem_of_app, list_elem_of_singleton. rewrite Forall_forall in Hr.
    intros [He|He]; [by specialize (Hr _ He)|].
    apply (f_equal (λ e, match e with EvStatus KPackage x _ => Some x | _ => None end)) in He.
    by injection He as ->.
Qed.
Lemma updates_unsettled pkg info t :
  updates pkg info t → ¬ settled pkg info →
  ∃ o u, EvStatus KPackage o (inr u) ∈ t ∧ status_written pkg info o.
Proof.
  intros [[Hs _]|(_ & o & u & t1 & Ho & _ & ->)] Hn; [done|]. exists o, u. split; [|done].
  apply elem_of_app. right. by left.
Qed.

(** The object [sync] holds for a wanted name: the one listed, or else the one it
    created. *)
Definition current (repo : Repository) (existing : gmap string Package) (t : list Event)
    (name : string) (pkg : Package) : Prop :=
  existing !! name = Some pkg ∨
  (existing !! name = None ∧ EvCreate KPackage (new_package repo name) (inr pkg) ∈ t).

(** The part of the trace that handled a wanted name. *)
Lemma diff_chunk repo existing desired ds cs name info :
  sync_diff repo existing desired ds cs → desired !! name = Some info →
  ∃ pkg t, current repo existing (concat ds ++ concat cs) name pkg ∧ updates pkg info t ∧
    t ⊆ (concat ds ++ concat cs)%list.
Proof.
  intros [_ Hc] Hi. destruct (Forall2_elem_l _ _ _ (name, info) Hc) as (t & Ht & HP);
    [by apply elem_of_map_to_list|]. simpl in HP.
  assert (t ⊆ (concat ds ++ concat cs)%list) as Hsub.
  { intros x Hx. apply elem_of_app. right. apply elem_of_concat. by exists t. }
  unfold current. destruct (existing !! name) as [pkg|] eqn:He.
  - exists pkg, t. by split; [left|].
  - destruct HP as (pkg & t' & -> & Hu). exists pkg, t'. split.
    + right. split; [done|]. apply Hsub. by left.
    + split; [done|]. etrans; [|exact Hsub]. intros x Hx. by right.
Qed.

Lemma diff_current repo existing desired ds cs name info pkg :
  sync_diff repo existing desired ds cs → desired !! name = Some info →
  current repo existing (concat ds ++ concat cs) name pkg →
  ∃ t, updates pkg info t ∧ t ⊆ (concat ds ++ concat cs)%list.
Proof.
  intros Hd Hi [He|[He Hcr]].
  - destruct (diff_chunk _ _ _ _ _ _ _ Hd Hi) as (pkg' & t & [Hp|[Hp _]] & Hu & Hsub);
      [|congruence]. exists t. by replace pkg with pkg' by congruence.
  - destruct Hd as [Hd Hc]. apply elem_of_app in Hcr as [Hcr|Hcr];
      apply elem_of_concat in Hcr as (t & Ht & Hcr).
    { destruct (Forall2_elem_r _ _ _ _ Hd Ht) as ([n p] & _ & HP). simpl in HP.
      destruct (desired !! n); subst t; [by apply elem_of_nil in Hcr|].
      by apply list_elem_of_singleton in Hcr. }
    destruct (Forall2_elem_r _ _ _ _ Hc Ht) as ([n i] & Hin & HP). simpl in HP.
    apply elem_of_map_to_list in Hin. destruct (existing !! n) as [p|] eqn:Hn.
    { destruct (updates_no_writes _ _ _ _ HP Hcr) as [_ Hx]. by discriminate Hx. }
    destruct HP as (pkg' & t' & -> & Hu). apply elem_of_cons in Hcr as [Heq|Hcr].
    + assert (n = name) as ->.
      { apply (f_equal (λ e, match e with EvCreate KPackage o _ => om_Name (pk_Meta o) | _ => "" end))
          in Heq. cbn in Heq. congruence. }
      assert (pkg = pkg') as ->.
      { apply (f_equal (λ e, match e with EvCreate KPackage _ (inr o) => Some o | _ => None end))
          in Heq. by injection Heq. }
      exists t'. split; [by replace info with i by congruence|].
      intros x Hx. apply elem_of_app. right. apply elem_of_concat. eexists.
      split; [exact Ht|]. by right.
    + destruct (updates_no_writes _ _ _ _ Hu Hcr) as [_ Hx]. by discriminate Hx.
Qed.

Lemma diff_status repo existing desired ds cs o u :
  sync_diff repo existing desired ds cs →
  EvStatus KPackage o (inr u) ∈ (concat ds ++ concat cs)%list →
  ∃ name info pkg, desired !! name = Some info ∧
    current repo existing (concat ds ++ concat cs) name pkg ∧
    ¬ settled pkg info ∧ status_written pkg info o.
Proof.
  intros [Hd Hc] [He|He]%elem_of_app; apply elem_of_concat in He as (t & Ht & He).
  { destruct (Forall2_elem_r _ _ _ _ Hd Ht) as ([n p] & _ & HP). simpl in HP.
    destruct (desired !! n); subst t; [by apply elem_of_nil in He|].
    by apply list_elem_of_singleton in He. }
  destruct (Forall2_elem_r _ _ _ _ Hc Ht) as ([n i] & Hin & HP). simpl in HP.
  apply elem_of_map_to_list in Hin. exists n, i. unfold current.
  destruct (existing !! n) as [pkg|] eqn:Hn.
  - destruct (updates_status _ _ _ _ _ HP He). exists pkg. auto.
  - destruct HP as (pkg & t' & -> & Hu). apply elem_of_cons in He as [He|He]; [by discriminate He|].
    destruct (updates_status _ _ _ _ _ Hu He). exists pkg. split_and!; auto.
    right. split; [done|]. apply elem_of_app. right. apply elem_of_concat. eexists.
    split; [exact Ht|]. by left.
Qed.
End Diff.

Definition listed (e : Event) : option (list Package) :=
  match e with EvList KPackage _ (inr l) => Some l | _ => None end.

Lemma updateStatus_settled {W} `{Env W} `{ApiMachineryLaws} pkg info :
  settled pkg info → emits (updateStatus pkg info) (λ r t, True → r = None ∧ Forall reads t).
Proof.
  intros Hc. unfold updateStatus, SetCondition. env_step. env_step. cbn beta iota zeta.
  env_step. env_step. env_step. cbn beta iota zeta. env_step.
  match goal with |- context [SetStatusCondition ?now _ {| c_Type := _; c_Status := _;
    c_ObservedGeneration := ?g; c_LastTransitionTime := _; c_Reason := ?m; c_Message := _ |}] =>
    rewrite (proj2 (proj2 (updateStatus_compare pkg info now a m g)) Hc) end.
  apply emits_ret. intros _. split; [done|by repeat constructor].
Qed.

(** Reads of the API and of the host. *)
Definition reads_host (e : Event) : Prop :=
  match e with
  | EvBackend (CListPackages _ _ _ _ _) => True
  | _ => reads e
  end.
Definition listing_failed (e : Event) : Prop :=
  match e with EvBackend (CListPackages _ _ _ _ (inl _)) => True | _ => False end.

Lemma reads_reads_host t : Forall reads t → Forall reads_host t.
Proof. intros H. eapply Forall_impl; [exact H|]. by intros []. Qed.

Lemma no_listing {W} `{Env W} `{ApiMachinery} repo infos :
  emits (sync repo infos) (λ _ t, Forall (λ e, ¬ listing_failed e) t).
Proof.
  unfold sync, listOwned, create, delete_package, updateStatus, SetCondition.
  env_all; try (by intros ?); apply emits_for_each; intros ? _; env_all; by intros ?.
Qed.

(** ** Properties *)

(** C34: a sync in which no call fails brings the labelled Package objects to the
    host's listing by exactly the difference: it deletes just the listed objects
    whose name is not wanted, creates just the wanted names that were missing
    (owned by the repository and labelled for it), and writes the status of just
    the wanted objects, listed or created, that are not settled, the status being
    the observed one with [Ready] true.  Settled means that every observed field
    and the generation are recorded and that a [Ready] condition exists, whatever
    its status. *)
Theorem sync_exact {W} `{Env W} `{ApiMachineryLaws} repo infos (w w' : W) r t
    (Hrun : sync repo infos w = (r, w', t)) (Hok : Forall succeeded t) :
  r = None ∧ ∃ items t',
    let existing := by_name (λ p : Package, om_Name (pk_Meta p)) items in
    let desired := by_name (info_name repo) infos in
    t = EvList KPackage {[ LabelRepository := om_Name (rp_Meta repo) ]} (inr items) :: t' ∧
    (∀ o, (∃ e, e ∈ t' ∧ deleted e = Some o) ↔
       ∃ name, existing !! name = Some o ∧ desired !! name = None) ∧
    (∀ o, (∃ e, e ∈ t' ∧ created e = Some o) ↔
       ∃ name, is_Some (desired !! name) ∧ existing !! name = None ∧ o = new_package repo name) ∧
    (∀ name info, desired !! name = Some info → ∃ pkg, current repo existing t' name pkg) ∧
    (∀ name info pkg, desired !! name = Some info → current repo existing t' name pkg →
       ¬ settled pkg info → ∃ o u, EvStatus KPackage o (inr u) ∈ t' ∧ status_written pkg info o) ∧
    (∀ o u, EvStatus KPackage o (inr u) ∈ t' → ∃ name info pkg, desired !! name = Some info ∧
       current repo existing t' name pkg ∧ ¬ settled pkg info ∧ status_written pkg info o).
Proof.
  pose proof (sync_spec repo infos w) as Hs. rewrite Hrun in Hs.
  destruct (Hs Hok) as (-> & items & ds & cs & -> & Hdiff). split; [done|].
  exists items, (concat ds ++ concat cs)%list. split_and!; [done| | | | |].
  - intros o. by eapply diff_deleted.
  - intros o. by eapply diff_created.
  - intros name info Hi. destruct (diff_chunk _ _ _ _ _ _ _ Hdiff Hi) as (pkg & _ & Hc & _).
    by exists pkg.
  - intros name info pkg Hi Hc Hn.
    destruct (diff_current _ _ _ _ _ _ _ _ Hdiff Hi Hc) as (t & Hu & Hsub).
    destruct (updates_unsettled _ _ _ Hu Hn) as (o & u & He & Ho). exists o, u. auto.
  - intros o u He. by eapply diff_status.
Qed.

(** Crawling an unchanged host writes nothing: when the listed objects are
    exactly the wanted ones and all are settled, [sync] only reads. *)
Theorem sync_quiescent {W} `{Env W} `{ApiMachineryLaws} repo infos (w w' : W) r t items
    (Hrun : sync repo infos w = (r, w', t))
    (Hlist : head t = Some (EvList KPackage (repo_labels repo) (inr items)))
    (Hdom : ∀ name, by_name (λ p : Package, om_Name (pk_Meta p)) items !! name = None ↔
                    by_name (info_name repo) infos !! name = None)
    (Hcur : ∀ name pkg info, by_name (λ p : Package, om_Name (pk_Meta p)) items !! name = Some pkg →
       by_name (info_name repo) infos !! name = Some info → settled pkg info) :
  r = None ∧ Forall reads t.
Proof.
  assert (emits (sync repo infos) (λ r t,
    head t = Some (EvList KPackage (repo_labels repo) (inr items)) → r = None ∧ Forall reads t)) as He.
  { unfold sync, listOwned. apply emits_bind. apply emits_bind. apply emits_call.
    intros [e|items']; apply emits_ret; cbn [app].
    { apply emits_ret. intros Hx%(f_equal (mbind listed)). done. }
    cbv zeta. destruct (decide ((items' : list Package) = items)) as [->|Hne].
    2: { eapply emits_mono; [apply emits_True|]. intros r1 t1 _ Hx%(f_equal (mbind listed)).
         injection Hx as Hx. done. }
    set (existing := by_name (λ p : Package, om_Name (pk_Meta p)) items) in *. set (desired := by_name _ infos) in *.
    apply emits_bind. eapply emits_mono.
    { apply (emits_for_each_ok _ _ (λ _, True) (λ _ t, t = [])). intros [n p] Hin. simpl.
      apply elem_of_map_to_list in Hin. destruct (desired !! n) eqn:Hd.
      - by apply (emits_ret (A := option error)).
      - apply Hdom in Hd. congruence. }
    intros r1 t1 Ht1. destruct Ht1 as (-> & ts & Hts & ->); [by apply Forall_true|].
    assert (concat ts = []) as ->.
    { clear -Hts. induction Hts as [|x y l k -> _ IH]; [done|]. exact IH. }
    eapply emits_mono.
    { apply (emits_for_each_ok _ _ (λ _, True) (λ _ t, Forall reads t)). intros [n i] Hin. simpl.
      apply elem_of_map_to_list in Hin. destruct (existing !! n) as [pkg|] eqn:Hd.
      - eapply emits_mono; [by apply updateStatus_settled, (Hcur n)|]. intros r0 t0 Hx _. by apply Hx.
      - apply Hdom in Hd. congruence. }
    intros r1 t1 Ht1. destruct Ht1 as (-> & ts' & Hts' & ->); [by apply Forall_true|]. intros _.
    split; [done|]. constructor; [done|]. cbn [app]. apply Forall_concat.
    clear -Hts'. induction Hts'; by constructor. }
  specialize (He w). rewrite Hrun in He. by apply He.
Qed.

(** A pass that saw a listing fail only read, and waits if it was throttled. *)
Definition failure_quiet (r : error + Result) (t : list Event) : Prop :=
  Exists listing_failed t →
  Forall reads_host t ∧
  match r with inr res => Second ≤ RequeueAfter res | inl _ => True end.

Lemma no_failure_absurd t : Forall (λ e, ¬ listing_failed e) t → ¬ Exists listing_failed t.
Proof.
  intros Hf He. apply (Exists_not_Forall (λ e, ¬ listing_failed e) t); [|done].
  eapply Exists_impl; [exact He|]. intros e Hl Hn. by apply Hn.
Qed.
Lemma no_failure_quiet r t : Forall (λ e, ¬ listing_failed e) t → failure_quiet r t.
Proof. intros Hf He. by destruct (no_failure_absurd t Hf). Qed.

Lemma reads_no_failure t : Forall reads t → Forall (λ e, ¬ listing_failed e) t.
Proof. intros Hu. eapply Forall_impl; [exact Hu|]. by intros [] ? ?. Qed.

Lemma failure_quiet_frame r t u : Forall reads t → failure_quiet r u → failure_quiet r (t ++ u).
Proof.
  intros Ht Hu Hx. apply Exists_app in Hx as [Hx|Hx].
  - by destruct (no_failure_absurd t (reads_no_failure t Ht)).
  - destruct (Hu Hx) as [H1 H2]. split; [|done]. apply Forall_app.
    split; [by apply reads_reads_host|done].
Qed.

(** The reads before a failed listing do not change what the pass owes. *)
Lemma failure_quiet_bind {W A} (m : M W Event A) (k : A → M W Event (error + Result)) :
  emits m (λ _ t, Forall reads t) → (∀ a, emits (k a) failure_quiet) →
  emits (m ≫= k) failure_quiet.
Proof.
  intros Hm Hk. apply emits_bind. eapply emits_mono; [exact Hm|]. intros a t Ht.
  eapply emits_mono; [apply Hk|]. intros r u. by apply failure_quiet_frame.
Qed.

Lemma failure_quiet_bind_res {W A} (m : M W Event (error + A)) (k : A → M W Event (error + Result)) :
  emits m (λ _ t, Forall reads t) → (∀ a, emits (k a) failure_quiet) →
  emits (bind_res m k) failure_quiet.
Proof.
  intros Hm Hk. apply failure_quiet_bind; [done|]. intros [e|a]; [|apply Hk].
  apply emits_ret. by apply no_failure_quiet.
Qed.

(** A failed listing changes nothing: the pass only read, a rate limit is
    waited out for at least a second, and any other error is returned for the
    work queue to retry. *)
Theorem failed_listing_preserves {W} `{Env W} `{ApiMachinery} backends interval cl ns name
    (w w' : W) r t
    (Hrun : Reconcile backends interval cl ns name w = (r, w', t))
    (Hfail : Exists listing_failed t) :
  Forall reads_host t ∧
  match r with
  | inr res => Second ≤ RequeueAfter res
  | inl _ => True
  end.
Proof.
  assert (emits (Reconcile backends interval cl ns name) failure_quiet) as He.
  { assert (Hret : ∀ x : error + Result, emits (mret (M := M W Event) x) failure_quiet)
      by (intros x; apply emits_ret, no_failure_quiet; done).
    unfold Reconcile. apply failure_quiet_bind_res; [apply ClusterClient_reads|]. intros _.
    apply failure_quiet_bind; [apply emits_call; by repeat constructor|]. intros [e|repo].
    { destruct (IsNotFound e); apply Hret. }
    destruct (bool_decide _); [apply Hret|].
    apply failure_quiet_bind_res; [apply ResolveConnection_reads|]. intros conn.
    destruct (Registry_Get _ _) as [b|]; [|apply Hret].
    destruct (gb_ListPackages b) as [lister|].
    2: { apply emits_bind. eapply emits_mono.
         { instantiate (1 := λ _ t, Forall (λ e, ¬ listing_failed e) t).
           unfold deleteAll, listOwned, delete_package. env_all; try (by intros ?).
           apply emits_for_each. intros ? _. env_all; by intros ?. }
         intros [e|] t0 Ht; apply emits_ret, no_failure_quiet, Forall_app; done. }
    apply failure_quiet_bind_res; [apply ResolveCredential_reads|]. intros cred.
    apply failure_quiet_bind; [apply emits_call; by repeat constructor|]. intros now.
    apply failure_quiet_bind; [unfold recentlyCommitted; env_all; done|]. intros recent.
    apply emits_bind. apply emits_call. intros [e|infos].
    - destruct (AsRateLimit e) as [retry|].
      + apply emits_bind. apply emits_call. intros now2. apply emits_ret. intros _. split.
        * by repeat constructor.
        * simpl. lia.
      + apply emits_ret. intros _. split; [by repeat constructor|done].
    - apply emits_bind. eapply emits_mono; [apply no_listing|]. intros r0 t0 Ht.
      destruct r0; apply emits_ret, no_failure_quiet; constructor; try (by intros ?);
        by rewrite app_nil_r. }
  specialize (He w). rewrite Hrun in He. by apply He.
Qed.

(** An object name is at most 253 bytes of lower-case letters, digits and
    dashes, and starts and ends with a letter or digit, whenever the sanitised
    parts leave anything of the repository, type and package names. *)
Theorem packageObjectName_valid repo pkgType pkgName
    (Hne : sanitize (repo +:+ "-" +:+ pkgType +:+ "-" +:+ pkgName) ≠ "") :
  slen (packageObjectName repo pkgType pkgName) ≤ 253 ∧
  dns_label (packageObjectName repo pkgType pkgName).
Proof.
  pose proof (sanitize_head _ Hne) as Hh. pose proof (sanitize_chars
    (repo +:+ "-" +:+ pkgType +:+ "-" +:+ pkgName)) as Hc.
  unfold packageObjectName. destruct (base_ok _ Hc Hh) as (Hlen & Hchars & a & Ha & Hal).
  set (b := if decide _ then _ else _) in *. cbv zeta.
  set (sum := repo +:+ NUL1 +:+ _). pose proof (hex_suffix sum) as Hs.
  set (suffix := stake 10 (hex_encode (sha256 sum))) in *.
  assert (Forall (λ c, hex_char c = true) (bytes_of suffix)) as Hhex
    by apply stake_Forall, hex_encode_chars.
  assert (bytes_of (b +:+ "-" +:+ suffix) = (bytes_of b ++ "-"%char :: bytes_of suffix)%list) as Hb
    by (by rewrite !bytes_of_app).
  split.
  - unfold slen in *. rewrite <- length_bytes_of, Hb, length_app. simpl. rewrite Hs, length_bytes_of.
    unfold maxBase in *. lia.
  - split_and!.
    + rewrite Hb. apply Forall_app. split; [done|]. constructor; [done|].
      eapply Forall_impl; [exact Hhex|]. intros c Hx%alnum_hex. unfold name_char. unfold alnum in Hx.
      by rewrite Hx.
    + exists a. split; [|done]. rewrite Hb. by destruct (bytes_of b).
    + destruct (last (bytes_of suffix)) as [z|] eqn:Hz.
      * exists z. split.
        -- rewrite Hb, last_app_some by done. by destruct (bytes_of suffix).
        -- apply alnum_hex. rewrite Forall_forall in Hhex. apply Hhex.
           by apply last_Some_elem_of.
      * apply last_None in Hz. by rewrite Hz in Hs.
Qed.

(** The polling delay of a positive interval that the multiplication can
    hold is the interval plus at most a quarter of it, and after a recent commit
    at most 30 seconds. *)
Theorem nextCrawl_bounds interval repo recent
    (Hpos : 0 < interval) (Hmax : 255 * interval < 2 ^ 63) :
  let d := nextCrawl interval repo recent in
  Z.min interval recentCommitCrawlInterval ≤ d ≤ interval + interval / 4 ∧
  (recent = true → d ≤ recentCommitCrawlInterval) ∧ (recent = false → interval ≤ d).
Proof.
  assert (0 ≤ first_byte (sha256 (om_UID (rp_Meta repo))) ≤ 255) as Hb.
  { unfold first_byte. destruct (sha256 _) as [|c r]; [lia|]. pose proof (N_ascii_bounded c). lia. }
  set (b := first_byte (sha256 (om_UID (rp_Meta repo)))) in *.
  assert (interval ≤ jitter interval repo ≤ interval + interval / 4) as Hj.
  { unfold jitter. destruct (interval <=? 0) eqn:Hle; [lia|]. fold b.
    assert (wrap64 (b * interval) = b * interval) as -> by (unfold wrap64; rewrite Z.mod_small; nia).
    rewrite Z.quot_div_nonneg by nia.
    assert (0 ≤ b * interval / (255 * 4) ≤ interval / 4) as Hq.
    { split; [apply Z.div_pos; nia|]. apply Z.div_le_lower_bound; [lia|].
      assert (4 * (b * interval / (255 * 4)) ≤ interval); [|done].
      pose proof (Z.mul_div_le (b * interval) (255 * 4) ltac:(lia)). nia. }
    assert (interval / 4 ≤ interval) by (apply Z.div_le_upper_bound; lia).
    assert (wrap64 (interval + b * interval / (255 * 4)) = interval + b * interval / (255 * 4)) as ->.
    { unfold wrap64. rewrite Z.mod_small; lia. }
    lia. }
  unfold nextCrawl. destruct recent; cbn [andb]; [|lia].
  destruct (recentCommitCrawlInterval <? jitter interval repo) eqn:Hr; lia.
Qed.

Lemma crawlIntervalFromEnv_range getenv :
  0 < crawlIntervalFromEnv getenv ≤ maxDuration.
Proof.
  unfold crawlIntervalFromEnv. case_decide; [done|].
  destruct (ParseDuration _) as [d|] eqn:Hd; [|done].
  apply ParseDuration_range in Hd. destruct (0 <? d) eqn:Hp; [lia|done].
Qed.

(** ** Examples *)

Definition demo_info : PackageInfo :=
  {| pi_Name := "app"; pi_Type := "container"; pi_Visibility := "private"; pi_HTMLURL := "";
     pi_ImageRepository := "ghcr.io/acme/app"; pi_VersionCount := 1; pi_UpdatedAt := "";
     pi_Versions := [ {| v_Digest := "sha256:1"; v_Tags := ["latest"]; v_CreatedAt := "" |} ] |}.

Definition demo_list (pkgs : list Package) (k : Kind) : error + list (obj k) :=
  match k with KPackage => inr pkgs | _ => inr [] end.
Definition demo_get (k : Kind) (ns name : string) : error + obj k :=
  match k with
  | KConnection => inr demo_connection
  | KRepository => inr demo_repository
  | KSecret => inr demo_secret
  | _ => inl (EStatus NotFound "not found")
  end.
Definition demo_env (pkgs : list Package) : Env unit :=
  fixed_env 5 demo_get (demo_list pkgs) (inl EBundleNotFound).

Lemma sync_exact_witness :
  ∃ t, sync (H := demo_env [new_package demo_repository "stale"]) demo_repository [demo_info] tt
       = (None, tt, t) ∧ length t = 6%nat ∧
    ∃ items t', t = EvList KPackage (repo_labels demo_repository) (inr items) :: t' ∧
      ((∃ e, e ∈ t' ∧ deleted e = Some (new_package demo_repository "stale")) ↔
       ∃ name, by_name (λ p : Package, om_Name (pk_Meta p)) items !! name
                 = Some (new_package demo_repository "stale") ∧
               by_name (info_name demo_repository) [demo_info] !! name = None) ∧
      (∀ o u, EvStatus KPackage o (inr u) ∈ t' → ∃ name info pkg,
         by_name (info_name demo_repository) [demo_info] !! name = Some info ∧
         ¬ settled pkg info ∧ status_written pkg info o).
Proof.
  eexists. split; [vm_compute; reflexivity|]. split; [vm_compute; reflexivity|].
  edestruct (sync_exact (H := demo_env [new_package demo_repository "stale"]) demo_repository
    [demo_info] tt tt) as (_ & items & t' & Ht & Hd & _ & _ & _ & Hs);
    [vm_compute; reflexivity| |].
  - repeat constructor.
  - exists items, t'. split; [exact Ht|]. split; [apply Hd|]. intros o u He.
    destruct (Hs o u He) as (name & info & pkg & H1 & _ & H2 & H3).
    exists name, info, pkg. exact (conj H1 (conj H2 H3)).
Defined.

(** A Package object that records [demo_info], with the given [Ready] status. *)
Definition recorded_package (ready : string) : Package :=
  pk_set_Status (new_package demo_repository (info_name demo_repository demo_info))
    (observed (new_package demo_repository (info_name demo_repository demo_info)) demo_info 4
       [ {| c_Type := ConditionReady; c_Status := ready; c_ObservedGeneration := 0;
            c_LastTransitionTime := 4; c_Reason := ReasonReady; c_Message := "" |} ]).

Lemma sync_quiescent_witness :
  ∃ t, sync (H := demo_env [recorded_package ConditionTrue]) demo_repository [demo_info] tt
       = (None, tt, t) ∧ Forall reads t.
Proof.
  eexists. split; [vm_compute; reflexivity|].
  assert (Hn : by_name (λ p : Package, om_Name (pk_Meta p)) [recorded_package ConditionTrue]
    = {[ info_name demo_repository demo_info := recorded_package ConditionTrue ]}) by reflexivity.
  assert (Hi : by_name (info_name demo_repository) [demo_info]
    = {[ info_name demo_repository demo_info := demo_info ]}) by reflexivity.
  refine (proj2 (sync_quiescent (H := demo_env [recorded_package ConditionTrue]) demo_repository
    [demo_info] tt tt None _ [recorded_package ConditionTrue] _ _ _ _)).
  - vm_compute. reflexivity.
  - vm_compute. reflexivity.
  - intros name. rewrite Hn, Hi, !lookup_singleton_None. reflexivity.
  - intros name pkg info. rewrite Hn, Hi. intros [_ <-]%lookup_singleton_Some
      [_ <-]%lookup_singleton_Some. unfold settled. cbv zeta.
    do 9 (split; [vm_compute; reflexivity|]). eexists. vm_compute. reflexivity.
Defined.

(** The comparison of [updateStatus] looks at conditions it has just changed: a
    package whose [Ready] condition is false is not brought back to true by a
    crawl that observes nothing else new. *)
Lemma ready_not_restored :
  (let '(r, _, t) := sync (H := demo_env [recorded_package ConditionFalse]) demo_repository
                       [demo_info] tt in
   r = None ∧ Forall reads t) ∧
  IsStatusConditionTrue (pt_Conditions (pk_Status (recorded_package ConditionFalse)))
    ConditionReady = false.
Proof. vm_compute. split; [|done]. split; [done|]. by repeat constructor. Qed.

Definition limited_backend : GitBackend unit :=
  let b : GitBackend unit := New in
  {| gb_Name := gb_Name b; gb_ValidateConnection := gb_ValidateConnection b;
     gb_EnsureRepository := gb_EnsureRepository b; gb_DeleteRepository := gb_DeleteRepository b;
     gb_EnsureDeployKey := gb_EnsureDeployKey b; gb_DeleteDeployKey := gb_DeleteDeployKey b;
     gb_EnsureCollaborator := gb_EnsureCollaborator b;
     gb_RemoveCollaborator := gb_RemoveCollaborator b; gb_CommitFiles := None;
     gb_CheckoutFiles := None;
     gb_ListPackages := Some (λ _ _ _ _ w, (inl (ERateLimit (100 * Second) None), w));
     gb_LatestWorkflowRun := None; gb_DispatchWorkflow := None |}.

Lemma failed_listing_preserves_witness :
  ∃ res t, Reconcile (H := demo_env []) {[ "github" := limited_backend ]} Minute "ws" "" "repo" tt
      = (inr res, tt, t) ∧ RequeueAfter res = 100 * Second - 5 ∧ Forall reads_host t ∧
    Second ≤ RequeueAfter res.
Proof.
  eexists _, _. split; [vm_compute; reflexivity|]. split; [vm_compute; reflexivity|].
  refine (failed_listing_preserves (H := demo_env []) {[ "github" := limited_backend ]} Minute
    "ws" "" "repo" tt tt (inr _) _ _ _); [vm_compute; reflexivity|].
  do 7 constructor 2. constructor. exact I.
Defined.

Lemma packageObjectName_valid_witness :
  packageObjectName "My_Repo" "npm" "@acme/ui" = "my-repo-npm-acme-ui-" +:+
    stake 10 (hex_encode (sha256 ("My_Repo" +:+ NUL1 +:+ "npm" +:+ NUL1 +:+ "@acme/ui"))) ∧
  slen (packageObjectName "My_Repo" "npm" "@acme/ui") ≤ 253.
Proof.
  split; [vm_compute; reflexivity|].
  refine (proj1 (packageObjectName_valid "My_Repo" "npm" "@acme/ui" _)).
  vm_compute. discriminate.
Defined.

Lemma nextCrawl_bounds_witness :
  Minute ≤ nextCrawl Minute demo_repository false ≤ Minute + Minute / 4.
Proof.
  destruct (nextCrawl_bounds Minute demo_repository false ltac:(reflexivity) ltac:(reflexivity))
    as ([_ H1] & _ & H2).
  split; [exact (H2 eq_refl)|exact H1].
Defined.
