(* ===== verification/Lifecycle.v ===== *)
(** * The lifecycle the resource controllers share

    The Repository, Collaborator, DeployKey and Connection controllers manage
    one object each and, but for Connection, its counterpart on the git host.
    Their common helpers ([setNotReady], [fail], [waitForRateLimit] and the
    finalizer updates are written out in each controller) are defined once
    here, over an interface [Resource]; [lifecycle] and [settles] say what a
    reconcile pass of such a controller promises. *)

From S2P Require Import Prelude GoStrings GoTime Errors Api Backend Tenant Env Shared.
From Stdlib Require Import Ascii Lia.

#[local] Open Scope string_scope.
#[local] Open Scope list_scope.

(** ** The interface *)

Class Resource (k : Kind) := {
  r_finalizer : string;
  r_set_meta : obj k → ObjectMeta → obj k;
  r_conditions : obj k → list Condition;
  r_observe : obj k → list Condition → obj k;  (* and ObservedGeneration := Generation *)
  r_same : obj k → obj k → Prop;               (* equal metadata and spec *)
  r_same_refl o : r_same o o;
  r_observe_same o l : r_same o (r_observe o l);
  r_observe_conditions o l : r_conditions (r_observe o l) = l }.

(** The host side of a resource: the calls made for an object, and when one
    succeeded with what the object then records. *)
Class Hosted (k : Kind) := {
  ensure_call : obj k → Event → Prop;
  clean_call : obj k → Event → Prop;
  ensured : obj k → obj k → Event → Prop;
  cleaned : obj k → Event → Prop;
  nothing_to_clean : obj k → Prop;
  auxiliary : obj k → Event → Prop;
  local_gone : obj k → list Event → Prop;  (* what the workspace held for it *)
  calls_backend o e : ensure_call o e ∨ clean_call o e → ∃ c, e = EvBackend c;
  calls_disjoint o o' e : ensure_call o e → clean_call o' e → False }.

Definition deleting {k} (o : obj k) : bool :=
  bool_decide (om_DeletionTimestamp (meta k o) ≠ None).
Definition set_finalizers {k} `{Resource k} (o : obj k) (f : list string) : obj k :=
  r_set_meta o (om_set_Finalizers (meta k o) f).
Definition held {k} `{Resource k} (o : obj k) : bool :=
  ContainsFinalizer (om_Finalizers (meta k o)) r_finalizer.

Section Operations.
Context {W : Type} `{Env W} `{ApiMachinery} {k : Kind} `{Resource k}.
Implicit Types o : obj k.

Definition setNotReady o (reason msg : string) : Eff W (option error) :=
  conds ← SetCondition (r_conditions o) ConditionReady ConditionFalse reason msg
            (om_Generation (meta k o));
  u ← k_status k (r_observe o conds);
  mret (match u with inl e => Some e | inr _ => None end).

Definition fail o (reason msg : string) : Eff W (error + Result) :=
  r ← setNotReady o reason msg;
  match r with
  | Some e => mret (inl e)
  | None => mret (inl (ENew (reason +:+ ": " +:+ msg)))
  end.

Definition waitForRateLimit o (msg : string) (wait : Duration) : Eff W (error + Result) :=
  r ← setNotReady o ReasonRateLimited msg;
  match r with
  | Some e => mret (inl e)
  | None => mret (inr (RequeueIn wait))
  end.

(** The branches on an error of the host. *)
Definition hostError o (reason : string) (err : error) : Eff W (error + Result) :=
  now ← Now;
  match RateLimitWait err now with
  | Some (wait, msg) => waitForRateLimit o msg wait
  | None => text ← error_text err; fail o reason text
  end.

(** [RemoveFinalizer] and [Update]. *)
Definition release o : Eff W (error + Result) :=
  u ← k_update k (set_finalizers o (RemoveFinalizer (om_Finalizers (meta k o)) r_finalizer));
  mret (match u with inl e => inl e | inr _ => inr NoRequeue end).

(** [AddFinalizer], which adds it, and [Update]. *)
Definition adopt o : Eff W (error + Result) :=
  u ← k_update k (set_finalizers o (AddFinalizer (om_Finalizers (meta k o)) r_finalizer));
  mret (match u with inl e => inl e | inr _ => inr RequeueNow end).
End Operations.

(** The backend, Connection, Repository and credential a resource that names a
    Repository needs, if all are there. *)
Section Resolve.
Context {W : Type} `{Env W} `{ApiMachinery}.

Definition resolveAll (backends : Registry W) (repositoryRef : string)
    : Eff W (option (GitBackend W * Connection * Repository * Credential)) :=
  r ← ResolveRepository repositoryRef;
  match r with
  | inl _ => mret None
  | inr repo =>
      c ← ResolveConnection (rs_ConnectionRef (rp_Spec repo));
      match c with
      | inl _ => mret None
      | inr conn =>
          match Registry_Get backends (cs_Provider (cn_Spec conn)) with
          | None => mret None
          | Some b =>
              r ← ResolveCredential conn;
              match r with
              | inl _ => mret None
              | inr cred => mret (Some (b, conn, repo, cred))
              end
          end
      end
  end.
End Resolve.

(** ** The contract *)

(** The objects of kind [k] a call writes. *)
Definition as_kind (k k' : Kind) (o : obj k') : option (obj k) :=
  match decide (k' = k) with
  | left E => Some (eq_rect k' obj o k E)
  | right _ => None
  end.
Definition updated (k : Kind) (e : Event) : option (obj k) :=
  match e with EvUpdate k' o _ => as_kind k k' o | _ => None end.
Definition recorded (k : Kind) (e : Event) : option (obj k) :=
  match e with EvStatus k' o _ => as_kind k k' o | _ => None end.

Definition backend_error (c : BackendCall) : option error :=
  match c with
  | CValidate _ _ (inl e) | CEnsureRepository _ _ _ (inl e) | CDeleteRepository _ _ _ (Some e)
  | CEnsureDeployKey _ _ _ _ _ (inl e) | CDeleteDeployKey _ _ _ _ (Some e)
  | CEnsureCollaborator _ _ _ _ (inl e) | CRemoveCollaborator _ _ _ _ (Some e)
  | CCommitFiles _ _ _ _ (inl e) | CCheckoutFiles _ _ _ _ (inl e)
  | CListPackages _ _ _ _ (inl e) | CLatestWorkflowRun _ _ _ _ (inl e)
  | CDispatchWorkflow _ _ _ _ _ (Some e) => Some e
  | _ => None
  end.

Section Contract.
Context {W : Type} `{ApiMachinery} (k : Kind) `{Resource k} `{Hosted k}.
Context (backends : Registry W) (ns name : string).
Implicit Types o : obj k.

Definition got (t : list Event) o : Prop := EvGet k ns name (inr o) ∈ t.
Definition ready o : Prop := IsStatusConditionTrue (r_conditions o) ConditionReady = true.

(** What the object needs could not be looked up. *)
Definition unresolved (t : list Event) : Prop :=
  (∃ k' ns' n e, EvGet k' ns' n (inl e) ∈ t) ∨ (∃ e, EvCredential (inl e) ∈ t) ∨
  (∃ n conn, EvGet KConnection "" n (inr conn) ∈ t ∧
     Registry_Get backends (cs_Provider (cn_Spec conn)) = None).

(** The guard of each event of a pass: the host is asked for the object read,
    to ensure it while it is live and holds the finalizer and to clean up while
    it is being deleted; the finalizer is released only once the host side is
    gone or cannot be reached through what the object names, and what the
    workspace kept for it is gone; Ready=True is
    recorded only with what the host returned; nothing else is written. *)
Record lifecycle (before : list Event) (e : Event) : Prop := {
  lc_scope : reads e ∨ (∃ o, got before o ∧ (ensure_call o e ∨ clean_call o e ∨ auxiliary o e)) ∨
    is_Some (updated k e) ∨ is_Some (recorded k e);
  lc_ensure : (∃ o, ensure_call o e) →
    ∃ o, ensure_call o e ∧ got before o ∧ deleting o = false ∧ held o = true;
  lc_clean : (∃ o, clean_call o e) →
    ∃ o, clean_call o e ∧ got before o ∧ deleting o = true ∧ held o = true;
  lc_update o' : updated k e = Some o' → ∃ o, got before o ∧
    ((deleting o = false ∧ held o = false ∧
      o' = set_finalizers o (AddFinalizer (om_Finalizers (meta k o)) r_finalizer)) ∨
     (deleting o = true ∧ held o = true ∧
      o' = set_finalizers o (RemoveFinalizer (om_Finalizers (meta k o)) r_finalizer) ∧
      local_gone o before ∧
      (nothing_to_clean o ∨ unresolved before ∨ ∃ e', e' ∈ before ∧ cleaned o e')));
  lc_status o' : recorded k e = Some o' → ∃ o, got before o ∧ r_same o o' ∧
    (ready o' → deleting o = false ∧ held o = true ∧ ∃ e', e' ∈ before ∧ ensured o o' e') }.

(** A pass that reports no error has nothing left to do, or is run again: at
    once after adding the finalizer; after a rate limit of the host, when the
    rest of the limit is over, counted from a clock read right after the host's
    answer, and in no less than a second. *)
Definition settles (r : error + Result) (t : list Event) : Prop :=
  match r with
  | inl _ => True
  | inr res =>
      (res = NoRequeue ∧
        ((∃ e, EvGet k ns name (inl e) ∈ t ∧ IsNotFound e = true) ∨
         (∃ o, got t o ∧ deleting o = true ∧
            (held o = false ∨ ∃ o' s, EvUpdate k o' (inr s) ∈ t ∧
               o' = set_finalizers o (RemoveFinalizer (om_Finalizers (meta k o)) r_finalizer))) ∨
         (∃ o o' s, got t o ∧ deleting o = false ∧ EvStatus k o' (inr s) ∈ t ∧ ready o'))) ∨
      (res = RequeueNow ∧ ∃ o o' s, got t o ∧ EvUpdate k o' (inr s) ∈ t ∧
         o' = set_finalizers o (AddFinalizer (om_Finalizers (meta k o)) r_finalizer)) ∨
      (∃ before c now after err retryAt, t = before ++ EvBackend c :: EvNow now :: after ∧
         backend_error c = Some err ∧ AsRateLimit err = Some retryAt ∧
         res = RequeueIn (Z.max (Sub retryAt now) Second))
  end.
End Contract.

(** ** Lemmas *)

Lemma as_kind_same k o : as_kind k k o = Some o.
Proof.
  unfold as_kind. destruct (decide (k = k)) as [E|]; [|done].
  by rewrite (eq_pi k k E eq_refl).
Qed.
Lemma updated_self k o r : updated k (EvUpdate k o r) = Some o.
Proof. apply as_kind_same. Qed.
Lemma recorded_self k o r : recorded k (EvStatus k o r) = Some o.
Proof. apply as_kind_same. Qed.

Lemma SetCondition_spec {W} `{Env W} `{ApiMachinery} conds ty st r m g :
  emits (SetCondition conds ty st r m g) (λ l t, Forall reads t ∧ ∃ now,
    l = SetStatusCondition now conds {| c_Type := ty; c_Status := st;
      c_ObservedGeneration := g; c_LastTransitionTime := zeroTime; c_Reason := r;
      c_Message := m |}).
Proof. unfold SetCondition. env_run. split; [by repeat constructor|by eexists]. Qed.

Lemma set_true `{ApiMachineryLaws} now l ty st g z r m :
  IsStatusConditionTrue (SetStatusCondition now l {| c_Type := ty; c_Status := st;
    c_ObservedGeneration := g; c_LastTransitionTime := z; c_Reason := r; c_Message := m |}) ty
  = bool_decide (st = ConditionTrue).
Proof.
  unfold IsStatusConditionTrue. match goal with |- context [SetStatusCondition _ _ ?c] =>
    destruct (find_set now l c) as [t Ht] end. simpl in Ht. by rewrite Ht.
Qed.

Lemma set_false `{ApiMachineryLaws} now l g z r m :
  IsStatusConditionTrue (SetStatusCondition now l {| c_Type := ConditionReady;
    c_Status := ConditionFalse; c_ObservedGeneration := g; c_LastTransitionTime := z;
    c_Reason := r; c_Message := m |}) ConditionReady ≠ true.
Proof. by rewrite set_true. Qed.

Section Lemmas.
Context {W : Type} `{Env W} `{ApiMachineryLaws} {k : Kind} `{Resource k} `{Hosted k}.
Context {backends : Registry W} {ns name : string}.
Implicit Types o : obj k.
#[local] Abbreviation L := (lifecycle k backends ns name).
#[local] Abbreviation S := (settles k ns name).

Lemma lifecycle_reads h e : reads e → L h e.
Proof.
  intros Hr. split; [by left|..].
  - intros [o Ho]. destruct (calls_backend o e) as [c ->]; [by left|done].
  - intros [o Ho]. destruct (calls_backend o e) as [c ->]; [by right|done].
  - by destruct e.
  - by destruct e.
Qed.

(** Lookups change nothing, and what is known of them is known after them. *)
Lemma hoare_reads {A} (m : M W Event A) h (R : A → list Event → Prop) Q :
  emits m (λ a t, Forall reads t ∧ R a t) →
  (∀ a t, Forall reads t → R a t → Q a (h ++ t)) → hoare L h m Q.
Proof. intros Hm. apply (hoare_all L reads); [exact Hm|]. intros h' e. apply lifecycle_reads. Qed.

Lemma got_app h t o : got k ns name h o → got k ns name (h ++ t) o.
Proof. unfold got. set_solver. Qed.
Lemma settles_limited h c now t err retryAt : backend_error c = Some err →
  AsRateLimit err = Some retryAt →
  S (inr (RequeueIn (Z.max (Sub retryAt now) Second))) (((h ++ [EvBackend c]) ++ [EvNow now]) ++ t).
Proof. intros. right. right. exists h, c, now, t, err, retryAt. by rewrite <- !app_assoc. Qed.

Lemma lifecycle_status h o o' r : got k ns name h o → r_same o o' →
  (ready k o' → deleting o = false ∧ held o = true ∧ ∃ e, e ∈ h ∧ ensured o o' e) →
  L h (EvStatus k o' r).
Proof.
  intros Hg Hs Hr. split.
  - right. right. right. exists o'. apply recorded_self.
  - intros [x Hx]. destruct (calls_backend x (EvStatus k o' r)) as [c Hc]; [by left|done].
  - intros [x Hx]. destruct (calls_backend x (EvStatus k o' r)) as [c Hc]; [by right|done].
  - done.
  - intros x. rewrite recorded_self. intros [= <-]. by exists o.
Qed.

Lemma lifecycle_update h o o' r : got k ns name h o →
  (deleting o = false ∧ held o = false ∧
      o' = set_finalizers o (AddFinalizer (om_Finalizers (meta k o)) r_finalizer)) ∨
  (deleting o = true ∧ held o = true ∧
      o' = set_finalizers o (RemoveFinalizer (om_Finalizers (meta k o)) r_finalizer) ∧
      local_gone o h ∧ (nothing_to_clean o ∨ unresolved backends h ∨ ∃ e', e' ∈ h ∧ cleaned o e')) →
  L h (EvUpdate k o' r).
Proof.
  intros Hg Hu. split.
  - right. right. left. exists o'. apply updated_self.
  - intros [x Hx]. destruct (calls_backend x (EvUpdate k o' r)) as [c Hc]; [by left|done].
  - intros [x Hx]. destruct (calls_backend x (EvUpdate k o' r)) as [c Hc]; [by right|done].
  - intros x. rewrite updated_self. intros [= <-]. by exists o.
  - done.
Qed.

Lemma lifecycle_ensure h o c : got k ns name h o → deleting o = false → held o = true →
  ensure_call o (EvBackend c) → L h (EvBackend c).
Proof.
  intros Hg Hd Hh He. split; [right; left; exists o; tauto| | | |].
  - intros _. by exists o.
  - intros [x Hx]. by destruct (calls_disjoint o x (EvBackend c)).
  - done.
  - done.
Qed.

Lemma lifecycle_clean h o c : got k ns name h o → deleting o = true → held o = true →
  clean_call o (EvBackend c) → L h (EvBackend c).
Proof.
  intros Hg Hd Hh He. split; [right; left; exists o; tauto| | | |].
  - intros [x Hx]. by destruct (calls_disjoint x o (EvBackend c)).
  - intros _. by exists o.
  - done.
  - done.
Qed.

Lemma lifecycle_auxiliary h o e : got k ns name h o → auxiliary o e → (∀ c, e ≠ EvBackend c) →
  updated k e = None → recorded k e = None → L h e.
Proof.
  intros Hg Ha Hb Hu Hr. split.
  - right. left. exists o. tauto.
  - intros [x Hx]. destruct (calls_backend x e) as [c Hc]; [by left|]. by destruct (Hb c).
  - intros [x Hx]. destruct (calls_backend x e) as [c Hc]; [by right|]. by destruct (Hb c).
  - congruence.
  - congruence.
Qed.

Lemma setNotReady_hoare h o reason msg : got k ns name h o →
  hoare L h (setNotReady o reason msg) (λ r h', ∃ t, h' = h ++ t).
Proof.
  intros Hg. apply hoare_bind. eapply hoare_reads; [apply SetCondition_spec|].
  intros conds t _ [now ->]. apply hoare_bind, hoare_call.
  - intros r. eapply lifecycle_status; [by apply got_app|apply r_observe_same|].
    unfold ready. rewrite r_observe_conditions. intros []%set_false.
  - intros r. apply hoare_ret. rewrite <- app_assoc. by eexists.
Qed.

Lemma fail_hoare h o reason msg : got k ns name h o → hoare L h (fail o reason msg) S.
Proof.
  intros Hg. apply hoare_bind. eapply hoare_mono; [by apply setNotReady_hoare|].
  intros [e|] h' _; by apply hoare_ret.
Qed.

Lemma hostError_hoare h o reason c err h0 : got k ns name h o → h = h0 ++ [EvBackend c] →
  backend_error c = Some err → hoare L h (hostError o reason err) S.
Proof.
  intros Hg -> Herr. apply hoare_bind, hoare_call; [by intros ?; apply lifecycle_reads|].
  intros now. unfold RateLimitWait. destruct (AsRateLimit err) as [retryAt|] eqn:Hl.
  - apply hoare_bind. eapply hoare_mono; [apply setNotReady_hoare; by apply got_app|].
    intros [e|] h' [t ->]; apply hoare_ret; [done|].
    by apply (settles_limited _ _ _ _ err).
  - apply hoare_bind. eapply hoare_reads.
    { eapply emits_mono; [apply error_text_reads|]. intros a t Ht. split; [exact Ht|].
      instantiate (1 := λ _ _, True). done. }
    intros text t _ _. apply fail_hoare. by do 2 apply got_app.
Qed.

Lemma release_hoare h o : got k ns name h o → deleting o = true → held o = true →
  local_gone o h → (nothing_to_clean o ∨ unresolved backends h ∨ ∃ e, e ∈ h ∧ cleaned o e) →
  hoare L h (release o) S.
Proof.
  intros Hg Hd Hh Hl Hc. apply hoare_bind, hoare_call.
  - intros r. apply (lifecycle_update _ o); [done|]. right. done.
  - intros [e|s]; apply hoare_ret; [done|]. left. split; [done|]. right. left. exists o.
    split; [by apply got_app|]. split; [done|]. right. eexists _, s. split; [apply elem_snoc|done].
Qed.

Lemma adopt_hoare h o : got k ns name h o → deleting o = false → held o = false →
  hoare L h (adopt o) S.
Proof.
  intros Hg Hd Hh. apply hoare_bind, hoare_call.
  - intros r. apply (lifecycle_update _ o); [done|]. left. done.
  - intros [e|s]; apply hoare_ret; [done|]. right. left. split; [done|]. exists o.
    eexists _, s. split; [by apply got_app|]. split; [apply elem_snoc|done].
Qed.

(** Recording the outcome of a successful pass. *)
Lemma record_hoare h o o' : got k ns name h o → r_same o o' → deleting o = false →
  held o = true → ready k o' → (∃ e, e ∈ h ∧ ensured o o' e) →
  hoare L h (u ← k_status k o'; mret (match u with inl e => inl e | inr _ => inr NoRequeue end)) S.
Proof.
  intros Hg Hs Hd Hh Hr He. apply hoare_bind, hoare_call.
  - intros r. by apply (lifecycle_status _ o).
  - intros [e|s]; apply hoare_ret; [done|]. left. split; [done|]. right. right.
    exists o, o', s. split_and!; [by apply got_app|done|apply elem_snoc|done].
Qed.
End Lemmas.

Lemma unresolved_app {W} (backends : Registry W) h t :
  unresolved backends t → unresolved backends (h ++ t).
Proof.
  intros [(k & n1 & n2 & e & He)|[(e & He)|(n & conn & Hg & Hb)]].
  - left. exists k, n1, n2, e. by apply elem_after.
  - right. left. exists e. by apply elem_after.
  - right. right. exists n, conn. split; [by apply elem_after|done].
Qed.

Lemma resolveAll_emits {W} `{Env W} `{ApiMachinery} (backends : Registry W) ref :
  emits (resolveAll backends ref) (λ r t, Forall reads t ∧ (r = None → unresolved backends t)).
Proof.
  unfold resolveAll, ResolveRepository, ResolveConnection, ResolveCredential.
  env_run; (split; [by repeat constructor|]); intros [=].
  all: try (left; exists KRepository; do 3 eexists; by left).
  all: try (left; exists KConnection; do 3 eexists; right; by left).
  all: try (left; exists KSecret; do 3 eexists; right; right; by left).
  all: try (right; left; eexists; do 3 right; by left).
  all: try (right; right; do 2 eexists; split; [right; by left|done]).
Qed.

Lemma reads_emits {W A} (m : M W Event A) : emits m (λ _ t, Forall reads t) →
  emits m (λ _ t, Forall reads t ∧ True).
Proof. intros Hm. eapply emits_mono; [exact Hm|]. done. Qed.

(** The first steps of every pass: the client and the object. *)
Lemma pass_hoare {W} `{Env W} `{ApiMachineryLaws} {k} `{Resource k} `{Hosted k}
    (backends : Registry W) cl ns name (f : obj k → Eff W (error + Result)) :
  (∀ h o, got k ns name h o →
     hoare (lifecycle k backends ns name) h (f o) (settles k ns name)) →
  hoare (lifecycle k backends ns name) []
    (_ ←? ClusterClient cl;
     r ← k_get k ns name;
     match r with
     | inl e => if IsNotFound e then mret (inr NoRequeue) else mret (inl e)
     | inr o => f o
     end) (settles k ns name).
Proof.
  intros Hf. apply hoare_bind_res. eapply hoare_reads; [apply reads_emits, ClusterClient_reads|].
  intros [e|[]] t _ _; [done|]. apply hoare_bind, hoare_call.
  { intros r. by apply lifecycle_reads. }
  intros [e|o].
  - destruct (IsNotFound e) eqn:He; apply hoare_ret; [|done]. left. split; [done|]. left.
    exists e. split; [apply elem_snoc|done].
  - apply Hf, elem_snoc.
Qed.
