(* ===== verification/RepositoryController.v ===== *)
(** * controller/repository: a Repository and its host repository

    The whole [Reconcile] over the calls of [Env]; [Lifecycle] states what a
    pass promises. *)

From S2P Require Import Prelude GoStrings GoTime Errors Api Backend Tenant Env Shared Lifecycle.
From Stdlib Require Import Ascii Lia.

#[local] Open Scope string_scope.
#[local] Open Scope list_scope.

Definition rt_set_conditions (s : RepositoryStatus) (gen : Z) (l : list Condition)
    : RepositoryStatus :=
  {| rt_ObservedGeneration := gen; rt_RepoID := rt_RepoID s; rt_HTMLURL := rt_HTMLURL s;
     rt_CloneURL := rt_CloneURL s; rt_SSHURL := rt_SSHURL s; rt_Conditions := l |}.

#[export] Program Instance repository_resource : Resource KRepository := {
  r_finalizer := FinalizerRepository;
  r_set_meta := rp_set_Meta;
  r_conditions := λ r, rt_Conditions (rp_Status r);
  r_observe := λ r l, rp_set_Status r
    (rt_set_conditions (rp_Status r) (om_Generation (rp_Meta r)) l);
  r_same := λ r r', rp_Meta r = rp_Meta r' ∧ rp_Spec r = rp_Spec r' }.
Solve All Obligations with done.

Definition repository_ensure_call (repo : Repository) (e : Event) : Prop :=
  match e with EvBackend (CEnsureRepository _ _ r _) => r = repo | _ => False end.
Definition repository_clean_call (repo : Repository) (e : Event) : Prop :=
  match e with EvBackend (CDeleteRepository _ _ r _) => r = repo | _ => False end.
Definition repository_ensured (repo repo' : Repository) (e : Event) : Prop :=
  match e with
  | EvBackend (CEnsureRepository _ _ r (inr res)) =>
      r = repo ∧ rt_RepoID (rp_Status repo') = rr_RepoID res ∧
      rt_HTMLURL (rp_Status repo') = rr_HTMLURL res ∧
      rt_CloneURL (rp_Status repo') = rr_CloneURL res ∧
      rt_SSHURL (rp_Status repo') = rr_SSHURL res
  | _ => False
  end.
Definition repository_cleaned (repo : Repository) (e : Event) : Prop :=
  match e with EvBackend (CDeleteRepository _ _ r None) => r = repo | _ => False end.

#[export] Program Instance repository_hosted : Hosted KRepository := {
  ensure_call := repository_ensure_call;
  clean_call := repository_clean_call;
  ensured := repository_ensured;
  cleaned := repository_cleaned;
  nothing_to_clean := λ _, False;
  auxiliary := λ _ _, False;
  local_gone := λ _ _, True }.
Next Obligation. intros o e [H|H]; destruct e; try done; by eexists. Qed.
Next Obligation.
  intros o o' e H H'. destruct e as [ | | | | | | | | | | | | |c]; try done. by destruct c.
Qed.

Section Controller.
Context {W : Type} `{Env W} `{ApiMachinery}.

(** The backend, Connection and credential, or what is missing. *)
Definition resolve (backends : Registry W) (repo : Repository)
    : Eff W (string + (GitBackend W * Connection * Credential)) :=
  c ← ResolveConnection (rs_ConnectionRef (rp_Spec repo));
  match c with
  | inl e => text ← error_text e; mret (inl text)
  | inr conn =>
      match Registry_Get backends (cs_Provider (cn_Spec conn)) with
      | None =>
          mret (inl ("no backend registered for provider " +:+ Quote (cs_Provider (cn_Spec conn)) +:+
                     " (connection " +:+ Quote (om_Name (cn_Meta conn)) +:+ ")"))
      | Some b =>
          r ← ResolveCredential conn;
          match r with
          | inl e =>
              text ← error_text e;
              mret (inl ("credential for connection " +:+ Quote (om_Name (cn_Meta conn)) +:+
                         " unavailable: " +:+ text))
          | inr cred => mret (inr (b, conn, cred))
          end
      end
  end.

Definition fail (repo : Repository) (reason msg : string) : Eff W (error + Result) :=
  Lifecycle.fail (k := KRepository) repo reason msg.
Definition waitForRateLimit (repo : Repository) (msg : string) (wait : Duration)
    : Eff W (error + Result) :=
  Lifecycle.waitForRateLimit (k := KRepository) repo msg wait.
Definition setNotReady (repo : Repository) (reason msg : string) : Eff W (option error) :=
  Lifecycle.setNotReady (k := KRepository) repo reason msg.

(** The deletion path: best-effort on the host, then the finalizer. *)
Definition reconcileDeletion (repo : Repository)
    (resolved : string + (GitBackend W * Connection * Credential)) : Eff W (error + Result) :=
  if held (k := KRepository) repo then
    match resolved with
    | inr (b, conn, cred) =>
        d ← delete_repository b conn cred repo;
        match d with
        | Some err => hostError (k := KRepository) repo "DeleteFailed" err
        | None => release (k := KRepository) repo
        end
    | inl _ => release (k := KRepository) repo
    end
  else mret (inr NoRequeue).

Definition rp_set_ensured (repo : Repository) (res : RepositoryResult) (l : list Condition)
    : Repository :=
  rp_set_Status repo
    {| rt_ObservedGeneration := om_Generation (rp_Meta repo); rt_RepoID := rr_RepoID res;
       rt_HTMLURL := rr_HTMLURL res; rt_CloneURL := rr_CloneURL res; rt_SSHURL := rr_SSHURL res;
       rt_Conditions := l |}.

Definition Reconcile (backends : Registry W) (clusterName ns name : string)
    : Eff W (error + Result) :=
  _ ←? ClusterClient clusterName;
  r ← k_get KRepository ns name;
  match r with
  | inl e => if IsNotFound e then mret (inr NoRequeue) else mret (inl e)
  | inr repo =>
      resolved ← resolve backends repo;
      if deleting (k := KRepository) repo then reconcileDeletion repo resolved
      else if negb (held (k := KRepository) repo) then adopt (k := KRepository) repo
      else
        match resolved with
        | inl notReady => fail repo "ConnectionNotReady" notReady
        | inr (b, conn, cred) =>
            e ← ensure_repository b conn cred repo;
            match e with
            | inl err =>
                hostError (k := KRepository) repo
                  (if IsIdentityConflict err then "RepositoryIdentityConflict"
                   else "EnsureFailed") err
            | inr res =>
                conds ← SetCondition (rt_Conditions (rp_Status repo)) ConditionReady ConditionTrue
                          ReasonReady "" (om_Generation (rp_Meta repo));
                u ← k_status KRepository (rp_set_ensured repo res conds);
                mret (match u with inl e => inl e | inr _ => inr NoRequeue end)
            end
        end
  end.
End Controller.

(** ** Lemmas *)

Section Lemmas.
Context {W : Type} `{Env W} `{ApiMachineryLaws}.

Lemma resolve_emits (backends : Registry W) repo :
  emits (resolve backends repo) (λ r t, Forall reads t ∧
    ∀ text, r = inl text → unresolved backends t).
Proof.
  unfold resolve, error_text, ResolveConnection, ResolveCredential.
  env_run; (split; [by repeat constructor|]); intros ? [=].
  all: try (left; exists KConnection; do 3 eexists; by left).
  all: try (left; exists KSecret; do 3 eexists; right; by left).
  all: try (right; left; eexists; right; right; by left).
  all: try (right; right; do 2 eexists; split; [by left|done]).
Qed.

Lemma repository_deletion_hoare (backends : Registry W) ns name h repo resolved :
  got KRepository ns name h repo → deleting (k := KRepository) repo = true →
  (∀ text, resolved = inl text → unresolved backends h) →
  hoare (lifecycle KRepository backends ns name) h (reconcileDeletion repo resolved)
    (settles KRepository ns name).
Proof.
  intros Hg Hd Hun. unfold reconcileDeletion.
  destruct (held (k := KRepository) repo) eqn:Hh.
  2: { apply hoare_ret. left. split; [done|]. right. left. exists repo. eauto. }
  destruct resolved as [text|[[b conn] cred]].
  { apply release_hoare; [done..|]. right. left. by eapply Hun. }
  apply hoare_bind, hoare_call.
  { intros r. by apply (lifecycle_clean _ repo). }
  intros [err|].
  - eapply (hostError_hoare _ _ _ (CDeleteRepository conn cred repo (Some err)));
      [by apply got_app|reflexivity|done].
  - apply release_hoare; [by apply got_app|done..|]. right. right.
    eexists. split; [apply elem_snoc|done].
Qed.

Lemma repository_hoare (backends : Registry W) cl ns name :
  hoare (lifecycle KRepository backends ns name) [] (Reconcile backends cl ns name)
    (settles KRepository ns name).
Proof.
  apply pass_hoare. intros h repo Hg'.
  apply hoare_bind. eapply hoare_reads; [apply resolve_emits|]. intros resolved t' _ Hun.
  pose proof (got_app h t' repo Hg') as Hg.
  destruct (deleting (k := KRepository) repo) eqn:Hd.
  { apply repository_deletion_hoare; [done..|]. intros text ->. by eapply unresolved_app, Hun. }
  destruct (held (k := KRepository) repo) eqn:Hh; simpl.
  2: { by apply adopt_hoare. }
  destruct resolved as [text|[[b conn] cred]]; [by apply fail_hoare|].
  apply hoare_bind, hoare_call.
  { intros r. by apply (lifecycle_ensure _ repo). }
  intros [err|res].
  - eapply (hostError_hoare _ _ _ (CEnsureRepository conn cred repo (inl err)));
      [by apply got_app|reflexivity|done].
  - apply hoare_bind. eapply hoare_reads; [apply SetCondition_spec|]. intros conds t2 _ [now ->].
    apply (record_hoare _ repo); [by do 2 apply got_app|done..| |].
    + unfold ready. simpl. by rewrite set_true.
    + eexists. split; [apply elem_before, elem_snoc|done].
Qed.
End Lemmas.

(** ** Property *)

(** C26: whatever the API server and the host answer, a pass over a Repository
    asks the host to ensure it only while it is live and holds the finalizer;
    removes the finalizer only while it is being deleted, and after the host
    deleted the repository in that pass or when its connection, the backend of
    the connection or the credential could not be resolved in it (the cleanup
    is then skipped); records Ready=True only with the identity and URLs the
    host returned in that pass; and writes nothing else.  A pass that reports
    no error found no object, or released it, or had nothing to release, or
    recorded Ready=True; or it is scheduled again, at once after it added the
    finalizer, and on a rate limit after what is left of the limit by a clock
    read right after the host's answer, but no less than a second. *)
Theorem Repository_lifecycle {W} `{Env W} `{ApiMachineryLaws} (backends : Registry W) cl ns name
    (w w' : W) r t (Hrun : Reconcile backends cl ns name w = (r, w', t)) :
  (∀ before e after, t = before ++ e :: after →
     lifecycle KRepository backends ns name before e) ∧
  settles KRepository ns name r t.
Proof. eapply hoare_run; [apply repository_hoare|exact Hrun]. Qed.

Definition demo_get (repo : Repository) (k : Kind) (ns name : string) : error + obj k :=
  match k with
  | KRepository => inr repo
  | KConnection => inr demo_connection
  | KSecret => inr demo_secret
  | _ => inl (EStatus NotFound "not found")
  end.
Definition demo_repo (deleted : bool) : Repository :=
  rp_set_Meta demo_repository
    {| om_Name := "repo"; om_Namespace := ""; om_UID := "r-1"; om_Generation := 1;
       om_Labels := ∅; om_Annotations := ∅; om_Finalizers := [FinalizerRepository];
       om_DeletionTimestamp := if deleted then Some 5%Z else None; om_OwnerReferences := [] |}.
Definition demo_env (deleted : bool) : Env unit :=
  fixed_env 100 (demo_get (demo_repo deleted)) (λ _, inr []) (inl EBundleNotFound).

(** A deletion: the host repository goes first, then the finalizer. *)
Lemma Repository_lifecycle_witness :
  let E := demo_env true in
  let backends : Registry unit := {[ ProviderGitHub := New ]} in
  ∃ t : list Event,
    Reconcile backends "ws" "" "repo" tt = (inr NoRequeue, tt, t) ∧ length t = 7%nat ∧
    settles KRepository "" "repo" (inr NoRequeue) t.
Proof.
  intros E backends. eexists. split; [vm_compute; reflexivity|]. split; [reflexivity|].
  apply (Repository_lifecycle backends "ws" "" "repo" tt tt). vm_compute. reflexivity.
Defined.
