(* ===== verification/CollaboratorController.v ===== *)
(** * controller/collaborator: a host grant for a user

    The whole [Reconcile] over the calls of [Env]; [Lifecycle] states what a
    pass promises. *)

From S2P Require Import Prelude GoStrings GoTime Errors Api Backend Tenant Env Shared Lifecycle.
From Stdlib Require Import Ascii Lia.

#[local] Open Scope string_scope.
#[local] Open Scope list_scope.

Definition lt_set (collab : Collaborator) (invitation : string) (l : list Condition)
    : Collaborator :=
  cl_set_Status collab
    {| lt_ObservedGeneration := om_Generation (cl_Meta collab); lt_InvitationID := invitation;
       lt_Conditions := l |}.

#[export] Program Instance collaborator_resource : Resource KCollaborator := {
  r_finalizer := FinalizerCollaborator;
  r_set_meta := cl_set_Meta;
  r_conditions := λ c, lt_Conditions (cl_Status c);
  r_observe := λ c l, lt_set c (lt_InvitationID (cl_Status c)) l;
  r_same := λ c c', cl_Meta c = cl_Meta c' ∧ cl_Spec c = cl_Spec c' }.
Solve All Obligations with done.

Definition collaborator_ensure_call (collab : Collaborator) (e : Event) : Prop :=
  match e with EvBackend (CEnsureCollaborator _ _ _ c _) => c = collab | _ => False end.
Definition collaborator_clean_call (collab : Collaborator) (e : Event) : Prop :=
  match e with EvBackend (CRemoveCollaborator _ _ _ c _) => c = collab | _ => False end.

(** Ready=True is recorded whether or not the invitation is accepted; the
    InvitationPending condition tells which. *)
Definition collaborator_ensured `{ApiMachinery} (collab collab' : Collaborator) (e : Event) : Prop :=
  match e with
  | EvBackend (CEnsureCollaborator _ _ _ c (inr res)) =>
      c = collab ∧ lt_InvitationID (cl_Status collab') = lr_InvitationID res ∧
      IsStatusConditionTrue (lt_Conditions (cl_Status collab')) ConditionInvitationPending
      = lr_Pending res
  | _ => False
  end.
Definition collaborator_cleaned (collab : Collaborator) (e : Event) : Prop :=
  match e with EvBackend (CRemoveCollaborator _ _ _ c None) => c = collab | _ => False end.

#[export] Program Instance collaborator_hosted `{ApiMachinery} : Hosted KCollaborator := {
  ensure_call := collaborator_ensure_call;
  clean_call := collaborator_clean_call;
  ensured := collaborator_ensured;
  cleaned := collaborator_cleaned;
  nothing_to_clean := λ _, False;
  auxiliary := λ _ _, False;
  local_gone := λ _ _, True }.
Next Obligation. intros ? o e [H|H]; destruct e; try done; by eexists. Qed.
Next Obligation.
  intros ? o o' e H H'. destruct e as [ | | | | | | | | | | | | |c]; try done. by destruct c.
Qed.

Section Controller.
Context {W : Type} `{Env W} `{ApiMachinery}.

Definition resolve (backends : Registry W) (collab : Collaborator)
    : Eff W (option (GitBackend W * Connection * Repository * Credential)) :=
  resolveAll backends (ls_RepositoryRef (cl_Spec collab)).

Definition fail (collab : Collaborator) (reason msg : string) : Eff W (error + Result) :=
  Lifecycle.fail (k := KCollaborator) collab reason msg.
Definition waitForRateLimit (collab : Collaborator) (msg : string) (wait : Duration)
    : Eff W (error + Result) :=
  Lifecycle.waitForRateLimit (k := KCollaborator) collab msg wait.
Definition setNotReady (collab : Collaborator) (reason msg : string) : Eff W (option error) :=
  Lifecycle.setNotReady (k := KCollaborator) collab reason msg.

Definition reconcileDeletion (collab : Collaborator)
    (resolved : option (GitBackend W * Connection * Repository * Credential))
    : Eff W (error + Result) :=
  if held (k := KCollaborator) collab then
    match resolved with
    | Some (b, conn, repo, cred) =>
        d ← remove_collaborator b conn cred repo collab;
        match d with
        | Some err => hostError (k := KCollaborator) collab "RemoveFailed" err
        | None => release (k := KCollaborator) collab
        end
    | None => release (k := KCollaborator) collab
    end
  else mret (inr NoRequeue).

(** The two conditions of a grant the host applied. *)
Definition ready_conditions (collab : Collaborator) (pending : bool) : Eff W (list Condition) :=
  let gen := om_Generation (cl_Meta collab) in
  if pending then
    l ← SetCondition (lt_Conditions (cl_Status collab)) ConditionInvitationPending ConditionTrue
          "Invited" "invitation sent; awaiting acceptance" gen;
    SetCondition l ConditionReady ConditionTrue ReasonReady "invitation pending acceptance" gen
  else
    l ← SetCondition (lt_Conditions (cl_Status collab)) ConditionInvitationPending ConditionFalse
          ReasonReady "" gen;
    SetCondition l ConditionReady ConditionTrue ReasonReady "" gen.

Definition Reconcile (backends : Registry W) (clusterName ns name : string)
    : Eff W (error + Result) :=
  _ ←? ClusterClient clusterName;
  r ← k_get KCollaborator ns name;
  match r with
  | inl e => if IsNotFound e then mret (inr NoRequeue) else mret (inl e)
  | inr collab =>
      resolved ← resolve backends collab;
      if deleting (k := KCollaborator) collab then reconcileDeletion collab resolved
      else if negb (held (k := KCollaborator) collab) then adopt (k := KCollaborator) collab
      else
        match resolved with
        | None =>
            fail collab "RepositoryNotReady"
              "referenced repository, connection, or credential is not available yet"
        | Some (b, conn, repo, cred) =>
            e ← ensure_collaborator b conn cred repo collab;
            match e with
            | inl err => hostError (k := KCollaborator) collab "EnsureFailed" err
            | inr res =>
                conds ← ready_conditions collab (lr_Pending res);
                u ← k_status KCollaborator (lt_set collab (lr_InvitationID res) conds);
                mret (match u with inl e => inl e | inr _ => inr NoRequeue end)
            end
        end
  end.
End Controller.

(** ** Lemmas *)

Section Lemmas.
Context {W : Type} `{Env W} `{ApiMachineryLaws}.

Lemma ready_conditions_emits collab pending :
  emits (ready_conditions collab pending) (λ l t, Forall reads t ∧
    IsStatusConditionTrue l ConditionReady = true ∧
    IsStatusConditionTrue l ConditionInvitationPending = pending).
Proof.
  unfold ready_conditions, SetCondition. destruct pending; env_run;
    (split; [by repeat constructor|]); (split; [by rewrite set_true|]);
    unfold IsStatusConditionTrue; rewrite find_set_other by done;
    apply set_true.
Qed.

Lemma collaborator_deletion_hoare (backends : Registry W) ns name h collab resolved :
  got KCollaborator ns name h collab → deleting (k := KCollaborator) collab = true →
  (resolved = None → unresolved backends h) →
  hoare (lifecycle KCollaborator backends ns name) h (reconcileDeletion collab resolved)
    (settles KCollaborator ns name).
Proof.
  intros Hg Hd Hun. unfold reconcileDeletion.
  destruct (held (k := KCollaborator) collab) eqn:Hh.
  2: { apply hoare_ret. left. split; [done|]. right. left. exists collab. eauto. }
  destruct resolved as [[[[b conn] repo] cred]|].
  2: { apply release_hoare; [done..|]. right. left. by apply Hun. }
  apply hoare_bind, hoare_call.
  { intros r. by apply (lifecycle_clean _ collab). }
  intros [err|].
  - eapply (hostError_hoare _ _ _ (CRemoveCollaborator conn cred repo collab (Some err)));
      [by apply got_app|reflexivity|done].
  - apply release_hoare; [by apply got_app|done..|]. right. right.
    eexists. split; [apply elem_snoc|done].
Qed.

Lemma collaborator_hoare (backends : Registry W) cl ns name :
  hoare (lifecycle KCollaborator backends ns name) [] (Reconcile backends cl ns name)
    (settles KCollaborator ns name).
Proof.
  apply pass_hoare. intros h collab Hg'.
  apply hoare_bind. eapply hoare_reads; [apply resolveAll_emits|]. intros resolved t _ Hun.
  pose proof (got_app h t collab Hg') as Hg.
  destruct (deleting (k := KCollaborator) collab) eqn:Hd.
  { apply collaborator_deletion_hoare; [done..|]. intros Hr. by apply unresolved_app, Hun. }
  destruct (held (k := KCollaborator) collab) eqn:Hh; simpl.
  2: { by apply adopt_hoare. }
  destruct resolved as [[[[b conn] repo] cred]|]; [|by apply fail_hoare].
  apply hoare_bind, hoare_call.
  { intros r. by apply (lifecycle_ensure _ collab). }
  intros [err|res].
  - eapply (hostError_hoare _ _ _ (CEnsureCollaborator conn cred repo collab (inl err)));
      [by apply got_app|reflexivity|done].
  - apply hoare_bind. eapply hoare_reads; [apply ready_conditions_emits|].
    intros conds t2 _ [Hr Hp].
    apply (record_hoare _ collab); [by do 2 apply got_app|done..| |].
    + exact Hr.
    + eexists. split; [apply elem_before, elem_snoc|done].
Qed.
End Lemmas.

(** ** Property *)

(** A pass over a Collaborator keeps the same lifecycle: the grant is
    ensured only while the object is live and holds the finalizer, the finalizer
    goes only after the host removed the grant or could not be resolved, and
    Ready=True is recorded only with the invitation the host returned in that
    pass, InvitationPending saying whether it is still open. *)
Theorem Collaborator_lifecycle {W} `{Env W} `{ApiMachineryLaws} (backends : Registry W) cl ns name
    (w w' : W) r t (Hrun : Reconcile backends cl ns name w = (r, w', t)) :
  (∀ before e after, t = before ++ e :: after →
     lifecycle KCollaborator backends ns name before e) ∧
  settles KCollaborator ns name r t.
Proof. eapply hoare_run; [apply collaborator_hoare|exact Hrun]. Qed.

Definition demo_collaborator : Collaborator :=
  {| cl_Meta := om_set_Finalizers (named "ann" "u-1") [FinalizerCollaborator];
     cl_Spec := {| ls_RepositoryRef := "repo"; ls_Username := "ann";
       ls_Permission := PermissionPush |};
     cl_Status := {| lt_ObservedGeneration := 0; lt_InvitationID := ""; lt_Conditions := [] |} |}.
Definition demo_get (k : Kind) (ns name : string) : error + obj k :=
  match k with
  | KCollaborator => inr demo_collaborator
  | KRepository => inr demo_repository
  | KConnection => inr demo_connection
  | KSecret => inr demo_secret
  | _ => inl (EStatus NotFound "not found")
  end.

(** The stub host grants at once. *)
Lemma Collaborator_lifecycle_witness :
  let E := fixed_env 100 demo_get (λ _, inr []) (inl EBundleNotFound) in
  let backends : Registry unit := {[ ProviderGitHub := New ]} in
  ∃ t : list Event,
    Reconcile backends "ws" "" "ann" tt = (inr NoRequeue, tt, t) ∧ length t = 10%nat ∧
    settles KCollaborator "" "ann" (inr NoRequeue) t.
Proof.
  intros E backends. eexists. split; [vm_compute; reflexivity|]. split; [reflexivity|].
  apply (Collaborator_lifecycle backends "ws" "" "ann" tt tt). vm_compute. reflexivity.
Defined.
