(* ===== verification/DeployKeyController.v ===== *)
(** * controller/deploykey: an SSH key on a host repository

    The whole [Reconcile] over the calls of [Env], with the key material it
    keeps in a Secret; key generation (controller/deploykey/keygen.go) is the
    [keygen] call.  [Lifecycle] states what a pass promises about the host
    side, [key_material] what it promises about the keys. *)

From S2P Require Import Prelude GoStrings GoTime Errors Api Backend Tenant Env Shared Lifecycle.
From Stdlib Require Import Ascii Lia.

#[local] Open Scope string_scope.
#[local] Open Scope list_scope.

Definition secretDataKeyPrivate : string := "ssh-privatekey".
Definition secretDataKeyPublic : string := "ssh-publickey".
Definition SecretTypeSSHAuth : string := "kubernetes.io/ssh-auth".

Definition dt_set (key : DeployKey) (id : string) (ref : option LocalSecretReference)
    (l : list Condition) : DeployKey :=
  dk_set_Status key
    {| dt_ObservedGeneration := om_Generation (dk_Meta key); dt_KeyID := id;
       dt_SecretRef := ref; dt_Conditions := l |}.

Definition secretName (key : DeployKey) : string := "deploykey-" +:+ om_Name (dk_Meta key).

(** The Secret [ensurePublicKey] creates. *)
Definition key_secret (key : DeployKey) (ns priv pub : string) : Secret :=
  {| sc_Meta := {| om_Name := secretName key; om_Namespace := ns; om_UID := "";
       om_Generation := 0; om_Labels := ∅; om_Annotations := ∅; om_Finalizers := [];
       om_DeletionTimestamp := None;
       om_OwnerReferences :=
         [ {| or_APIVersion := "code.railgrid.ai/v1alpha1"; or_Kind := "DeployKey";
              or_Name := om_Name (dk_Meta key); or_UID := om_UID (dk_Meta key);
              or_Controller := Some true; or_BlockOwnerDeletion := Some true |} ] |};
     sc_Type := SecretTypeSSHAuth;
     sc_Data := <[secretDataKeyPrivate := priv]> {[ secretDataKeyPublic := pub ]} |}.

(** The object [deleteSecret] names. *)
Definition secret_named (ns name : string) : Secret :=
  {| sc_Meta := {| om_Name := name; om_Namespace := ns; om_UID := ""; om_Generation := 0;
       om_Labels := ∅; om_Annotations := ∅; om_Finalizers := []; om_DeletionTimestamp := None;
       om_OwnerReferences := [] |};
     sc_Type := ""; sc_Data := ∅ |}.

Section Controller.
Context {W : Type} `{Env W} `{ApiMachinery}.

Definition resolve (backends : Registry W) (key : DeployKey)
    : Eff W (option (GitBackend W * Connection * Repository * Credential)) :=
  resolveAll backends (ds_RepositoryRef (dk_Spec key)).

(** The public key to register, and the Secret holding a generated one. *)
Definition ensurePublicKey (key : DeployKey)
    : Eff W (error + (string * option LocalSecretReference)) :=
  if decide (TrimSpace (ds_PublicKey (dk_Spec key)) ≠ "") then
    mret (inr (TrimSpace (ds_PublicKey (dk_Spec key)), None))
  else
    let ns := DefaultCredentialsNamespace env_getenv in
    let name := secretName key in
    let ref := {| ls_Name := name; ls_Namespace := ns; ls_Key := secretDataKeyPrivate |} in
    let generate : Eff W (error + (string * option LocalSecretReference)) :=
      g ← keygen (om_Name (dk_Meta key));
      match g with
      | inl e => mret (inl e)
      | inr (priv, pub) =>
          c ← k_create KSecret (key_secret key ns priv pub);
          match c with
          | inr _ => mret (inr (TrimSpace pub, Some ref))
          | inl err =>
              if IsAlreadyExists err then
                again ← k_get KSecret ns name;
                match again with
                | inr existing =>
                    match sc_Data existing !! secretDataKeyPublic with
                    | Some p => mret (inr (TrimSpace p, Some ref))
                    | None => mret (inl (Wrap "create key secret: " err))
                    end
                | inl _ => mret (inl (Wrap "create key secret: " err))
                end
              else mret (inl (Wrap "create key secret: " err))
          end
      end in
    r ← k_get KSecret ns name;
    match r with
    | inr existing =>
        match sc_Data existing !! secretDataKeyPublic with
        | Some pub => if decide (pub ≠ "") then mret (inr (TrimSpace pub, Some ref)) else generate
        | None => generate
        end
    | inl err =>
        if IsNotFound err then generate else mret (inl (Wrap "get existing key secret: " err))
    end.

Definition deleteSecret (key : DeployKey) : Eff W (option error) :=
  match dt_SecretRef (dk_Status key) with
  | None => mret None
  | Some ref =>
      let ns := if decide (ls_Namespace ref = "") then DefaultCredentialsNamespace env_getenv
                else ls_Namespace ref in
      d ← k_delete KSecret (secret_named ns (ls_Name ref));
      mret (match d with
            | Some err => if IsNotFound err then None else Some err
            | None => None
            end)
  end.
End Controller.

(** ** The resource and its host side *)

#[export] Program Instance deploykey_resource : Resource KDeployKey := {
  r_finalizer := FinalizerDeployKey;
  r_set_meta := dk_set_Meta;
  r_conditions := λ d, dt_Conditions (dk_Status d);
  r_observe := λ d l, dt_set d (dt_KeyID (dk_Status d)) (dt_SecretRef (dk_Status d)) l;
  r_same := λ d d', dk_Meta d = dk_Meta d' ∧ dk_Spec d = dk_Spec d' }.
Solve All Obligations with done.

Definition deploykey_ensure_call (key : DeployKey) (e : Event) : Prop :=
  match e with EvBackend (CEnsureDeployKey _ _ _ k _ _) => k = key | _ => False end.
(** The host's key is deleted by the recorded ID. *)
Definition deploykey_clean_call (key : DeployKey) (e : Event) : Prop :=
  match e with
  | EvBackend (CDeleteDeployKey _ _ _ id _) => id = dt_KeyID (dk_Status key) ∧ id ≠ ""
  | _ => False
  end.
Definition deploykey_ensured (key key' : DeployKey) (e : Event) : Prop :=
  match e with
  | EvBackend (CEnsureDeployKey _ _ _ k _ (inr res)) =>
      k = key ∧ dt_KeyID (dk_Status key') = kr_KeyID res
  | _ => False
  end.
Definition deploykey_cleaned (key : DeployKey) (e : Event) : Prop :=
  match e with
  | EvBackend (CDeleteDeployKey _ _ _ id None) => id = dt_KeyID (dk_Status key)
  | _ => False
  end.
(** Key material: generation, and the Secret it is kept in. *)
Definition deploykey_auxiliary (key : DeployKey) (e : Event) : Prop :=
  match e with
  | EvKeygen _ => TrimSpace (ds_PublicKey (dk_Spec key)) = ""
  | EvCreate KSecret s _ =>
      TrimSpace (ds_PublicKey (dk_Spec key)) = "" ∧ ∃ ns priv pub, s = key_secret key ns priv pub
  | EvDelete KSecret s _ =>
      ∃ ns ref, dt_SecretRef (dk_Status key) = Some ref ∧ s = secret_named ns (ls_Name ref)
  | _ => False
  end.

Definition deploykey_secret_gone (key : DeployKey) (t : list Event) : Prop :=
  ∀ ref, dt_SecretRef (dk_Status key) = Some ref → ∃ ns r,
    (ls_Namespace ref ≠ "" → ns = ls_Namespace ref) ∧
    EvDelete KSecret (secret_named ns (ls_Name ref)) r ∈ t ∧
    (∀ err, r = Some err → IsNotFound err = true).

#[export] Program Instance deploykey_hosted : Hosted KDeployKey := {
  ensure_call := deploykey_ensure_call;
  clean_call := deploykey_clean_call;
  ensured := deploykey_ensured;
  cleaned := deploykey_cleaned;
  nothing_to_clean := λ key, dt_KeyID (dk_Status key) = "";
  auxiliary := deploykey_auxiliary;
  local_gone := deploykey_secret_gone }.
Next Obligation. intros o e [H|H]; destruct e; try done; by eexists. Qed.
Next Obligation.
  intros o o' e H H'. destruct e as [ | | | | | | | | | | | | |c]; try done. by destruct c.
Qed.

Section Reconcile.
Context {W : Type} `{Env W} `{ApiMachinery}.

Definition fail (key : DeployKey) (reason msg : string) : Eff W (error + Result) :=
  Lifecycle.fail (k := KDeployKey) key reason msg.
Definition waitForRateLimit (key : DeployKey) (msg : string) (wait : Duration)
    : Eff W (error + Result) :=
  Lifecycle.waitForRateLimit (k := KDeployKey) key msg wait.
Definition setNotReady (key : DeployKey) (reason msg : string) : Eff W (option error) :=
  Lifecycle.setNotReady (k := KDeployKey) key reason msg.

(** The Secret, then the finalizer. *)
Definition releaseKey (key : DeployKey) : Eff W (error + Result) :=
  s ← deleteSecret key;
  match s with
  | Some err => text ← error_text err; fail key "SecretCleanupFailed" text
  | None => release (k := KDeployKey) key
  end.

Definition reconcileDeletion (key : DeployKey)
    (resolved : option (GitBackend W * Connection * Repository * Credential))
    : Eff W (error + Result) :=
  if held (k := KDeployKey) key then
    match resolved with
    | Some (b, conn, repo, cred) =>
        if decide (dt_KeyID (dk_Status key) ≠ "") then
          d ← delete_deploy_key b conn cred repo (dt_KeyID (dk_Status key));
          match d with
          | Some err => hostError (k := KDeployKey) key "DeleteFailed" err
          | None => releaseKey key
          end
        else releaseKey key
    | None => releaseKey key
    end
  else mret (inr NoRequeue).

(** A live key that holds its finalizer and whose references resolve. *)
Definition ensureKey (b : GitBackend W) (conn : Connection) (repo : Repository)
    (cred : Credential) (key : DeployKey) : Eff W (error + Result) :=
  p ← ensurePublicKey key;
  match p with
  | inl err => text ← error_text err; fail key "KeyMaterialError" text
  | inr (publicKey, secretRef) =>
      e ← ensure_deploy_key b conn cred repo key publicKey;
      match e with
      | inl err => hostError (k := KDeployKey) key "EnsureFailed" err
      | inr res =>
          conds ← SetCondition (dt_Conditions (dk_Status key)) ConditionReady ConditionTrue
                    ReasonReady "" (om_Generation (dk_Meta key));
          u ← k_status KDeployKey (dt_set key (kr_KeyID res) secretRef conds);
          mret (match u with inl e => inl e | inr _ => inr NoRequeue end)
      end
  end.

Definition Reconcile (backends : Registry W) (clusterName ns name : string)
    : Eff W (error + Result) :=
  _ ←? ClusterClient clusterName;
  r ← k_get KDeployKey ns name;
  match r with
  | inl e => if IsNotFound e then mret (inr NoRequeue) else mret (inl e)
  | inr key =>
      resolved ← resolve backends key;
      if deleting (k := KDeployKey) key then reconcileDeletion key resolved
      else if negb (held (k := KDeployKey) key) then adopt (k := KDeployKey) key
      else
        match resolved with
        | None =>
            fail key "RepositoryNotReady"
              "referenced repository, connection, or credential is not available yet"
        | Some (b, conn, repo, cred) => ensureKey b conn repo cred key
        end
  end.
End Reconcile.

(** ** Lemmas *)

Section Lemmas.
Context {W : Type} `{Env W} `{ApiMachineryLaws}.
Context (backends : Registry W) (ns name : string).
#[local] Abbreviation L := (lifecycle KDeployKey backends ns name).
#[local] Abbreviation S := (settles KDeployKey ns name).
Implicit Types key : DeployKey.

Lemma aux_call {A} (op : W → A * W) (ev : A → Event) h key (Q : A → list Event → Prop) :
  got KDeployKey ns name h key → (∀ a, auxiliary key (ev a)) →
  (∀ a, updated KDeployKey (ev a) = None ∧ recorded KDeployKey (ev a) = None ∧
        ∀ c, ev a ≠ EvBackend c) →
  (∀ a, Q a (h ++ [ev a])) → hoare L h (call op ev) Q.
Proof.
  intros Hg Ha Hn HQ. apply hoare_call; [|done]. intros a. destruct (Hn a) as (Hu & Hr & Hb).
  by apply (lifecycle_auxiliary (k := KDeployKey) h key).
Qed.

Lemma ensurePublicKey_hoare h key : got KDeployKey ns name h key →
  hoare L h (ensurePublicKey key) (λ _ h', ∃ t, h' = h ++ t).
Proof.
  intros Hg. unfold ensurePublicKey. destruct (decide _) as [Hne|Hblank].
  { apply hoare_ret. exists []. by rewrite app_nil_r. }
  assert (Hb : TrimSpace (ds_PublicKey (dk_Spec key)) = "") by (by destruct (decide (TrimSpace (ds_PublicKey (dk_Spec key)) = ""))).
  cbv zeta. match goal with |- context [if decide _ then _ else ?g] => set (gen := g) end.
  assert (Hgen : ∀ t, hoare L (h ++ t) gen (λ _ h', ∃ t, h' = h ++ t)).
  { intros t. unfold gen. apply hoare_bind, (aux_call _ _ _ key); [by apply got_app|done|done|].
    intros [e|[priv pub]]; [apply hoare_ret; rewrite <- app_assoc; by eexists|].
    apply hoare_bind, (aux_call _ _ _ key); [by do 2 apply got_app| |done|].
    { intros a. split; [done|]. by do 3 eexists. }
    intros [err|s]; [|apply hoare_ret; rewrite <- !app_assoc; by eexists].
    destruct (IsAlreadyExists err); [|apply hoare_ret; rewrite <- !app_assoc; by eexists].
    apply hoare_bind, hoare_call; [intros a; by apply lifecycle_reads|].
    intros [e|s]; [|destruct (sc_Data s !! _)]; apply hoare_ret; rewrite <- !app_assoc; by eexists. }
  apply hoare_bind, hoare_call; [intros a; by apply lifecycle_reads|].
  intros [e|s].
  - destruct (IsNotFound e); [apply Hgen|]. apply hoare_ret. by eexists.
  - destruct (sc_Data s !! _) as [pub|]; [|apply Hgen].
    destruct (decide _); [|apply Hgen]. apply hoare_ret. by eexists.
Qed.

Lemma releaseKey_hoare h key : got KDeployKey ns name h key →
  deleting (k := KDeployKey) key = true → held (k := KDeployKey) key = true →
  (dt_KeyID (dk_Status key) = "" ∨ unresolved backends h ∨
     ∃ e, e ∈ h ∧ deploykey_cleaned key e) →
  hoare L h (releaseKey key) S.
Proof.
  intros Hg Hd Hh Hc. unfold releaseKey, deleteSecret. apply hoare_bind.
  destruct (dt_SecretRef (dk_Status key)) as [ref|] eqn:Href.
  2: { apply hoare_ret. apply release_hoare; [done..| |done]. intros ref. simpl. congruence. }
  apply hoare_bind, (aux_call _ _ _ key); [done| |done|].
  { intros a. exists (if decide (ls_Namespace ref = "") then DefaultCredentialsNamespace env_getenv
                else ls_Namespace ref), ref. done. }
  intros r. apply hoare_ret.
  assert (Hrel : (∀ err, r = Some err → IsNotFound err = true) → ∀ h', h' = h ++ [EvDelete KSecret
      (secret_named (if decide (ls_Namespace ref = "") then DefaultCredentialsNamespace env_getenv
                else ls_Namespace ref) (ls_Name ref)) r] → hoare L h' (release (k := KDeployKey) key) S).
  { intros Hr h' ->. apply release_hoare; [by apply got_app|done..| |].
    - intros ref' Href'. rewrite Href in Href'. injection Href' as <-. eexists _, r. split; [|split; [apply elem_snoc|done]].
      intros Hne. by destruct (decide (ls_Namespace ref = "")).
    - destruct Hc as [Hc|[Hc|(e & He & Hc)]]; [by left| |].
      + right. left. destruct Hc as [(k' & n1 & n2 & e & He)|[(e & He)|(n & conn & Hn & Hb)]].
        * left. exists k', n1, n2, e. by apply elem_before.
        * right. left. exists e. by apply elem_before.
        * right. right. exists n, conn. split; [by apply elem_before|done].
      + right. right. exists e. split; [by apply elem_before|done]. }
  destruct r as [err|]; [destruct (IsNotFound err) eqn:Hnf|].
  - apply Hrel; [by intros ? [= <-]|done].
  - apply hoare_bind. eapply hoare_reads; [apply reads_emits, error_text_reads|].
    intros text t _ _. apply fail_hoare. by do 2 apply got_app.
  - by apply Hrel.
Qed.

Lemma deploykey_deletion_hoare h key resolved : got KDeployKey ns name h key →
  deleting (k := KDeployKey) key = true → (resolved = None → unresolved backends h) →
  hoare L h (reconcileDeletion key resolved) S.
Proof.
  intros Hg Hd Hun. unfold reconcileDeletion.
  destruct (held (k := KDeployKey) key) eqn:Hh.
  2: { apply hoare_ret. left. split; [done|]. right. left. exists key. eauto. }
  destruct resolved as [[[[b conn] repo] cred]|].
  2: { apply releaseKey_hoare; [done..|]. right. left. by apply Hun. }
  destruct (decide _) as [Hid|Hid].
  2: { apply releaseKey_hoare; [done..|]. left.
       by destruct (decide (dt_KeyID (dk_Status key) = "")). }
  apply hoare_bind, hoare_call.
  { intros r. by apply (lifecycle_clean (k := KDeployKey) _ key). }
  intros [err|].
  - eapply (hostError_hoare _ _ _
      (CDeleteDeployKey conn cred repo (dt_KeyID (dk_Status key)) (Some err)));
      [by apply got_app|reflexivity|done].
  - apply releaseKey_hoare; [by apply got_app|done..|]. right. right.
    eexists. split; [apply elem_snoc|done].
Qed.

Lemma deploykey_hoare cl : hoare L [] (Reconcile backends cl ns name) S.
Proof.
  apply pass_hoare. intros h key Hg'.
  apply hoare_bind. eapply hoare_reads; [apply resolveAll_emits|]. intros resolved t _ Hun.
  pose proof (got_app h t key Hg') as Hg.
  destruct (deleting (k := KDeployKey) key) eqn:Hd.
  { apply deploykey_deletion_hoare; [done..|]. intros Hr. by apply unresolved_app, Hun. }
  destruct (held (k := KDeployKey) key) eqn:Hh; simpl.
  2: { by apply adopt_hoare. }
  destruct resolved as [[[[b conn] repo] cred]|]; [|by apply fail_hoare].
  apply hoare_bind. eapply hoare_mono; [by apply ensurePublicKey_hoare|].
  intros [err|[pub ref]] h' [t' ->].
  { apply hoare_bind. eapply hoare_reads; [apply reads_emits, error_text_reads|].
    intros text t2 _ _. apply fail_hoare. by do 2 apply got_app. }
  apply hoare_bind, hoare_call.
  { intros r. apply (lifecycle_ensure (k := KDeployKey) _ key); [by apply got_app|done..]. }
  intros [err|res].
  - eapply (hostError_hoare _ _ _ (CEnsureDeployKey conn cred repo key pub (inl err)));
      [by do 2 apply got_app|reflexivity|done].
  - apply hoare_bind. eapply hoare_reads; [apply SetCondition_spec|]. intros conds t2 _ [now ->].
    apply (record_hoare (k := KDeployKey) _ key); [by do 3 apply got_app|done..| |].
    + unfold ready. simpl. by rewrite set_true.
    + eexists. split; [apply elem_before, elem_snoc|done].
Qed.
End Lemmas.

(** A read that leaves [ensurePublicKey] without a stored public key. *)
Definition no_public (r : error + Secret) : Prop :=
  match r with
  | inl e => IsNotFound e = true
  | inr s => default "" (sc_Data s !! secretDataKeyPublic) = ""
  end.

(** Where the public key it returns comes from. *)
Definition public_source {W} `{Env W} (key : DeployKey) (pub : string)
    (ref : option LocalSecretReference) (t : list Event) : Prop :=
  let ns := DefaultCredentialsNamespace env_getenv in
  (TrimSpace (ds_PublicKey (dk_Spec key)) ≠ "" ∧ pub = TrimSpace (ds_PublicKey (dk_Spec key)) ∧
     ref = None ∧ t = []) ∨
  (TrimSpace (ds_PublicKey (dk_Spec key)) = "" ∧
     ref = Some {| ls_Name := secretName key; ls_Namespace := ns;
                   ls_Key := secretDataKeyPrivate |} ∧
     ∃ stored, pub = TrimSpace stored ∧
       ((∃ s, EvGet KSecret ns (secretName key) (inr s) ∈ t ∧
           sc_Data s !! secretDataKeyPublic = Some stored) ∨
        (∃ priv s, EvKeygen (inr (priv, stored)) ∈ t ∧
           EvCreate KSecret (key_secret key ns priv stored) (inr s) ∈ t))).

Lemma ensurePublicKey_emits {W} `{Env W} key :
  emits (ensurePublicKey key) (λ r t,
    (∀ g, EvKeygen g ∈ t → TrimSpace (ds_PublicKey (dk_Spec key)) = "" ∧
       ∃ r0, EvGet KSecret (DefaultCredentialsNamespace env_getenv) (secretName key) r0 ∈ t ∧
             no_public r0) ∧
    ∀ pub ref, r = inr (pub, ref) → public_source key pub ref t).
Proof.
  unfold ensurePublicKey. destruct (decide _) as [Hne|Hb].
  { apply emits_ret. split; [by intros g Hg%elem_of_nil|]. intros pub ref [= <- <-]. by left. }
  apply dec_stable in Hb. cbv zeta. apply emits_bind, emits_call. intros r0.
  match goal with |- context [if decide _ then _ else ?g] => set (gen := g) end.
  assert (Hgen : no_public r0 → emits gen (λ r t,
    (∀ g, EvKeygen g ∈ [EvGet KSecret (DefaultCredentialsNamespace env_getenv) (secretName key) r0] ++ t →
       TrimSpace (ds_PublicKey (dk_Spec key)) = "" ∧
       ∃ r0', EvGet KSecret (DefaultCredentialsNamespace env_getenv) (secretName key) r0' ∈
         [EvGet KSecret (DefaultCredentialsNamespace env_getenv) (secretName key) r0] ++ t ∧
             no_public r0') ∧
    ∀ pub ref, r = inr (pub, ref) → public_source key pub ref
      ([EvGet KSecret (DefaultCredentialsNamespace env_getenv) (secretName key) r0] ++ t))).
  { intros Hno. unfold gen. env_run; (split; [intros ? _; split; [done|]; exists r0; split; [by left|done]|]);
      intros pub ref [= <- <-]; right; (split; [done|]); (split; [done|]); eexists; (split; [reflexivity|]).
    - left. subst. eexists. split; [do 3 right; by left|done].
    - right. subst. do 2 eexists. split; [right; by left|do 2 right; by left]. }
  assert (Hrd : ∀ g, EvKeygen g ∉ [EvGet KSecret (DefaultCredentialsNamespace env_getenv) (secretName key) r0]).
  { intros g Hg%list_elem_of_singleton. done. }
  destruct r0 as [e|s].
  - destruct (IsNotFound e) eqn:He; [by apply Hgen|]. apply emits_ret.
    split; [|done]. intros g Hg. by destruct (Hrd g).
  - destruct (sc_Data s !! secretDataKeyPublic) as [p|] eqn:Hp.
    2: { apply Hgen. simpl. by rewrite Hp. }
    destruct (decide _) as [Hne|He].
    2: { apply Hgen. simpl. rewrite Hp. simpl. by apply dec_stable in He. }
    apply emits_ret. split; [intros g Hg; by destruct (Hrd g)|]. intros pub ref [= <- <-]. right.
    split; [done|]. split; [done|]. exists p. split; [done|]. left. exists s. split; [by left|done].
Qed.

(** ** Properties *)


(** A new key pair is generated only when the spec supplies none and the
    pass found no stored public key, so keys are not rotated; and the public key
    returned for registration is the supplied one, the stored one, or one whose
    private half this pass has stored in the key's Secret. *)
Theorem ensurePublicKey_stable {W} `{Env W} (key : DeployKey) (w w' : W) r t
    (Hrun : ensurePublicKey key w = (r, w', t)) :
  (∀ g, EvKeygen g ∈ t → TrimSpace (ds_PublicKey (dk_Spec key)) = "" ∧
     ∃ r0, EvGet KSecret (DefaultCredentialsNamespace env_getenv) (secretName key) r0 ∈ t ∧
           no_public r0) ∧
  (∀ pub ref, r = inr (pub, ref) → public_source key pub ref t).
Proof. pose proof (ensurePublicKey_emits key w) as H0. by rewrite Hrun in H0. Qed.

Definition demo_key (deleted : bool) : DeployKey :=
  {| dk_Meta := {| om_Name := "ci"; om_Namespace := ""; om_UID := "k-1"; om_Generation := 1;
       om_Labels := ∅; om_Annotations := ∅; om_Finalizers := [FinalizerDeployKey];
       om_DeletionTimestamp := if deleted then Some 5%Z else None; om_OwnerReferences := [] |};
     dk_Spec := {| ds_RepositoryRef := "repo"; ds_Title := "ci"; ds_PublicKey := " ";
       ds_ReadOnly := true |};
     dk_Status := {| dt_ObservedGeneration := 0; dt_KeyID := "7";
       dt_SecretRef := Some {| ls_Name := "deploykey-ci"; ls_Namespace := "default";
         ls_Key := secretDataKeyPrivate |};
       dt_Conditions := [] |} |}.
Definition demo_get (deleted : bool) (k : Kind) (ns name : string) : error + obj k :=
  match k with
  | KDeployKey => inr (demo_key deleted)
  | KRepository => inr demo_repository
  | KConnection => inr demo_connection
  | KSecret => if decide (name = "secret") then inr demo_secret
               else inl (EStatus NotFound "not found")
  | _ => inl (EStatus NotFound "not found")
  end.
Definition demo_env (deleted : bool) : Env unit :=
  fixed_env 100 (demo_get deleted) (λ _, inr []) (inl EBundleNotFound).


(** A first pass generates a key and stores it. *)
Lemma ensurePublicKey_stable_witness :
  let E := demo_env false in
  ∃ r t, ensurePublicKey (demo_key false) tt = (r, tt, t) ∧ length t = 3%nat ∧
    ∀ pub ref, r = inr (pub, ref) → public_source (demo_key false) pub ref t.
Proof.
  intros E. eexists _, _. split; [vm_compute; reflexivity|]. split; [reflexivity|].
  apply (ensurePublicKey_stable (demo_key false) tt tt). vm_compute. reflexivity.
Defined.
