(* ===== verification/ConnectionController.v ===== *)
(** * controller/connection: validating a credential against the host

    The whole [Reconcile] over the calls of [Env].  Nothing is created on the
    host; [fail] records the bad state and swallows the error. *)

From S2P Require Import Prelude GoStrings GoTime Errors Api Backend Tenant Env Shared Lifecycle.
From Stdlib Require Import Ascii Lia.

#[local] Open Scope string_scope.
#[local] Open Scope list_scope.

Definition ct_set (conn : Connection) (login : string) (scopes : list string) (l : list Condition)
    : Connection :=
  cn_set_Status conn
    {| ct_ObservedGeneration := om_Generation (cn_Meta conn); ct_Login := login;
       ct_Scopes := scopes; ct_Conditions := l |}.

#[export] Program Instance connection_resource : Resource KConnection := {
  r_finalizer := FinalizerConnection;
  r_set_meta := cn_set_Meta;
  r_conditions := λ c, ct_Conditions (cn_Status c);
  r_observe := λ c l, ct_set c (ct_Login (cn_Status c)) (ct_Scopes (cn_Status c)) l;
  r_same := λ c c', cn_Meta c = cn_Meta c' ∧ cn_Spec c = cn_Spec c' }.
Solve All Obligations with done.

Definition connection_call (conn : Connection) (e : Event) : Prop :=
  match e with EvBackend (CValidate c _ _) => c = conn | _ => False end.
(** What Ready=True says: the credential resolved in this pass authenticated. *)
Definition connection_ensured `{ApiMachinery} (conn conn' : Connection) (e : Event) : Prop :=
  match e with
  | EvBackend (CValidate c _ (inr (login, scopes))) =>
      c = conn ∧ ct_Login (cn_Status conn') = login ∧ ct_Scopes (cn_Status conn') = scopes ∧
      IsStatusConditionTrue (ct_Conditions (cn_Status conn')) ConditionValidated = true
  | _ => False
  end.

#[export] Program Instance connection_hosted `{ApiMachinery} : Hosted KConnection := {
  ensure_call := connection_call;
  clean_call := λ _ _, False;
  ensured := connection_ensured;
  cleaned := λ _ _, False;
  nothing_to_clean := λ _, True;
  auxiliary := λ _ _, False;
  local_gone := λ _ _, True }.
Next Obligation. intros ? o e [H|H]; destruct e; try done; by eexists. Qed.
Next Obligation. done. Qed.

Section Controller.
Context {W : Type} `{Env W} `{ApiMachinery}.

(** The two conditions [fail] and success set together. *)
Definition set_both (conn : Connection) (status reason validated ready : string)
    : Eff W (list Condition) :=
  let gen := om_Generation (cn_Meta conn) in
  l ← SetCondition (ct_Conditions (cn_Status conn)) ConditionValidated status reason validated gen;
  SetCondition l ConditionReady status reason ready gen.

Definition fail (conn : Connection) (reason msg : string) (requeueAfter : Duration)
    : Eff W (error + Result) :=
  conds ← set_both conn ConditionFalse reason msg msg;
  u ← k_status KConnection
        (ct_set conn (ct_Login (cn_Status conn)) (ct_Scopes (cn_Status conn)) conds);
  mret (match u with inl e => inl e | inr _ => inr (RequeueIn requeueAfter) end).

Definition Reconcile (backends : Registry W) (clusterName ns name : string)
    : Eff W (error + Result) :=
  _ ←? ClusterClient clusterName;
  r ← k_get KConnection ns name;
  match r with
  | inl e => if IsNotFound e then mret (inr NoRequeue) else mret (inl e)
  | inr conn =>
      if deleting (k := KConnection) conn then
        if held (k := KConnection) conn then release (k := KConnection) conn
        else mret (inr NoRequeue)
      else if negb (held (k := KConnection) conn) then adopt (k := KConnection) conn
      else
        match Registry_Get backends (cs_Provider (cn_Spec conn)) with
        | None =>
            fail conn "ProviderNotFound"
              ("no backend registered for provider " +:+ Quote (cs_Provider (cn_Spec conn))) 0
        | Some b =>
            r ← ResolveCredential conn;
            match r with
            | inl err =>
                text ← error_text err;
                fail conn "CredentialUnavailable" text (30 * Second)
            | inr cred =>
                v ← validate_connection b conn cred;
                match v with
                | inl err =>
                    now ← Now;
                    match RateLimitWait err now with
                    | Some (wait, msg) => fail conn ReasonRateLimited msg wait
                    | None => text ← error_text err; fail conn "ValidationFailed" text 0
                    end
                | inr (login, scopes) =>
                    conds ← set_both conn ConditionTrue ReasonReady
                              ("credential authenticated as " +:+ login) "";
                    u ← k_status KConnection (ct_set conn login scopes conds);
                    mret (match u with inl e => inl e | inr _ => inr NoRequeue end)
                end
            end
        end
  end.
End Controller.

(** ** Outcomes *)

Definition reason_of `{ApiMachinery} (conn : Connection) (ty : string) : option string :=
  c_Reason <$> FindStatusCondition (ct_Conditions (cn_Status conn)) ty.

(** A pass that reports no error left nothing to do, or recorded why not. *)
Definition connection_settles {W} `{ApiMachinery} (backends : Registry W) (ns name : string)
    (r : error + Result) (t : list Event) : Prop :=
  settles KConnection ns name r t ∨
  ∃ res conn s reason, r = inr res ∧ EvStatus KConnection conn (inr s) ∈ t ∧
    IsStatusConditionTrue (ct_Conditions (cn_Status conn)) ConditionReady = false ∧
    IsStatusConditionTrue (ct_Conditions (cn_Status conn)) ConditionValidated = false ∧
    reason_of conn ConditionReady = Some reason ∧ reason_of conn ConditionValidated = Some reason ∧
    ((reason = "ProviderNotFound" ∧ res = RequeueIn 0 ∧
        Registry_Get backends (cs_Provider (cn_Spec conn)) = None) ∨
     (reason = "CredentialUnavailable" ∧ res = RequeueIn (30 * Second)) ∨
     (∃ c cred err, EvBackend (CValidate c cred (inl err)) ∈ t ∧
        match AsRateLimit err with
        | Some _ => reason = ReasonRateLimited ∧ (Second ≤ RequeueAfter res)%Z
        | None => reason = "ValidationFailed" ∧ res = RequeueIn 0
        end)).

(** ** Lemmas *)

Section Lemmas.
Context {W : Type} `{Env W} `{ApiMachineryLaws}.
Context (backends : Registry W) (ns name : string).
#[local] Abbreviation L := (lifecycle KConnection backends ns name).
#[local] Abbreviation S := (connection_settles backends ns name).

Lemma set_both_emits conn st reason v rd :
  emits (set_both conn st reason v rd) (λ l t, Forall reads t ∧
    ∀ ty, ty = ConditionReady ∨ ty = ConditionValidated →
      IsStatusConditionTrue l ty = bool_decide (st = ConditionTrue) ∧
      c_Reason <$> FindStatusCondition l ty = Some reason).
Proof.
  unfold set_both, SetCondition. env_run. split; [by repeat constructor|].
  assert (∀ now l r m g z ty, IsStatusConditionTrue (SetStatusCondition now l
     {| c_Type := ty; c_Status := st; c_ObservedGeneration := g; c_LastTransitionTime := z;
        c_Reason := r; c_Message := m |}) ty = bool_decide (st = ConditionTrue) ∧
     c_Reason <$> FindStatusCondition (SetStatusCondition now l
     {| c_Type := ty; c_Status := st; c_ObservedGeneration := g; c_LastTransitionTime := z;
        c_Reason := r; c_Message := m |}) ty = Some r) as Hset.
  { intros now l r m g z ty. split; [apply set_true|].
    match goal with |- context [SetStatusCondition _ _ ?c] =>
      destruct (find_set now l c) as [t Ht] end. simpl in Ht. by rewrite Ht. }
  intros ty [->| ->]; [apply Hset|].
  unfold IsStatusConditionTrue. rewrite find_set_other by done. apply Hset.
Qed.

Lemma connection_fail_hoare h conn reason msg d : got KConnection ns name h conn →
  (∀ h', ((reason = "ProviderNotFound" ∧ d = 0%Z ∧
        Registry_Get backends (cs_Provider (cn_Spec conn)) = None) ∨
     (reason = "CredentialUnavailable" ∧ d = (30 * Second)%Z) ∨
     (∃ c cred err, EvBackend (CValidate c cred (inl err)) ∈ h ++ h' ∧
        match AsRateLimit err with
        | Some _ => reason = ReasonRateLimited ∧ (Second ≤ d)%Z
        | None => reason = "ValidationFailed" ∧ d = 0%Z
        end))) →
  hoare L h (fail conn reason msg d) S.
Proof.
  intros Hg Hd. apply hoare_bind. eapply hoare_reads; [apply set_both_emits|].
  intros l t _ Hl. destruct (Hl ConditionReady) as [Hr1 Hr2]; [by left|].
  destruct (Hl ConditionValidated) as [Hv1 Hv2]; [by right|].
  apply hoare_bind, hoare_call.
  - intros r. apply (lifecycle_status (k := KConnection) _ conn); [by apply got_app|done|].
    unfold ready. simpl. by rewrite Hr1.
  - intros [e|s]; apply hoare_ret; [by left|]. right.
    exists (RequeueIn d), (ct_set conn (ct_Login (cn_Status conn)) (ct_Scopes (cn_Status conn)) l), s, reason.
    split; [done|]. split; [apply elem_snoc|]. split_and!; [done..|].
    rewrite <- app_assoc. destruct (Hd (t ++ [EvStatus KConnection (ct_set conn (ct_Login (cn_Status conn)) (ct_Scopes (cn_Status conn)) l) (inr s)])) as [(-> & -> & ?)|[(-> & ->)|(c & cred & err & Hc & Hm)]].
    + by left.
    + right. by left.
    + right. right. exists c, cred, err. split; [done|]. destruct (AsRateLimit err); [done|].
      by destruct Hm as [-> ->].
Qed.

Lemma connection_hoare cl : hoare L [] (Reconcile backends cl ns name) S.
Proof.
  apply hoare_bind_res. eapply hoare_reads; [apply reads_emits, ClusterClient_reads|].
  intros [e|[]] t _ _; [by left|]. apply hoare_bind, hoare_call.
  { intros r. by apply lifecycle_reads. }
  intros [e|conn].
  { destruct (IsNotFound e) eqn:He; apply hoare_ret; left; [|done]. left. split; [done|]. left.
    exists e. split; [apply elem_snoc|done]. }
  set (h := _ ++ [EvGet KConnection ns name (inr conn)]).
  assert (Hg : got KConnection ns name h conn) by apply elem_snoc.
  destruct (deleting (k := KConnection) conn) eqn:Hd; destruct (held (k := KConnection) conn) eqn:Hh; simpl.
  { eapply hoare_mono; [apply release_hoare; [done..|by left]|]. by left. }
  { apply hoare_ret. left. left. split; [done|]. right. left. exists conn. eauto. }
  2: { eapply hoare_mono; [by apply adopt_hoare|]. by left. }
  destruct (Registry_Get backends _) as [b|] eqn:Hb.
  2: { apply connection_fail_hoare; [done|]. intros h'. by left. }
  apply hoare_bind. eapply hoare_reads; [apply reads_emits, ResolveCredential_reads|].
  intros [err|cred] t2 _ _.
  { apply hoare_bind. eapply hoare_reads; [apply reads_emits, error_text_reads|].
    intros text t3 _ _. apply connection_fail_hoare; [by do 2 apply got_app|]. intros h'. right. by left. }
  apply hoare_bind, hoare_call.
  { intros r. apply (lifecycle_ensure (k := KConnection) _ conn); [by apply got_app|done..]. }
  intros [err|[login scopes]].
  - apply hoare_bind, hoare_call; [by intros ?; apply lifecycle_reads|]. intros now.
    pose proof (elem_snoc (EvBackend (CValidate conn cred (inl err))) (h ++ t2)) as Hc.
    unfold RateLimitWait. destruct (AsRateLimit err) as [retryAt|] eqn:Hl.
    + apply connection_fail_hoare; [by do 3 apply got_app|]. intros h'. right. right. exists conn, cred, err.
      split; [by do 2 apply elem_before|]. rewrite Hl. split; [done|lia].
    + apply hoare_bind. eapply hoare_reads; [apply reads_emits, error_text_reads|].
      intros text t3 _ _. apply connection_fail_hoare; [by do 4 apply got_app|]. intros h'. right. right.
      exists conn, cred, err. split; [by do 3 apply elem_before|]. by rewrite Hl.
  - apply hoare_bind. eapply hoare_reads; [apply set_both_emits|]. intros l t3 _ Hl2.
    destruct (Hl2 ConditionReady) as [Hr _]; [by left|].
    destruct (Hl2 ConditionValidated) as [Hv _]; [by right|].
    eapply hoare_mono; [apply (record_hoare (k := KConnection) _ conn); [by do 3 apply got_app|done..| |]|by left].
    + exact Hr.
    + eexists. split; [apply elem_before, elem_snoc|done].
Qed.
End Lemmas.

(** ** Property *)

(** A pass over a Connection never calls the host without the object
    holding its finalizer, records Ready=True and Validated=True only with the
    login and scopes the host returned in that pass for the resolved credential,
    and when it reports no error it is finished, or has recorded both conditions
    False with the cause: an unknown provider or a refused credential waits for a
    change, a missing credential is looked up again in 30 seconds, and a
    rate-limited host is never reported as a refusal and is asked again no sooner
    than a second later. *)
Theorem Connection_outcomes {W} `{Env W} `{ApiMachineryLaws} (backends : Registry W) cl ns name
    (w w' : W) r t (Hrun : Reconcile backends cl ns name w = (r, w', t)) :
  (∀ before e after, t = before ++ e :: after →
     lifecycle KConnection backends ns name before e) ∧
  connection_settles backends ns name r t.
Proof. eapply hoare_run; [apply connection_hoare|exact Hrun]. Qed.

Definition demo_get (k : Kind) (ns name : string) : error + obj k :=
  match k with
  | KConnection =>
      inr (cn_set_Meta demo_connection (om_set_Finalizers (named "conn" "c-1") [FinalizerConnection]))
  | _ => inl (EStatus NotFound "not found")
  end.

(** The Secret is not there yet. *)
Lemma Connection_outcomes_witness :
  let E := fixed_env 100 demo_get (λ _, inr []) (inl EBundleNotFound) in
  let backends : Registry unit := {[ ProviderGitHub := New ]} in
  ∃ t : list Event,
    Reconcile backends "ws" "" "conn" tt = (inr (RequeueIn (30 * Second)), tt, t) ∧
    connection_settles backends "" "conn" (inr (RequeueIn (30 * Second))) t.
Proof.
  intros E backends. eexists. split; [vm_compute; reflexivity|].
  apply (Connection_outcomes backends "ws" "" "conn" tt tt). vm_compute. reflexivity.
Defined.
