(* ===== verification/OneShot.v ===== *)
(** * Requests that run once

    RepositoryCheckout and RepositoryBuildStatus objects are requests: a pass
    works, then records a terminal phase.  Their controllers update the status
    through the same helper, which re-reads the object and skips a write that
    would change nothing; it is defined here over the kind's status field. *)

From S2P Require Import Prelude GoStrings GoTime Errors Api Backend Tenant Env Shared Lifecycle.
From Stdlib Require Import Ascii Lia.

#[local] Open Scope string_scope.
#[local] Open Scope list_scope.

Class Request (k : Kind) := {
  q_status : Type;
  q_status_eq : EqDecision q_status;
  q_get : obj k → q_status;
  q_set : obj k → q_status → obj k;
  q_conditions : q_status → list Condition;
  q_set_conditions : q_status → list Condition → q_status;
  q_label : string;                            (* the kind in error messages *)
  q_get_set o s : q_get (q_set o s) = s;
  q_meta_set o s : meta k (q_set o s) = meta k o;
  q_conditions_set s l : q_conditions (q_set_conditions s l) = l }.
#[export] Existing Instance q_status_eq.

Section Operations.
Context {W : Type} `{Env W} `{ApiMachinery} {k : Kind} `{Request k}.
Implicit Types o : obj k.

Definition updateStatusIfChanged o : Eff W (option error) :=
  r ← k_get k "" (om_Name (meta k o));
  match r with
  | inl e => mret (Some e)
  | inr current =>
      if decide (q_get current = q_get o) then mret None
      else
        u ← k_status k (q_set current (q_get o));
        match u with
        | inl e => mret (Some (Wrap ("update " +:+ q_label +:+ " " +:+
                                     Quote (om_Name (meta k o)) +:+ " status: ") e))
        | inr _ => mret None
        end
  end.

(** [SetCondition] of Ready on a status, as the object to write. *)
Definition with_ready o (s : q_status) (status reason message : string) : Eff W (obj k) :=
  conds ← SetCondition (q_conditions s) ConditionReady status reason message
            (om_Generation (meta k o));
  mret (q_set o (q_set_conditions s conds)).

(** [fail], given the status it sets. *)
Definition fail_with o (failed : Time → q_status) (message : string) : Eff W (option error) :=
  now ← Now;
  next ← with_ready o (failed now) ConditionFalse ReasonError message;
  r ← updateStatusIfChanged next;
  match r with
  | Some e => mret (Some (Wrap ("update " +:+ q_label +:+ " " +:+
                                Quote (om_Name (meta k o)) +:+ " failure status: ") e))
  | None => mret None
  end.
End Operations.

(** ** Lemmas *)

(** The status [s] is on the server: it was written, or found there. *)
Definition on_server (k : Kind) `{Request k} (s : q_status) (t : list Event) : Prop :=
  (∃ o o', q_get o = s ∧ EvStatus k o (inr o') ∈ t) ∨
  (∃ n o, q_get o = s ∧ EvGet k "" n (inr o) ∈ t).

Lemma on_server_after k `{Request k} s h t : on_server k s t → on_server k s (h ++ t).
Proof.
  intros [(o1 & o2 & ? & ?)|(n & o & ? & ?)]; [left; exists o1, o2|right; exists n, o];
    (split; [done|by apply elem_after]).
Qed.

(** Lookups and status writes. *)
Definition quiet (e : Event) : Prop :=
  match e with EvStatus _ _ _ => True | _ => reads e end.
Lemma reads_quiet t : Forall reads t → Forall quiet t.
Proof. intros Ht. eapply Forall_impl; [exact Ht|]. by intros []. Qed.

Section Lemmas.
Context {W : Type} `{Env W} `{ApiMachinery} {k : Kind} `{Request k}.
Context (P : list Event → Event → Prop) (Preads : ∀ h e, reads e → P h e).
Implicit Types o : obj k.

Lemma reads_hoare {A} (m : M W Event A) h (R : A → list Event → Prop) Q :
  emits m (λ a t, Forall reads t ∧ R a t) →
  (∀ a t, Forall reads t → R a t → Q a (h ++ t)) → hoare P h m Q.
Proof. intros Hm. apply (hoare_all P reads); [exact Hm|done]. Qed.

Lemma update_hoare h o (Q : option error → list Event → Prop) :
  (∀ h' cur r, P (h ++ h') (EvStatus k (q_set cur (q_get o)) r)) →
  (∀ r t, Forall quiet t → (r = None → on_server k (q_get o) t) → Q r (h ++ t)) →
  hoare P h (updateStatusIfChanged o) Q.
Proof.
  intros Hw HQ. apply hoare_bind, hoare_call; [by intros r; apply Preads|].
  intros [e|cur]; [apply hoare_ret, HQ; [by repeat constructor|done]|].
  destruct (decide _) as [Heq|].
  { apply hoare_ret, HQ; [by repeat constructor|]. intros _. right. eexists _, cur.
    split; [done|by left]. }
  apply hoare_bind, hoare_call; [by intros r; apply Hw|].
  intros [e|s]; apply hoare_ret; rewrite <- app_assoc; (apply HQ; [by repeat constructor|]).
  - done.
  - intros _. left. exists (q_set cur (q_get o)), s. split; [apply q_get_set|right; by left].
Qed.

Lemma with_ready_hoare h o s st reason msg (Q : obj k → list Event → Prop) :
  (∀ conds t, Forall quiet t → Q (q_set o (q_set_conditions s conds)) (h ++ t)) →
  hoare P h (with_ready o s st reason msg) Q.
Proof.
  intros HQ. apply hoare_bind. eapply reads_hoare; [apply reads_emits, SetCondition_reads|].
  intros conds t Ht _. apply hoare_ret, HQ. by apply reads_quiet.
Qed.

Lemma fail_with_hoare h o failed msg (Q : option error → list Event → Prop) :
  (∀ h' cur now conds r,
     P (h ++ h') (EvStatus k (q_set cur (q_set_conditions (failed now) conds)) r)) →
  (∀ r t now conds, Forall quiet t →
     (r = None → on_server k (q_set_conditions (failed now) conds) t) → Q r (h ++ t)) →
  hoare P h (fail_with o failed msg) Q.
Proof.
  intros Hw HQ. apply hoare_bind, hoare_call; [by intros r; apply Preads|]. intros now.
  apply hoare_bind, with_ready_hoare. intros conds t Ht.
  apply hoare_bind, update_hoare.
  { intros h' cur r. rewrite q_get_set, <- !app_assoc. apply Hw. }
  intros r t2 Ht2 Hon. rewrite <- !app_assoc.
  destruct r as [e|]; apply hoare_ret; apply (HQ _ _ now conds).
  - apply Forall_app. split; [by repeat constructor|]. by apply Forall_app.
  - done.
  - apply Forall_app. split; [by repeat constructor|]. by apply Forall_app.
  - intros _. specialize (Hon eq_refl). rewrite q_get_set in Hon.
    by do 2 apply on_server_after.
Qed.
End Lemmas.
