(* ===== verification/CheckoutController.v ===== *)
(** * controller/repositorycheckout: reading a tree into a bundle

    The whole [Reconcile] over the calls of [Env]. *)

From S2P Require Import Prelude GoStrings GoTime Errors CommitBundle Api Backend Tenant Env Shared.
From S2P Require Import Lifecycle OneShot.
From Stdlib Require Import Ascii Lia.

#[local] Open Scope string_scope.
#[local] Open Scope list_scope.

Definition checkoutMaxFiles : Z := 500.
Definition checkoutMaxFileBytes : Z := Z.shiftl 256 10.
Definition checkoutMaxTotalBytes : Z := Z.shiftl 16 20.
Definition checkoutMaxBinaryFileBytes : Z := MaxBinaryFileBytes.
Definition checkoutMaxTotalBytesWithBinary : Z := MaxTotalBytes.

(** The host request; binary files only when annotated. *)
Definition checkoutInput (checkout : RepositoryCheckout) : error + RepositoryCheckoutInput :=
  match om_Annotations (rh_Meta checkout) !! AnnotationCheckoutBinaryEncoding with
  | None =>
      inr {| hi_Ref := hs_Ref (rh_Spec checkout); hi_MaxFiles := checkoutMaxFiles;
             hi_MaxFileBytes := checkoutMaxFileBytes; hi_IncludeBinary := false;
             hi_MaxBinaryFileBytes := 0; hi_MaxTotalBytes := checkoutMaxTotalBytes |}
  | Some encoding =>
      if decide (encoding = Backend.EncodingBase64) then
        inr {| hi_Ref := hs_Ref (rh_Spec checkout); hi_MaxFiles := checkoutMaxFiles;
               hi_MaxFileBytes := checkoutMaxFileBytes; hi_IncludeBinary := true;
               hi_MaxBinaryFileBytes := checkoutMaxBinaryFileBytes;
               hi_MaxTotalBytes := checkoutMaxTotalBytesWithBinary |}
      else inl (ENew ("unsupported " +:+ AnnotationCheckoutBinaryEncoding +:+ " " +:+
                      Quote encoding +:+ ": only " +:+ Quote Backend.EncodingBase64 +:+
                      " is supported"))
  end.

Definition isTerminal (phase : RepositoryCheckoutPhase) : bool :=
  bool_decide (phase = RepositoryCheckoutPhaseSucceeded) ||
  bool_decide (phase = RepositoryCheckoutPhaseFailed).

Definition ht_set_conditions (s : RepositoryCheckoutStatus) (l : list Condition)
    : RepositoryCheckoutStatus :=
  {| ht_ObservedGeneration := ht_ObservedGeneration s; ht_Phase := ht_Phase s;
     ht_StartedAt := ht_StartedAt s; ht_CompletedAt := ht_CompletedAt s; ht_Ref := ht_Ref s;
     ht_CommitSHA := ht_CommitSHA s; ht_Source := ht_Source s; ht_BundleRef := ht_BundleRef s;
     ht_Skipped := ht_Skipped s; ht_Conditions := l |}.

#[export] Program Instance checkout_request : Request KCheckout := {
  q_get := rh_Status; q_set := rh_set_Status; q_conditions := ht_Conditions;
  q_set_conditions := ht_set_conditions; q_label := "repositorycheckout" }.
Solve All Obligations with done.

Definition ht_set_running (s : RepositoryCheckoutStatus) (gen : Z) (now : Time)
    : RepositoryCheckoutStatus :=
  {| ht_ObservedGeneration := gen; ht_Phase := RepositoryCheckoutPhaseRunning;
     ht_StartedAt := match ht_StartedAt s with Some t => Some t | None => Some now end;
     ht_CompletedAt := ht_CompletedAt s; ht_Ref := ht_Ref s; ht_CommitSHA := ht_CommitSHA s;
     ht_Source := ht_Source s; ht_BundleRef := ht_BundleRef s; ht_Skipped := ht_Skipped s;
     ht_Conditions := ht_Conditions s |}.
Definition ht_set_failed (s : RepositoryCheckoutStatus) (gen : Z) (now : Time)
    : RepositoryCheckoutStatus :=
  {| ht_ObservedGeneration := gen; ht_Phase := RepositoryCheckoutPhaseFailed;
     ht_StartedAt := match ht_StartedAt s with Some t => Some t | None => Some now end;
     ht_CompletedAt := Some now; ht_Ref := ht_Ref s; ht_CommitSHA := ht_CommitSHA s;
     ht_Source := ht_Source s; ht_BundleRef := ht_BundleRef s; ht_Skipped := ht_Skipped s;
     ht_Conditions := ht_Conditions s |}.
Definition ht_set_succeeded (s : RepositoryCheckoutStatus) (gen : Z) (now : Time)
    (res : RepositoryCheckoutResult) (bundle : BundleRef) : RepositoryCheckoutStatus :=
  {| ht_ObservedGeneration := gen; ht_Phase := RepositoryCheckoutPhaseSucceeded;
     ht_StartedAt := ht_StartedAt s; ht_CompletedAt := Some now; ht_Ref := hr_Ref res;
     ht_CommitSHA := hr_CommitSHA res;
     ht_Source := Some {| ss_Digest := ref_Digest bundle; ss_Size := ref_Size bundle;
                          ss_FileCount := Z.of_nat (length (ref_Files bundle)) |};
     ht_BundleRef := Some {| br_Name := ref_Name bundle; br_Digest := ref_Digest bundle |};
     ht_Skipped := hr_Skipped res; ht_Conditions := ht_Conditions s |}.

Definition bundle_file (f : RepositoryCommitFile) : File :=
  {| f_Path := cf_Path f; f_Content := cf_Content f; f_Encoding := cf_Encoding f;
     f_Delete := false |}.

Section Controller.
Context {W : Type} `{Env W} `{ApiMachinery}.

Definition fail (checkout : RepositoryCheckout) (message : string) : Eff W (error + Result) :=
  r ← fail_with (k := KCheckout) checkout
        (ht_set_failed (rh_Status checkout) (om_Generation (rh_Meta checkout))) message;
  match r with Some e => mret (inl e) | None => mret (inr NoRequeue) end.

(** From the host's answer on: the bundle, then the terminal status. *)
Definition storeCheckout (checkout : RepositoryCheckout) (bundleScope : string)
    (res : RepositoryCheckoutResult) : Eff W (error + Result) :=
  put ← bundle_put bundleScope (bundle_file <$> hr_Files res);
  match put with
  | inl err => text ← error_text err; fail checkout ("store checkout bundle: " +:+ text)
  | inr bundle =>
      completed ← Now;
      next ← with_ready (k := KCheckout) checkout
               (ht_set_succeeded (rh_Status checkout) (om_Generation (rh_Meta checkout))
                  completed res bundle)
               ConditionTrue ReasonReady "Checkout succeeded.";
      u ← updateStatusIfChanged (k := KCheckout) next;
      match u with
      | Some e =>
          _ ← bundle_delete bundleScope (ref_Name bundle) (ref_Digest bundle);
          mret (inl (Wrap ("update repositorycheckout " +:+
                           Quote (om_Name (rh_Meta checkout)) +:+ " status: ") e))
      | None => mret (inr NoRequeue)
      end
  end.

(** Resolving what the checkout needs, then asking the host. *)
Definition runCheckout (backends : Registry W) (checkout : RepositoryCheckout)
    (bundleScope : string) : Eff W (error + Result) :=
  let failWith e := text ← error_text e; fail checkout text in
  repo ← ResolveRepository (hs_RepositoryRef (rh_Spec checkout));
  match repo with
  | inl e => failWith e
  | inr repo =>
    conn ← ResolveConnection (rs_ConnectionRef (rp_Spec repo));
    match conn with
    | inl e => failWith e
    | inr conn =>
      match Registry_Get backends (cs_Provider (cn_Spec conn)) with
      | None => fail checkout ("git provider " +:+ Quote (cs_Provider (cn_Spec conn))
                               +:+ " is not registered")
      | Some b =>
        match gb_CheckoutFiles b with
        | None => fail checkout ("git provider " +:+ Quote (cs_Provider (cn_Spec conn))
                                 +:+ " does not support reading files")
        | Some reader =>
          cred ← ResolveCredential conn;
          match cred with
          | inl e => failWith e
          | inr cred =>
            match checkoutInput checkout with
            | inl e => failWith e
            | inr input =>
              res ← call (reader conn cred repo input)
                      (λ r, EvBackend (CCheckoutFiles conn cred repo input r));
              match res with
              | inl e => failWith e
              | inr res => storeCheckout checkout bundleScope res
              end
            end
          end
        end
      end
    end
  end.

Definition Reconcile (backends : option (Registry W)) (hasBundles : bool)
    (clusterName ns name : string) : Eff W (error + Result) :=
  _ ←? ClusterClient clusterName;
  got ← k_get KCheckout ns name;
  match got with
  | inl e => if IsNotFound e then mret (inr NoRequeue) else mret (inl e)
  | inr checkout =>
      if deleting (k := KCheckout) checkout || isTerminal (ht_Phase (rh_Status checkout))
      then mret (inr NoRequeue)
      else if negb hasBundles then fail checkout "bundle store is unavailable"
      else match backends with
      | None => fail checkout "git backends are unavailable"
      | Some backends =>
          now ← Now;
          checkout ← with_ready (k := KCheckout) checkout
                       (ht_set_running (rh_Status checkout) (om_Generation (rh_Meta checkout)) now)
                       ConditionFalse ReasonReconciling "Checkout is running.";
          r ← updateStatusIfChanged (k := KCheckout) checkout;
          match r with
          | Some e => mret (inl e)
          | None => runCheckout backends checkout clusterName
          end
      end
  end.
End Controller.

(** ** What a pass promises *)

Section Contract.
Context (cl ns name : string).

Definition read_checkout (t : list Event) (c : RepositoryCheckout) : Prop :=
  EvGet KCheckout ns name (inr c) ∈ t.
Definition host_result (t : list Event) (res : RepositoryCheckoutResult) : Prop :=
  ∃ conn cred repo input, EvBackend (CCheckoutFiles conn cred repo input (inr res)) ∈ t.
Definition stored (t : list Event) (res : RepositoryCheckoutResult) (b : BundleRef) : Prop :=
  EvBundlePut cl (bundle_file <$> hr_Files res) (inr b) ∈ t.

(** The status describes this host answer and this bundle. *)
Definition describes (s : RepositoryCheckoutStatus) (res : RepositoryCheckoutResult)
    (b : BundleRef) : Prop :=
  ht_Ref s = hr_Ref res ∧ ht_CommitSHA s = hr_CommitSHA res ∧ ht_Skipped s = hr_Skipped res ∧
  ht_BundleRef s = Some {| br_Name := ref_Name b; br_Digest := ref_Digest b |} ∧
  ht_Source s = Some {| ss_Digest := ref_Digest b; ss_Size := ref_Size b;
                        ss_FileCount := Z.of_nat (length (ref_Files b)) |}.

Definition checkout_guard (before : list Event) (e : Event) : Prop :=
  match e with
  | EvStatus KCheckout o _ =>
      ht_Phase (rh_Status o) = RepositoryCheckoutPhaseSucceeded →
      ∃ res b, host_result before res ∧ stored before res b ∧ describes (rh_Status o) res b
  | EvBackend (CCheckoutFiles _ _ _ input _) =>
      (∀ conn cred repo i r, EvBackend (CCheckoutFiles conn cred repo i r) ∉ before) ∧
      ∃ c, read_checkout before c ∧ deleting (k := KCheckout) c = false ∧
        isTerminal (ht_Phase (rh_Status c)) = false ∧ checkoutInput c = inr input
  | EvBundlePut scope files _ =>
      scope = cl ∧ ∃ res, host_result before res ∧ files = bundle_file <$> hr_Files res
  | EvBundleDelete scope n d _ =>
      scope = cl ∧ ∃ res b, stored before res b ∧ n = ref_Name b ∧ d = ref_Digest b
  | _ => reads e
  end.

(** A pass that reports no error found nothing to do or left a terminal status
    on the server; and no bundle it stored is unreachable. *)
Definition checkout_settles (r : error + Result) (t : list Event) : Prop :=
  (∀ res, r = inr res → res = NoRequeue ∧
     ((∃ e, EvGet KCheckout ns name (inl e) ∈ t ∧ IsNotFound e = true) ∨
      (∃ c, read_checkout t c ∧
         (deleting (k := KCheckout) c = true ∨ isTerminal (ht_Phase (rh_Status c)) = true)) ∨
      (∃ s, on_server KCheckout s t ∧ isTerminal (ht_Phase s) = true))) ∧
  (∀ scope files b, EvBundlePut scope files (inr b) ∈ t →
     (∃ s, on_server KCheckout s t ∧
        ht_BundleRef s = Some {| br_Name := ref_Name b; br_Digest := ref_Digest b |}) ∨
     (∃ d, EvBundleDelete scope (ref_Name b) (ref_Digest b) d ∈ t)).
End Contract.

(** ** Lemmas *)

(** No bundle stored yet, and the host not asked. *)
Definition unstored (e : Event) : Prop :=
  match e with EvBundlePut _ _ (inr _) => False | _ => True end.
Definition calm (e : Event) : Prop :=
  match e with EvBackend (CCheckoutFiles _ _ _ _ _) => False | _ => unstored e end.

Section Lemmas.
Context {W : Type} `{Env W} `{ApiMachinery} (cl ns name : string).
#[local] Abbreviation G := (checkout_guard cl ns name).
#[local] Abbreviation S := (checkout_settles ns name).
Implicit Types c : RepositoryCheckout.

Lemma guard_reads h e : reads e → G h e.
Proof. by destruct e. Qed.
Lemma quiet_calm t : Forall quiet t → Forall calm t.
Proof. intros Ht. eapply Forall_impl; [exact Ht|]. by intros []. Qed.
Lemma reads_calm t : Forall reads t → Forall calm t.
Proof. intros Ht. by apply quiet_calm, reads_quiet. Qed.
Lemma calm_unstored t : Forall calm t → Forall unstored t.
Proof.
  intros Ht. eapply Forall_impl; [exact Ht|].
  intros e. destruct e as [ | | | | | | | | | | | | |b]; try done.
Qed.
Lemma unstored_none t scope files b : Forall unstored t → EvBundlePut scope files (inr b) ∉ t.
Proof. intros Ht Hin. rewrite Forall_forall in Ht. by apply Ht in Hin. Qed.
Lemma settles_error e t : Forall unstored t → S (inl e) t.
Proof. intros Ht. split; [done|]. intros scope files b Hb. by apply unstored_none in Hb. Qed.

Lemma checkout_fail_hoare h c msg : Forall unstored h → hoare G h (fail c msg) S.
Proof.
  intros Hh. apply hoare_bind, (fail_with_hoare (k := KCheckout) G guard_reads); [done|].
  intros r t now conds Ht Hon.
  assert (Forall unstored (h ++ t)) as Hu
    by (apply Forall_app; split; [done|by apply calm_unstored, quiet_calm]).
  destruct r as [e|]; apply hoare_ret; [by apply settles_error|]. split.
  - intros res [= <-]. split; [done|]. right. right.
    eexists. split; [by apply on_server_after, Hon|done].
  - intros scope files b Hb. by apply unstored_none in Hb.
Qed.

Lemma checkout_error_hoare h c pre e : Forall unstored h →
  hoare G h (text ← error_text e; fail c (pre +:+ text)) S.
Proof.
  intros Hh. apply hoare_bind.
  eapply (reads_hoare G guard_reads); [apply reads_emits, error_text_reads|]. intros text t Ht _.
  apply checkout_fail_hoare, Forall_app. split; [done|by apply calm_unstored, reads_calm].
Qed.

Lemma storeCheckout_hoare h c res : Forall unstored h → host_result h res →
  hoare G h (storeCheckout c cl res) S.
Proof.
  intros Hh Hres. apply hoare_bind, hoare_call.
  { intros r. split; [done|]. by exists res. }
  intros [err|bundle].
  { apply checkout_error_hoare, Forall_app. split; [done|by repeat constructor]. }
  set (h1 := h ++ _).
  assert (Hst : stored cl h1 res bundle) by apply elem_snoc.
  assert (Hres1 : host_result h1 res).
  { destruct Hres as (? & ? & ? & ? & ?). do 4 eexists. by apply elem_before. }
  assert (Hone : ∀ t scope files b, Forall quiet t → EvBundlePut scope files (inr b) ∈ h1 ++ t →
      scope = cl ∧ b = bundle).
  { intros t scope files b Ht [[Hin|Hin]%elem_of_app|Hin]%elem_of_app.
    - by apply unstored_none in Hin.
    - apply list_elem_of_singleton in Hin. by injection Hin as -> -> ->.
    - destruct (unstored_none t scope files b); [by apply calm_unstored, quiet_calm|done]. }
  apply hoare_bind, hoare_call; [done|]. intros now.
  apply hoare_bind, (with_ready_hoare (k := KCheckout) G guard_reads). intros conds t Ht.
  apply hoare_bind, (update_hoare (k := KCheckout) G guard_reads).
  { intros h' cur r _. exists res, bundle. split_and!.
    - destruct Hres1 as (? & ? & ? & ? & ?). do 4 eexists. by do 3 apply elem_before.
    - unfold stored. by do 3 apply elem_before.
    - done. }
  intros r t2 Ht2 Hon. rewrite <- !app_assoc.
  assert (Hq : Forall quiet ([EvNow now] ++ t ++ t2)) by (repeat apply Forall_app_2; by try repeat constructor).
  destruct r as [e|].
  - apply hoare_bind, hoare_call.
    { intros r. split; [done|]. exists res, bundle. split; [by apply elem_before|done]. }
    intros d. apply hoare_ret. split; [done|]. intros scope files b Hb. right. exists d.
    apply elem_of_app in Hb as [Hb|Hb%list_elem_of_singleton]; [|done].
    destruct (Hone _ _ _ _ Hq Hb) as [-> ->]. apply elem_snoc.
  - apply hoare_ret. specialize (Hon eq_refl). split.
    + intros r [= <-]. split; [done|]. right. right. eexists.
      split; [by do 3 apply on_server_after|done].
    + intros scope files b Hb. destruct (Hone _ _ _ _ Hq Hb) as [-> ->]. left. eexists.
      split; [by do 3 apply on_server_after|done].
Qed.

Lemma runCheckout_hoare h (backends : Registry W) c :
  Forall calm h → read_checkout ns name h c → deleting (k := KCheckout) c = false →
  isTerminal (ht_Phase (rh_Status c)) = false →
  ∀ c', rh_Meta c' = rh_Meta c → rh_Spec c' = rh_Spec c →
  hoare G h (runCheckout backends c' cl) S.
Proof.
  intros Hh Hc Hd Ht c' Hm Hs. unfold runCheckout.
  assert (Hfail : ∀ h', Forall calm h' → ∀ e, hoare G h' (text ← error_text e; fail c' text) S)
    by (intros h' Hh' e; apply (checkout_error_hoare h' c' ""); by apply calm_unstored).
  assert (Hmsg : ∀ h', Forall calm h' → ∀ m, hoare G h' (fail c' m) S)
    by (intros h' Hh' m; by apply checkout_fail_hoare, calm_unstored).
  apply hoare_bind. eapply (reads_hoare G guard_reads); [apply reads_emits, ResolveRepository_reads|].
  intros r1 t1 Ht1%reads_calm _. pose proof (Forall_app_2 _ _ _ Hh Ht1) as H1.
  destruct r1 as [e|repo]; [by apply Hfail|].
  apply hoare_bind. eapply (reads_hoare G guard_reads); [apply reads_emits, ResolveConnection_reads|].
  intros r2 t2 Ht2%reads_calm _. pose proof (Forall_app_2 _ _ _ H1 Ht2) as H2.
  destruct r2 as [e|conn]; [by apply Hfail|].
  destruct (Registry_Get backends _) as [b|]; [|by apply Hmsg].
  destruct (gb_CheckoutFiles b) as [reader|]; [|by apply Hmsg].
  apply hoare_bind. eapply (reads_hoare G guard_reads); [apply reads_emits, ResolveCredential_reads|].
  intros r3 t3 Ht3%reads_calm _. pose proof (Forall_app_2 _ _ _ H2 Ht3) as H3.
  destruct r3 as [e|cred]; [by apply Hfail|].
  destruct (checkoutInput c') as [e|input] eqn:Hin; [by apply Hfail|].
  apply hoare_bind, hoare_call.
  - intros r. split.
    + intros conn' cred' repo' i r' Hx. rewrite Forall_forall in H3. by apply H3 in Hx.
    + exists c. split; [by do 3 apply elem_before|]. split_and!; [done..|].
      rewrite <- Hin. unfold checkoutInput. by rewrite Hm, Hs.
  - intros [e|res].
    + apply (checkout_error_hoare _ c' ""), Forall_app. split; [by apply calm_unstored|by repeat constructor].
    + apply storeCheckout_hoare.
      * apply Forall_app. split; [by apply calm_unstored|by repeat constructor].
      * do 4 eexists. apply elem_snoc.
Qed.

Lemma checkout_hoare (backends : option (Registry W)) hasBundles :
  hoare G [] (Reconcile backends hasBundles cl ns name) S.
Proof.
  apply hoare_bind_res. eapply (reads_hoare G guard_reads); [apply reads_emits, ClusterClient_reads|].
  intros [e|[]] t Ht%reads_calm _; [by apply settles_error, calm_unstored|].
  apply hoare_bind, hoare_call; [done|]. intros got. set (h := _ ++ [_]).
  assert (Hh : Forall calm h) by (apply Forall_app; split; [done|by repeat constructor]).
  assert (Hquiet : (∃ e, EvGet KCheckout ns name (inl e) ∈ h ∧ IsNotFound e = true) ∨
      (∃ c, read_checkout ns name h c ∧
         (deleting (k := KCheckout) c = true ∨ isTerminal (ht_Phase (rh_Status c)) = true)) →
      S (inr NoRequeue) h).
  { intros Hcase. split.
    - intros res [= <-]. split; [done|]. tauto.
    - intros scope files b Hb. apply unstored_none in Hb; [done|by apply calm_unstored]. }
  destruct got as [e|c].
  { destruct (IsNotFound e) eqn:He; apply hoare_ret; [|by apply settles_error, calm_unstored].
    apply Hquiet. left. exists e. split; [apply elem_snoc|done]. }
  destruct (deleting (k := KCheckout) c || isTerminal (ht_Phase (rh_Status c))) eqn:Hskip.
  { apply hoare_ret, Hquiet. right. exists c. split; [apply elem_snoc|by apply orb_true_iff]. }
  apply orb_false_iff in Hskip as [Hd Hterm].
  destruct (negb hasBundles); [by apply checkout_fail_hoare, calm_unstored|].
  destruct backends as [backends|]; [|by apply checkout_fail_hoare, calm_unstored].
  apply hoare_bind, hoare_call; [done|]. intros now.
  apply hoare_bind, (with_ready_hoare (k := KCheckout) G guard_reads). intros conds t1 Ht1%quiet_calm.
  apply hoare_bind, (update_hoare (k := KCheckout) G guard_reads); [done|]. intros r t2 Ht2%quiet_calm _.
  assert (H2 : Forall calm (((h ++ [EvNow now]) ++ t1) ++ t2))
    by (repeat apply Forall_app_2; by try repeat constructor).
  destruct r as [e|]; [apply hoare_ret; by apply settles_error, calm_unstored|].
  apply (runCheckout_hoare _ backends c); [done| |done..].
  do 3 apply elem_before. apply elem_snoc.
Qed.
End Lemmas.

(** ** Properties *)

(** A checkout pass asks the host at most once, with the bounds of the
    request it read; stores exactly the files of the answer, in its own cluster;
    records Succeeded only with the reference, commit and bundle of that answer;
    reports no error only when a terminal status is on the server (or there was
    nothing to do); and never loses a bundle it stored: the bundle is referenced
    by the status on the server or was deleted again. *)
Theorem Checkout_pass {W} `{Env W} `{ApiMachinery} (backends : option (Registry W)) hasBundles
    cl ns name (w w' : W) r t
    (Hrun : Reconcile backends hasBundles cl ns name w = (r, w', t)) :
  (∀ before e after, t = before ++ e :: after → checkout_guard cl ns name before e) ∧
  checkout_settles ns name r t.
Proof. eapply hoare_run; [apply checkout_hoare|exact Hrun]. Qed.

(** The bounds of a host request: always 500 files and 256 KiB per text
    file; binaries only when the base64 annotation is set, and then within the
    caps of the bundle store, so that the bundle can take what the bounds allow;
    any other annotation is refused. *)
Theorem checkoutInput_bounds (checkout : RepositoryCheckout) :
  match checkoutInput checkout with
  | inr input =>
      hi_Ref input = hs_Ref (rh_Spec checkout) ∧ hi_MaxFiles input ≤ MaxFiles ∧
      hi_MaxFileBytes input ≤ MaxFileBytes ∧ hi_MaxBinaryFileBytes input ≤ MaxBinaryFileBytes ∧
      hi_MaxTotalBytes input ≤ MaxTotalBytes ∧
      hi_MaxFiles input * hi_MaxFileBytes input > hi_MaxTotalBytes input ∧
      (hi_IncludeBinary input = true ↔
         om_Annotations (rh_Meta checkout) !! AnnotationCheckoutBinaryEncoding
         = Some CommitBundle.EncodingBase64)
  | inl _ => ∃ encoding,
      om_Annotations (rh_Meta checkout) !! AnnotationCheckoutBinaryEncoding = Some encoding ∧
      encoding ≠ CommitBundle.EncodingBase64
  end%Z.
Proof.
  unfold checkoutInput. destruct (_ !! _) as [encoding|]; [destruct (decide _) as [->|Hne]|].
  - by vm_compute.
  - by exists encoding.
  - by vm_compute.
Qed.

Definition demo_checkout : RepositoryCheckout :=
  {| rh_Meta := named "ck" "h-1"; rh_Spec := {| hs_RepositoryRef := "repo"; hs_Ref := "main" |};
     rh_Status := {| ht_ObservedGeneration := 0; ht_Phase := ""; ht_StartedAt := None;
       ht_CompletedAt := None; ht_Ref := ""; ht_CommitSHA := ""; ht_Source := None;
       ht_BundleRef := None; ht_Skipped := []; ht_Conditions := [] |} |}.
Definition demo_get (k : Kind) (ns name : string) : error + obj k :=
  match k with
  | KCheckout => inr demo_checkout
  | KRepository => inr demo_repository
  | KConnection => inr demo_connection
  | KSecret => inr demo_secret
  | _ => inl (EStatus NotFound "not found")
  end.
Definition demo_host : GitBackend unit :=
  {| gb_Name := gb_Name (New (W := unit)); gb_ValidateConnection := gb_ValidateConnection New;
     gb_EnsureRepository := gb_EnsureRepository New;
     gb_DeleteRepository := gb_DeleteRepository New;
     gb_EnsureDeployKey := gb_EnsureDeployKey New; gb_DeleteDeployKey := gb_DeleteDeployKey New;
     gb_EnsureCollaborator := gb_EnsureCollaborator New;
     gb_RemoveCollaborator := gb_RemoveCollaborator New;
     gb_CommitFiles := None;
     gb_CheckoutFiles := Some (λ _ _ _ _ w,
       (inr {| hr_Ref := "main"; hr_CommitSHA := "c0ffee"; hr_Files := []; hr_Skipped := [] |}, w));
     gb_ListPackages := None; gb_LatestWorkflowRun := None; gb_DispatchWorkflow := None |}.

(** The bundle store refuses the (empty) checkout: the request fails. *)
Lemma Checkout_pass_witness :
  let E := fixed_env 100 demo_get (λ _, inr []) (inl EBundleNotFound) in
  let backends : Registry unit := {[ ProviderGitHub := demo_host ]} in
  ∃ t : list Event,
    Reconcile (Some backends) true "ws" "" "ck" tt = (inr NoRequeue, tt, t) ∧
    checkout_settles "" "ck" (inr NoRequeue) t.
Proof.
  intros E backends. eexists. split; [vm_compute; reflexivity|].
  apply (Checkout_pass (Some backends) true "ws" "" "ck" tt tt). vm_compute. reflexivity.
Defined.
