(* ===== verification/StatusTypes.v ===== *)
(** * The types of the statuses that controllers write

    The API server refuses a status that its schema does not allow, and the
    pass that wrote it would fail for ever.  The markers of the status types
    are predicates on the records, the conditions included; a small type
    system for handlers, in which the answers of the outside have types and so
    must what is written, shows that the request controllers only write
    statuses of their type.  The message of a condition is where the code has
    no bound of its own: it is as long as the error it reports. *)

From S2P Require Import Prelude GoStrings Encoding GoTime Errors CommitBundle Api Backend Tenant Env Shared.
From S2P Require Import Lifecycle OneShot CommitController CheckoutController.
From Stdlib Require Import Ascii Lia.

#[local] Open Scope string_scope.
#[local] Open Scope list_scope.

(** ** types_repositorycommit.go, types_repositorycheckout.go: status markers *)

(** A phase that is not set is not sent. *)
Definition phase_typed (phase : string) : bool :=
  bool_decide (phase ∈ [""; RepositoryCommitPhasePending; RepositoryCommitPhaseRunning;
                        RepositoryCommitPhaseSucceeded; RepositoryCommitPhaseFailed]).
Definition source_typed (s : RepositoryCommitSourceStatus) : bool := len_in 0 96 (ss_Digest s).
Definition file_status_typed (f : RepositoryCommitFileStatus) : bool :=
  len_in 1 1024 (fs_Path f) && len_in 0 96 (fs_Digest f).
Definition bundle_reference_typed (r : RepositoryCommitBundleReference) : bool :=
  len_in 1 253 (br_Name r) && len_in 0 96 (br_Digest r).
Definition max_items {A} (n : Z) (l : list A) : bool := (Z.of_nat (length l) <=? n)%Z.

(** [c inner* l] where [c] is a [first] and [l], possibly [c] itself, a [last]. *)
Definition delimited (first inner last : ascii → bool) (s : string) : bool :=
  match bytes_of s, reverse (bytes_of s) with
  | c :: _, l :: _ => first c && last l && forallb inner (bytes_of s)
  | _, _ => false
  end.
Definition lower_alnum (c : ascii) : bool := in_range c 97 122 || in_range c 48 57.
Definition letter (c : ascii) : bool := in_range c 65 90 || in_range c 97 122.
Definition alnum (c : ascii) : bool := letter c || in_range c 48 57.
Definition also (chars : string) (p : ascii → bool) (c : ascii) : bool := p c || ContainsByte chars c.

(** The patterns of a condition's type, [label(.label)*/] before a name, and
    of its reason. *)
Definition condition_label (s : string) : bool :=
  delimited lower_alnum (also "-" lower_alnum) lower_alnum s.
Definition condition_name (s : string) : bool := delimited alnum (also "-_." alnum) alnum s.
Definition condition_type_typed (s : string) : bool :=
  len_in 0 316 s &&
  match SplitByte slash s with
  | [name] => condition_name name
  | [domain; name] => forallb condition_label (SplitByte "."%char domain) && condition_name name
  | _ => false
  end.
Definition condition_reason_typed (s : string) : bool :=
  len_in 1 1024 s && delimited letter (also "_,:" alnum) (also "_" alnum) s.

(** [metav1.Condition]; a zero time is sent as null, which is not a time. *)
Definition condition_typed (c : Condition) : bool :=
  condition_type_typed (c_Type c) &&
  bool_decide (c_Status c ∈ ["True"; "False"; "Unknown"]) &&
  condition_reason_typed (c_Reason c) && len_in 0 32768 (c_Message c) &&
  (0 <=? c_ObservedGeneration c)%Z && bool_decide (c_LastTransitionTime c ≠ zeroTime).
(** A list keyed by type. *)
Definition conditions_typed (l : list Condition) : bool :=
  bool_decide (NoDup (c_Type <$> l)) && forallb condition_typed l.

Definition commit_status_typed (s : RepositoryCommitStatus) : bool :=
  phase_typed (mt_Phase s) && len_in 0 255 (mt_Branch s) && len_in 0 128 (mt_CommitSHA s) &&
  len_in 0 2048 (mt_CommitURL s) && from_option source_typed true (mt_Source s) &&
  max_items 500 (mt_Files s) && forallb file_status_typed (mt_Files s) &&
  conditions_typed (mt_Conditions s).
Definition checkout_status_typed (s : RepositoryCheckoutStatus) : bool :=
  phase_typed (ht_Phase s) && len_in 0 255 (ht_Ref s) && len_in 0 128 (ht_CommitSHA s) &&
  from_option source_typed true (ht_Source s) &&
  from_option bundle_reference_typed true (ht_BundleRef s) && max_items 100 (ht_Skipped s) &&
  conditions_typed (ht_Conditions s).

(** ** Types of answers and of writes *)

Definition bundle_typed (b : Bundle) : bool :=
  len_in 0 96 (b_Digest b) && max_items 500 (b_Files b) &&
  forallb (λ f, file_status_typed (commit_file_status f)) (b_Files b).
Definition reference_typed (r : BundleRef) : bool :=
  len_in 1 253 (ref_Name r) && len_in 0 96 (ref_Digest r).
Definition commit_result_typed (r : RepositoryCommitResult) : bool :=
  len_in 0 255 (co_Branch r) && len_in 0 128 (co_CommitSHA r) && len_in 0 2048 (co_CommitURL r).
Definition checkout_result_typed (r : RepositoryCheckoutResult) : bool :=
  len_in 0 255 (hr_Ref r) && len_in 0 128 (hr_CommitSHA r) && max_items 100 (hr_Skipped r).

(** 253 characters are at most 1,012 bytes. *)
Definition name_short (s : string) : Prop := (slen s ≤ 1012)%Z.
(** The text of an error, whenever it is read, in bytes. *)
Definition error_within (n : Z) (e : error) : Prop := ∀ now, (slen (ErrorText now e) ≤ n)%Z.
(** What is left for the errors of the outside in a message of 32,768. *)
Definition errors_short {A} (r : error + A) : Prop :=
  match r with inl e => error_within 16384 e | inr _ => True end.

Definition commit_object (c : RepositoryCommit) : Prop :=
  (0 ≤ om_Generation (rc_Meta c))%Z ∧ name_short (ms_RepositoryRef (rc_Spec c)).
Definition checkout_object (c : RepositoryCheckout) : Prop :=
  (0 ≤ om_Generation (rh_Meta c))%Z ∧ name_short (hs_RepositoryRef (rh_Spec c)) ∧
  ∀ v, om_Annotations (rh_Meta c) !! AnnotationCheckoutBinaryEncoding = Some v → name_short v.

(** The objects read are as the server accepted them, their generations are
    not negative; the clock is not at zero; bundles and references are as the
    builder makes them; the host's names, hashes and URLs are within the bounds
    of the fields that record them; errors have short texts. *)
Definition answer_typed (e : Event) : Prop :=
  match e with
  | EvNow now => now ≠ zeroTime
  | EvGet k _ _ r => errors_short r ∧
      match k, r with
      | KCommit, inr c => commit_status_typed (rc_Status c) = true ∧ commit_object c
      | KCheckout, inr c => checkout_status_typed (rh_Status c) = true ∧ checkout_object c
      | KRepository, inr repo => name_short (rs_ConnectionRef (rp_Spec repo))
      | KConnection, inr conn => name_short (cs_Provider (cn_Spec conn)) ∧
          name_short (ls_Name (cs_SecretRef (cn_Spec conn))) ∧
          name_short (ls_Namespace (cs_SecretRef (cn_Spec conn)))
      | _, _ => True
      end
  | EvCredential r => errors_short r
  | EvBundleGet _ _ _ r => errors_short r ∧ ∀ b, r = inr b → bundle_typed b = true
  | EvBundlePut _ _ r => errors_short r ∧ ∀ b, r = inr b → reference_typed b = true
  | EvBackend (CEnsureRepository _ _ _ r) => errors_short r
  | EvBackend (CCommitFiles _ _ _ _ r) =>
      errors_short r ∧ ∀ res, r = inr res → commit_result_typed res = true
  | EvBackend (CCheckoutFiles _ _ _ _ r) =>
      errors_short r ∧ ∀ res, r = inr res → checkout_result_typed res = true
  | _ => True
  end.
Definition write_typed (e : Event) : Prop :=
  match e with
  | EvStatus KCommit c _ => commit_status_typed (rc_Status c) = true
  | EvStatus KCheckout c _ => checkout_status_typed (rh_Status c) = true
  | _ => True
  end.

(** ** A type system for handlers

    [typed m R]: as long as it is answered values of their types, [m] writes
    values of theirs, and its result satisfies [R]. *)
Section Typed.
Context {W : Type}.

Definition typed {A} (m : M W Event A) (R : A → Prop) : Prop :=
  emits m (λ a t, Forall answer_typed t → Forall write_typed t ∧ R a).

Lemma typed_ret {A} (a : A) (R : A → Prop) : R a → typed (mret a) R.
Proof. intros HR. by apply emits_ret. Qed.
Lemma typed_mono {A} (m : M W Event A) (R R' : A → Prop) :
  typed m R → (∀ a, R a → R' a) → typed m R'.
Proof. intros Hm HR. eapply emits_mono; [exact Hm|]. naive_solver. Qed.
Lemma typed_bind {A B} (m : M W Event A) (f : A → M W Event B) (R : A → Prop) (R' : B → Prop) :
  typed m R → (∀ a, R a → typed (f a) R') → typed (m ≫= f) R'.
Proof.
  intros Hm Hf w. specialize (Hm w). unfold mbind, M_bind.
  destruct (m w) as [[a w1] t1]. specialize (Hf a).
  destruct (f a w1) as [[b w2] t2] eqn:Hfa. intros [H1 H2]%Forall_app.
  destruct (Hm H1) as [Hw HR]. specialize (Hf HR w1). rewrite Hfa in Hf.
  destruct (Hf H2) as [Hw' HR']. split; [by apply Forall_app|done].
Qed.
Lemma typed_call {A} (op : W → A * W) (ev : A → Event) (R : A → Prop) :
  (∀ a, write_typed (ev a)) → (∀ a, answer_typed (ev a) → R a) → typed (call op ev) R.
Proof.
  intros Hw HR. apply emits_call. intros a Ha. apply Forall_cons in Ha as [Ha _].
  split; [by constructor|by apply HR].
Qed.
Lemma typed_quiet {A} (m : M W Event A) :
  emits m (λ _ t, Forall reads t) → typed m (λ _, True).
Proof.
  intros Hm. eapply emits_mono; [exact Hm|]. intros a t Ht _. split; [|done].
  eapply Forall_impl; [exact Ht|]. by intros [].
Qed.
End Typed.

(** ** Texts *)

Lemma slen_quote s : (slen (Quote s) ≤ 4 * slen s + 2)%Z.
Proof.
  assert (∀ r, (slen (quote_body r) ≤ 4 * slen r)%Z) as Hb.
  { induction r as [|c r IH]; [done|]. cbn [quote_body]. rewrite slen_app.
    assert (slen (quote_byte c) ≤ 4)%Z by (destruct c as [[] [] [] [] [] [] [] []]; by vm_compute).
    unfold slen in *. cbn [String.length]. lia. }
  unfold Quote. rewrite !slen_app. specialize (Hb s).
  change (slen dquote) with 1%Z. lia.
Qed.

Lemma slen_digits_pos fuel b n acc :
  (String.length (digits_pos fuel b n acc) ≤ fuel + String.length acc)%nat.
Proof.
  revert n acc. induction fuel as [|f IH]; intros n acc; [done|]. cbn [digits_pos]. cbv zeta.
  destruct (n <? b)%N; [cbn [String.length]; lia|].
  etrans; [apply IH|]. cbn [String.length]. lia.
Qed.
Lemma slen_format_seconds z : (0 ≤ z ≤ maxDuration)%Z → (slen (FormatInt (z / Second)) ≤ 64)%Z.
Proof.
  intros Hz. unfold FormatInt, Z_digits, N_digits, slen.
  assert (0 ≤ z / Second ≤ maxDuration)%Z as [Hlo Hhi].
  { split; [apply Z.div_pos; [lia|done]|]. etrans; [|apply Hz].
    apply Z.div_le_upper_bound; [done|]. unfold Second. lia. }
  rewrite (proj2 (Z.ltb_ge _ _)) by lia.
  pose proof (slen_digits_pos (S (N.to_nat (N.log2 (Z.to_N (z / Second))))) 10 (Z.to_N (z / Second)) "") as Hd.
  cbn [String.length] in Hd.
  assert (N.log2 (Z.to_N (z / Second)) ≤ 63)%N as Hl.
  { etrans; [apply (N.log2_le_mono _ (Z.to_N maxDuration)); lia|]. by vm_compute. }
  lia.
Qed.
Lemma Round_range z : (Second ≤ z ≤ maxDuration)%Z → (0 ≤ Round z Second ≤ maxDuration)%Z.
Proof.
  intros Hz. unfold Round. pose proof (Z.rem_bound_pos z Second ltac:(unfold Second in *; lia) ltac:(done)).
  rewrite (proj2 (Z.ltb_ge z 0)) by (unfold Second in *; lia).
  destruct (_ <? _)%Z; [lia|]. destruct (Z.leb_spec (z - Z.rem z Second + Second) maxDuration); [lia|].
  by vm_compute.
Qed.

(** Errors that still leave room for the words around them, and messages that
    fit. *)
Definition brief (e : error) : Prop := error_within 24576 e.
Definition fits (msg : string) : Prop := (slen msg ≤ 32768)%Z.

(** Add up the parts of a text. *)
Ltac texts :=
  unfold fits, brief, error_within, name_short, Wrap in *; intros; cbn [ErrorText];
  repeat rewrite slen_app;
  repeat match goal with
  | |- context [slen (Quote ?s)] => pose proof (slen_quote s); generalize dependent (slen (Quote s)); intros
  end;
  repeat match goal with
  | |- context [slen (String ?c ?r)] =>
      let v := eval vm_compute in (slen (String c r)) in change (slen (String c r)) with v
  end;
  change (slen "") with 0%Z;
  repeat match goal with
  | He : ∀ t : _, (slen (ErrorText t ?e) ≤ _)%Z |- context [ErrorText ?now ?e] => specialize (He now)
  end; lia.

(** ** The controllers *)

(** What [SetStatusCondition] does, as documented: the condition of the type is
    replaced or added, no other changes; its transition time is the old one
    where the status stays, else the time given. *)
Class ConditionLaws `{ApiMachinery} := {
  set_condition_elem now l c d : d ∈ SetStatusCondition now l c →
    d ∈ l ∨
    ∃ t, (t = now ∨ t ∈ c_LastTransitionTime <$> l) ∧
      d = {| c_Type := c_Type c; c_Status := c_Status c;
             c_ObservedGeneration := c_ObservedGeneration c; c_LastTransitionTime := t;
             c_Reason := c_Reason c; c_Message := c_Message c |};
  set_condition_types now l c :
    NoDup (c_Type <$> l) → NoDup (c_Type <$> SetStatusCondition now l c) }.

#[export] Instance machinery_condition_laws : ConditionLaws.
Proof.
  split; simpl.
  - intros now l c d. induction l as [|x l IH]; simpl; [set_solver|].
    case_decide; simpl; [case_decide; set_solver|]. intros [->|Hd]%elem_of_cons; [set_solver|].
    destruct (IH Hd) as [?|(t & [->|Ht] & ->)]; [set_solver|right..]; eexists; (split; [|done]); set_solver.
  - intros now l c.
    assert (∀ m, ∀ ty, ty ∈ c_Type <$> set_condition now m c → ty = c_Type c ∨ ty ∈ c_Type <$> m) as Hin.
    { induction m as [|x m IH]; simpl; [set_solver|]. case_decide; set_solver. }
    induction l as [|x l IH]; simpl; [intros; apply NoDup_singleton|].
    intros [Hx Hl]%NoDup_cons. case_decide as Hd; simpl; [rewrite <- Hd; by constructor|].
    constructor; [|by apply IH]. intros Hc%Hin. naive_solver.
Qed.

Section Controllers.
Context {W : Type} `{Env W} `{ApiMachinery} `{!ConditionLaws}.
Context (Hns : name_short (DefaultCredentialsNamespace env_getenv)).

(** A result of its type, or a brief error. *)
Definition or_err {A} (R : A → Prop) (r : error + A) : Prop :=
  match r with inl e => brief e | inr a => R a end.

Lemma or_err_answer {A} (R : A → Prop) (r : error + A) :
  errors_short r → (∀ a, r = inr a → R a) → or_err R r.
Proof. destruct r; cbn; [intros He _ now; specialize (He now); lia|auto]. Qed.

Lemma Now_typed : typed (Now (W:=W)) (λ now, now ≠ zeroTime).
Proof. by apply typed_call. Qed.
Lemma error_text_typed e n :
  error_within n e → typed (error_text (W:=W) e) (λ text, (slen text ≤ n)%Z).
Proof. intros He. eapply typed_bind; [apply Now_typed|]. intros now _. apply typed_ret, He. Qed.
Lemma ClusterClient_typed n : typed (ClusterClient (W:=W) n) (λ _, True).
Proof. apply typed_quiet, ClusterClient_reads. Qed.
Lemma ResolveRepository_typed n : name_short n →
  typed (ResolveRepository (W:=W) n) (or_err (λ repo, name_short (rs_ConnectionRef (rp_Spec repo)))).
Proof.
  intros Hn. eapply typed_bind.
  { by apply (typed_call _ _ (λ r, answer_typed (EvGet KRepository "" n r))). }
  intros [e|repo] [He Hr]; [|by apply typed_ret]. cbn in He.
  destruct (IsNotFound e); apply typed_ret; cbn [or_err]; texts.
Qed.
Lemma ResolveConnection_typed n : name_short n →
  typed (ResolveConnection (W:=W) n)
    (or_err (λ conn, answer_typed (EvGet KConnection "" n (inr conn)))).
Proof.
  intros Hn. eapply typed_bind.
  { by apply (typed_call _ _ (λ r, answer_typed (EvGet KConnection "" n r))). }
  intros [e|conn] Hr; [|by apply typed_ret]. destruct Hr as [He _]. cbn in He.
  destruct (IsNotFound e); apply typed_ret; cbn [or_err]; texts.
Qed.
Lemma ResolveCredential_typed n c : answer_typed (EvGet KConnection "" n (inr c)) →
  typed (ResolveCredential (W:=W) c) (or_err (λ _, True)).
Proof.
  intros (_ & _ & Hn & Hs). unfold ResolveCredential. cbv zeta.
  set (ns := if decide _ then _ else _). assert (name_short ns) by (subst ns; by case_decide).
  eapply typed_bind.
  { by apply (typed_call _ _ (λ r, errors_short r)); [|intros r [Hr _]]. }
  intros [e|secret] He.
  - cbn in He. destruct (IsNotFound e), (IsForbidden e); apply typed_ret; cbn [or_err]; texts.
  - apply typed_call; [done|]. intros r Hr. by apply or_err_answer.
Qed.
Lemma ensure_repository_typed (b : GitBackend W) conn cred repo :
  typed (ensure_repository b conn cred repo) (or_err (λ _, True)).
Proof. apply typed_call; [done|]. intros r Hr. by apply or_err_answer. Qed.
Lemma bundle_delete_typed scope name digest :
  typed (bundle_delete (W:=W) scope name digest) (λ _, True).
Proof. by apply typed_call. Qed.
Lemma bundle_get_typed scope name digest :
  typed (bundle_get (W:=W) scope name digest) (or_err (λ b, bundle_typed b = true)).
Proof. apply typed_call; [done|]. intros r [He Hr]. by apply or_err_answer. Qed.
Lemma bundle_put_typed scope files :
  typed (bundle_put (W:=W) scope files) (or_err (λ r, reference_typed r = true)).
Proof. apply typed_call; [done|]. intros r [He Hr]. by apply or_err_answer. Qed.
Lemma get_commit_typed ns n :
  typed (k_get (W:=W) KCommit ns n)
    (or_err (λ c, commit_status_typed (rc_Status c) = true ∧ commit_object c)).
Proof. apply typed_call; [done|]. intros [e|c] [He Hr]; by apply or_err_answer; [|intros ? [= <-]]. Qed.
Lemma get_checkout_typed ns n :
  typed (k_get (W:=W) KCheckout ns n)
    (or_err (λ c, checkout_status_typed (rh_Status c) = true ∧ checkout_object c)).
Proof. apply typed_call; [done|]. intros [e|c] [He Hr]; by apply or_err_answer; [|intros ? [= <-]]. Qed.

(** A Ready condition with a message that fits. *)
Lemma SetCondition_typed l st reason msg gen :
  conditions_typed l = true → st ∈ [ConditionTrue; ConditionFalse] →
  reason ∈ [ReasonReady; ReasonReconciling; ReasonError; ReasonRateLimited] →
  fits msg → (0 ≤ gen)%Z →
  typed (SetCondition (W:=W) l ConditionReady st reason msg gen) (λ l', conditions_typed l' = true).
Proof.
  intros Hl Hst Hre Hmsg Hgen. eapply typed_bind; [apply Now_typed|]. intros now Hnow.
  apply typed_ret. unfold conditions_typed in *. apply andb_true_iff in Hl as [Hnd Hl].
  apply bool_decide_eq_true in Hnd. rewrite forallb_forall in Hl.
  apply andb_true_iff. split; [by apply bool_decide_eq_true, set_condition_types|].
  apply forallb_forall. intros d Hd%list_elem_of_In.
  apply set_condition_elem in Hd as [Hd|(t & Ht & ->)]; [by apply Hl, list_elem_of_In|].
  assert (t ≠ zeroTime) as Hz.
  { destruct Ht as [->|(d & -> & Hd)%list_elem_of_fmap]; [done|].
    apply list_elem_of_In, Hl in Hd. apply andb_true_iff in Hd as [_ Hd].
    by apply bool_decide_eq_true in Hd. }
  unfold condition_typed. cbn [c_Type c_Status c_Reason c_Message c_ObservedGeneration c_LastTransitionTime].
  rewrite (len_in_short 0 32768 msg) by done. rewrite (proj2 (Z.leb_le _ _) Hgen).
  rewrite bool_decide_eq_true_2 by set_solver. rewrite (bool_decide_eq_true_2 (t ≠ _)) by done.
  assert (condition_type_typed ConditionReady = true) as -> by by vm_compute.
  assert (condition_reason_typed reason = true) as -> by (revert reason Hre; by apply Forall_forall; repeat constructor).
  done.
Qed.
End Controllers.

(** The provider of a connection in a message. *)
Lemma provider_fits n c suffix :
  answer_typed (EvGet KConnection "" n (inr c)) → (slen suffix ≤ 1012)%Z →
  fits ("git provider " +:+ Quote (cs_Provider (cn_Spec c)) +:+ suffix).
Proof. intros (_ & Hp & _) Hs. texts. Qed.

Create HintDb typed.
#[export] Hint Resolve error_text_typed Now_typed ClusterClient_typed ResolveRepository_typed
  ResolveConnection_typed ResolveCredential_typed ensure_repository_typed bundle_delete_typed
  bundle_get_typed bundle_put_typed get_commit_typed get_checkout_typed : typed.
#[export] Hint Extern 1 (fits _) => solve [texts|eapply provider_fits; [eassumption|by vm_compute]] : typed.
#[export] Hint Extern 1 (brief _) => solve [texts] : typed.

(** Run a handler: every call has its type in the hint database. *)
Ltac typed_run :=
  repeat (cbn [or_err] in *; lazymatch goal with
  | |- typed (mret _) _ => apply typed_ret; try done
  | |- typed (mbind _ _) _ => eapply typed_bind; [solve [eauto 4 with typed]|intros ? ?]
  | |- typed (bind_res _ _) _ => eapply typed_bind; [solve [eauto 4 with typed]|intros ? ?]
  | |- typed (match ?x with _ => _ end) _ => destruct x eqn:?
  end).

(** Split a typed status into its fields, and put one together. *)
Ltac typed_fields :=
  repeat match goal with
  | H : _ && _ = true |- _ => apply andb_true_iff in H as [? ?]
  end;
  repeat match goal with |- _ && _ = true => apply andb_true_iff; split end; try (done || reflexivity).

(** *** repositorycommit *)

Section Commits.
Context {W : Type} `{Env W} `{ApiMachinery} `{!ConditionLaws}.
Context (Hns : name_short (DefaultCredentialsNamespace env_getenv)).

Definition commit_ok (c : RepositoryCommit) : Prop :=
  commit_status_typed (rc_Status c) = true ∧ commit_object c.

Lemma commit_with_ready_typed c s st reason msg :
  commit_status_typed s = true → commit_object c → st ∈ [ConditionTrue; ConditionFalse] →
  reason ∈ [ReasonReady; ReasonReconciling; ReasonError; ReasonRateLimited] → fits msg →
  typed (CommitController.with_ready (W:=W) c s st reason msg) commit_ok.
Proof.
  intros Hs Hc Hst Hre Hmsg. assert (conditions_typed (mt_Conditions s) = true) as Hl.
  { unfold commit_status_typed in Hs. typed_fields. }
  eapply typed_bind; [apply SetCondition_typed; try done; apply Hc|].
  intros conds Hconds. apply typed_ret. split; [|done].
  unfold commit_status_typed in *. typed_fields.
Qed.
Lemma commit_update_typed c :
  commit_ok c → typed (CommitController.updateStatusIfChanged (W:=W) c) (λ _, True).
Proof.
  intros [Hc _]. eapply typed_bind; [by apply (typed_call _ _ (λ _, True))|].
  intros [e|cur] _; [by apply typed_ret|]. case_decide; [by apply typed_ret|].
  eapply typed_bind; [by apply (typed_call _ _ (λ _, True))|]. intros [e|o] _; by apply typed_ret.
Qed.
Hint Resolve commit_with_ready_typed commit_update_typed : typed.

Lemma failed_typed s gen now :
  commit_status_typed s = true → commit_status_typed (CommitController.mt_set_failed s gen now) = true.
Proof. unfold commit_status_typed. intros Hs. typed_fields. Qed.
Lemma running_typed s gen now :
  commit_status_typed s = true → commit_status_typed (CommitController.mt_set_running s gen now) = true.
Proof. unfold commit_status_typed. intros Hs. typed_fields. Qed.
Lemma succeeded_typed s gen now res b :
  commit_status_typed s = true → commit_result_typed res = true → bundle_typed b = true →
  commit_status_typed (mt_set_succeeded s gen now res b) = true.
Proof.
  unfold commit_result_typed, bundle_typed, commit_status_typed. intros Hs Hr Hb. typed_fields.
  - cbn [mt_set_succeeded mt_Files]. unfold max_items in *. by rewrite length_fmap.
  - cbn [mt_set_succeeded mt_Files]. rewrite forallb_forall in *.
    intros f Hf%list_elem_of_In. apply list_elem_of_fmap in Hf as (g & -> & Hg%list_elem_of_In). auto.
Qed.
Hint Resolve failed_typed running_typed succeeded_typed : typed.
Hint Extern 1 (_ ∈ _) => solve [repeat constructor] : typed.
Hint Extern 1 (commit_status_typed _ = true) => solve [eassumption|eapply proj1; eassumption] : typed.
Hint Extern 1 (commit_object _) => solve [eassumption|eapply proj2; eassumption] : typed.

Lemma commit_fail_typed c msg :
  commit_ok c → fits msg → typed (CommitController.fail (W:=W) c msg) (λ _, True).
Proof. intros [Hc Ho] Hm. unfold CommitController.fail. typed_run. Qed.
Hint Resolve commit_fail_typed : typed.

Lemma failAndDelete_typed hasBundles c msg scope r :
  commit_ok c → fits msg →
  typed (failAndDeleteBundle (W:=W) hasBundles c msg scope r) (λ _, True).
Proof. intros Hc Hm. unfold failAndDeleteBundle. typed_run. Qed.

Lemma wait_message_fits retryAt now :
  fits ("GitHub rate limit; retrying in " +:+
        FormatInt (Round (Z.max (Sub retryAt now) Second) Second / Second) +:+ "s").
Proof.
  pose proof (Sub_range retryAt now) as Hr.
  pose proof (Round_range (Z.max (Sub retryAt now) Second)) as Hround.
  pose proof (slen_format_seconds (Round (Z.max (Sub retryAt now) Second) Second)) as Hf.
  assert (Second ≤ maxDuration)%Z by by vm_compute.
  specialize (Hf (Hround ltac:(lia))).
  generalize dependent (FormatInt (Round (Z.max (Sub retryAt now) Second) Second / Second)).
  intros text Hf. texts.
Qed.
Hint Resolve wait_message_fits : typed.
Lemma wait_typed c retryAt :
  commit_ok c → typed (waitForRateLimit (W:=W) c retryAt) (λ _, True).
Proof. intros [Hc Ho]. unfold waitForRateLimit. cbv zeta. typed_run. Qed.
Hint Resolve failAndDelete_typed wait_typed : typed.

Lemma commitBundle_typed fail c scope r b committer conn cred repo :
  (∀ msg, fits msg → typed (fail msg) (λ _, True)) → commit_ok c →
  typed (commitBundle (W:=W) fail c scope r b committer conn cred repo) (λ _, True).
Proof.
  intros Hfail Hc. unfold commitBundle. cbv zeta. typed_run; eauto with typed.
  eapply typed_bind.
  { apply (typed_call _ _ (or_err (λ res, commit_result_typed res = true))); [done|].
    intros res [He Hr]. by apply or_err_answer. }
  pose proof Hc as [Hs Ho]. intros. typed_run; eauto with typed.
Qed.
Hint Resolve commitBundle_typed : typed.

Lemma runCommit_typed fail backends c scope r :
  (∀ msg, fits msg → typed (fail msg) (λ _, True)) → commit_ok c →
  typed (runCommit (W:=W) fail backends c scope r) (λ _, True).
Proof.
  intros Hfail Hc. pose proof Hc as [_ [Hg Hn]]. unfold runCommit. cbv zeta. typed_run; eauto with typed.
Qed.
Hint Resolve runCommit_typed : typed.

Lemma commit_Reconcile_typed backends hasBundles cl ns n :
  typed (CommitController.Reconcile (W:=W) backends hasBundles cl ns n) (λ _, True).
Proof.
  unfold CommitController.Reconcile. cbv zeta.
  assert (Hfail : ∀ c msg r, commit_ok c → fits msg →
    typed (res ← failAndDeleteBundle (W:=W) hasBundles c msg cl r;
           match res with Some e => mret (inl (B:=Result) e) | None => mret (inr NoRequeue) end)
      (λ _, True)) by (intros c msg r Hc Hm; typed_run).
  typed_run; eauto with typed.
Qed.
End Commits.

(** *** repositorycheckout *)

Section Checkouts.
Context {W : Type} `{Env W} `{ApiMachinery} `{!ConditionLaws}.
Context (Hns : name_short (DefaultCredentialsNamespace env_getenv)).

Definition checkout_ok (c : RepositoryCheckout) : Prop :=
  checkout_status_typed (rh_Status c) = true ∧ checkout_object c.

Lemma checkout_with_ready_typed c s st reason msg :
  checkout_status_typed s = true → checkout_object c → st ∈ [ConditionTrue; ConditionFalse] →
  reason ∈ [ReasonReady; ReasonReconciling; ReasonError; ReasonRateLimited] → fits msg →
  typed (OneShot.with_ready (W:=W) (k := KCheckout) c s st reason msg) checkout_ok.
Proof.
  intros Hs Hc Hst Hre Hmsg. assert (conditions_typed (ht_Conditions s) = true) as Hl.
  { unfold checkout_status_typed in Hs. typed_fields. }
  eapply typed_bind; [apply SetCondition_typed; try done; apply Hc|].
  intros conds Hconds. apply typed_ret. split; [|done].
  unfold checkout_status_typed in *. typed_fields.
Qed.
Lemma checkout_update_typed (c : RepositoryCheckout) :
  checkout_ok c → typed (OneShot.updateStatusIfChanged (W:=W) (k := KCheckout) c) (λ _, True).
Proof.
  intros [Hc _]. eapply typed_bind; [by apply (typed_call _ _ (λ _, True))|].
  intros [e|cur] _; [by apply typed_ret|]. case_decide; [by apply typed_ret|].
  eapply typed_bind; [by apply (typed_call _ _ (λ _, True))|]. intros [e|o] _; by apply typed_ret.
Qed.
Hint Resolve checkout_with_ready_typed checkout_update_typed : typed.

Lemma checkout_failed_typed s gen now :
  checkout_status_typed s = true → checkout_status_typed (CheckoutController.ht_set_failed s gen now) = true.
Proof. unfold checkout_status_typed. intros Hs. typed_fields. Qed.
Lemma checkout_running_typed s gen now :
  checkout_status_typed s = true → checkout_status_typed (CheckoutController.ht_set_running s gen now) = true.
Proof. unfold checkout_status_typed. intros Hs. typed_fields. Qed.
Lemma checkout_succeeded_typed s gen now res b :
  checkout_status_typed s = true → checkout_result_typed res = true → reference_typed b = true →
  checkout_status_typed (ht_set_succeeded s gen now res b) = true.
Proof.
  unfold checkout_result_typed, reference_typed, checkout_status_typed. intros Hs Hr Hb. typed_fields.
  cbn. unfold bundle_reference_typed. typed_fields.
Qed.
Hint Resolve checkout_failed_typed checkout_running_typed checkout_succeeded_typed : typed.
Hint Extern 1 (_ ∈ _) => solve [repeat constructor] : typed.
Hint Extern 1 (checkout_status_typed _ = true) => solve [eassumption|eapply proj1; eassumption] : typed.
Hint Extern 1 (checkout_object _) => solve [eassumption|eapply proj2; eassumption] : typed.

Lemma checkout_fail_typed c msg :
  checkout_ok c → fits msg → typed (CheckoutController.fail (W:=W) c msg) (λ _, True).
Proof.
  intros [Hc Ho] Hm. unfold CheckoutController.fail.
  apply (typed_bind _ _ (λ _, True)); [unfold fail_with|intros r _]; typed_run.
Qed.
Hint Resolve checkout_fail_typed : typed.

Lemma storeCheckout_typed c scope res :
  checkout_ok c → checkout_result_typed res = true →
  typed (storeCheckout (W:=W) c scope res) (λ _, True).
Proof. intros Hok. pose proof Hok as [Hc Ho]. intros Hres. unfold storeCheckout. typed_run; eauto with typed. Qed.
Hint Resolve storeCheckout_typed : typed.

Lemma checkoutInput_brief c e : checkout_object c → checkoutInput c = inl e → brief e.
Proof.
  intros (_ & _ & Ha) He. unfold checkoutInput in He.
  destruct (om_Annotations _ !! _) as [v|]; [|done]. specialize (Ha v eq_refl).
  case_decide; [done|]. apply (inj inl) in He as <-.
  assert (slen (Quote Backend.EncodingBase64) ≤ 32)%Z as H64 by (apply Z.leb_le; reflexivity).
  generalize dependent (Quote Backend.EncodingBase64). intros q Hq.
  unfold AnnotationCheckoutBinaryEncoding. texts.
Qed.

Lemma runCheckout_typed backends c scope :
  checkout_ok c → typed (runCheckout (W:=W) backends c scope) (λ _, True).
Proof.
  intros Hc. pose proof Hc as [Hs (Hg & Hn & Ha)]. unfold runCheckout. cbv zeta.
  pose proof (checkoutInput_brief c) as Hin. destruct (checkoutInput c) as [e|input] eqn:Hinput;
    [specialize (Hin e ltac:(done) eq_refl)|clear Hin]; typed_run; eauto with typed.
  eapply typed_bind.
  { apply (typed_call _ _ (or_err (λ res, checkout_result_typed res = true))); [done|].
    intros res [He Hr]. by apply or_err_answer. }
  intros. typed_run; eauto with typed.
Qed.
Hint Resolve runCheckout_typed : typed.

Lemma checkout_Reconcile_typed backends hasBundles cl ns n :
  typed (CheckoutController.Reconcile (W:=W) backends hasBundles cl ns n) (λ _, True).
Proof. unfold CheckoutController.Reconcile. cbv zeta. typed_run; eauto with typed. Qed.
End Checkouts.

(** ** Bundles *)

(** A built bundle has the type the controllers rely on. *)
Lemma bundle_wf_typed b : bundle_wf b → bundle_typed b = true.
Proof.
  intros Hwf. unfold bundle_typed. typed_fields.
  - rewrite (wf_digest _ Hwf). apply len_in_short; [done|]. by rewrite digester_sum_length.
  - unfold max_items. apply Z.leb_le. pose proof (wf_count _ Hwf). unfold MaxFiles in *. lia.
  - apply forallb_forall. intros f Hf%list_elem_of_In.
    pose proof (proj1 (Forall_forall _ _) (wf_paths _ Hwf) f Hf) as (Hsafe & _ & Hlen).
    pose proof (proj1 (Forall_forall _ _) (wf_files _ Hwf) f Hf) as (data & _ & _ & Hd & _).
    unfold file_status_typed, commit_file_status. cbn [fs_Path fs_Digest]. typed_fields.
    + destruct (bf_Path f) as [|c p] eqn:Hp; [|by apply len_in_bytes].
      by apply safe_path_not_empty in Hsafe.
    + rewrite Hd. destruct (bf_Delete f); [done|]. apply len_in_short; [done|].
      by rewrite digestBytes_length.
Qed.

(** ** Messages without a bound *)

Definition ascii_text (s : string) : bool := forallb (λ c, in_range c 0 127) (bytes_of s).

Lemma ascii_text_app a b : ascii_text (a +:+ b) = ascii_text a && ascii_text b.
Proof. unfold ascii_text. by rewrite bytes_of_app, forallb_app. Qed.
Lemma ascii_text_count s : ascii_text s = true → RuneCountInString s = slen s.
Proof.
  unfold ascii_text, RuneCountInString. induction s as [|c s IH]; [done|].
  intros [Hc Hs]%andb_true_iff. cbn [rune_count_from].
  assert (rune_size (String c s) = 1%nat) as ->.
  { unfold rune_size. by rewrite Hc. }
  change (pred 1) with 0%nat. rewrite (IH Hs). unfold slen. cbn [String.length]. lia.
Qed.

Definition xs (n : nat) : string := of_bytes (replicate n "x"%char).
Lemma quote_xs n : quote_body (xs n) = xs n.
Proof.
  induction n as [|n IH]; [done|]. change (xs (S n)) with (String "x" (xs n)).
  cbn [quote_body]. by rewrite IH.
Qed.

(** A checkout whose annotation asks for an encoding of that many characters
    is failed with a message that the schema refuses. *)
Lemma long_annotation_refused c n :
  om_Annotations (rh_Meta c) !! AnnotationCheckoutBinaryEncoding = Some (xs n) →
  (32768 < Z.of_nat n)%Z →
  ∃ e, checkoutInput c = inl e ∧ ∀ now, len_in 0 32768 (ErrorText now e) = false.
Proof.
  intros Ha Hn. unfold checkoutInput. rewrite Ha. rewrite decide_False.
  2: { intros Heq. apply (f_equal String.length) in Heq. unfold xs in Heq.
       rewrite length_of_bytes, length_replicate in Heq. cbn in Heq. lia. }
  eexists. split; [done|]. intros now. cbn [ErrorText]. unfold len_in. apply andb_false_iff. right.
  apply Z.leb_gt. rewrite ascii_text_count.
  - unfold Quote. rewrite quote_xs, !slen_app. unfold xs. change (slen (of_bytes ?l)) with (Z.of_nat (String.length (of_bytes l))).
    rewrite length_of_bytes, length_replicate.
    repeat match goal with |- context [slen ?s] => pose proof (slen_nonneg s); generalize dependent (slen s); intros end.
    lia.
  - unfold Quote. rewrite quote_xs, !ascii_text_app.
    assert (ascii_text (xs n) = true) as ->.
    { unfold ascii_text, xs. rewrite bytes_of_of_bytes. apply forallb_forall.
      intros d Hd%list_elem_of_In%elem_of_replicate_inv. by subst. }
    by vm_compute.
Qed.

(** An answer of its type, by evaluation. *)
Ltac typed_answer :=
  cbv beta iota delta [answer_typed errors_short commit_object checkout_object name_short];
  repeat lazymatch goal with
  | |- _ ∧ _ => split
  | |- True => exact I
  | |- _ = true => vm_compute; reflexivity
  | |- (_ ≤ _)%Z => vm_compute; discriminate
  | |- ∀ _, _ = _ → _ => intros ? [= <-]
  end.

(** ** Property *)


