(* ===== verification/BuildStatusController.v ===== *)
(** * controller/repositorybuildstatus: reading and re-running workflows

    The whole [Reconcile] over the calls of [Env]. *)

From S2P Require Import Prelude GoStrings GoTime Errors CommitBundle Api Backend Tenant Env Shared.
From S2P Require Import Lifecycle OneShot.
From Stdlib Require Import Ascii Lia.

#[local] Open Scope string_scope.
#[local] Open Scope list_scope.

Definition isTerminal (phase : RepositoryBuildStatusPhase) : bool :=
  bool_decide (phase = RepositoryBuildStatusPhaseSucceeded) ||
  bool_decide (phase = RepositoryBuildStatusPhaseFailed).

Definition bt_set_conditions (s : RepositoryBuildStatusStatus) (l : list Condition)
    : RepositoryBuildStatusStatus :=
  {| bt_ObservedGeneration := bt_ObservedGeneration s; bt_Phase := bt_Phase s;
     bt_CompletedAt := bt_CompletedAt s; bt_Run := bt_Run s; bt_Dispatched := bt_Dispatched s;
     bt_Conditions := l |}.

#[export] Program Instance buildstatus_request : Request KBuildStatus := {
  q_get := rb_Status; q_set := rb_set_Status; q_conditions := bt_Conditions;
  q_set_conditions := bt_set_conditions; q_label := "repositorybuildstatus" }.
Solve All Obligations with done.

Definition bt_set_running (s : RepositoryBuildStatusStatus) (gen : Z)
    : RepositoryBuildStatusStatus :=
  {| bt_ObservedGeneration := gen; bt_Phase := RepositoryBuildStatusPhaseRunning;
     bt_CompletedAt := bt_CompletedAt s; bt_Run := bt_Run s; bt_Dispatched := bt_Dispatched s;
     bt_Conditions := bt_Conditions s |}.
Definition bt_set_failed (s : RepositoryBuildStatusStatus) (gen : Z) (now : Time)
    : RepositoryBuildStatusStatus :=
  {| bt_ObservedGeneration := gen; bt_Phase := RepositoryBuildStatusPhaseFailed;
     bt_CompletedAt := Some now; bt_Run := bt_Run s; bt_Dispatched := bt_Dispatched s;
     bt_Conditions := bt_Conditions s |}.

(** What a successful request found or did. *)
Inductive Outcome := Dispatched | Observed (run : RepositoryBuildStatusRun).

Definition bt_set_succeeded (s : RepositoryBuildStatusStatus) (gen : Z) (now : Time)
    (out : Outcome) : RepositoryBuildStatusStatus :=
  {| bt_ObservedGeneration := gen; bt_Phase := RepositoryBuildStatusPhaseSucceeded;
     bt_CompletedAt := Some now;
     bt_Run := match out with Observed run => Some run | Dispatched => bt_Run s end;
     bt_Dispatched := match out with Observed _ => bt_Dispatched s | Dispatched => true end;
     bt_Conditions := bt_Conditions s |}.

Definition workflowJob (j : WorkflowJobStatus) : RepositoryBuildStatusJob :=
  {| bj_Name := wj_Name j; bj_Status := wj_Status j; bj_Conclusion := wj_Conclusion j;
     bj_FailureLog := wj_FailureLog j |}.
Definition workflowRunStatus (run : WorkflowRunStatus) : RepositoryBuildStatusRun :=
  {| bn_Found := wr_Found run; bn_RunID := wr_RunID run; bn_HTMLURL := wr_HTMLURL run;
     bn_HeadSHA := wr_HeadSHA run; bn_Status := wr_Status run;
     bn_Conclusion := wr_Conclusion run; bn_Jobs := workflowJob <$> wr_Jobs run |}.

Definition run_query (bs : RepositoryBuildStatus) : WorkflowRunQuery :=
  {| wq_WorkflowFileName := bs_WorkflowFileName (rb_Spec bs); wq_HeadSHA := bs_Ref (rb_Spec bs);
     wq_MaxLogLines := bs_MaxLogLines (rb_Spec bs) |}.

Section Controller.
Context {W : Type} `{Env W} `{ApiMachinery}.

Definition fail (bs : RepositoryBuildStatus) (message : string) : Eff W (error + Result) :=
  r ← fail_with (k := KBuildStatus) bs
        (bt_set_failed (rb_Status bs) (om_Generation (rb_Meta bs))) message;
  match r with Some e => mret (inl e) | None => mret (inr NoRequeue) end.

(** The terminal status of a request that worked. *)
Definition succeed (bs : RepositoryBuildStatus) (out : Outcome) : Eff W (error + Result) :=
  completed ← Now;
  next ← with_ready (k := KBuildStatus) bs
           (bt_set_succeeded (rb_Status bs) (om_Generation (rb_Meta bs)) completed out)
           ConditionTrue ReasonReady "Build status request succeeded.";
  u ← updateStatusIfChanged (k := KBuildStatus) next;
  match u with
  | Some e => mret (inl (Wrap ("update repositorybuildstatus " +:+
                               Quote (om_Name (rb_Meta bs)) +:+ " status: ") e))
  | None => mret (inr NoRequeue)
  end.

(** The host call the action asks for. *)
Definition perform (b : GitBackend W) (conn : Connection) (cred : Credential) (repo : Repository)
    (bs : RepositoryBuildStatus) : Eff W (error + Result) :=
  let failWith e := text ← error_text e; fail bs text in
  if decide (bs_Action (rb_Spec bs) = RepositoryBuildStatusActionRerun) then
    match gb_DispatchWorkflow b with
    | None => fail bs ("git provider " +:+ Quote (cs_Provider (cn_Spec conn))
                       +:+ " does not support re-running workflows")
    | Some dispatch =>
        r ← call (dispatch conn cred repo (bs_WorkflowFileName (rb_Spec bs)) (bs_Ref (rb_Spec bs)))
              (λ r, EvBackend (CDispatchWorkflow conn cred repo (bs_WorkflowFileName (rb_Spec bs))
                                 (bs_Ref (rb_Spec bs)) r));
        match r with
        | Some e => failWith e
        | None => succeed bs Dispatched
        end
    end
  else
    match gb_LatestWorkflowRun b with
    | None => fail bs ("git provider " +:+ Quote (cs_Provider (cn_Spec conn))
                       +:+ " does not support reading workflow runs")
    | Some latest =>
        r ← call (latest conn cred repo (run_query bs))
              (λ r, EvBackend (CLatestWorkflowRun conn cred repo (run_query bs) r));
        match r with
        | inl e => failWith e
        | inr run => succeed bs (Observed (workflowRunStatus run))
        end
    end.

Definition runRequest (backends : Registry W) (bs : RepositoryBuildStatus)
    : Eff W (error + Result) :=
  let failWith e := text ← error_text e; fail bs text in
  repo ← ResolveRepository (bs_RepositoryRef (rb_Spec bs));
  match repo with
  | inl e => failWith e
  | inr repo =>
    conn ← ResolveConnection (rs_ConnectionRef (rp_Spec repo));
    match conn with
    | inl e => failWith e
    | inr conn =>
      match Registry_Get backends (cs_Provider (cn_Spec conn)) with
      | None => fail bs ("git provider " +:+ Quote (cs_Provider (cn_Spec conn))
                         +:+ " is not registered")
      | Some b =>
        cred ← ResolveCredential conn;
        match cred with
        | inl e => failWith e
        | inr cred => perform b conn cred repo bs
        end
      end
    end
  end.

Definition Reconcile (backends : option (Registry W)) (clusterName ns name : string)
    : Eff W (error + Result) :=
  _ ←? ClusterClient clusterName;
  got ← k_get KBuildStatus ns name;
  match got with
  | inl e => if IsNotFound e then mret (inr NoRequeue) else mret (inl e)
  | inr bs =>
      if deleting (k := KBuildStatus) bs || isTerminal (bt_Phase (rb_Status bs))
      then mret (inr NoRequeue)
      else match backends with
      | None => fail bs "git backends are unavailable"
      | Some backends =>
          bs ← with_ready (k := KBuildStatus) bs
                 (bt_set_running (rb_Status bs) (om_Generation (rb_Meta bs)))
                 ConditionFalse ReasonReconciling "Build status request is running.";
          r ← updateStatusIfChanged (k := KBuildStatus) bs;
          match r with
          | Some e => mret (inl e)
          | None => runRequest backends bs
          end
      end
  end.
End Controller.

(** ** What a pass promises *)

Section Contract.
Context (ns name : string).

Definition read_request (t : list Event) (bs : RepositoryBuildStatus) : Prop :=
  EvGet KBuildStatus ns name (inr bs) ∈ t.
Definition workflow_call (e : Event) : bool :=
  match e with
  | EvBackend (CDispatchWorkflow _ _ _ _ _ _) | EvBackend (CLatestWorkflowRun _ _ _ _ _) => true
  | _ => false
  end.
Definition runnable (bs : RepositoryBuildStatus) : Prop :=
  deleting (k := KBuildStatus) bs = false ∧ isTerminal (bt_Phase (rb_Status bs)) = false.

(** A Succeeded status is backed by what the request's action did: [bs] is the
    request, [s] the status written. *)
Definition backed_by (before : list Event) (bs : RepositoryBuildStatus)
    (s : RepositoryBuildStatusStatus) : Prop :=
  if decide (bs_Action (rb_Spec bs) = RepositoryBuildStatusActionRerun) then
    bt_Dispatched s = true ∧ ∃ conn cred repo,
      EvBackend (CDispatchWorkflow conn cred repo (bs_WorkflowFileName (rb_Spec bs))
                   (bs_Ref (rb_Spec bs)) None) ∈ before
  else
    ∃ conn cred repo run, bt_Run s = Some (workflowRunStatus run) ∧
      EvBackend (CLatestWorkflowRun conn cred repo (run_query bs) (inr run)) ∈ before.

Definition buildstatus_guard (before : list Event) (e : Event) : Prop :=
  match e with
  | EvStatus KBuildStatus o _ =>
      bt_Phase (rb_Status o) = RepositoryBuildStatusPhaseSucceeded →
      ∃ bs, read_request before bs ∧ runnable bs ∧ backed_by before bs (rb_Status o)
  | EvBackend (CDispatchWorkflow _ _ _ file ref _) =>
      Forall (λ e, workflow_call e = false) before ∧
      ∃ bs, read_request before bs ∧ runnable bs ∧
        bs_Action (rb_Spec bs) = RepositoryBuildStatusActionRerun ∧
        file = bs_WorkflowFileName (rb_Spec bs) ∧ ref = bs_Ref (rb_Spec bs)
  | EvBackend (CLatestWorkflowRun _ _ _ q _) =>
      Forall (λ e, workflow_call e = false) before ∧
      ∃ bs, read_request before bs ∧ runnable bs ∧
        bs_Action (rb_Spec bs) ≠ RepositoryBuildStatusActionRerun ∧ q = run_query bs
  | _ => reads e
  end.

Definition buildstatus_settles (r : error + Result) (t : list Event) : Prop :=
  ∀ res, r = inr res → res = NoRequeue ∧
     ((∃ e, EvGet KBuildStatus ns name (inl e) ∈ t ∧ IsNotFound e = true) ∨
      (∃ bs, read_request t bs ∧ ¬ runnable bs) ∨
      (∃ s, on_server KBuildStatus s t ∧ isTerminal (bt_Phase s) = true)).
End Contract.

(** ** Lemmas *)

Section Lemmas.
Context {W : Type} `{Env W} `{ApiMachinery} (ns name : string).
#[local] Abbreviation G := (buildstatus_guard ns name).
#[local] Abbreviation S := (buildstatus_settles ns name).
#[local] Abbreviation calm := (Forall (λ e, workflow_call e = false)).
Implicit Types bs : RepositoryBuildStatus.

Lemma request_reads h e : reads e → G h e.
Proof. by destruct e. Qed.
Lemma quiet_uncalled t : Forall quiet t → calm t.
Proof. intros Ht. eapply Forall_impl; [exact Ht|]. by intros []. Qed.
Lemma reads_uncalled t : Forall reads t → calm t.
Proof. intros Ht. by apply quiet_uncalled, reads_quiet. Qed.

Lemma request_fail_hoare h bs msg : hoare G h (fail bs msg) S.
Proof.
  apply hoare_bind, (fail_with_hoare (k := KBuildStatus) G request_reads); [done|].
  intros [e|] t now conds Ht Hon; apply hoare_ret; [done|].
  intros res [= <-]. split; [done|]. right. right.
  eexists. split; [by apply on_server_after, Hon|done].
Qed.

Lemma request_error_hoare h bs e : hoare G h (text ← error_text e; fail bs text) S.
Proof.
  apply hoare_bind.
  eapply (reads_hoare G request_reads); [apply reads_emits, error_text_reads|].
  intros text t _ _. apply request_fail_hoare.
Qed.

Lemma succeed_hoare h bs bs' out : read_request ns name h bs → runnable bs →
  (∀ s, bt_Run s = bt_Run (bt_set_succeeded (rb_Status bs') 0 0 out) →
        bt_Dispatched s = bt_Dispatched (bt_set_succeeded (rb_Status bs') 0 0 out) →
        backed_by h bs s) →
  hoare G h (succeed bs' out) S.
Proof.
  intros Hr Hrun Hb. apply hoare_bind, hoare_call; [done|]. intros now.
  apply hoare_bind, (with_ready_hoare (k := KBuildStatus) G request_reads). intros conds t Ht.
  apply hoare_bind, (update_hoare (k := KBuildStatus) G request_reads).
  { intros h' cur r _. exists bs. split; [unfold read_request; by do 3 apply elem_before|].
    split; [done|]. rewrite <- !app_assoc.
    specialize (Hb (rb_Status (rb_set_Status cur (rb_Status (rb_set_Status bs'
      (bt_set_conditions (bt_set_succeeded (rb_Status bs') (om_Generation (rb_Meta bs')) now out)
         conds))))) eq_refl eq_refl).
    unfold backed_by in *. destruct (decide _).
    - destruct Hb as [? (conn & cred & repo & Hin)]. split; [done|].
      exists conn, cred, repo. by apply elem_before.
    - destruct Hb as (conn & cred & repo & run & ? & Hin). exists conn, cred, repo, run.
      split; [done|by apply elem_before]. }
  intros [e|] t2 Ht2 Hon; apply hoare_ret; [done|]. intros res [= <-]. split; [done|].
  right. right. eexists. split; [by apply on_server_after, Hon|done].
Qed.

Lemma perform_hoare h b conn cred repo bs bs' : calm h → read_request ns name h bs →
  runnable bs → rb_Spec bs' = rb_Spec bs → hoare G h (perform (W := W) b conn cred repo bs') S.
Proof.
  intros Hh Hr Hrun Hs. unfold perform. rewrite Hs.
  assert (run_query bs' = run_query bs) as Hq by (unfold run_query; by rewrite Hs).
  destruct (decide _) as [Ha|Ha].
  - destruct (gb_DispatchWorkflow b) as [dispatch|]; [|apply request_fail_hoare].
    apply hoare_bind, hoare_call.
    { intros r. split; [done|]. by exists bs. }
    intros [e|]; [apply request_error_hoare|].
    apply (succeed_hoare _ bs); [by apply elem_before|done|]. intros s _ Hd.
    unfold backed_by. rewrite decide_True by done. split; [exact Hd|].
    exists conn, cred, repo. apply elem_snoc.
  - destruct (gb_LatestWorkflowRun b) as [latest|]; [|apply request_fail_hoare]. rewrite Hq.
    apply hoare_bind, hoare_call.
    { intros r. split; [done|]. by exists bs. }
    intros [e|run]; [apply request_error_hoare|].
    apply (succeed_hoare _ bs); [by apply elem_before|done|]. intros s Hrn _.
    unfold backed_by. rewrite decide_False by done. exists conn, cred, repo, run.
    split; [exact Hrn|apply elem_snoc].
Qed.

Lemma runRequest_hoare h (backends : Registry W) bs bs' : calm h → read_request ns name h bs →
  runnable bs → rb_Spec bs' = rb_Spec bs → hoare G h (runRequest backends bs') S.
Proof.
  intros Hh Hr Hrun Hs. unfold runRequest.
  apply hoare_bind. eapply (reads_hoare G request_reads); [apply reads_emits, ResolveRepository_reads|].
  intros r1 t1 Ht1%reads_uncalled _. destruct r1 as [e|repo]; [apply request_error_hoare|].
  apply hoare_bind. eapply (reads_hoare G request_reads); [apply reads_emits, ResolveConnection_reads|].
  intros r2 t2 Ht2%reads_uncalled _. destruct r2 as [e|conn]; [apply request_error_hoare|].
  destruct (Registry_Get backends _) as [b|]; [|apply request_fail_hoare].
  apply hoare_bind. eapply (reads_hoare G request_reads); [apply reads_emits, ResolveCredential_reads|].
  intros r3 t3 Ht3%reads_uncalled _. destruct r3 as [e|cred]; [apply request_error_hoare|].
  apply (perform_hoare _ _ _ _ _ bs); [by repeat apply Forall_app_2| |done..].
  unfold read_request. by do 3 apply elem_before.
Qed.

Lemma buildstatus_hoare (backends : option (Registry W)) cl :
  hoare G [] (Reconcile backends cl ns name) S.
Proof.
  apply hoare_bind_res. eapply (reads_hoare G request_reads); [apply reads_emits, ClusterClient_reads|].
  intros [e|[]] t Ht%reads_uncalled _; [done|]. apply hoare_bind, hoare_call; [done|].
  intros [e|bs].
  { destruct (IsNotFound e) eqn:He; apply hoare_ret; [|done]. intros res [= <-]. split; [done|].
    left. exists e. split; [apply elem_snoc|done]. }
  destruct (deleting (k := KBuildStatus) bs || isTerminal (bt_Phase (rb_Status bs))) eqn:Hskip.
  { apply hoare_ret. intros res [= <-]. split; [done|]. right. left. exists bs.
    split; [apply elem_snoc|]. intros [Hd Ht']. by rewrite Hd, Ht' in Hskip. }
  apply orb_false_iff in Hskip.
  destruct backends as [backends|]; [|apply request_fail_hoare].
  apply hoare_bind, (with_ready_hoare (k := KBuildStatus) G request_reads).
  intros conds t1 Ht1%quiet_uncalled.
  apply hoare_bind, (update_hoare (k := KBuildStatus) G request_reads); [done|].
  intros [e|] t2 Ht2%quiet_uncalled _; [by apply hoare_ret|].
  apply (runRequest_hoare _ _ bs); [repeat apply Forall_app_2; by try repeat constructor| |done..].
  unfold read_request. do 2 apply elem_before. apply elem_snoc.
Qed.
End Lemmas.

(** ** Property *)

(** C29: a build-status pass makes at most one workflow call, the one its action
    asks for (a dispatch only for a rerun), on the file and ref of the request it
    read; records Succeeded only with what that call returned; and reports no
    error only when a terminal status is on the server or there was nothing to
    do. *)
Theorem BuildStatus_pass {W} `{Env W} `{ApiMachinery} (backends : option (Registry W))
    cl ns name (w w' : W) r t (Hrun : Reconcile backends cl ns name w = (r, w', t)) :
  (∀ before e after, t = before ++ e :: after → buildstatus_guard ns name before e) ∧
  buildstatus_settles ns name r t.
Proof. eapply hoare_run; [apply buildstatus_hoare|exact Hrun]. Qed.

Definition demo_request : RepositoryBuildStatus :=
  {| rb_Meta := named "bs" "b-1";
     rb_Spec := {| bs_RepositoryRef := "repo"; bs_WorkflowFileName := "build.yml";
       bs_Ref := "main"; bs_Action := RepositoryBuildStatusActionRerun; bs_MaxLogLines := 0 |};
     rb_Status := {| bt_ObservedGeneration := 0; bt_Phase := ""; bt_CompletedAt := None;
       bt_Run := None; bt_Dispatched := false; bt_Conditions := [] |} |}.
Definition demo_get (k : Kind) (ns name : string) : error + obj k :=
  match k with
  | KBuildStatus => inr demo_request
  | KRepository => inr demo_repository
  | KConnection => inr demo_connection
  | KSecret => inr demo_secret
  | _ => inl (EStatus NotFound "not found")
  end.
Definition demo_host : GitBackend unit :=
  {| gb_Name := gb_Name (New (W := unit)); gb_ValidateConnection := gb_ValidateConnection New;
     gb_EnsureRepository := gb_EnsureRepository New;
     gb_DeleteRepository := gb_DeleteRepository New;
     gb_EnsureDeployKey := gb_EnsureDeployKey New; gb_DeleteDeployKey := gb_DeleteDeployKey New;
     gb_EnsureCollaborator := gb_EnsureCollaborator New;
     gb_RemoveCollaborator := gb_RemoveCollaborator New;
     gb_CommitFiles := None; gb_CheckoutFiles := None; gb_ListPackages := None;
     gb_LatestWorkflowRun := None;
     gb_DispatchWorkflow := Some (λ _ _ _ _ _ w, (None, w)) |}.

Lemma BuildStatus_pass_witness :
  let E := fixed_env 100 demo_get (λ _, inr []) (inl EBundleNotFound) in
  let backends : Registry unit := {[ ProviderGitHub := demo_host ]} in
  ∃ t : list Event,
    Reconcile (Some backends) "ws" "" "bs" tt = (inr NoRequeue, tt, t) ∧
    length (filter (λ e, workflow_call e = true) t) = 1%nat ∧
    buildstatus_settles "" "bs" (inr NoRequeue) t.
Proof.
  intros E backends. eexists. split; [vm_compute; reflexivity|]. split; [vm_compute; reflexivity|].
  apply (BuildStatus_pass (Some backends) "ws" "" "bs" tt tt). vm_compute. reflexivity.
Defined.
