(* ===== verification/GitHubApi.v ===== *)
(** * The GitHub client the backend is written against

    go-github is third-party: its calls are operations of a class on a world
    [W], over records of the fields the backend reads.  A call answers with a
    value, or with an error and no value (go-github returns a nil value with
    every error), and in both cases with a response unless none was received.
    Every call leaves an event. *)

From S2P Require Import Prelude GoStrings GoTime Errors Api Backend.
From Stdlib Require Import Ascii Lia.

#[local] Open Scope string_scope.

(** ** Data *)

Record Response := { rsp_StatusCode : Z; rsp_NextPage : Z; rsp_Scopes : string }.

Inductive Answer (A : Type) :=
  | GErr (resp : option Response) (err : error)
  | GOk (v : A) (resp : option Response).
#[global] Arguments GErr {A}.
#[global] Arguments GOk {A}.

(** A client carries the credential and the endpoint of one call. *)
Record Client := { gc_Token : string; gc_BaseURL : string; gc_Timeout : Duration }.

Record GRepository := {
  gr_ID : Z; gr_FullName : string; gr_DefaultBranch : string;
  gr_HTMLURL : string; gr_CloneURL : string; gr_SSHURL : string }.
Record NewRepository := {
  nr_Name : string; nr_Private : bool; nr_Description : string; nr_AutoInit : bool;
  nr_DefaultBranch : option string; nr_Visibility : option string }.
Record GUser := { gu_Login : string; gu_Type : string }.
Record GKey := { gk_ID : Z; gk_Key : string; gk_Title : string; gk_ReadOnly : bool }.
Record GInvitation := { gi_ID : Z; gi_Invitee : option string }.

Record Reference := { rf_Ref : string; rf_Object : option string }.
Record GCommit := {
  gm_SHA : string; gm_Message : string; gm_HTMLURL : string; gm_Tree : option string }.
(** An element of a commit listing; [None] is a nil [Commit]. *)
Record GRepositoryCommit := {
  gl_SHA : string; gl_HTMLURL : string; gl_Message : option string }.
(** [te_SHA] and [te_Content] are pointers: an entry with neither is a deletion. *)
Record TreeEntry := {
  te_Path : string; te_Mode : string; te_Type : string;
  te_SHA : option string; te_Content : option string }.
(** An entry of a tree that was read. *)
Record GEntry := { ge_Path : string; ge_Type : string; ge_SHA : string; ge_Size : Z }.
Record GTree := { gt_SHA : string; gt_Truncated : bool; gt_Entries : list GEntry }.

(** Workflow runs and their jobs. *)
Record GRun := {
  gn_ID : Z; gn_HTMLURL : string; gn_HeadSHA : string; gn_Status : string; gn_Conclusion : string }.
Record GRuns := { gn_TotalCount : Z; gn_Runs : list GRun }.
Record GJob := { gj_ID : Z; gj_Name : string; gj_Status : string; gj_Conclusion : string }.

(** Packages; a zero time is no time, [None] a nil repository, and a version
    without container metadata has no tags. *)
Record GPackage := {
  gp_Name : string; gp_Type : string; gp_Visibility : string; gp_HTMLURL : string;
  gp_VersionCount : Z; gp_UpdatedAt : Time; gp_Repository : option string }.
Record GVersion := { gv_Name : string; gv_CreatedAt : Time; gv_Tags : list string }.

(** Pull requests and what is said about them. *)
Record GPull := {
  gq_Number : Z; gq_HTMLURL : string; gq_BaseRepo : string; gq_HeadRepo : string;
  gq_Head : string; gq_Base : string; gq_SHA : string; gq_State : string; gq_Merged : bool;
  gq_MergeCommit : string; gq_Merger : string; gq_MergerType : string; gq_MergedAt : Time }.
Record GCheck := {
  gk_CheckID : Z; gk_App : Z; gk_Name : string; gk_Head : string; gk_Status : string;
  gk_Conclusion : string; gk_DetailsURL : string; gk_OutTitle : string; gk_OutSummary : string;
  gk_OutText : string; gk_Annotations : Z }.
Record GChecks := { gk_Total : Z; gk_Runs : list GCheck }.
Record GAnnotation := {
  ga_Path : string; ga_StartLine : Z; ga_EndLine : Z; ga_Level : string; ga_Title : string;
  ga_Message : string; ga_RawDetails : string }.
Record GReview := {
  gw_ID : Z; gw_Login : string; gw_UserType : string; gw_Commit : string; gw_State : string;
  gw_Body : string; gw_SubmittedAt : Time }.
Record GReviewComment := {
  gx_ID : Z; gx_ReviewID : Z; gx_Commit : string; gx_Path : string; gx_Line : Z; gx_Body : string }.
Record GComment := {
  gc_ID : Z; gc_HTMLURL : string; gc_Body : string; gc_Login : string; gc_UserType : string;
  gc_UpdatedAt : Time }.

(** ** Calls *)

Inductive Call :=
  | GGetUser (login : string) (r : Answer GUser)
  | GAppRepos (r : Answer (list (option string)))
  | GGetRepo (owner name : string) (r : Answer GRepository)
  | GCreateRepo (org : string) (repo : NewRepository) (r : Answer GRepository)
  | GDeleteRepo (owner name : string) (r : Answer unit)
  | GGetRef (owner name ref : string) (r : Answer Reference)
  | GListCommits (owner name sha : string) (perPage : Z) (r : Answer (list GRepositoryCommit))
  | GCreateBlob (owner name content encoding : string) (r : Answer string)
  | GGetCommit (owner name sha : string) (r : Answer GCommit)
  | GGetTree (owner name sha : string) (r : Answer GTree)
  | GCreateTree (owner name base : string) (entries : list TreeEntry) (r : Answer GTree)
  | GCreateCommit (owner name message tree : string) (parents : list string) (r : Answer GCommit)
  | GCreateRef (owner name ref sha : string) (r : Answer unit)
  | GUpdateRef (owner name ref sha : string) (force : bool) (r : Answer unit)
  | GListKeys (owner name : string) (perPage : Z) (r : Answer (list GKey))
  | GCreateKey (owner name title key : string) (readOnly : bool) (r : Answer GKey)
  | GDeleteKey (owner name : string) (id : Z) (r : Answer unit)
  | GAddCollaborator (owner name user permission : string) (r : Answer (option GInvitation))
  | GListInvitations (owner name : string) (perPage : Z) (r : Answer (list GInvitation))
  | GDeleteInvitation (owner name : string) (id : Z) (r : Answer unit)
  | GRemoveCollaborator (owner name user : string) (r : Answer unit)
  | GGetCommitSHA1 (owner name ref : string) (r : Answer string)
  | GGetBlobRaw (owner name sha : string) (r : Answer string)
  | GListRuns (owner name file headSHA : string) (r : Answer GRuns)
  | GListJobs (owner name : string) (run : Z) (r : Answer (list GJob))
  | GJobLogs (owner name : string) (job : Z) (r : Answer (option string))
  | GDispatch (owner name file ref : string) (r : Answer unit)
  | GListPackages (org type : string) (asUser : bool) (page : Z) (r : Answer (list GPackage))
  | GListVersions (org type name : string) (asUser : bool) (page : Z) (r : Answer (list GVersion))
  | GListBranches (owner name : string) (page : Z) (r : Answer (list (option string)))
  | GListPulls (owner name head base : string) (page : Z) (r : Answer (list GPull))
  | GGetPull (owner name : string) (number : Z) (r : Answer GPull)
  | GCreatePull (owner name title body head base : string) (r : Answer GPull)
  | GEditPull (owner name : string) (number : Z) (title body : string) (r : Answer GPull)
  | GListChecks (owner name commit : string) (page : Z) (r : Answer GChecks)
  | GListAnnotations (owner name : string) (check : Z) (page : Z) (r : Answer (list GAnnotation))
  | GListReviews (owner name : string) (number page : Z) (r : Answer (list GReview))
  | GListReviewComments (owner name : string) (number review page : Z)
      (r : Answer (list GReviewComment))
  | GListIssueComments (owner name : string) (number page : Z) (r : Answer (list GComment))
  | GCreateComment (owner name : string) (number : Z) (body : string) (r : Answer GComment)
  | GReply (owner name : string) (number : Z) (body : string) (parent : Z) (r : Answer GComment).

Inductive GEvent :=
  | GNow (t : Time)
  | GCall (c : Client) (call : Call)
  (* a request of the default HTTP client, without credentials *)
  | GFetch (url : string) (r : option (string * bool))
  (* the package listing cache: an answer served, a flight joined, and an own
     flight's result published, with the cached bodies before and after *)
  | GCacheHit (key body : string)
  | GJoined (key : string) (r : error + string)
  | GPublish (key : string) (before after : list (string * string)) (r : error + string).

Class GitHub (W : Type) := {
  gh_now : W → Time * W;
  (* [WithEnterpriseURLs]: whether the base URL is accepted *)
  gh_enterprise : string → option error;
  gh_get_user : Client → string → W → Answer GUser * W;
  gh_app_repos : Client → W → Answer (list (option string)) * W;
  gh_get_repo : Client → string → string → W → Answer GRepository * W;
  gh_create_repo : Client → string → NewRepository → W → Answer GRepository * W;
  gh_delete_repo : Client → string → string → W → Answer unit * W;
  gh_get_ref : Client → string → string → string → W → Answer Reference * W;
  gh_list_commits : Client → string → string → string → Z → W →
    Answer (list GRepositoryCommit) * W;
  gh_create_blob : Client → string → string → string → string → W → Answer string * W;
  gh_get_commit : Client → string → string → string → W → Answer GCommit * W;
  gh_get_tree : Client → string → string → string → W → Answer GTree * W;
  gh_create_tree : Client → string → string → string → list TreeEntry → W → Answer GTree * W;
  gh_create_commit : Client → string → string → string → string → list string → W →
    Answer GCommit * W;
  gh_create_ref : Client → string → string → string → string → W → Answer unit * W;
  gh_update_ref : Client → string → string → string → string → bool → W → Answer unit * W;
  gh_list_keys : Client → string → string → Z → W → Answer (list GKey) * W;
  gh_create_key : Client → string → string → string → string → bool → W → Answer GKey * W;
  gh_delete_key : Client → string → string → Z → W → Answer unit * W;
  gh_add_collaborator : Client → string → string → string → string → W →
    Answer (option GInvitation) * W;
  gh_list_invitations : Client → string → string → Z → W → Answer (list GInvitation) * W;
  gh_delete_invitation : Client → string → string → Z → W → Answer unit * W;
  gh_remove_collaborator : Client → string → string → string → W → Answer unit * W;
  gh_get_commit_sha1 : Client → string → string → string → W → Answer string * W;
  gh_get_blob_raw : Client → string → string → string → W → Answer string * W }.

Abbreviation GEff W := (M W GEvent) (only parsing).

Section Calls.
Context {W : Type} `{GitHub W}.

Definition g_now : GEff W Time := call gh_now GNow.
(** [err.Error()]. *)
Definition g_text (e : error) : GEff W string := now ← g_now; mret (ErrorText now e).

Definition g_get_user c login := call (gh_get_user c login) (λ r, GCall c (GGetUser login r)).
Definition g_app_repos c := call (gh_app_repos c) (λ r, GCall c (GAppRepos r)).
Definition g_get_repo c o n := call (gh_get_repo c o n) (λ r, GCall c (GGetRepo o n r)).
Definition g_create_repo c o nr := call (gh_create_repo c o nr) (λ r, GCall c (GCreateRepo o nr r)).
Definition g_delete_repo c o n := call (gh_delete_repo c o n) (λ r, GCall c (GDeleteRepo o n r)).
Definition g_get_ref c o n ref := call (gh_get_ref c o n ref) (λ r, GCall c (GGetRef o n ref r)).
Definition g_list_commits c o n sha pp :=
  call (gh_list_commits c o n sha pp) (λ r, GCall c (GListCommits o n sha pp r)).
Definition g_create_blob c o n content enc :=
  call (gh_create_blob c o n content enc) (λ r, GCall c (GCreateBlob o n content enc r)).
Definition g_get_commit c o n sha :=
  call (gh_get_commit c o n sha) (λ r, GCall c (GGetCommit o n sha r)).
Definition g_get_tree c o n sha := call (gh_get_tree c o n sha) (λ r, GCall c (GGetTree o n sha r)).
Definition g_create_tree c o n base es :=
  call (gh_create_tree c o n base es) (λ r, GCall c (GCreateTree o n base es r)).
Definition g_create_commit c o n msg tree ps :=
  call (gh_create_commit c o n msg tree ps) (λ r, GCall c (GCreateCommit o n msg tree ps r)).
Definition g_create_ref c o n ref sha :=
  call (gh_create_ref c o n ref sha) (λ r, GCall c (GCreateRef o n ref sha r)).
Definition g_update_ref c o n ref sha f :=
  call (gh_update_ref c o n ref sha f) (λ r, GCall c (GUpdateRef o n ref sha f r)).
Definition g_list_keys c o n pp := call (gh_list_keys c o n pp) (λ r, GCall c (GListKeys o n pp r)).
Definition g_create_key c o n title key ro :=
  call (gh_create_key c o n title key ro) (λ r, GCall c (GCreateKey o n title key ro r)).
Definition g_delete_key c o n id :=
  call (gh_delete_key c o n id) (λ r, GCall c (GDeleteKey o n id r)).
Definition g_add_collaborator c o n u p :=
  call (gh_add_collaborator c o n u p) (λ r, GCall c (GAddCollaborator o n u p r)).
Definition g_list_invitations c o n pp :=
  call (gh_list_invitations c o n pp) (λ r, GCall c (GListInvitations o n pp r)).
Definition g_delete_invitation c o n id :=
  call (gh_delete_invitation c o n id) (λ r, GCall c (GDeleteInvitation o n id r)).
Definition g_remove_collaborator c o n u :=
  call (gh_remove_collaborator c o n u) (λ r, GCall c (GRemoveCollaborator o n u r)).
Definition g_get_commit_sha1 c o n ref :=
  call (gh_get_commit_sha1 c o n ref) (λ r, GCall c (GGetCommitSHA1 o n ref r)).
Definition g_get_blob_raw c o n sha :=
  call (gh_get_blob_raw c o n sha) (λ r, GCall c (GGetBlobRaw o n sha r)).
End Calls.

(** Calls that change the host. *)
Definition mutates (e : GEvent) : bool :=
  match e with
  | GCall _ (GCreateRepo _ _ _) | GCall _ (GDeleteRepo _ _ _) | GCall _ (GCreateBlob _ _ _ _ _)
  | GCall _ (GCreateTree _ _ _ _ _) | GCall _ (GCreateCommit _ _ _ _ _ _)
  | GCall _ (GCreateRef _ _ _ _ _) | GCall _ (GUpdateRef _ _ _ _ _ _)
  | GCall _ (GCreateKey _ _ _ _ _ _) | GCall _ (GDeleteKey _ _ _ _)
  | GCall _ (GAddCollaborator _ _ _ _ _) | GCall _ (GDeleteInvitation _ _ _ _)
  | GCall _ (GRemoveCollaborator _ _ _ _) | GCall _ (GDispatch _ _ _ _ _)
  | GCall _ (GCreatePull _ _ _ _ _ _ _) | GCall _ (GEditPull _ _ _ _ _ _)
  | GCall _ (GCreateComment _ _ _ _ _) | GCall _ (GReply _ _ _ _ _ _) => true
  | _ => false
  end.

(** ** A host with fixed answers, for running the definitions on examples *)

Record FixedHost := {
  fh_Repo : Answer GRepository; fh_Created : Answer GRepository; fh_Ref : Answer Reference;
  fh_Commits : list GRepositoryCommit; fh_Commit : Answer GCommit; fh_Tree : Answer GTree;
  fh_NewTree : Answer GTree; fh_NewCommit : Answer GCommit; fh_Update : Answer unit;
  fh_Blobs : list (string * string) }.

Definition fixed_github_on (W : Type) (h : FixedHost) : GitHub W := {|
  gh_now := λ w, (0%Z, w);
  gh_enterprise := λ _, None;
  gh_get_user := λ _ login w, (GOk {| gu_Login := login; gu_Type := "User" |} None, w);
  gh_app_repos := λ _ w, (GOk [] None, w);
  gh_get_repo := λ _ _ _ w, (fh_Repo h, w);
  gh_create_repo := λ _ _ _ w, (fh_Created h, w);
  gh_delete_repo := λ _ _ _ w, (GOk tt None, w);
  gh_get_ref := λ _ _ _ _ w, (fh_Ref h, w);
  gh_list_commits := λ _ _ _ _ _ w, (GOk (fh_Commits h) None, w);
  gh_create_blob := λ _ _ _ _ _ w, (GOk "b10b" None, w);
  gh_get_commit := λ _ _ _ _ w, (fh_Commit h, w);
  gh_get_tree := λ _ _ _ _ w, (fh_Tree h, w);
  gh_create_tree := λ _ _ _ _ _ w, (fh_NewTree h, w);
  gh_create_commit := λ _ _ _ _ _ _ w, (fh_NewCommit h, w);
  gh_create_ref := λ _ _ _ _ _ w, (fh_Update h, w);
  gh_update_ref := λ _ _ _ _ _ _ w, (fh_Update h, w);
  gh_list_keys := λ _ _ _ _ w, (GOk [] None, w);
  gh_create_key := λ _ _ _ t k r w,
    (GOk {| gk_ID := 1; gk_Key := k; gk_Title := t; gk_ReadOnly := r |} None, w);
  gh_delete_key := λ _ _ _ _ w, (GOk tt None, w);
  gh_add_collaborator := λ _ _ _ _ _ w, (GOk None None, w);
  gh_list_invitations := λ _ _ _ _ w, (GOk [] None, w);
  gh_delete_invitation := λ _ _ _ _ w, (GOk tt None, w);
  gh_remove_collaborator := λ _ _ _ _ w, (GOk tt None, w);
  gh_get_commit_sha1 := λ _ _ _ ref w, (GOk ("sha-of-" +:+ ref) None, w);
  gh_get_blob_raw := λ _ _ _ sha w,
    (match List.find (λ b, bool_decide (b.1 = sha)) (fh_Blobs h) with
     | Some b => GOk b.2 None
     | None => GErr None (ENew "404 Not Found")
     end, w) |}.

Definition fixed_github : FixedHost → GitHub unit := fixed_github_on unit.

Definition http (code : Z) : option Response :=
  Some {| rsp_StatusCode := code; rsp_NextPage := 0; rsp_Scopes := "" |}.
Definition not_found {A} : Answer A := GErr (http 404) (ENew "404 Not Found").

(** An empty account: nothing exists, everything can be created. *)
Definition empty_host : FixedHost := {|
  fh_Repo := not_found;
  fh_Created := GOk {| gr_ID := 7; gr_FullName := "acme/app"; gr_DefaultBranch := "main";
    gr_HTMLURL := "https://github.com/acme/app";
    gr_CloneURL := ""; gr_SSHURL := "" |} (http 201);
  fh_Ref := not_found; fh_Commits := []; fh_Commit := not_found; fh_Tree := not_found;
  fh_NewTree := GOk {| gt_SHA := "7ree"; gt_Truncated := false; gt_Entries := [] |} (http 201);
  fh_NewCommit := GOk {| gm_SHA := "c0ffee"; gm_Message := ""; gm_HTMLURL := "";
    gm_Tree := Some "7ree" |} (http 201);
  fh_Update := GOk tt (http 201); fh_Blobs := [] |}.
