(* ===== verification/GitHubRepositories.v ===== *)
(** * backend/github/backend.go: repositories, keys and collaborators

    Clients, error classification and the calls that manage repositories,
    deploy keys and collaborators, over the API of [GitHubApi]. *)

From S2P Require Import Prelude GoStrings GoTime Errors Api Backend GitHubApi.
From Stdlib Require Import Ascii Lia.

#[local] Open Scope string_scope.
#[local] Open Scope Z_scope.

Definition githubRequestTimeout : Duration := 30 * Second.
Definition githubBlobRequestTimeout : Duration := 3 * Minute.
Definition defaultRateLimitRetryAfter : Duration := Minute.
Definition createOnlyAnnotation : string := "code.railgrid.ai/create-only".
Definition existingOnlyAnnotation : string := "code.railgrid.ai/existing-only".

(** HTTP status codes. *)
Definition StatusNoContent : Z := 204.
Definition StatusUnauthorized : Z := 401.
Definition StatusForbidden : Z := 403.
Definition StatusNotFound : Z := 404.
Definition StatusConflict : Z := 409.
Definition StatusUnprocessableEntity : Z := 422.

(** [resp != nil && resp.StatusCode == code] *)
Definition has_status (code : Z) (resp : option Response) : bool :=
  match resp with Some r => bool_decide (rsp_StatusCode r = code) | None => false end.

Definition annotated (repo : Repository) (key : string) : bool :=
  bool_decide (om_Annotations (rp_Meta repo) !! key = Some "true").

Definition owner (conn : Connection) (repo : Repository) : string :=
  if decide (rs_Owner (rp_Spec repo) ≠ "") then rs_Owner (rp_Spec repo) else cs_Owner (cn_Spec conn).

Definition repoResult (r : GRepository) : RepositoryResult :=
  {| rr_RepoID := FormatInt (gr_ID r); rr_HTMLURL := gr_HTMLURL r; rr_CloneURL := gr_CloneURL r;
     rr_SSHURL := gr_SSHURL r |}.

(** A recorded identity must match; a create-only repository must have one. *)
Definition checkRepositoryIdentity (repo : Repository) (remote : GRepository) : option error :=
  let id := rt_RepoID (rp_Status repo) in
  if bool_decide (id = "") && negb (annotated repo createOnlyAnnotation) then None
  else if bool_decide (id = "") || bool_decide (gr_ID remote = 0)
          || negb (bool_decide (id = FormatInt (gr_ID remote))) then
    Some (EWrap "" EIdentityConflict
      (": repository " +:+ Quote (rs_Name (rp_Spec repo)) +:+
       " already exists and its ownership could not be confirmed; create a new repository from project Git settings"))
  else None.

Definition isNotOrg (resp : option Response) : bool := has_status StatusNotFound resp.

Fixpoint nonempty_trimmed (l : list string) : list string :=
  match l with
  | [] => []
  | p :: l => if decide (TrimSpace p ≠ "") then TrimSpace p :: nonempty_trimmed l
              else nonempty_trimmed l
  end.
Definition parseScopes (resp : option Response) : list string :=
  match resp with
  | None => []
  | Some r => if decide (TrimSpace (rsp_Scopes r) = "") then []
              else nonempty_trimmed (SplitByte ","%char (rsp_Scopes r))
  end.

Definition sameKeyMaterial (a b : string) : bool :=
  match Fields a, Fields b with
  | a0 :: a1 :: _, b0 :: b1 :: _ => bool_decide (a0 = b0) && bool_decide (a1 = b1)
  | _, _ => false
  end.

Section GitHub.
Context {W : Type} `{GitHub W}.

Definition clientWithTimeout (cred : Credential) (baseURL : string) (timeout : Duration)
    : error + Client :=
  if decide (cr_Token cred = "") then inl (ENew "github: empty credential token")
  else
    let c := {| gc_Token := cr_Token cred; gc_BaseURL := baseURL; gc_Timeout := timeout |} in
    if decide (baseURL = "") then inr c
    else match gh_enterprise baseURL with
         | Some err => inl (Wrap ("github: invalid baseURL " +:+ Quote baseURL +:+ ": ") err)
         | None => inr c
         end.
Definition client (cred : Credential) (baseURL : string) : error + Client :=
  clientWithTimeout cred baseURL githubRequestTimeout.
Definition blobClient (cred : Credential) (baseURL : string) : error + Client :=
  clientWithTimeout cred baseURL githubBlobRequestTimeout.

(** Rate limits first, then authentication failures; a rate limit without a
    reset or a positive Retry-After is waited out for a minute. *)
Definition classify (resp : option Response) (err : error) : GEff W error :=
  match AsRateLimit err with
  | Some _ => mret err
  | None =>
      match AsGitHubRate err with
      | Some reset =>
          if IsZero reset then
            now ← g_now;
            mret (ERateLimit (Add now defaultRateLimitRetryAfter) (Some err))
          else mret (ERateLimit (Add reset Second) (Some err))
      | None =>
          match AsGitHubAbuse err with
          | Some after =>
              let retryAfter := match after with
                                | Some d => if 0 <? d then d else defaultRateLimitRetryAfter
                                | None => defaultRateLimitRetryAfter
                                end in
              now ← g_now;
              mret (ERateLimit (Add now retryAfter) (Some err))
          | None =>
              if has_status StatusUnauthorized resp then
                mret (Wrap "github: credential rejected (401): " err)
              else if has_status StatusForbidden resp then
                mret (Wrap "github: forbidden — token lacks the required scope (403): " err)
              else mret err
          end
      end
  end.

(** [return ..., classify(resp, err)]. *)
Definition refuse {A} (resp : option Response) (err : error) : GEff W (error + A) :=
  e ← classify resp err; mret (inl e).

Definition ValidateConnection (conn : Connection) (cred : Credential)
    : GEff W (error + (string * list string)) :=
  match client cred (cs_BaseURL (cn_Spec conn)) with
  | inl err => mret (inl err)
  | inr c =>
      if decide (cs_Type (cn_Spec conn) = CredentialTypeGitHubApp) then
        r ← g_app_repos c;
        match r with
        | GErr resp err => refuse resp err
        | GOk (Some login :: _) _ =>
            if EqualFold login (cs_Owner (cn_Spec conn)) then mret (inr (login, []))
            else mret (inl (ENew "github: installation owner differs from Connection owner"))
        | GOk _ _ =>
            mret (inl (ENew "github: installation must have access to at least one repository"))
        end
      else
        r ← g_get_user c "";
        match r with
        | GErr resp err => refuse resp err
        | GOk user resp =>
            if decide (gu_Login user = "") then
              mret (inl (ENew "github: authenticated but no login returned"))
            else mret (inr (gu_Login user, parseScopes resp))
        end
  end.

(** The request that creates a repository. *)
Definition newRepository (repo : Repository) : NewRepository :=
  let s := rp_Spec repo in
  {| nr_Name := rs_Name s; nr_Private := negb (bool_decide (rs_Visibility s = VisibilityPublic));
     nr_Description := rs_Description s; nr_AutoInit := rs_AutoInit s;
     nr_DefaultBranch := if decide (rs_DefaultBranch s ≠ "") then Some (rs_DefaultBranch s) else None;
     nr_Visibility := if decide (rs_Visibility s ≠ "") then Some (rs_Visibility s) else None |}.

(** Under the organisation, or under the user when the owner is none. *)
Definition createRepository (c : Client) (org : string) (repo : Repository)
    : GEff W (error + RepositoryResult) :=
  r ← g_create_repo c org (newRepository repo);
  match r with
  | GOk created _ => mret (inr (repoResult created))
  | GErr resp err =>
      if isNotOrg resp then
        again ← g_create_repo c "" (newRepository repo);
        match again with
        | GOk created _ => mret (inr (repoResult created))
        | GErr resp err => refuse resp err
        end
      else refuse resp err
  end.

Definition EnsureRepository (conn : Connection) (cred : Credential) (repo : Repository)
    : GEff W (error + RepositoryResult) :=
  match client cred (cs_BaseURL (cn_Spec conn)) with
  | inl err => mret (inl err)
  | inr c =>
      let org := owner conn repo in
      r ← g_get_repo c org (rs_Name (rp_Spec repo));
      match r with
      | GOk existing _ =>
          match checkRepositoryIdentity repo existing with
          | Some err => mret (inl err)
          | None => mret (inr (repoResult existing))
          end
      | GErr resp err =>
          if negb (has_status StatusNotFound resp) then refuse resp err
          else if decide (rt_RepoID (rp_Status repo) ≠ "") then mret (inl EIdentityConflict)
          else if annotated repo existingOnlyAnnotation then
            mret (inl (ENew "github: registered repository is unavailable; existing-only registration cannot create it"))
          else createRepository c org repo
      end
  end.

(** [c.Repositories.Delete]; a missing repository is success. *)
Definition deleteHostRepository (c : Client) (org name : string) : GEff W (option error) :=
  r ← g_delete_repo c org name;
  match r with
  | GOk _ _ => mret None
  | GErr resp err =>
      if has_status StatusNotFound resp then mret None
      else e ← classify resp err; mret (Some e)
  end.

Definition DeleteRepository (conn : Connection) (cred : Credential) (repo : Repository)
    : GEff W (option error) :=
  if annotated repo existingOnlyAnnotation then mret None
  else
    match client cred (cs_BaseURL (cn_Spec conn)) with
    | inl err => mret (Some err)
    | inr c =>
        let org := owner conn repo in
        let name := rs_Name (rp_Spec repo) in
        if annotated repo createOnlyAnnotation then
          if decide (rt_RepoID (rp_Status repo) = "") then mret None
          else
            r ← g_get_repo c org name;
            match r with
            | GErr resp err =>
                if has_status StatusNotFound resp then mret None
                else e ← classify resp err; mret (Some e)
            | GOk existing _ =>
                match checkRepositoryIdentity repo existing with
                | Some err => mret (Some err)
                | None => deleteHostRepository c org name
                end
            end
        else deleteHostRepository c org name
    end.

Definition find_key (keys : list GKey) (publicKey : string) : option GKey :=
  List.find (λ k, sameKeyMaterial (gk_Key k) publicKey) keys.

Definition EnsureDeployKey (conn : Connection) (cred : Credential) (repo : Repository)
    (key : DeployKey) (publicKey : string) : GEff W (error + DeployKeyResult) :=
  match client cred (cs_BaseURL (cn_Spec conn)) with
  | inl err => mret (inl err)
  | inr c =>
      let org := owner conn repo in
      r ← g_list_keys c org (rs_Name (rp_Spec repo)) 100;
      match r with
      | GErr resp err => refuse resp err
      | GOk keys _ =>
          match find_key keys publicKey with
          | Some k => mret (inr {| kr_KeyID := FormatInt (gk_ID k) |})
          | None =>
              let title := if decide (ds_Title (dk_Spec key) = "") then om_Name (dk_Meta key)
                           else ds_Title (dk_Spec key) in
              n ← g_create_key c org (rs_Name (rp_Spec repo)) title publicKey
                    (ds_ReadOnly (dk_Spec key));
              match n with
              | GErr resp err => refuse resp err
              | GOk created _ => mret (inr {| kr_KeyID := FormatInt (gk_ID created) |})
              end
          end
      end
  end.

Definition DeleteDeployKey (conn : Connection) (cred : Credential) (repo : Repository)
    (keyID : string) : GEff W (option error) :=
  if decide (keyID = "") then mret None
  else
    match ParseInt keyID 64 with
    | None => mret (Some (Wrap ("github: invalid deploy key id " +:+ Quote keyID +:+ ": ")
                           (ENew ("strconv.ParseInt: parsing " +:+ Quote keyID +:+ ": invalid syntax"))))
    | Some id =>
        match client cred (cs_BaseURL (cn_Spec conn)) with
        | inl err => mret (Some err)
        | inr c =>
            r ← g_delete_key c (owner conn repo) (rs_Name (rp_Spec repo)) id;
            match r with
            | GOk _ _ => mret None
            | GErr resp err =>
                if has_status StatusNotFound resp then mret None
                else e ← classify resp err; mret (Some e)
            end
        end
    end.

Definition EnsureCollaborator (conn : Connection) (cred : Credential) (repo : Repository)
    (collab : Collaborator) : GEff W (error + CollaboratorResult) :=
  match client cred (cs_BaseURL (cn_Spec conn)) with
  | inl err => mret (inl err)
  | inr c =>
      let perm := if decide (ls_Permission (cl_Spec collab) = "") then PermissionPull
                  else ls_Permission (cl_Spec collab) in
      r ← g_add_collaborator c (owner conn repo) (rs_Name (rp_Spec repo))
            (ls_Username (cl_Spec collab)) perm;
      match r with
      | GErr resp err => refuse resp err
      | GOk inv resp =>
          if has_status StatusNoContent resp then
            mret (inr {| lr_Pending := false; lr_InvitationID := "" |})
          else
            match inv with
            | Some i =>
                if decide (gi_ID i ≠ 0) then
                  mret (inr {| lr_Pending := true; lr_InvitationID := FormatInt (gi_ID i) |})
                else mret (inr {| lr_Pending := false; lr_InvitationID := "" |})
            | None => mret (inr {| lr_Pending := false; lr_InvitationID := "" |})
            end
      end
  end.

(** Cancelling an invitation, if it is for the user. *)
Definition cancelInvitation (c : Client) (org name username : string) (inv : GInvitation)
    : GEff W (option error) :=
  match gi_Invitee inv with
  | Some login =>
      if EqualFold login username then
        r ← g_delete_invitation c org name (gi_ID inv);
        match r with
        | GOk _ _ => mret None
        | GErr _ err =>
            mret (Some (Wrap ("github: cancel invitation for " +:+ Quote username +:+ ": ") err))
        end
      else mret None
  | None => mret None
  end.

Definition removeAccepted (c : Client) (org name username : string) : GEff W (option error) :=
  r ← g_remove_collaborator c org name username;
  match r with
  | GOk _ _ => mret None
  | GErr resp err =>
      if has_status StatusNotFound resp then mret None
      else e ← classify resp err; mret (Some e)
  end.

Definition RemoveCollaborator (conn : Connection) (cred : Credential) (repo : Repository)
    (collab : Collaborator) : GEff W (option error) :=
  match client cred (cs_BaseURL (cn_Spec conn)) with
  | inl err => mret (Some err)
  | inr c =>
      let org := owner conn repo in
      let name := rs_Name (rp_Spec repo) in
      let username := ls_Username (cl_Spec collab) in
      r ← g_list_invitations c org name 100;
      match r with
      | GOk invites _ =>
          e ← for_each invites (cancelInvitation c org name username);
          match e with
          | Some err => mret (Some err)
          | None => removeAccepted c org name username
          end
      | GErr resp err =>
          if has_status StatusNotFound resp then removeAccepted c org name username
          else e ← classify resp err; mret (Some e)
      end
  end.
End GitHub.

(** ** Lemmas *)

Section Lemmas.
Context {W : Type} `{GitHub W}.

Lemma classify_now resp err : emits (classify resp err) (λ _ t, Forall (λ e, ∃ now, e = GNow now) t).
Proof.
  unfold classify, g_now. emit_run; repeat constructor; by eexists.
Qed.

Lemma classify_limited resp err :
  emits (classify resp err) (λ e _, AsRateLimit err ≠ None → e = err).
Proof. unfold classify, g_now. emit_run; by intros ?. Qed.

Lemma checkRepositoryIdentity_ok repo remote :
  checkRepositoryIdentity repo remote = None ↔
  (rt_RepoID (rp_Status repo) = "" ∧ annotated repo createOnlyAnnotation = false) ∨
  (rt_RepoID (rp_Status repo) ≠ "" ∧ gr_ID remote ≠ 0 ∧
   rt_RepoID (rp_Status repo) = FormatInt (gr_ID remote)).
Proof.
  unfold checkRepositoryIdentity. destruct (annotated repo createOnlyAnnotation);
    repeat case_bool_decide; simpl; naive_solver.
Qed.

(** What an identity check guards. *)
Context (P : list GEvent → GEvent → Prop) (Pquiet : ∀ h e, mutates e = false → P h e).

Lemma quiet_hoare {A} (op : W → A * W) (ev : A → GEvent) h (Q : A → list GEvent → Prop) :
  (∀ a, mutates (ev a) = false) → (∀ a, Q a (h ++ [ev a])%list) → hoare P h (call op ev) Q.
Proof. intros Hm HQ. apply hoare_call; [|done]. intros a. by apply Pquiet. Qed.

Lemma classify_hoare h resp err (Q : error → list GEvent → Prop) :
  (∀ e t, Q e (h ++ t)%list) → hoare P h (classify resp err) Q.
Proof.
  intros HQ. eapply (hoare_all P (λ e, ∃ now, e = GNow now) _ _ (λ _ _, True)).
  - eapply emits_mono; [apply classify_now|]. done.
  - intros h' e [now ->]. by apply Pquiet.
  - intros e t _ _. apply HQ.
Qed.

Lemma refuse_hoare {A} h resp err (Q : error + A → list GEvent → Prop) :
  (∀ e t, Q (inl e) (h ++ t)%list) → hoare P h (refuse resp err) Q.
Proof. intros HQ. apply hoare_bind, classify_hoare. intros e t. by apply hoare_ret. Qed.
End Lemmas.

(** ** Repository identity *)

(** The host's answer that no such repository exists. *)
Definition missing (org name : string) (t : list GEvent) : Prop :=
  ∃ c resp err, GCall c (GGetRepo org name (GErr resp err)) ∈ t ∧
    has_status StatusNotFound resp = true.

Definition ensure_guard (conn : Connection) (repo : Repository) (before : list GEvent) (e : GEvent)
    : Prop :=
  match e with
  | GCall _ (GCreateRepo org nr _) =>
      (org = owner conn repo ∨ org = "") ∧ nr = newRepository repo ∧
      rt_RepoID (rp_Status repo) = "" ∧ annotated repo existingOnlyAnnotation = false ∧
      missing (owner conn repo) (rs_Name (rp_Spec repo)) before
  | _ => mutates e = false
  end.

Definition ensure_result (conn : Connection) (repo : Repository)
    (r : error + RepositoryResult) (t : list GEvent) : Prop :=
  ∀ res, r = inr res →
    (∃ c existing resp, GCall c (GGetRepo (owner conn repo) (rs_Name (rp_Spec repo)) (GOk existing resp)) ∈ t ∧
       res = repoResult existing ∧
       (rt_RepoID (rp_Status repo) = "" ∧ annotated repo createOnlyAnnotation = false ∨
        rt_RepoID (rp_Status repo) = rr_RepoID res ∧ gr_ID existing ≠ 0)) ∨
    (rt_RepoID (rp_Status repo) = "" ∧ ∃ c org nr created resp,
       GCall c (GCreateRepo org nr (GOk created resp)) ∈ t ∧ res = repoResult created).

Section Identity.
Context {W : Type} `{GitHub W}.
Implicit Types conn : Connection.
Implicit Types repo : Repository.

Lemma ensure_quiet conn repo h e : mutates e = false → ensure_guard conn repo h e.
Proof. destruct e as [|c []| | | |]; done. Qed.

Lemma createRepository_hoare conn repo h c :
  rt_RepoID (rp_Status repo) = "" → annotated repo existingOnlyAnnotation = false →
  missing (owner conn repo) (rs_Name (rp_Spec repo)) h →
  hoare (ensure_guard conn repo) h (createRepository (W := W) c (owner conn repo) repo)
    (ensure_result conn repo).
Proof.
  intros Hid Hex Hm. apply hoare_bind, hoare_call.
  { intros r. by repeat split; try left. }
  assert (Hok : ∀ h' org created resp, ensure_result conn repo (inr (repoResult created))
      (h' ++ [GCall c (GCreateRepo org (newRepository repo) (GOk created resp))])%list).
  { intros h' org created resp res [= <-]. right. split; [done|].
    exists c, org, (newRepository repo), created, resp. split; [apply elem_snoc|done]. }
  intros [resp err|created resp]; [|apply hoare_ret, Hok].
  destruct (isNotOrg resp); [|apply refuse_hoare; [apply ensure_quiet|done]].
  apply hoare_bind, hoare_call.
  { intros r. split; [by right|]. split_and!; [done..|].
    destruct Hm as (c' & resp' & err' & Hin & ?). exists c', resp', err'.
    split; [by apply elem_before|done]. }
  intros [resp2 err2|created resp2]; [|apply hoare_ret, Hok].
  apply refuse_hoare; [apply ensure_quiet|done].
Qed.

Lemma EnsureRepository_hoare conn cred repo :
  hoare (ensure_guard conn repo) [] (EnsureRepository (W := W) conn cred repo)
    (ensure_result conn repo).
Proof.
  unfold EnsureRepository. destruct (client _ _) as [err|c]; [by apply hoare_ret|].
  apply hoare_bind, quiet_hoare; [apply ensure_quiet|done|]. intros [resp err|existing resp].
  - destruct (has_status StatusNotFound resp) eqn:Hs; simpl.
    2: { apply refuse_hoare; [apply ensure_quiet|done]. }
    destruct (decide _) as [Hid|Hid]; [by apply hoare_ret|].
    destruct (annotated repo existingOnlyAnnotation) eqn:Hex; [by apply hoare_ret|].
    apply dec_stable in Hid. apply createRepository_hoare; [done..|].
    exists c, resp, err. split; [by left|done].
  - destruct (checkRepositoryIdentity repo existing) eqn:Hc; [by apply hoare_ret|].
    apply hoare_ret. intros res [= <-]. left. exists c, existing, resp. split; [by left|].
    split; [done|]. apply checkRepositoryIdentity_ok in Hc as [?|(? & ? & ?)]; [by left|by right].
Qed.
End Identity.

Definition delete_guard (conn : Connection) (repo : Repository) (before : list GEvent) (e : GEvent)
    : Prop :=
  match e with
  | GCall _ (GDeleteRepo org name _) =>
      org = owner conn repo ∧ name = rs_Name (rp_Spec repo) ∧
      annotated repo existingOnlyAnnotation = false ∧
      (annotated repo createOnlyAnnotation = true →
         ∃ c existing resp, GCall c (GGetRepo org name (GOk existing resp)) ∈ before ∧
           rt_RepoID (rp_Status repo) = FormatInt (gr_ID existing) ∧ gr_ID existing ≠ 0)
  | _ => mutates e = false
  end.

(** Success means the repository was deleted, does not exist, or was never this
    object's to delete. *)
Definition delete_result (conn : Connection) (repo : Repository) (r : option error)
    (t : list GEvent) : Prop :=
  r = None →
    annotated repo existingOnlyAnnotation = true ∨
    (annotated repo createOnlyAnnotation = true ∧ rt_RepoID (rp_Status repo) = "") ∨
    missing (owner conn repo) (rs_Name (rp_Spec repo)) t ∨
    ∃ c a, GCall c (GDeleteRepo (owner conn repo) (rs_Name (rp_Spec repo)) a) ∈ t ∧
      match a with GOk _ _ => True | GErr resp _ => has_status StatusNotFound resp = true end.

Section Deletion.
Context {W : Type} `{GitHub W}.
Implicit Types conn : Connection.
Implicit Types repo : Repository.

Lemma delete_quiet conn repo h e : mutates e = false → delete_guard conn repo h e.
Proof. destruct e as [|c []| | | |]; done. Qed.

Lemma delete_error_hoare conn repo h resp err :
  hoare (delete_guard conn repo) h (e ← classify (W := W) resp err; mret (Some e))
    (delete_result conn repo).
Proof.
  apply hoare_bind, classify_hoare; [apply delete_quiet|]. intros e t. by apply hoare_ret.
Qed.

Lemma deleteHostRepository_hoare conn repo h c :
  (∀ r, delete_guard conn repo h
     (GCall c (GDeleteRepo (owner conn repo) (rs_Name (rp_Spec repo)) r))) →
  hoare (delete_guard conn repo) h
    (deleteHostRepository (W := W) c (owner conn repo) (rs_Name (rp_Spec repo)))
    (delete_result conn repo).
Proof.
  intros Hg. apply hoare_bind, hoare_call; [exact Hg|].
  assert (Hok : ∀ a, match a with GOk _ _ => True | GErr resp _ => has_status StatusNotFound resp = true end →
    delete_result conn repo None
      (h ++ [GCall c (GDeleteRepo (owner conn repo) (rs_Name (rp_Spec repo)) a)])%list).
  { intros a Ha _. do 3 right. exists c, a. split; [apply elem_snoc|done]. }
  intros [resp err|v resp]; [|by apply hoare_ret, Hok].
  destruct (has_status StatusNotFound resp) eqn:Hs; [by apply hoare_ret, Hok|].
  apply delete_error_hoare.
Qed.

Lemma DeleteRepository_hoare conn cred repo :
  hoare (delete_guard conn repo) [] (DeleteRepository (W := W) conn cred repo)
    (delete_result conn repo).
Proof.
  unfold DeleteRepository. destruct (annotated repo existingOnlyAnnotation) eqn:Hex.
  { apply hoare_ret. intros _. by left. }
  destruct (client _ _) as [err|c]; [by apply hoare_ret|].
  destruct (annotated repo createOnlyAnnotation) eqn:Hco.
  2: { apply deleteHostRepository_hoare. intros r. split_and!; [done..|congruence]. }
  destruct (decide _) as [Hid|Hid]; [apply hoare_ret; intros _; right; left; done|].
  apply hoare_bind, quiet_hoare; [apply delete_quiet|done|]. intros [resp err|existing resp].
  - destruct (has_status StatusNotFound resp) eqn:Hs; [|apply delete_error_hoare].
    apply hoare_ret. intros _. do 2 right. left. exists c, resp, err. split; [by left|done].
  - destruct (checkRepositoryIdentity repo existing) eqn:Hc; [by apply hoare_ret|].
    apply deleteHostRepository_hoare. intros r. split_and!; [done..|]. intros _.
    exists c, existing, resp. split; [by left|].
    apply checkRepositoryIdentity_ok in Hc as [[? ?]|(? & ? & ?)]; [done|by split].
Qed.
End Deletion.

(** ** Properties *)

(** C14: a repository that is not the one recorded is never taken for it: what
    EnsureRepository returns is either the host's repository, whose ID then
    equals the recorded one (none may be recorded only when the object is no
    create-only request), or one this call created; and it creates one only when
    the host answered that none exists, no ID is recorded and the object is not
    an existing-only registration. *)
Theorem EnsureRepository_identity {W} `{GitHub W} (conn : Connection) (cred : Credential)
    (repo : Repository) (w w' : W) r t
    (Hrun : EnsureRepository conn cred repo w = (r, w', t)) :
  (∀ before e after, t = (before ++ e :: after)%list → ensure_guard conn repo before e) ∧
  ensure_result conn repo r t.
Proof. eapply hoare_run; [apply EnsureRepository_hoare|exact Hrun]. Qed.

(** DeleteRepository deletes nothing but the named repository, never for an
    existing-only registration, and for a create-only request only a repository
    whose ID this call found to be the recorded one; and it reports success only
    when the host deleted the repository or does not have it, or the repository
    was never this object's to delete. *)
Theorem DeleteRepository_safe {W} `{GitHub W} (conn : Connection) (cred : Credential)
    (repo : Repository) (w w' : W) r t
    (Hrun : DeleteRepository conn cred repo w = (r, w', t)) :
  (∀ before e after, t = (before ++ e :: after)%list → delete_guard conn repo before e) ∧
  delete_result conn repo r t.
Proof. eapply hoare_run; [apply DeleteRepository_hoare|exact Hrun]. Qed.

Definition demo_conn : Connection :=
  {| cn_Meta := {| om_Name := "conn"; om_Namespace := ""; om_UID := "c-1"; om_Generation := 1;
       om_Labels := ∅; om_Annotations := ∅; om_Finalizers := []; om_DeletionTimestamp := None;
       om_OwnerReferences := [] |};
     cn_Spec := {| cs_Provider := ProviderGitHub; cs_Type := CredentialTypePAT; cs_Owner := "acme";
       cs_SecretRef := {| ls_Name := "secret"; ls_Namespace := ""; ls_Key := "" |};
       cs_BaseURL := "" |};
     cn_Status := {| ct_ObservedGeneration := 0; ct_Login := ""; ct_Scopes := [];
       ct_Conditions := [] |} |}.
Definition demo_repo (annotations : gmap string string) (id : string) : Repository :=
  {| rp_Meta := {| om_Name := "repo"; om_Namespace := ""; om_UID := "r-1"; om_Generation := 1;
       om_Labels := ∅; om_Annotations := annotations; om_Finalizers := [];
       om_DeletionTimestamp := None; om_OwnerReferences := [] |};
     rp_Spec := {| rs_ConnectionRef := "conn"; rs_Name := "app"; rs_Owner := "";
       rs_Visibility := VisibilityPrivate; rs_Description := ""; rs_DefaultBranch := "main";
       rs_AutoInit := true |};
     rp_Status := {| rt_ObservedGeneration := 0; rt_RepoID := id; rt_HTMLURL := "";
       rt_CloneURL := ""; rt_SSHURL := ""; rt_Conditions := [] |} |}.
Definition demo_cred : Credential := {| cr_Token := "t" |}.

(** A first creation. *)
Lemma EnsureRepository_identity_witness :
  let G := fixed_github empty_host in
  let repo := demo_repo {[ createOnlyAnnotation := "true" ]} "" in
  ∃ res t, EnsureRepository demo_conn demo_cred repo tt = (inr res, tt, t) ∧
    rr_RepoID res = "7" ∧ ensure_result demo_conn repo (inr res) t.
Proof.
  intros G repo. eexists _, _. split; [vm_compute; reflexivity|]. split; [vm_compute; reflexivity|].
  apply (EnsureRepository_identity demo_conn demo_cred repo tt tt). vm_compute. reflexivity.
Defined.

(** A host repository with another ID than the recorded one. *)
Definition foreign_host : FixedHost := {|
  fh_Repo := GOk {| gr_ID := 2; gr_FullName := "acme/app"; gr_DefaultBranch := "main";
    gr_HTMLURL := ""; gr_CloneURL := ""; gr_SSHURL := "" |} (http 200);
  fh_Created := not_found; fh_Ref := not_found; fh_Commits := []; fh_Commit := not_found;
  fh_Tree := not_found; fh_NewTree := not_found; fh_NewCommit := not_found;
  fh_Update := not_found; fh_Blobs := [] |}.

(** A create-only object leaves it alone. *)
Lemma DeleteRepository_safe_witness :
  let G := fixed_github foreign_host in
  let repo := demo_repo {[ createOnlyAnnotation := "true" ]} "1" in
  ∃ e t, DeleteRepository demo_conn demo_cred repo tt = (Some e, tt, t) ∧
    Forall (λ e, mutates e = false) t ∧ delete_result demo_conn repo (Some e) t.
Proof.
  intros G repo. eexists _, _. split; [vm_compute; reflexivity|]. split; [by repeat constructor|].
  apply (DeleteRepository_safe demo_conn demo_cred repo tt tt). vm_compute. reflexivity.
Defined.

(** Without the annotation the recorded ID is not compared: a repository that
    EnsureRepository refuses as somebody else's is deleted all the same. *)
Example DeleteRepository_foreign :
  let G := fixed_github foreign_host in
  let repo := demo_repo ∅ "1" in
  (∃ e t, EnsureRepository demo_conn demo_cred repo tt = (inl e, tt, t) ∧
     IsIdentityConflict e = true) ∧
  ∃ t c, DeleteRepository demo_conn demo_cred repo tt = (None, tt, t) ∧
    GCall c (GDeleteRepo "acme" "app" (GOk tt None)) ∈ t.
Proof.
  intros G repo. split.
  - eexists _, _. split; vm_compute; reflexivity.
  - eexists _, _. split; [vm_compute; reflexivity|]. left.
Qed.
