(* ===== verification/GitHubTree.v ===== *)
(** * backend/github/backend.go: commit messages and tree entries

    The pure half of committing: the idempotency trailer of a message, the
    cleaned paths and checked contents of the files, and the tree entries made
    of them.  Tree entries are pointers in Go: the blobs of base64 files are
    uploaded after the entries are built and before any of them is read again,
    so an upload rewrites the entry of its path in the one list both commit
    attempts share. *)

From S2P Require Import Prelude GoStrings GoTime Encoding Errors Api Backend GitHubApi.
From S2P Require Import GitHubRepositories.
From Stdlib Require Import Ascii Lia.

#[local] Open Scope string_scope.
#[local] Open Scope list_scope.

Definition repositoryCommitIdempotencyTrailer : string := "Railgrid-RepositoryCommit:".
Definition LF : ascii := "010"%char.
Definition newline : string := String LF "".

(** ** Messages *)

Definition commitMessageWithIdempotencyKey (message key : string) : string :=
  let key := TrimSpace key in
  if bool_decide (key = "") || Contains message repositoryCommitIdempotencyTrailer then message
  else message +:+ newline +:+ newline +:+ repositoryCommitIdempotencyTrailer +:+ " " +:+ key.

Definition commitMessageHasIdempotencyKey (message key : string) : bool :=
  let key := TrimSpace key in
  if decide (key = "") then false
  else existsb (λ line, bool_decide (TrimSpace line =
                          repositoryCommitIdempotencyTrailer +:+ " " +:+ key))
         (SplitByte LF message).

(** ** Tree entries *)

Definition cleanRepositoryPath (raw : string) : error + string :=
  let raw := TrimSpace (ReplaceByte raw "\"%char slash) in
  if decide (raw = "") then inl (ENew "github: file path cannot be empty")
  else if HasPrefix raw "/" then
    inl (ENew ("github: file path " +:+ Quote raw +:+ " must be relative"))
  else
    let check := fix check (parts : list string) : option error :=
      match parts with
      | [] => None
      | part :: parts =>
          if decide (part = "..") then
            Some (ENew ("github: file path " +:+ Quote raw +:+ " cannot contain parent traversal"))
          else if ContainsByte part "000"%char then
            Some (ENew ("github: file path " +:+ Quote raw +:+ " cannot contain NUL"))
          else check parts
      end in
    match check (SplitByte slash raw) with
    | Some err => inl err
    | None =>
        let clean := TrimPrefix (Clean ("/" +:+ raw)) "/" in
        if bool_decide (clean = ".") || bool_decide (clean = "")
        then inl (ENew "github: file path cannot be empty")
        else inr clean
    end.

Definition validBase64 (content : string) : option error :=
  if ContainsAny content (String "013"%char newline)
  then Some (ENew "line breaks are not allowed")
  else match base64_decode content with
       | Some _ => None
       | None => Some (ENew "illegal base64 data")
       end.

(** The checks of one file whose cleaned path is [clean]. *)
Definition checkFile (clean : string) (f : RepositoryCommitFile) : option error :=
  if cf_Delete f && negb (bool_decide (cf_Content f = "")) then
    Some (ENew ("github: deleted file " +:+ Quote clean +:+ " cannot include content"))
  else if decide (cf_Encoding f = "") then None
  else if decide (cf_Encoding f = EncodingBase64) then
    if cf_Delete f then None
    else match validBase64 (cf_Content f) with
         | Some err => Some (Wrap ("github: file " +:+ Quote clean +:+
                                   " has invalid base64 content: ") err)
         | None => None
         end
  else Some (ENew ("github: file " +:+ Quote clean +:+ " has unsupported encoding " +:+
                   Quote (cf_Encoding f))).

Definition with_path (f : RepositoryCommitFile) (clean : string) : RepositoryCommitFile :=
  {| cf_Path := clean; cf_Content := cf_Content f; cf_Encoding := cf_Encoding f;
     cf_Delete := cf_Delete f |}.

Fixpoint filesByPath (byPath : gmap string RepositoryCommitFile)
    (files : list RepositoryCommitFile) : error + gmap string RepositoryCommitFile :=
  match files with
  | [] => inr byPath
  | f :: files =>
      match cleanRepositoryPath (cf_Path f) with
      | inl err => inl err
      | inr clean =>
          match byPath !! clean with
          | Some _ => inl (ENew ("github: duplicate file path " +:+ Quote clean))
          | None =>
              match checkFile clean f with
              | Some err => inl err
              | None => filesByPath (<[clean := with_path f clean]> byPath) files
              end
          end
      end
  end.

(** A base64 file waits for its blob. *)
Definition pending (f : RepositoryCommitFile) : bool :=
  negb (cf_Delete f) && bool_decide (cf_Encoding f = EncodingBase64).

Definition treeEntry (f : RepositoryCommitFile) : TreeEntry :=
  {| te_Path := cf_Path f; te_Mode := "100644"; te_Type := "blob"; te_SHA := None;
     te_Content := if cf_Delete f || pending f then None else Some (cf_Content f) |}.

Record pendingBlob := { pb_Path : string; pb_Content : string }.

(** Entries, paths and pending blobs, sorted by path. *)
Definition gitTreeEntries (files : list RepositoryCommitFile)
    : error + (list TreeEntry * list string * list pendingBlob) :=
  match filesByPath ∅ files with
  | inl err => inl err
  | inr byPath =>
      let paths := merge_sort string_le (fst <$> map_to_list byPath) in
      let files := omap (λ p, byPath !! p) paths in
      inr (treeEntry <$> files, paths,
           (λ f, {| pb_Path := cf_Path f; pb_Content := cf_Content f |}) <$>
             filter (λ f, pending f = true) files)
  end.

(** An entry with neither SHA nor content asks for a deletion. *)
Definition isDeletion (e : TreeEntry) : bool :=
  match te_SHA e, te_Content e with None, None => true | _, _ => false end.

(** [blob.entry.SHA = sha; blob.entry.Content = nil], in the shared list. *)
Definition set_blob (path sha : string) (entries : list TreeEntry) : list TreeEntry :=
  (λ e, if decide (te_Path e = path)
        then {| te_Path := te_Path e; te_Mode := te_Mode e; te_Type := te_Type e;
                te_SHA := Some sha; te_Content := None |}
        else e) <$> entries.

(** The entries kept, with the files at the same positions. *)
Fixpoint keepEffective (present : gset string) (entries : list TreeEntry) (files : list string)
    : list TreeEntry * list string :=
  match entries with
  | [] => ([], [])
  | e :: entries =>
      let '(es, fs) := keepEffective present entries (tail files) in
      if isDeletion e && negb (bool_decide (te_Path e ∈ present)) then (es, fs)
      else (e :: es, match files with f :: _ => f :: fs | [] => fs end)
  end.

Definition shouldReuseHeadCommit (parent : option GCommit) (tree : GTree) (baseTree : string) : bool :=
  match parent with
  | Some _ => negb (bool_decide (gt_SHA tree = "")) && bool_decide (gt_SHA tree = baseTree)
  | None => false
  end.

Definition concurrentHeadMatchesCommitRequest (head : GCommit) (attempted key : string) : bool :=
  (negb (bool_decide (attempted = "")) && bool_decide (gm_SHA head = attempted))
  || commitMessageHasIdempotencyKey (gm_Message head) key.

Definition commitURL (org : string) (repo : Repository) (commit : GCommit) : string :=
  if decide (gm_HTMLURL commit ≠ "") then gm_HTMLURL commit
  else if decide (gm_SHA commit = "") then ""
  else
    let trimmed := TrimRightByte slash (rt_HTMLURL (rp_Status repo)) in
    let repoURL := if decide (trimmed = "")
                   then "https://github.com/" +:+ org +:+ "/" +:+ rs_Name (rp_Spec repo)
                   else trimmed in
    repoURL +:+ "/commit/" +:+ gm_SHA commit.

(** ** Lemmas: messages *)

Lemma match_size_sep runes s c t :
  Forall (λ r, r ≠ "") runes →
  Forall (λ r, match r with EmptyString => True | String _ r => ContainsByte r c = false end) runes →
  s ≠ "" → match_size runes s = 0%nat → match_size runes (s +:+ String c t) = 0%nat.
Proof.
  intros Hne Hr Hs. rewrite !match_size_0 by done. intros H.
  apply Forall_forall. intros r Hin. rewrite Forall_forall in H, Hr.
  specialize (H r Hin). specialize (Hr r Hin). apply not_true_iff_false.
  intros [u Hu]%prefix_spec. clear Hin. revert s Hs H Hu.
  destruct r as [|a r]; intros s Hs H Hu; [by destruct s|].
  destruct s as [|b s]; [done|]. simpl in Hu. injection Hu as -> Hu. clear Hs.
  assert (Hp : String.prefix r s = false).
  { simpl in H. by destruct (ascii_dec a a). }
  clear H Hne. revert s Hu Hp Hr. induction r as [|x r IH]; intros s Hu Hp Hr.
  - by destruct s.
  - simpl in Hr. apply orb_false_iff in Hr as [Hx Hr]. destruct s as [|y s]; simpl in Hu.
    + injection Hu as -> _. by rewrite bool_decide_eq_true_2 in Hx.
    + injection Hu as -> Hu. apply (IH s); [done| |done].
      simpl in Hp. by destruct (ascii_dec x x).
Qed.

Definition trailer_line (key : string) : string :=
  repositoryCommitIdempotencyTrailer +:+ " " +:+ TrimSpace key.

Lemma TrimSpace_back s : TrimSpace s = "" ∨ match_size all_space_runes_rev (srev (TrimSpace s)) = 0%nat.
Proof.
  unfold TrimSpace, TrimRightSpace. rewrite srev_srev.
  destruct (trim_front_done all_space_runes_rev 0 (srev (TrimLeftSpace s))) as [->|H]; [by left|by right].
Qed.

Lemma trailer_line_trimmed key : TrimSpace key ≠ "" → TrimSpace (trailer_line key) = trailer_line key.
Proof.
  intros Hk. unfold TrimSpace at 1, trailer_line.
  assert (TrimLeftSpace (repositoryCommitIdempotencyTrailer +:+ " " +:+ TrimSpace key)
    = repositoryCommitIdempotencyTrailer +:+ " " +:+ TrimSpace key) as ->.
  { apply trim_front_id. apply match_size_plain; [|done].
    apply Forall_forall. intros r Hr. pose proof space_runes_not_plain as [Hf _].
    rewrite Forall_forall in Hf. by apply Hf. }
  unfold TrimRightSpace. rewrite trim_front_id; [apply srev_srev|].
  assert (srev (repositoryCommitIdempotencyTrailer +:+ " " +:+ TrimSpace key)
    = srev (TrimSpace key) +:+ String " "%char (srev repositoryCommitIdempotencyTrailer)) as ->.
  { by rewrite !srev_app, string_app_assoc. }
  apply match_size_sep; [apply all_space_runes_rev_nonempty| | |].
  - by repeat constructor.
  - intros E%srev_nil_inv. done.
  - by destruct (TrimSpace_back key).
Qed.

Lemma SplitByte_part c s w : w ∈ SplitByte c s → ∃ a b, s = a +:+ w +:+ b.
Proof.
  revert w. induction s as [|x s IH]; intros w.
  - simpl. intros ->%list_elem_of_singleton. by exists "", "".
  - simpl. case_decide as Hx.
    + intros [->|Hw]%elem_of_cons; [by exists "", (String x s)|].
      destruct (IH _ Hw) as (a & b & ->). by exists (String x a), b.
    + destruct (SplitByte c s) as [|v vs] eqn:E.
      * by destruct (SplitByte_not_nil c s).
      * intros [->|Hw]%elem_of_cons.
        -- assert (Hv : ∃ b, s = v +:+ b).
           { clear -E. revert v vs E. induction s as [|y s IH]; intros v vs E; simpl in E.
             - injection E as <- <-. by exists "".
             - case_decide; [injection E as <- <-; by eexists|].
               destruct (SplitByte c s) as [|u us] eqn:E2; [by destruct (SplitByte_not_nil c s)|].
               injection E as <- <-. destruct (IH u us eq_refl) as [b ->]. by exists b. }
           destruct Hv as [b ->]. by exists "", b.
        -- destruct (IH w) as (a & b & ->); [by right|]. by exists (String x a), b.
Qed.

Lemma message_lines message key :
  ContainsByte (TrimSpace key) LF = false →
  SplitByte LF (message +:+ newline +:+ newline +:+ trailer_line key)
  = (SplitByte LF message ++ [""; trailer_line key])%list.
Proof.
  intros Hk. assert (Ht : ContainsByte (trailer_line key) LF = false).
  { unfold trailer_line. rewrite !ContainsByte_app, Hk. done. }
  assert (Hs : SplitByte LF (newline +:+ newline +:+ trailer_line key)
    = [""; ""; trailer_line key]) by (simpl; by rewrite SplitByte_single).
  induction message as [|x m IH]; [exact Hs|]. simpl. simpl in IH. rewrite IH.
  case_decide; [done|]. by destruct (SplitByte LF m) as [|v vs] eqn:E;
    [destruct (SplitByte_not_nil LF m)|].
Qed.

(** ** Lemmas: tree entries *)

(** The files of a request under their cleaned paths. *)
Definition cleanedFile (f : RepositoryCommitFile) : option RepositoryCommitFile :=
  match cleanRepositoryPath (cf_Path f) with
  | inr clean => Some (with_path f clean)
  | inl _ => None
  end.

Lemma filesByPath_spec files m m' :
  (∀ p f, m !! p = Some f → cf_Path f = p) →
  filesByPath m files = inr m' →
  (∀ p f, m' !! p = Some f → cf_Path f = p ∧
     (m !! p = Some f ∨ ∃ f0, f0 ∈ files ∧ cleanedFile f0 = Some f)) ∧
  (∀ p f, m !! p = Some f → m' !! p = Some f) ∧
  (∀ f0, f0 ∈ files → ∃ f, cleanedFile f0 = Some f ∧ m' !! cf_Path f = Some f).
Proof.
  revert m. induction files as [|f0 files IH]; intros m Hm; simpl.
  { intros [= <-]. split_and!; [|done|by intros ? ?%elem_of_nil]. intros p f Hp. split; [by apply Hm|by left]. }
  destruct (cleanRepositoryPath (cf_Path f0)) as [e|clean] eqn:Hc; [done|].
  destruct (m !! clean) as [|] eqn:Hnone; [done|]. destruct (checkFile clean f0); [done|].
  intros Hf. destruct (IH (<[clean:=with_path f0 clean]> m)) as (H1 & H2 & H3); [|done|].
  { intros p f. destruct (decide (clean = p)) as [->|Hne].
    - rewrite lookup_insert_eq. by intros [= <-].
    - rewrite lookup_insert_ne by done. apply Hm. }
  assert (Hcf : cleanedFile f0 = Some (with_path f0 clean)) by (unfold cleanedFile; by rewrite Hc).
  split_and!.
  - intros p f Hp. destruct (H1 p f Hp) as [Hpath [Hin|(f1 & Hf1 & Hc1)]]; (split; [done|]).
    + destruct (decide (clean = p)) as [->|Hne].
      * rewrite lookup_insert_eq in Hin. injection Hin as <-. right. exists f0. split; [by left|done].
      * rewrite lookup_insert_ne in Hin by done. by left.
    + right. exists f1. split; [by right|done].
  - intros p f Hp. apply H2. rewrite lookup_insert_ne; [done|]. intros ->. congruence.
  - intros f1 [->|Hf1]%elem_of_cons; [|by apply H3]. exists (with_path f0 clean). split; [done|].
    apply H2. apply lookup_insert_eq.
Qed.

(** What [gitTreeEntries] returns, over the list of the cleaned files. *)
Record tree_request (files fs : list RepositoryCommitFile) (entries : list TreeEntry)
    (paths : list string) (blobs : list pendingBlob) : Prop := {
  tr_entries : entries = treeEntry <$> fs;
  tr_paths : paths = cf_Path <$> fs;
  tr_nodup : NoDup paths;
  tr_sorted : Sorted string_le paths;
  tr_blobs : blobs = (λ f, {| pb_Path := cf_Path f; pb_Content := cf_Content f |}) <$>
    filter (λ f, pending f = true) fs;
  tr_sound : ∀ f, f ∈ fs → ∃ f0, f0 ∈ files ∧ cleanedFile f0 = Some f;
  tr_complete : ∀ f0, f0 ∈ files → ∃ f, f ∈ fs ∧ cleanedFile f0 = Some f }.

Lemma omap_lookup (m : gmap string RepositoryCommitFile) (l : list string) :
  (∀ p f, m !! p = Some f → cf_Path f = p) → (∀ p, p ∈ l → is_Some (m !! p)) →
  cf_Path <$> omap (λ p, m !! p) l = l.
Proof.
  intros Hm. induction l as [|p l IH]; intros Hl; [done|]. simpl.
  destruct (Hl p) as [f Hf]; [by left|]. rewrite Hf. simpl. rewrite (Hm p f Hf). f_equal.
  apply IH. intros q Hq. apply Hl. by right.
Qed.

Lemma gitTreeEntries_spec files entries paths blobs :
  gitTreeEntries files = inr (entries, paths, blobs) →
  ∃ fs, tree_request files fs entries paths blobs.
Proof.
  unfold gitTreeEntries. destruct (filesByPath ∅ files) as [e|m] eqn:Hf; [done|].
  intros [= <- <- <-]. destruct (filesByPath_spec files ∅ m) as (H1 & _ & H3);
    [by intros p f|done|].
  set (paths := merge_sort string_le (fst <$> map_to_list m)).
  assert (Hperm : paths ≡ₚ fst <$> map_to_list m) by apply merge_sort_Permutation.
  assert (Hin : ∀ p, p ∈ paths ↔ is_Some (m !! p)).
  { intros p. rewrite Hperm, list_elem_of_fmap. split.
    - intros ([q f] & -> & Hq%elem_of_map_to_list). by exists f.
    - intros [f Hq]. exists (p, f). split; [done|by apply elem_of_map_to_list]. }
  exists (omap (λ p, m !! p) paths).
  assert (Hpaths : cf_Path <$> omap (λ p, m !! p) paths = paths).
  { apply omap_lookup; [by intros p f Hp; apply H1 in Hp as [? _]|]. intros p. by apply Hin. }
  split; [done|done| | |done| |].
  - rewrite Hperm. apply NoDup_fst_map_to_list.
  - apply Sorted_merge_sort, _.
  - intros f (p & Hp & Hmp)%list_elem_of_omap. destruct (H1 p f Hmp) as [_ [?|?]]; done.
  - intros f0 Hf0. destruct (H3 f0 Hf0) as (f & Hc & Hm). exists f. split; [|done].
    apply list_elem_of_omap. exists (cf_Path f). split; [apply Hin; by exists f|done].
Qed.

(** A blob of this content was uploaded. *)
Definition uploaded_in (h : list GEvent) (content sha : string) : Prop :=
  ∃ c o n resp, GCall c (GCreateBlob o n content EncodingBase64 (GOk sha resp)) ∈ h.

(** The entry of a cleaned file, [todo] being the paths whose blob is missing. *)
Record entry_of (h : list GEvent) (todo : list string) (f : RepositoryCommitFile) (e : TreeEntry)
    : Prop := {
  eo_path : te_Path e = cf_Path f;
  eo_mode : te_Mode e = "100644";
  eo_type : te_Type e = "blob";
  eo_plain : pending f = false → te_SHA e = None ∧
    te_Content e = if cf_Delete f then None else Some (cf_Content f);
  eo_blob : pending f = true → te_Content e = None ∧
    (cf_Path f ∈ todo ∨ ∃ sha, te_SHA e = Some sha ∧ uploaded_in h (cf_Content f) sha) }.

Lemma entry_of_mono h t todo todo' f e :
  (∀ p, p ∈ todo → p ∈ todo') → entry_of h todo f e → entry_of (h ++ t) todo' f e.
Proof.
  intros Ht [H1 H2 H3 H4 H5]. split; [done..|]. intros Hp.
  destruct (H5 Hp) as [Hc [Hin|(sha & Hs & c & o & n & resp & Hu)]]; (split; [done|]).
  - left. by apply Ht.
  - right. exists sha. split; [done|]. exists c, o, n, resp. by apply elem_before.
Qed.

Lemma treeEntry_of h fs : Forall2 (entry_of h (cf_Path <$> filter (λ f, pending f = true) fs))
  fs (treeEntry <$> fs).
Proof.
  apply Forall2_fmap_r, Forall2_same_length_lookup. split; [done|].
  intros i f f' Hf Hf'. assert (f' = f) as -> by congruence. split; [done..| |].
  - intros Hp. simpl. by rewrite Hp, orb_false_r.
  - intros Hp. simpl. rewrite Hp, orb_true_r. split; [done|]. left.
    apply list_elem_of_fmap. exists f. split; [done|]. apply list_elem_of_filter. split; [done|].
    by eapply list_elem_of_lookup_2.
Qed.

(** Recording an upload brings the entry of its path to its final state. *)
Lemma set_blob_of h path content sha todo fs es :
  uploaded_in h content sha →
  (∀ f, f ∈ fs → cf_Path f = path → pending f = true ∧ cf_Content f = content) →
  Forall2 (entry_of h (path :: todo)) fs es → Forall2 (entry_of h todo) fs (set_blob path sha es).
Proof.
  intros Hup Huniq Hes. unfold set_blob. apply Forall2_fmap_r.
  induction Hes as [|f e fs es [H1 H2 H3 H4 H5] Hes IH]; constructor.
  - cbv [compose]. destruct (decide (te_Path e = path)) as [Hd|Hd]; simpl.
    + destruct (Huniq f) as [Hp Hc]; [by left|congruence|]. split; simpl; [exact H1|exact H2|exact H3|congruence|].
      intros _. split; [done|]. right. exists sha. split; [done|]. by rewrite Hc.
    + split; [exact H1|exact H2|exact H3|exact H4|]. intros Hp. destruct (H5 Hp) as [Hc [Hin|Hup']]; (split; [done|]).
      * left. apply elem_of_cons in Hin as [Heq|Hin]; [congruence|done].
      * by right.
  - apply IH. intros f' Hf'. apply Huniq. by right.
Qed.

Lemma keepEffective_spec present es fs :
  (∀ e, e ∈ (keepEffective present es fs).1 → e ∈ es) ∧
  (∀ e, e ∈ es → isDeletion e = false → e ∈ (keepEffective present es fs).1).
Proof.
  revert fs. induction es as [|e es IH]; intros fs; simpl; [by split|].
  destruct (IH (tail fs)) as [IH1 IH2]. destruct (keepEffective present es (tail fs)) as [es' fs'].
  simpl in *. destruct (isDeletion e && _) eqn:Hd; simpl.
  - split; [intros x Hx; right; by apply IH1|]. intros x [->|Hx]%elem_of_cons Hx'.
    + by rewrite Hx' in Hd.
    + by apply IH2.
  - split; [intros x [->|Hx]%elem_of_cons; [by left|right; by apply IH1]|].
    intros x [->|Hx]%elem_of_cons Hx'; [by left|right; by apply IH2].
Qed.

(** ** Properties *)

(** The trailer identifies a commit: a message that went through
    [commitMessageWithIdempotencyKey] carries its key, and no other key but those
    that trim to the same text, provided the original message did not mention the
    trailer itself. *)
Theorem commit_message_roundtrip (message key : string)
    (Hkey : TrimSpace key ≠ "") (Hline : ContainsByte (TrimSpace key) LF = false)
    (Hmsg : Contains message repositoryCommitIdempotencyTrailer = false) :
  let m := commitMessageWithIdempotencyKey message key in
  commitMessageHasIdempotencyKey m key = true ∧
  ∀ key', commitMessageHasIdempotencyKey m key' = true → TrimSpace key' = TrimSpace key.
Proof.
  assert (commitMessageWithIdempotencyKey message key
    = message +:+ newline +:+ newline +:+ trailer_line key) as ->.
  { unfold commitMessageWithIdempotencyKey. rewrite bool_decide_eq_false_2 by done.
    by rewrite Hmsg. }
  unfold commitMessageHasIdempotencyKey. rewrite message_lines by done. split.
  - rewrite decide_False by done. apply existsb_exists. exists (trailer_line key).
    split; [apply in_or_app; right; right; by left|].
    apply bool_decide_eq_true_2. by apply trailer_line_trimmed.
  - intros key'. destruct (decide (TrimSpace key' = "")); [done|]. rewrite existsb_app.
    intros [(w & Hw & Heq%bool_decide_eq_true)%existsb_exists|Hlast]%orb_true_iff.
    + exfalso. apply list_elem_of_In, SplitByte_part in Hw as (a & b & ->).
      assert (Contains w repositoryCommitIdempotencyTrailer = true) as Hc.
      { destruct (TrimSpace_substring w) as (x & y & Hx). rewrite Hx, Heq. apply Contains_spec.
        exists x, (" " +:+ TrimSpace key' +:+ y). by rewrite !string_app_assoc. }
      apply Contains_spec in Hc as (x & y & ->). apply not_true_iff_false in Hmsg. apply Hmsg.
      apply Contains_spec. exists (a +:+ x), (y +:+ b). by rewrite !string_app_assoc.
    + apply existsb_exists in Hlast as (w & Hw & Heq%bool_decide_eq_true).
      destruct Hw as [<-|[<-|[]]].
      * exfalso. change (TrimSpace "") with "" in Heq. unfold repositoryCommitIdempotencyTrailer in Heq.
        cbn [String.append] in Heq. discriminate.
      * rewrite trailer_line_trimmed in Heq by done. unfold trailer_line in Heq.
        by apply string_app_inj_l, string_app_inj_l in Heq.
Qed.

Lemma commit_message_roundtrip_witness :
  let key := "7b6f0c1e-1111" in
  TrimSpace key ≠ "" ∧ commitMessageHasIdempotencyKey
    (commitMessageWithIdempotencyKey "Update app" key) key = true.
Proof.
  split; [vm_compute; discriminate|].
  apply (commit_message_roundtrip "Update app" "7b6f0c1e-1111"); vm_compute; [discriminate|reflexivity..].
Defined.

(** A message that mentions the trailer gets no key: a retry would not find the
    commit it made. *)
Example commit_message_foreign_trailer :
  let message := "Revert" +:+ newline +:+ "Railgrid-RepositoryCommit: other" in
  commitMessageHasIdempotencyKey (commitMessageWithIdempotencyKey message "mine") "mine" = false.
Proof. vm_compute. reflexivity. Qed.
