(* ===== verification/GitHubCommits.v ===== *)
(** * backend/github/backend.go: committing files

    [CommitFiles] and its helpers over the API of [GitHubApi]; the contract
    [commit_guard] / [commit_result] says which writes it makes on the host and
    how a success came about. *)

From S2P Require Import Prelude GoStrings GoTime Errors Api Backend GitHubApi.
From S2P Require Import GitHubRepositories GitHubTree.
From Stdlib Require Import Ascii Lia.

#[local] Open Scope string_scope.
#[local] Open Scope list_scope.

Section GitHub.
Context {W : Type} `{GitHub W}.

(** Identical payloads are uploaded once. *)
Fixpoint createPendingBlobs (c : Client) (org repo : string) (uploaded : gmap string string)
    (blobs : list pendingBlob) (entries : list TreeEntry) : GEff W (error + list TreeEntry) :=
  match blobs with
  | [] => mret (inr entries)
  | blob :: blobs =>
      match uploaded !! pb_Content blob with
      | Some sha => createPendingBlobs c org repo uploaded blobs (set_blob (pb_Path blob) sha entries)
      | None =>
          r ← g_create_blob c org repo (pb_Content blob) EncodingBase64;
          match r with
          | GErr resp err => refuse resp (Wrap ("create blob " +:+ pb_Path blob +:+ ": ") err)
          | GOk sha _ =>
              if decide (sha = "") then
                mret (inl (ENew ("github: create blob " +:+ pb_Path blob +:+ " returned no SHA")))
              else createPendingBlobs c org repo (<[pb_Content blob := sha]> uploaded) blobs
                     (set_blob (pb_Path blob) sha entries)
          end
      end
  end.

Definition filterNoopGitTreeDeletions (c : Client) (org repo baseTree : string)
    (entries : list TreeEntry) (files : list string)
    : GEff W (error + (list TreeEntry * list string)) :=
  if negb (existsb isDeletion entries) then mret (inr (entries, files))
  else if decide (baseTree = "") then mret (inr (keepEffective ∅ entries files))
  else
    r ← g_get_tree c org repo baseTree;
    match r with
    | GErr resp err => refuse resp err
    | GOk tree _ =>
        if gt_Truncated tree then mret (inr (entries, files))
        else mret (inr (keepEffective (list_to_set (ge_Path <$> gt_Entries tree)) entries files))
    end.

Definition findRepositoryCommitByIdempotencyKey (c : Client) (org repo branch key : string)
    : GEff W (error + option GRepositoryCommit) :=
  let key := TrimSpace key in
  if decide (key = "") then mret (inr None)
  else
    r ← g_list_commits c org repo branch 50;
    match r with
    | GErr resp err =>
        if has_status StatusNotFound resp || has_status StatusConflict resp then mret (inr None)
        else refuse resp err
    | GOk commits _ =>
        mret (inr (List.find (λ commit, match gl_Message commit with
                                        | Some m => commitMessageHasIdempotencyKey m key
                                        | None => false
                                        end) commits))
    end.

(** [err.Error()] is inspected only for a 422. *)
Definition isRecoverableRefRace (resp : option Response) (err : error) : GEff W bool :=
  if has_status StatusUnprocessableEntity resp then
    text ← g_text err;
    mret (Contains (ToLower text) "not a fast forward"
          || Contains (ToLower text) "reference already exists")
  else mret false.

Definition currentBranchHead (c : Client) (org : string) (repo : Repository) (branch : string)
    : GEff W (error + option GCommit) :=
  r ← g_get_ref c org (rs_Name (rp_Spec repo)) ("heads/" +:+ branch);
  match r with
  | GErr resp err => refuse resp err
  | GOk ref _ =>
      match rf_Object ref with
      | None => mret (inr None)
      | Some sha =>
          if decide (sha = "") then mret (inr None)
          else
            h ← g_get_commit c org (rs_Name (rp_Spec repo)) sha;
            match h with
            | GErr resp err => refuse resp err
            | GOk head _ => mret (inr (Some head))
            end
      end
  end.

(** What a finished commit reports. *)
Definition committed (org : string) (repo : Repository) (branch : string) (commit : GCommit)
    (files : list string) : RepositoryCommitResult :=
  {| co_CommitSHA := gm_SHA commit; co_CommitURL := commitURL org repo commit;
     co_Branch := branch; co_Files := files |}.

Definition recoverOrRetryConcurrentCommit (c : Client) (org : string) (repo : Repository)
    (branch attempted key message : string) (entries : list TreeEntry) (files : list string)
    : GEff W (error + option RepositoryCommitResult) :=
  let name := rs_Name (rp_Spec repo) in
  h ←? currentBranchHead c org repo branch;
  match h with
  | None => mret (inr None)
  | Some head =>
      let baseTree := default "" (gm_Tree head) in
      if concurrentHeadMatchesCommitRequest head attempted key then
        mret (inr (Some (committed org repo branch head files)))
      else
        f ←? filterNoopGitTreeDeletions c org name baseTree entries files;
        let '(entries, files) := f in
        if decide (entries = []) then mret (inr (Some (committed org repo branch head files)))
        else
          t ← g_create_tree c org name baseTree entries;
          match t with
          | GErr resp err => refuse resp err
          | GOk tree _ =>
              m ← g_create_commit c org name message (gt_SHA tree) [gm_SHA head];
              match m with
              | GErr resp err => refuse resp err
              | GOk commit _ =>
                  u ← g_update_ref c org name ("refs/heads/" +:+ branch) (gm_SHA commit) false;
                  match u with
                  | GErr resp err => refuse resp err
                  | GOk _ _ => mret (inr (Some (committed org repo branch commit files)))
                  end
              end
          end
  end.

(** From the built tree on: the commit and the branch. *)
Definition publishCommit (c : Client) (org : string) (repo : Repository)
    (branch key message headSHA : string) (tree : GTree)
    (files : list string) (requestedEntries : list TreeEntry) (requestedFiles : list string)
    : GEff W (error + RepositoryCommitResult) :=
  let name := rs_Name (rp_Spec repo) in
  let parents := if decide (headSHA = "") then [] else [headSHA] in
  m ← g_create_commit c org name message (gt_SHA tree) parents;
  match m with
  | GErr resp err => refuse resp err
  | GOk commit _ =>
      u ← (if decide (headSHA = "")
           then g_create_ref c org name ("refs/heads/" +:+ branch) (gm_SHA commit)
           else g_update_ref c org name ("refs/heads/" +:+ branch) (gm_SHA commit) false);
      match u with
      | GOk _ _ => mret (inr (committed org repo branch commit files))
      | GErr resp err =>
          race ← isRecoverableRefRace resp err;
          if (race : bool) then
            retry ←? recoverOrRetryConcurrentCommit c org repo branch (gm_SHA commit) key message
                       requestedEntries requestedFiles;
            match retry with
            | Some res => mret (inr res)
            | None => refuse resp err
            end
          else refuse resp err
      end
  end.

(** The blobs go through the long-timeout client. *)
Definition uploadBlobs (cred : Credential) (conn : Connection) (org name : string)
    (blobs : list pendingBlob) (entries : list TreeEntry) : GEff W (error + list TreeEntry) :=
  if decide (blobs = []) then mret (inr entries)
  else match blobClient cred (cs_BaseURL (cn_Spec conn)) with
       | inl err => mret (inl err)
       | inr uploader => createPendingBlobs uploader org name ∅ blobs entries
       end.

Definition parentCommit (c : Client) (org name headSHA : string)
    : GEff W (error + option GCommit) :=
  if decide (headSHA = "") then mret (inr None)
  else
    r ← g_get_commit c org name headSHA;
    match r with
    | GErr resp err => refuse resp err
    | GOk commit _ => mret (inr (Some commit))
    end.

(** From the resolved branch on: blobs, parent, effective entries, tree. *)
Definition writeFiles (c : Client) (cred : Credential) (conn : Connection) (org : string)
    (repo : Repository) (branch key message headSHA : string)
    (entries : list TreeEntry) (files : list string) (blobs : list pendingBlob)
    : GEff W (error + RepositoryCommitResult) :=
  let name := rs_Name (rp_Spec repo) in
  requested ←? uploadBlobs cred conn org name blobs entries;
  parent ←? parentCommit c org name headSHA;
  let baseTree := default "" (parent ≫= gm_Tree) in
  f ←? filterNoopGitTreeDeletions c org name baseTree requested files;
  let '(effective, effectiveFiles) := f in
  if decide (effective = []) then
    match parent with
    | None => mret (inl (ENew "github: at least one effective file change is required"))
    | Some parent => mret (inr (committed org repo branch parent effectiveFiles))
    end
  else
    t ← g_create_tree c org name baseTree effective;
    match t with
    | GErr resp err => refuse resp err
    | GOk tree _ =>
        match parent with
        | Some p =>
            if shouldReuseHeadCommit parent tree baseTree
            then mret (inr (committed org repo branch p effectiveFiles))
            else publishCommit c org repo branch key message headSHA tree effectiveFiles
                   requested files
        | None => publishCommit c org repo branch key message headSHA tree effectiveFiles
                    requested files
        end
    end.

(** The message and branch of a request, with their defaults. *)
Definition request_message (input : RepositoryCommitInput) : string :=
  let message := TrimSpace (ci_Message input) in
  commitMessageWithIdempotencyKey
    (if decide (message = "") then "Update generated application files" else message)
    (ci_IdempotencyKey input).
Definition request_branch (repo : Repository) (input : RepositoryCommitInput) : string :=
  let branch := TrimSpace (ci_Branch input) in
  let branch := if decide (branch = "") then TrimSpace (rs_DefaultBranch (rp_Spec repo)) else branch in
  if decide (branch = "") then "main" else branch.

(** A create-only repository must be the recorded one. *)
Definition confirmRepository (c : Client) (org : string) (repo : Repository)
    : GEff W (error + unit) :=
  if annotated repo createOnlyAnnotation then
    r ← g_get_repo c org (rs_Name (rp_Spec repo));
    match r with
    | GErr resp err => refuse resp err
    | GOk existing _ =>
        match checkRepositoryIdentity repo existing with
        | Some err => mret (inl err)
        | None => mret (inr tt)
        end
    end
  else mret (inr tt).

(** The branch's head, "" when the branch does not exist. *)
Definition branchHead (c : Client) (org name branch : string) : GEff W (error + string) :=
  r ← g_get_ref c org name ("heads/" +:+ branch);
  match r with
  | GErr resp err => if has_status StatusNotFound resp then mret (inr "") else refuse resp err
  | GOk ref _ => mret (inr (default "" (rf_Object ref)))
  end.

Definition CommitFiles (conn : Connection) (cred : Credential) (repo : Repository)
    (input : RepositoryCommitInput) : GEff W (error + RepositoryCommitResult) :=
  if decide (ci_Files input = []) then mret (inl (ENew "github: at least one file is required"))
  else
    let message := request_message input in
    let branch := request_branch repo input in
    match gitTreeEntries (ci_Files input) with
    | inl err => mret (inl err)
    | inr (entries, files, blobs) =>
        match client cred (cs_BaseURL (cn_Spec conn)) with
        | inl err => mret (inl err)
        | inr c =>
            let org := owner conn repo in
            let name := rs_Name (rp_Spec repo) in
            _ ←? confirmRepository c org repo;
            headSHA ←? branchHead c org name branch;
            prior ←? (if decide (headSHA ≠ "" ∧ TrimSpace (ci_IdempotencyKey input) ≠ "")
                      then findRepositoryCommitByIdempotencyKey c org name branch
                             (ci_IdempotencyKey input)
                      else (mret (inr None) : GEff W (error + option GRepositoryCommit)));
            match prior with
            | Some commit =>
                mret (inr {| co_CommitSHA := gl_SHA commit; co_CommitURL := gl_HTMLURL commit;
                             co_Branch := branch; co_Files := files |})
            | None =>
                writeFiles c cred conn org repo branch (ci_IdempotencyKey input) message headSHA
                  entries files blobs
            end
        end
    end.
End GitHub.

(** ** What [CommitFiles] promises *)

Section Contract.
Context (conn : Connection) (repo : Repository) (input : RepositoryCommitInput).
#[local] Abbreviation org := (owner conn repo).
#[local] Abbreviation name := (rs_Name (rp_Spec repo)).
#[local] Abbreviation branch := (request_branch repo input).
#[local] Abbreviation key := (ci_IdempotencyKey input).

(** A commit of a listing that carries the request's key. *)
Definition has_key (commit : GRepositoryCommit) : Prop :=
  match gl_Message commit with
  | Some m => commitMessageHasIdempotencyKey m key = true
  | None => False
  end.
(** The branch's history was searched for the key, unless there is no key or no
    branch. *)
Definition searched (h : list GEvent) : Prop :=
  TrimSpace key = "" ∨
  (∃ c r, GCall c (GListCommits org name branch 50 r) ∈ h) ∨
  (∃ c r, GCall c (GGetRef org name ("heads/" +:+ branch) r) ∈ h ∧
     match r with
     | GErr resp _ => has_status StatusNotFound resp = true
     | GOk ref _ => default "" (rf_Object ref) = ""
     end).
Definition no_key_listed (h : list GEvent) : Prop :=
  ∀ c o n sha pp commits resp, GCall c (GListCommits o n sha pp (GOk commits resp)) ∈ h →
    Forall (λ commit, ¬ has_key commit) commits.
Definition unseen (h : list GEvent) : Prop := searched h ∧ no_key_listed h.

(** The entry of a requested file: a deletion, inline text, or an uploaded blob
    of exactly the file's content. *)
Definition requested_entry (h : list GEvent) (e : TreeEntry) : Prop :=
  ∃ f, f ∈ ci_Files input ∧ cleanRepositoryPath (cf_Path f) = inr (te_Path e) ∧
    te_Mode e = "100644" ∧ te_Type e = "blob" ∧
    if cf_Delete f then te_SHA e = None ∧ te_Content e = None
    else if decide (cf_Encoding f = EncodingBase64) then
      te_Content e = None ∧ ∃ sha, te_SHA e = Some sha ∧ uploaded_in h (cf_Content f) sha
    else te_SHA e = None ∧ te_Content e = Some (cf_Content f).

(** Every file to write is in the tree. *)
Definition all_written (entries : list TreeEntry) : Prop :=
  ∀ f, f ∈ ci_Files input → cf_Delete f = false →
    ∃ e, e ∈ entries ∧ cleanRepositoryPath (cf_Path f) = inr (te_Path e).

(** The tree was built over the tree of the new commit's parent. *)
Definition based_on (h : list GEvent) (base : string) (parents : list string) : Prop :=
  match parents with
  | [] => base = ""
  | [p] => ∃ c sha cm resp, GCall c (GGetCommit org name sha (GOk cm resp)) ∈ h ∧
      base = default "" (gm_Tree cm) ∧ (p = sha ∨ p = gm_SHA cm)
  | _ => False
  end.
Definition tree_built (h : list GEvent) (base tree : string) : Prop :=
  ∃ c entries tr resp, GCall c (GCreateTree org name base entries (GOk tr resp)) ∈ h ∧
    tree = gt_SHA tr.
Definition commit_made (h : list GEvent) (parents : list string) (sha : string) : Prop :=
  ∃ c tree cm resp,
    GCall c (GCreateCommit org name (request_message input) tree parents (GOk cm resp)) ∈ h ∧
    sha = gm_SHA cm.

Definition commit_guard (h : list GEvent) (e : GEvent) : Prop :=
  (mutates e = true → unseen h) ∧
  match e with
  | GCall _ (GCreateBlob o n content enc _) =>
      o = org ∧ n = name ∧ enc = EncodingBase64 ∧
      ∃ f, f ∈ ci_Files input ∧ cf_Delete f = false ∧ cf_Content f = content
  | GCall _ (GCreateTree o n base entries _) =>
      o = org ∧ n = name ∧ Forall (requested_entry h) entries ∧ all_written entries
  | GCall _ (GCreateCommit o n msg tree parents _) =>
      o = org ∧ n = name ∧ msg = request_message input ∧
      ∃ base, tree_built h base tree ∧ based_on h base parents
  | GCall _ (GCreateRef o n ref sha _) =>
      o = org ∧ n = name ∧ ref = "refs/heads/" +:+ branch ∧ commit_made h [] sha
  | GCall _ (GUpdateRef o n ref sha force _) =>
      o = org ∧ n = name ∧ ref = "refs/heads/" +:+ branch ∧ force = false ∧
      ∃ parents, commit_made h parents sha
  | _ => mutates e = false
  end.

(** How a successful result came about. *)
Definition commit_result (r : error + RepositoryCommitResult) (t : list GEvent) : Prop :=
  ∀ res, r = inr res → co_Branch res = branch ∧
    (* an earlier attempt landed: nothing was changed *)
    ((Forall (λ e, mutates e = false) t ∧ ∃ c o n sha pp commits resp commit,
        GCall c (GListCommits o n sha pp (GOk commits resp)) ∈ t ∧ commit ∈ commits ∧
        has_key commit ∧ co_CommitSHA res = gl_SHA commit) ∨
     (* the branch was moved to a commit of this call *)
     (∃ c sha, co_CommitSHA res = sha ∧
        ((∃ resp, GCall c (GCreateRef org name ("refs/heads/" +:+ branch) sha (GOk tt resp)) ∈ t) ∨
         (∃ resp, GCall c (GUpdateRef org name ("refs/heads/" +:+ branch) sha false (GOk tt resp)) ∈ t))) ∨
     (* the branch's head already is what was asked for *)
     (∃ c sha cm resp, GCall c (GGetCommit org name sha (GOk cm resp)) ∈ t ∧
        co_CommitSHA res = gm_SHA cm ∧
        ((∀ f, f ∈ ci_Files input → cf_Delete f = true) ∨
         (∃ base tree, base = default "" (gm_Tree cm) ∧ base ≠ "" ∧ tree_built t base tree ∧ tree = base) ∨
         (∃ parents, commit_made t parents (gm_SHA cm)) ∨
         commitMessageHasIdempotencyKey (gm_Message cm) key = true))).

End Contract.

(** ** Lemmas: the commit *)

Definition not_listing (e : GEvent) : Prop :=
  match e with GCall _ (GListCommits _ _ _ _ _) => False | _ => True end.

Section Search.
Context (conn : Connection) (repo : Repository) (input : RepositoryCommitInput).

Lemma searched_app h t : searched conn repo input h → searched conn repo input (h ++ t).
Proof.
  intros [?|[(c & r & ?)|(c & r & ? & ?)]]; [by left|right; left|right; right]; exists c, r;
    eauto with history.
Qed.
Lemma searched_after h t : searched conn repo input t → searched conn repo input (h ++ t).
Proof.
  intros [?|[(c & r & ?)|(c & r & ? & ?)]]; [by left|right; left|right; right]; exists c, r;
    eauto with history.
Qed.
Lemma no_key_nolisting t : Forall not_listing t → no_key_listed input t.
Proof.
  intros Ht c o n sha pp commits resp Hin. rewrite Forall_forall in Ht. by apply Ht in Hin.
Qed.
Lemma no_key_concat h t : no_key_listed input h → no_key_listed input t → no_key_listed input (h ++ t).
Proof. intros Hh Ht c o n sha pp commits resp [Hin|Hin]%elem_of_app; [by eapply Hh|by eapply Ht]. Qed.
End Search.

Section Commit.
Context {W : Type} `{GitHub W}.
Context (conn : Connection) (repo : Repository) (input : RepositoryCommitInput).
Context (fs : list RepositoryCommitFile) (entries : list TreeEntry) (paths : list string)
  (blobs : list pendingBlob) (Htr : tree_request (ci_Files input) fs entries paths blobs).
#[local] Abbreviation org := (owner conn repo).
#[local] Abbreviation name := (rs_Name (rp_Spec repo)).
#[local] Abbreviation branch := (request_branch repo input).
#[local] Abbreviation key := (ci_IdempotencyKey input).
#[local] Abbreviation G := (commit_guard conn repo input).
#[local] Abbreviation R := (commit_result conn repo input).
#[local] Abbreviation final h := (Forall2 (entry_of h []) fs).

Lemma commit_quiet h e : mutates e = false → G h e.
Proof. intros Hm. split; [congruence|]. by destruct e as [|c []| | | |]. Qed.

Lemma unseen_app h t : unseen conn repo input h → Forall not_listing t → unseen conn repo input (h ++ t).
Proof.
  intros [Hs Hu] Ht. split; [by apply searched_app|].
  apply no_key_concat; [done|by apply no_key_nolisting].
Qed.

Lemma unseen_snoc h e : unseen conn repo input h → not_listing e → unseen conn repo input (h ++ [e]).
Proof. intros Hu He. apply unseen_app; [done|]. by constructor. Qed.

Lemma final_mono h t es : final h es → final (h ++ t) es.
Proof. intros Hf. eapply Forall2_impl; [exact Hf|]. intros f e He. by eapply entry_of_mono. Qed.

Lemma request_file f : f ∈ fs → ∃ f0, f0 ∈ ci_Files input ∧ cf_Delete f0 = cf_Delete f ∧
  cf_Encoding f0 = cf_Encoding f ∧ cf_Content f0 = cf_Content f ∧
  cleanRepositoryPath (cf_Path f0) = inr (cf_Path f).
Proof using Htr.
  intros Hf. destruct (tr_sound _ _ _ _ _ Htr f Hf) as (f0 & Hf0 & Hc). exists f0.
  unfold cleanedFile in Hc. destruct (cleanRepositoryPath (cf_Path f0)) as [|clean]; [done|].
  injection Hc as <-. done.
Qed.

Lemma final_requested h es : final h es → Forall (requested_entry input h) es.
Proof using Htr.
  intros Hf. apply Forall_forall. intros e He.
  apply list_elem_of_lookup in He as [i Hi].
  destruct (Forall2_lookup_r _ _ _ _ _ Hf Hi) as (f & Hfi & [H1 H2 H3 H4 H5]).
  apply list_elem_of_lookup_2 in Hfi. destruct (request_file f Hfi) as (f0 & Hin & Hd & Henc & Hcont & Hp).
  exists f0. split; [done|]. split; [congruence|]. split; [done|]. split; [done|].
  rewrite Hd, Henc, Hcont. unfold pending in H4, H5.
  destruct (cf_Delete f); simpl in *; [by apply H4|].
  destruct (decide (cf_Encoding f = EncodingBase64)) as [He|He].
  - rewrite bool_decide_eq_true_2 in H5 by done. destruct H5 as [? [?%elem_of_nil|?]]; done.
  - rewrite bool_decide_eq_false_2 in H4 by done. by apply H4.
Qed.

Lemma final_kept h es f : final h es → f ∈ ci_Files input → cf_Delete f = false →
  ∃ e, e ∈ es ∧ cleanRepositoryPath (cf_Path f) = inr (te_Path e) ∧ isDeletion e = false.
Proof using Htr.
  intros Hf Hin Hd. destruct (tr_complete _ _ _ _ _ Htr f Hin) as (f1 & Hf1 & Hc).
  unfold cleanedFile in Hc. destruct (cleanRepositoryPath (cf_Path f)) as [|clean]; [done|].
  injection Hc as <-. apply list_elem_of_lookup in Hf1 as [i Hi].
  destruct (Forall2_lookup_l _ _ _ _ _ Hf Hi) as (e & Hei & [H1 H2 H3 H4 H5]).
  exists e. split; [by eapply list_elem_of_lookup_2|]. split; [by rewrite H1|].
  unfold pending in H4, H5. simpl in *. rewrite Hd in *. simpl in *. unfold isDeletion.
  destruct (bool_decide (cf_Encoding f = EncodingBase64)).
  - destruct H5 as [_ [?%elem_of_nil|(sha & -> & _)]]; done.
  - destruct H4 as [-> ->]; done.
Qed.

(** Entries that dropped deletions only. *)
Definition effective_of (es es' : list TreeEntry) : Prop :=
  (∀ e, e ∈ es' → e ∈ es) ∧ (∀ e, e ∈ es → isDeletion e = false → e ∈ es').

Lemma effective_tree h es es' : final h es → effective_of es es' →
  Forall (requested_entry input h) es' ∧ all_written input es'.
Proof using Htr.
  intros Hf [Hsub Hkeep]. split.
  - apply Forall_forall. intros e He. pose proof (final_requested h es Hf) as Hr.
    rewrite Forall_forall in Hr. by apply Hr, Hsub.
  - intros f Hin Hd. destruct (final_kept h es f Hf Hin Hd) as (e & He & Hp & Hdel).
    exists e. split; [by apply Hkeep|done].
Qed.
Lemma effective_nil h es : final h es → effective_of es [] →
  ∀ f, f ∈ ci_Files input → cf_Delete f = true.
Proof using Htr.
  intros Hf [_ Hkeep] f Hin. destruct (cf_Delete f) eqn:Hd; [done|].
  destruct (final_kept h es f Hf Hin Hd) as (e & He & _ & Hdel).
  specialize (Hkeep e He Hdel). by apply elem_of_nil in Hkeep.
Qed.

Lemma blob_file b : b ∈ blobs → ∃ f, f ∈ fs ∧ pending f = true ∧ pb_Path b = cf_Path f ∧
  pb_Content b = cf_Content f.
Proof using Htr.
  rewrite (tr_blobs _ _ _ _ _ Htr). intros (f & -> & Hf)%list_elem_of_fmap.
  apply list_elem_of_filter in Hf as [Hp Hf]. by exists f.
Qed.
Lemma path_unique f f' : f ∈ fs → f' ∈ fs → cf_Path f = cf_Path f' → f = f'.
Proof using Htr.
  intros [i Hi]%list_elem_of_lookup [j Hj]%list_elem_of_lookup Heq.
  assert (i = j) as ->; [|congruence].
  pose proof (tr_nodup _ _ _ _ _ Htr) as Hnd. rewrite (tr_paths _ _ _ _ _ Htr) in Hnd.
  eapply (NoDup_lookup (cf_Path <$> fs) _ _ (cf_Path f)); [done| |].
  - by rewrite list_lookup_fmap, Hi.
  - rewrite list_lookup_fmap, Hj. simpl. by rewrite Heq.
Qed.

Lemma createPendingBlobs_hoare h c uploaded bs es :
  unseen conn repo input h → (∀ content sha, uploaded !! content = Some sha → uploaded_in h content sha) →
  (∀ b, b ∈ bs → b ∈ blobs) → Forall2 (entry_of h (pb_Path <$> bs)) fs es →
  hoare G h (createPendingBlobs (W := W) c org name uploaded bs es) (λ r h',
    match r with inl _ => True
    | inr es' => unseen conn repo input h' ∧ final h' es' end).
Proof using Htr.
  revert h uploaded es. induction bs as [|b bs IH]; intros h uploaded es Hu Hup Hsub Hes; simpl.
  { by apply hoare_ret. }
  destruct (blob_file b) as (f & Hf & Hpend & Hpath & Hcont); [apply Hsub; by left|].
  assert (Hset : ∀ h' sha, uploaded_in h' (pb_Content b) sha →
      Forall2 (entry_of h' (pb_Path b :: (pb_Path <$> bs))) fs es →
      Forall2 (entry_of h' (pb_Path <$> bs)) fs (set_blob (pb_Path b) sha es)).
  { intros h' sha Hin. apply (set_blob_of _ _ (pb_Content b)); [done|]. intros f' Hf' Hp'.
    assert (f' = f) as -> by (apply path_unique; [done..|congruence]). by rewrite Hcont. }
  destruct (uploaded !! pb_Content b) as [sha|] eqn:Hsha.
  { apply IH; [done..|intros b' Hb'; apply Hsub; by right|]. apply Hset; [by apply Hup|done]. }
  apply hoare_bind, hoare_call.
  { intros r. split; [done|]. split_and!; [done..|]. destruct (request_file f Hf) as (f0 & ? & Hd & _ & Hc0 & _).
    exists f0. split; [done|]. split; [|congruence]. unfold pending in Hpend.
    apply andb_true_iff in Hpend as [Hpend _]. apply negb_true_iff in Hpend. congruence. }
  intros [resp err|sha resp]; [by apply refuse_hoare; [apply commit_quiet|]|].
  destruct (decide (sha = "")); [by apply hoare_ret|].
  assert (Hin : uploaded_in (h ++ [GCall c (GCreateBlob org name (pb_Content b) EncodingBase64 (GOk sha resp))])
    (pb_Content b) sha) by (exists c, org, name, resp; apply elem_snoc).
  eapply hoare_mono; [apply IH|].
  - by apply unseen_snoc.
  - intros content sha'. destruct (decide (pb_Content b = content)) as [<-|Hne].
    + rewrite lookup_insert_eq. by intros [= <-].
    + rewrite lookup_insert_ne by done. intros (c' & o' & n' & resp' & Hx)%Hup.
      exists c', o', n', resp'. by apply elem_before.
  - intros b' Hb'. apply Hsub. by right.
  - apply Hset; [done|]. eapply Forall2_impl; [exact Hes|]. intros x e He.
    by eapply entry_of_mono.
  - done.
Qed.

Lemma commit_made_app h t parents sha :
  commit_made conn repo input h parents sha → commit_made conn repo input (h ++ t) parents sha.
Proof.
  intros (c & tree & cm & resp & Hin & ->). exists c, tree, cm, resp.
  split; [by apply elem_before|done].
Qed.
Lemma tree_built_app h t base tree :
  tree_built conn repo h base tree → tree_built conn repo (h ++ t) base tree.
Proof.
  intros (c & es & tr & resp & Hin & ->). exists c, es, tr, resp.
  split; [by apply elem_before|done].
Qed.
Lemma based_on_app h t base parents :
  based_on conn repo h base parents → based_on conn repo (h ++ t) base parents.
Proof.
  destruct parents as [|p [|]]; simpl; [done| |done].
  intros (c & sha & cm & resp & Hin & ?). exists c, sha, cm, resp. split; [by apply elem_before|done].
Qed.

(** An error ends the call, whatever was done. *)
Lemma commit_refuse {A} h resp err (Q : error + A → list GEvent → Prop) :
  (∀ e h', Q (inl e) h') → hoare G h (refuse (W := W) resp err) Q.
Proof. intros HQ. by apply refuse_hoare; [apply commit_quiet|]. Qed.
Lemma result_error e h : R (inl e) h.
Proof. by intros res. Qed.
Lemma commit_read {A} (op : W → A * W) (ev : A → GEvent) h (Q : A → list GEvent → Prop) :
  (∀ a, mutates (ev a) = false) → (∀ a, Q a (h ++ [ev a])) → hoare G h (call op ev) Q.
Proof. intros Hm HQ. apply hoare_call; [|done]. intros a. by apply commit_quiet. Qed.

Lemma effective_refl es : effective_of es es.
Proof. by split. Qed.

Lemma filterNoop_hoare h c base es files : unseen conn repo input h →
  hoare G h (filterNoopGitTreeDeletions (W := W) c org name base es files) (λ r h',
    match r with inl _ => True
    | inr (es', _) => unseen conn repo input h' ∧ (∃ t, h' = h ++ t) ∧ effective_of es es' end).
Proof.
  intros Hu. unfold filterNoopGitTreeDeletions.
  assert (Hkeep : ∀ present, effective_of es (keepEffective present es files).1)
    by (intros present; apply keepEffective_spec).
  destruct (negb _).
  { apply hoare_ret. split; [done|]. split; [exists []; by rewrite app_nil_r|apply effective_refl]. }
  destruct (decide (base = "")).
  { apply hoare_ret. specialize (Hkeep ∅). destruct (keepEffective ∅ es files). split; [done|].
    split; [exists []; by rewrite app_nil_r|done]. }
  apply hoare_bind, commit_read; [done|]. intros [resp err|tree resp]; [by apply commit_refuse|].
  destruct (gt_Truncated tree); apply hoare_ret.
  - split; [by apply unseen_snoc|]. split; [by eexists|apply effective_refl].
  - specialize (Hkeep (list_to_set (ge_Path <$> gt_Entries tree))). destruct (keepEffective _ es files).
    split; [by apply unseen_snoc|]. split; [by eexists|done].
Qed.

Lemma create_tree_hoare h c base es es' (Q : Answer GTree → list GEvent → Prop) :
  unseen conn repo input h → final h es → effective_of es es' →
  (∀ a, let h' := h ++ [GCall c (GCreateTree org name base es' a)] in Q a h') →
  hoare G h (g_create_tree (W := W) c org name base es') Q.
Proof using Htr.
  intros Hu Hf Heff HQ. apply hoare_call; [|exact HQ]. intros a. split; [done|].
  split; [done|]. split; [done|]. by eapply effective_tree.
Qed.
Lemma create_commit_hoare h c base tree parents (Q : Answer GCommit → list GEvent → Prop) :
  unseen conn repo input h → tree_built conn repo h base tree → based_on conn repo h base parents →
  (∀ a, Q a (h ++ [GCall c (GCreateCommit org name (request_message input) tree parents a)])) →
  hoare G h (g_create_commit (W := W) c org name (request_message input) tree parents) Q.
Proof.
  intros Hu Ht Hb HQ. apply hoare_call; [|exact HQ]. intros a. split; [done|].
  split_and!; [done..|]. by exists base.
Qed.
Lemma update_ref_hoare h c parents sha (Q : Answer unit → list GEvent → Prop) :
  unseen conn repo input h → commit_made conn repo input h parents sha →
  (∀ a, Q a (h ++ [GCall c (GUpdateRef org name ("refs/heads/" +:+ branch) sha false a)])) →
  hoare G h (g_update_ref (W := W) c org name ("refs/heads/" +:+ branch) sha false) Q.
Proof.
  intros Hu Hc HQ. apply hoare_call; [|exact HQ]. intros a. split; [done|].
  split_and!; [done..|]. by exists parents.
Qed.

Lemma currentBranchHead_hoare h c (Q : error + option GCommit → list GEvent → Prop) :
  (∀ e h', Q (inl e) h') → (∀ t, Forall not_listing t → Q (inr None) (h ++ t)) →
  (∀ t sha head resp, Forall not_listing t →
     GCall c (GGetCommit org name sha (GOk head resp)) ∈ t → Q (inr (Some head)) (h ++ t)) →
  hoare G h (currentBranchHead (W := W) c org repo branch) Q.
Proof.
  intros He Hn Hs. apply hoare_bind, commit_read; [done|].
  intros [resp err|ref resp]; [by apply commit_refuse|].
  destruct (rf_Object ref) as [sha|]; [|apply hoare_ret, Hn; by repeat constructor].
  destruct (decide (sha = "")); [apply hoare_ret, Hn; by repeat constructor|].
  apply hoare_bind, commit_read; [done|].
  intros [resp2 err|head resp2]; [by apply commit_refuse|].
  apply hoare_ret. rewrite <- app_assoc. apply (Hs _ sha head resp2); [by repeat constructor|].
  right. by left.
Qed.

(** The branch was moved to the commit just made. *)
Lemma result_moved h c commit files resp :
  R (inr (committed org repo branch commit files))
    (h ++ [GCall c (GUpdateRef org name ("refs/heads/" +:+ branch) (gm_SHA commit) false (GOk tt resp))]).
Proof.
  intros res [= <-]. split; [done|]. right. left. exists c, (gm_SHA commit). split; [done|].
  right. exists resp. apply elem_snoc.
Qed.

Lemma result_kept h c sha cm resp files :
  GCall c (GGetCommit org name sha (GOk cm resp)) ∈ h →
  ((∀ f, f ∈ ci_Files input → cf_Delete f = true) ∨
   (∃ base tree, base = default "" (gm_Tree cm) ∧ base ≠ "" ∧ tree_built conn repo h base tree ∧
      tree = base) ∨
   (∃ parents, commit_made conn repo input h parents (gm_SHA cm)) ∨
   commitMessageHasIdempotencyKey (gm_Message cm) key = true) →
  R (inr (committed org repo branch cm files)) h.
Proof.
  intros Hin Hwhy res [= <-]. split; [done|]. right. right. by exists c, sha, cm, resp.
Qed.

Lemma recover_hoare h c attempted parents es files :
  unseen conn repo input h → final h es → commit_made conn repo input h parents attempted →
  hoare G h (recoverOrRetryConcurrentCommit (W := W) c org repo branch attempted key
               (request_message input) es files)
    (λ r h', match r with inr (Some res) => R (inr res) h' | _ => True end).
Proof using Htr.
  intros Hu Hf Hm. apply hoare_bind_res, currentBranchHead_hoare; [done|by intros; apply hoare_ret|].
  intros t sha head resp Ht Hin.
  pose proof (unseen_app _ _ Hu Ht) as Hu1. pose proof (final_mono _ t _ Hf) as Hf1.
  assert (Hget : GCall c (GGetCommit org name sha (GOk head resp)) ∈ h ++ t) by by apply elem_after.
  destruct (concurrentHeadMatchesCommitRequest head attempted key) eqn:Hmatch.
  { apply hoare_ret. eapply result_kept; [exact Hget|]. right. right.
    apply orb_true_iff in Hmatch as [[_ Heq%bool_decide_eq_true]%andb_true_iff|Hk]; [left|by right].
    exists parents. rewrite Heq. by apply commit_made_app. }
  apply hoare_bind_res. eapply hoare_mono; [by apply filterNoop_hoare|].
  intros [e|[es' files']] h'; [done|]. intros (Hu2 & [t2 ->] & Heff).
  destruct (decide (es' = [])) as [->|_].
  { apply hoare_ret. eapply result_kept; [by apply elem_before|]. left. by eapply effective_nil. }
  apply hoare_bind. eapply create_tree_hoare; [done|by apply final_mono|done|]. intros a. cbv zeta.
  destruct a as [resp2 err|tree resp2]; [by apply commit_refuse|].
  apply hoare_bind, (create_commit_hoare _ _ (default "" (gm_Tree head))); [by apply unseen_snoc| | |].
  { exists c, es', tree, resp2. split; [apply elem_snoc|done]. }
  { exists c, sha, head, resp. split; [by do 2 apply elem_before|]. split; [done|by right]. }
  intros [resp3 err|commit resp3]; [by apply commit_refuse|].
  apply hoare_bind, (update_ref_hoare _ _ [gm_SHA head]); [by apply unseen_snoc; [apply unseen_snoc|]| |].
  { exists c, (gt_SHA tree), commit, resp3. split; [apply elem_snoc|done]. }
  intros [resp4 err|[] resp4]; [by apply commit_refuse|]. apply hoare_ret, result_moved.
Qed.

Lemma isRecoverable_hoare h resp err (Q : bool → list GEvent → Prop) :
  (∀ b t, Forall not_listing t → Q b (h ++ t)) →
  hoare G h (isRecoverableRefRace (W := W) resp err) Q.
Proof.
  intros HQ. unfold isRecoverableRefRace, g_text. destruct (has_status _ resp).
  - do 2 apply hoare_bind. apply commit_read; [done|]. intros now. do 2 apply hoare_ret.
    apply HQ. by repeat constructor.
  - apply hoare_ret. rewrite <- (app_nil_r h). by apply HQ.
Qed.

Lemma publishCommit_hoare h c headSHA base tree es files files' :
  unseen conn repo input h → final h es → tree_built conn repo h base (gt_SHA tree) →
  based_on conn repo h base (if decide (headSHA = "") then [] else [headSHA]) →
  hoare G h (publishCommit (W := W) c org repo branch key (request_message input) headSHA tree
               files' es files) R.
Proof using Htr.
  intros Hu Hf Ht Hb. apply hoare_bind. eapply create_commit_hoare; [done..|].
  intros [resp err|commit resp]; [by apply commit_refuse|].
  set (parents := if decide (headSHA = "") then [] else [headSHA]) in *. set (h1 := h ++ _).
  assert (Hu1 : unseen conn repo input h1) by by apply unseen_snoc.
  assert (Hm : commit_made conn repo input h1 parents (gm_SHA commit)).
  { exists c, (gt_SHA tree), commit, resp. split; [apply elem_snoc|done]. }
  assert (Hrace : ∀ ev resp err, not_listing ev → hoare G (h1 ++ [ev])
    (race ← isRecoverableRefRace (W := W) resp err;
     if (race : bool) then
       retry ←? recoverOrRetryConcurrentCommit c org repo branch (gm_SHA commit) key
                  (request_message input) es files;
       match retry with Some res => mret (inr res) | None => refuse resp err end
     else refuse resp err) R).
  { intros ev resp2 err Hev. apply hoare_bind, isRecoverable_hoare. intros race t Hnl.
    assert (Hu2 : unseen conn repo input ((h1 ++ [ev]) ++ t)) by (apply unseen_app; [by apply unseen_snoc|done]).
    destruct race; [|by apply commit_refuse].
    apply hoare_bind_res. eapply hoare_mono.
    { eapply recover_hoare; [done|by repeat apply final_mono|].
      apply commit_made_app, commit_made_app. exact Hm. }
    intros [e|[res|]] h'; [done|by intros HR; apply hoare_ret|by intros _; apply commit_refuse]. }
  apply hoare_bind. unfold parents in *. destruct (decide (headSHA = "")) as [Hh|Hh].
  - apply hoare_call.
    { intros a. split; [done|]. by split_and!. }
    intros [resp2 err|[] resp2]; [by apply Hrace|]. apply hoare_ret.
    intros res [= <-]. split; [done|]. right. left. exists c, (gm_SHA commit). split; [done|].
    left. exists resp2. apply elem_snoc.
  - eapply update_ref_hoare; [done..|]. intros [resp2 err|[] resp2]; [by apply Hrace|].
    apply hoare_ret, result_moved.
Qed.

Lemma uploadBlobs_hoare h cred : unseen conn repo input h →
  hoare G h (uploadBlobs (W := W) cred conn org name blobs entries) (λ r h',
    match r with inl _ => True | inr es => unseen conn repo input h' ∧ final h' es end).
Proof using Htr.
  intros Hu. unfold uploadBlobs.
  pose proof (treeEntry_of h fs) as He. rewrite <- (tr_entries _ _ _ _ _ Htr) in He.
  assert (Hb : pb_Path <$> blobs = cf_Path <$> filter (λ f, pending f = true) fs).
  { rewrite (tr_blobs _ _ _ _ _ Htr), <- list_fmap_compose. done. }
  rewrite <- Hb in He. destruct (decide (blobs = [])) as [Hnil|_].
  { apply hoare_ret. split; [done|]. by rewrite Hnil in He. }
  destruct (blobClient cred _) as [err|uploader]; [by apply hoare_ret|].
  by apply createPendingBlobs_hoare.
Qed.

Lemma parentCommit_hoare h c headSHA (Q : error + option GCommit → list GEvent → Prop) :
  (∀ e h', Q (inl e) h') → (headSHA = "" → Q (inr None) h) →
  (∀ cm resp, headSHA ≠ "" →
     Q (inr (Some cm)) (h ++ [GCall c (GGetCommit org name headSHA (GOk cm resp))])) →
  hoare G h (parentCommit (W := W) c org name headSHA) Q.
Proof.
  intros He Hn Hs. unfold parentCommit. destruct (decide (headSHA = "")); [by apply hoare_ret, Hn|].
  apply hoare_bind, commit_read; [done|]. intros [resp err|cm resp]; [by apply commit_refuse|].
  by apply hoare_ret, Hs.
Qed.

Lemma writeFiles_hoare h c cred headSHA : unseen conn repo input h →
  hoare G h (writeFiles (W := W) c cred conn org repo branch key (request_message input) headSHA
               entries paths blobs) R.
Proof using Htr.
  intros Hu. apply hoare_bind_res. eapply hoare_mono; [by apply uploadBlobs_hoare|].
  intros [e|es] h1; [done|]. intros [Hu1 Hf]. apply hoare_bind_res, parentCommit_hoare; [done| |].
  - intros ->. apply hoare_bind_res. eapply hoare_mono; [by apply filterNoop_hoare|].
    intros [e|[es' files']] h2; [done|]. intros (Hu2 & [t ->] & Heff).
    destruct (decide (es' = [])); [by apply hoare_ret|].
    apply hoare_bind. eapply create_tree_hoare; [done|by apply final_mono|done|]. intros a. cbv zeta.
    destruct a as [resp err|tree resp]; [by apply commit_refuse|].
    apply (publishCommit_hoare _ _ _ ""); [by apply unseen_snoc|by do 2 apply final_mono| |done].
    exists c, es', tree, resp. split; [apply elem_snoc|done].
  - intros cm resp Hh. apply hoare_bind_res. eapply hoare_mono; [by apply filterNoop_hoare, unseen_snoc|].
    intros [e|[es' files']] h2; [done|]. intros (Hu2 & [t ->] & Heff).
    assert (Hget : GCall c (GGetCommit org name headSHA (GOk cm resp))
      ∈ (h1 ++ [GCall c (GGetCommit org name headSHA (GOk cm resp))]) ++ t)
      by apply elem_before, elem_snoc.
    destruct (decide (es' = [])) as [->|_].
    { apply hoare_ret. eapply result_kept; [exact Hget|]. left.
      exact (effective_nil _ _ Hf Heff). }
    apply hoare_bind. eapply create_tree_hoare; [done|by do 2 apply final_mono|done|]. intros a. cbv zeta.
    destruct a as [resp2 err|tree resp2]; [by apply commit_refuse|]. simpl.
    set (h2 := _ ++ [GCall c (GCreateTree _ _ _ _ _)]).
    assert (Ht : tree_built conn repo h2 (default "" (gm_Tree cm)) (gt_SHA tree)).
    { exists c, es', tree, resp2. split; [apply elem_snoc|done]. }
    destruct (_ && _) eqn:Hreuse.
    + apply hoare_ret. eapply result_kept; [by apply elem_before|]. right. left.
      apply andb_true_iff in Hreuse as [Hne Heq].
      apply bool_decide_eq_true in Heq. apply negb_true_iff, bool_decide_eq_false in Hne.
      exists (default "" (gm_Tree cm)), (gt_SHA tree). split_and!; [done|congruence|done|done].
    + apply (publishCommit_hoare _ _ _ (default "" (gm_Tree cm)));
        [by apply unseen_snoc|by do 3 apply final_mono|done|].
      rewrite decide_False by done. exists c, headSHA, cm, resp. split; [by apply elem_before|].
      split; [done|by left].
Qed.
End Commit.

(** Up to the idempotency check nothing has changed. *)
Section Lookup.
Context {W : Type} `{GitHub W}.
Context (conn : Connection) (repo : Repository) (input : RepositoryCommitInput).
#[local] Abbreviation G := (commit_guard conn repo input).
#[local] Abbreviation unchanged := (Forall (λ e, mutates e = false)).

Lemma refuse_unchanged {A} resp err :
  emits (refuse (A := A) (W := W) resp err) (λ r t, unchanged t ∧ Forall not_listing t ∧ ∃ e, r = inl e).
Proof.
  unfold refuse. apply emits_bind. eapply emits_mono; [apply classify_now|].
  intros e t Ht. apply emits_ret. rewrite app_nil_r. split_and!; [..|by eexists].
  - eapply Forall_impl; [exact Ht|]. by intros ? [? ->].
  - eapply Forall_impl; [exact Ht|]. by intros ? [? ->].
Qed.

Lemma confirmRepository_emits c org :
  emits (confirmRepository (W := W) c org repo) (λ _ t, unchanged t ∧ Forall not_listing t).
Proof.
  unfold confirmRepository. destruct (annotated _ _); [|by apply emits_ret].
  apply emits_bind, emits_call. intros [resp err|existing resp].
  - eapply emits_mono; [apply refuse_unchanged|]. intros r t (Hu & Hl & _).
    split; by constructor.
  - destruct (checkRepositoryIdentity repo existing); apply emits_ret; split; by repeat constructor.
Qed.

Lemma branchHead_emits c :
  emits (branchHead (W := W) c (owner conn repo) (rs_Name (rp_Spec repo)) (request_branch repo input))
    (λ r t, unchanged t ∧ Forall not_listing t ∧ (r = inr "" → searched conn repo input t)).
Proof.
  apply emits_bind, emits_call. intros [resp err|ref resp].
  - destruct (has_status _ resp) eqn:Hs.
    + apply emits_ret. split_and!; [by repeat constructor..|]. intros _. right; right.
      do 2 eexists. split; [by left|done].
    + eapply emits_mono; [apply refuse_unchanged|]. intros r t (Hu & Hl & e & ->).
      split_and!; [by constructor..|done].
  - apply emits_ret. split_and!; [by repeat constructor..|]. intros [= Hr]. right; right.
    do 2 eexists. split; [by left|done].
Qed.

(** The listing is searched for the key, whole. *)
Lemma find_emits c :
  emits (findRepositoryCommitByIdempotencyKey (W := W) c (owner conn repo) (rs_Name (rp_Spec repo))
           (request_branch repo input) (ci_IdempotencyKey input))
    (λ r t, unchanged t ∧
       match r with
       | inl _ => True
       | inr None => unseen conn repo input t
       | inr (Some commit) => ∃ c o n sha pp commits resp,
           GCall c (GListCommits o n sha pp (GOk commits resp)) ∈ t ∧ commit ∈ commits ∧
           has_key input commit
       end).
Proof.
  assert (Hkey : ∀ m, commitMessageHasIdempotencyKey m (TrimSpace (ci_IdempotencyKey input))
    = commitMessageHasIdempotencyKey m (ci_IdempotencyKey input)).
  { intros m. unfold commitMessageHasIdempotencyKey. by rewrite TrimSpace_idemp. }
  assert (Hlisted : ∀ c r, searched conn repo input [GCall c (GListCommits (owner conn repo)
    (rs_Name (rp_Spec repo)) (request_branch repo input) 50 r)])
    by (intros c' r; right; left; do 2 eexists; by left).
  unfold findRepositoryCommitByIdempotencyKey. destruct (decide _).
  { apply emits_ret. split; [done|]. split; [by left|]. by apply no_key_nolisting. }
  apply emits_bind, emits_call. intros [resp err|commits resp].
  - destruct (_ || _).
    + apply emits_ret. split; [by repeat constructor|]. split; [apply Hlisted|].
      intros ????????. set_solver.
    + eapply emits_mono; [apply refuse_unchanged|]. intros r t (Hu & _ & e & ->). split; by constructor.
  - apply emits_ret. split; [by repeat constructor|].
    destruct (List.find _ commits) as [commit|] eqn:Hfind.
    + apply find_some in Hfind as [Hin Hk]. do 7 eexists. split; [by left|].
      split; [by apply list_elem_of_In|]. unfold has_key. destruct (gl_Message commit); [|done].
      by rewrite <- Hkey.
    + split; [apply Hlisted|]. intros c' o n' sha pp commits' resp' Hin%list_elem_of_singleton.
      injection Hin as -> -> -> -> -> -> ->. apply Forall_forall. intros commit Hc%list_elem_of_In Hk.
      pose proof (find_none _ _ Hfind commit Hc) as Hn. simpl in Hn. unfold has_key in Hk.
      destruct (gl_Message commit); [|done]. rewrite Hkey in Hn. congruence.
Qed.

Lemma CommitFiles_hoare cred :
  hoare G [] (CommitFiles (W := W) conn cred repo input) (commit_result conn repo input).
Proof.
  unfold CommitFiles. destruct (decide _) as [|Hsome]; [by apply hoare_ret|].
  destruct (gitTreeEntries (ci_Files input)) as [err|[[entries files] blobs]] eqn:Hg; [by apply hoare_ret|].
  destruct (gitTreeEntries_spec _ _ _ _ Hg) as [fs Htr].
  destruct (client cred _) as [err|c]; [by apply hoare_ret|].
  assert (Hq : ∀ h e, mutates e = false → G h e) by apply commit_quiet.
  apply hoare_bind_res. eapply (hoare_all G _ _ _ (λ _ t, Forall not_listing t));
    [apply confirmRepository_emits|apply Hq|]. intros r1 t1 Hq1 Hl1. destruct r1 as [e|[]]; [done|].
  apply hoare_bind_res.
  eapply (hoare_all G _ _ _ (λ r t, Forall not_listing t ∧ (r = inr "" → searched conn repo input t)));
    [apply branchHead_emits|apply Hq|]. intros r2 t2 Hq2 [Hl2 Hs2]. destruct r2 as [e|headSHA]; [done|].
  assert (Hn : no_key_listed input (([] ++ t1) ++ t2))
    by (apply no_key_nolisting; by apply Forall_app).
  assert (Hwrite : ∀ h, unseen conn repo input h → hoare G h
    (writeFiles (W := W) c cred conn (owner conn repo) repo (request_branch repo input)
       (ci_IdempotencyKey input) (request_message input) headSHA entries files blobs)
    (commit_result conn repo input)) by (intros h Hh; by eapply writeFiles_hoare).
  apply hoare_bind_res. destruct (decide (headSHA ≠ "" ∧ _)) as [Hne|Hne].
  2: { apply hoare_ret. apply Hwrite. split; [|done]. apply not_and_l in Hne as [Hne|Hne].
       - apply searched_after, Hs2. f_equal. by apply dec_stable.
       - left. by apply dec_stable. }
  eapply (hoare_all G _ _ _ _ _ (find_emits c)); [apply Hq|].
  intros r3 t3 Hq3 Hr3. destruct r3 as [e|[commit|]]; [done| |].
  - apply hoare_ret. intros res [= <-]. split; [done|]. left. split.
    + repeat (apply Forall_app; split); done.
    + destruct Hr3 as (c' & o & n & sha & pp & commits & resp & Hin & Hc & Hk).
      exists c', o, n, sha, pp, commits, resp, commit. split; [by apply elem_after|done].
  - apply Hwrite. destruct Hr3. split; [by apply searched_after|by apply no_key_concat].
Qed.
End Lookup.

(** ** Properties *)

(** C9: CommitFiles is idempotent by key and faithful to its request.  It writes
    on the host only after the branch's history was searched for the request's key
    and none of the listed commits carries it; it uploads only the requested
    base64 payloads; its trees hold only entries of the request, every deletion a
    requested one and no file left out, with exactly the requested contents; its
    commits carry the request's message and key, over a tree this call built on
    the tree of their one parent; and it moves only the requested branch, without
    force, to a commit it made.  A success names a listed commit with the key and
    no write at all, the commit the branch was moved to, or a head of the branch
    that already is what was asked for. *)
Theorem CommitFiles_faithful {W} `{GitHub W} (conn : Connection) (cred : Credential)
    (repo : Repository) (input : RepositoryCommitInput) (w w' : W) r t
    (Hrun : CommitFiles conn cred repo input w = (r, w', t)) :
  (∀ before e after, t = before ++ e :: after → commit_guard conn repo input before e) ∧
  commit_result conn repo input r t.
Proof. eapply hoare_run; [apply CommitFiles_hoare|exact Hrun]. Qed.

(** A first commit of a text file, a binary file and a deletion. *)
Definition demo_input : RepositoryCommitInput := {|
  ci_IdempotencyKey := "k-1"; ci_Branch := ""; ci_Message := "Add app";
  ci_Files := [
    {| cf_Path := "./src/app.go"; cf_Content := "package app"; cf_Encoding := ""; cf_Delete := false |};
    {| cf_Path := "logo.png"; cf_Content := "aGk="; cf_Encoding := EncodingBase64; cf_Delete := false |};
    {| cf_Path := "old.txt"; cf_Content := ""; cf_Encoding := ""; cf_Delete := true |}] |}.

Lemma CommitFiles_faithful_witness :
  let G := fixed_github empty_host in
  let repo := demo_repo ∅ "" in
  ∃ res t, CommitFiles demo_conn demo_cred repo demo_input tt = (inr res, tt, t) ∧
    co_CommitSHA res = "c0ffee" ∧ co_Files res = ["logo.png"; "src/app.go"] ∧
    commit_result demo_conn repo demo_input (inr res) t.
Proof.
  intros G repo. eexists _, _. split; [vm_compute; reflexivity|].
  split; [vm_compute; reflexivity|]. split; [vm_compute; reflexivity|].
  apply (CommitFiles_faithful demo_conn demo_cred repo demo_input tt tt). vm_compute. reflexivity.
Defined.
