(* ===== verification/GitHubCheckout.v ===== *)
(** * backend/github/checkout.go: reading a repository's tree

    [CheckoutFiles] walks the tree of a resolved commit and downloads its blobs
    within the caps of the request; what does not fit is skipped and reported. *)

From S2P Require Import Prelude GoStrings Encoding GoTime Errors Api Backend.
From S2P Require Import GitHubApi GitHubRepositories.
From Stdlib Require Import Ascii Lia.

#[local] Open Scope string_scope.
#[local] Open Scope list_scope.

Definition defaultCheckoutMaxFiles : Z := 500.
Definition defaultCheckoutMaxFileBytes : Z := Z.shiftl 256 10.
Definition defaultCheckoutMaxBinaryFileBytes : Z := Z.shiftl 25 20.
Definition defaultCheckoutMaxTotalBytes : Z := Z.shiftl 16 20.
Definition defaultCheckoutMaxTotalBytesWithBinary : Z := Z.shiftl 48 20.
Definition largeBlobBytes : Z := Z.shiftl 1 20.
Definition maxSkipped : nat := 100.

(** The caps in force: the request's, or the defaults where it names none. *)
Record Limits := {
  lm_Files : Z; lm_FileBytes : Z; lm_BinaryBytes : Z; lm_TotalBytes : Z; lm_Binary : bool }.
Definition orDefault (n d : Z) : Z := if (n <=? 0)%Z then d else n.
Definition limits (input : RepositoryCheckoutInput) : Limits := {|
  lm_Files := orDefault (hi_MaxFiles input) defaultCheckoutMaxFiles;
  lm_FileBytes := orDefault (hi_MaxFileBytes input) defaultCheckoutMaxFileBytes;
  lm_BinaryBytes := orDefault (hi_MaxBinaryFileBytes input) defaultCheckoutMaxBinaryFileBytes;
  lm_TotalBytes := orDefault (hi_MaxTotalBytes input)
    (if hi_IncludeBinary input then defaultCheckoutMaxTotalBytesWithBinary
     else defaultCheckoutMaxTotalBytes);
  lm_Binary := hi_IncludeBinary input |}.
(** The class of a blob is only known after its download. *)
Definition maxAnyFileBytes (l : Limits) : Z :=
  if lm_Binary l then Z.max (lm_FileBytes l) (lm_BinaryBytes l) else lm_FileBytes l.

(** A NUL byte or invalid UTF-8; empty files are text. *)
Definition isBinaryContent (raw : string) : bool :=
  if decide (raw = "") then false
  else if ContainsByte raw "000"%char then true
  else negb (ValidString raw).

Definition appendSkip (skipped : list string) (entry : string) : list string :=
  if decide (maxSkipped ≤ length skipped)%nat then skipped
  else if decide (length skipped = maxSkipped - 1)%nat then skipped ++ ["(more paths skipped)"]
  else skipped ++ [entry].

Record Progress := {
  pg_Files : list RepositoryCommitFile; pg_Skipped : list string; pg_Total : Z }.
Definition skip (p : Progress) (entry : string) : Progress :=
  {| pg_Files := pg_Files p; pg_Skipped := appendSkip (pg_Skipped p) entry; pg_Total := pg_Total p |}.
Definition keep (p : Progress) (path raw : string) (size : Z) : Progress :=
  {| pg_Files := pg_Files p ++
       [if isBinaryContent raw
        then {| cf_Path := path; cf_Content := base64_encode raw; cf_Encoding := EncodingBase64;
                cf_Delete := false |}
        else {| cf_Path := path; cf_Content := raw; cf_Encoding := ""; cf_Delete := false |}];
     pg_Skipped := pg_Skipped p; pg_Total := wrap64 (pg_Total p + size) |}.

(** What becomes of a downloaded blob. *)
Definition admitBlob (l : Limits) (p : Progress) (path raw : string) : Progress :=
  let size := slen raw in
  let binary := isBinaryContent raw in
  if binary && negb (lm_Binary l) then skip p (path +:+ " (binary)")
  else if (binary && (lm_BinaryBytes l <? size)%Z) || (negb binary && (lm_FileBytes l <? size)%Z)
  then skip p (path +:+ " (file too large)")
  else if (lm_TotalBytes l <? wrap64 (pg_Total p + size))%Z then skip p (path +:+ " (total-size cap)")
  else keep p path raw size.

Definition path_order (a b : GEntry) : Prop := string_le (ge_Path a) (ge_Path b).
#[export] Instance path_order_dec : RelDecision path_order.
Proof. intros a b. unfold path_order. apply _. Defined.
(** The blobs of a tree, by path. *)
Definition blobs (tree : GTree) : list GEntry :=
  merge_sort path_order (filter (λ e, ge_Type e = "blob") (gt_Entries tree)).

Definition truncatedSkip (tree : GTree) : list string :=
  if gt_Truncated tree then
    ["(tree truncated by the host: repository has more entries than the tree API returns)"]
  else [].

Section GitHub.
Context {W : Type} `{GitHub W}.

Definition readEntry (c : Client) (large : error + Client) (org name : string) (l : Limits)
    (p : Progress) (e : GEntry) : GEff W (error + Progress) :=
  let path := ge_Path e in
  if (lm_Files l <=? Z.of_nat (length (pg_Files p)))%Z then
    mret (inr (skip p (path +:+ " (file-count cap)")))
  else if (maxAnyFileBytes l <? ge_Size e)%Z then mret (inr (skip p (path +:+ " (file too large)")))
  else if (lm_TotalBytes l <? wrap64 (pg_Total p + ge_Size e))%Z then
    mret (inr (skip p (path +:+ " (total-size cap)")))
  else
    match (if (largeBlobBytes <? ge_Size e)%Z then large else inr c) with
    | inl err => mret (inl err)
    | inr blobClient =>
        r ← g_get_blob_raw blobClient org name (ge_SHA e);
        match r with
        | GErr resp err => refuse resp (Wrap ("read blob " +:+ path +:+ ": ") err)
        | GOk raw _ => mret (inr (admitBlob l p path raw))
        end
    end.

Fixpoint readEntries (c : Client) (large : error + Client) (org name : string) (l : Limits)
    (p : Progress) (es : list GEntry) : GEff W (error + Progress) :=
  match es with
  | [] => mret (inr p)
  | e :: es => p ←? readEntry c large org name l p e; readEntries c large org name l p es
  end.

(** The requested ref, the spec's default branch, or the host's. *)
Definition checkoutRef (c : Client) (org : string) (repo : Repository)
    (input : RepositoryCheckoutInput) : GEff W (error + string) :=
  let ref := if decide (hi_Ref input = "") then rs_DefaultBranch (rp_Spec repo) else hi_Ref input in
  if decide (ref ≠ "") then mret (inr ref)
  else
    r ← g_get_repo c org (rs_Name (rp_Spec repo));
    match r with
    | GErr resp err => refuse resp err
    | GOk current _ => mret (inr (gr_DefaultBranch current))
    end.

Definition CheckoutFiles (conn : Connection) (cred : Credential) (repo : Repository)
    (input : RepositoryCheckoutInput) : GEff W (error + RepositoryCheckoutResult) :=
  match client cred (cs_BaseURL (cn_Spec conn)) with
  | inl err => mret (inl err)
  | inr c =>
      let org := owner conn repo in
      let name := rs_Name (rp_Spec repo) in
      ref ←? checkoutRef c org repo input;
      r ← g_get_commit_sha1 c org name ref;
      match r with
      | GErr resp err => refuse resp (Wrap ("resolve ref " +:+ Quote ref +:+ ": ") err)
      | GOk sha _ =>
          t ← g_get_tree c org name sha;
          match t with
          | GErr resp err => refuse resp (Wrap ("read tree at " +:+ sha +:+ ": ") err)
          | GOk tree _ =>
              let start := {| pg_Files := []; pg_Skipped := truncatedSkip tree; pg_Total := 0 |} in
              p ←? readEntries c (blobClient cred (cs_BaseURL (cn_Spec conn))) org name
                     (limits input) start (blobs tree);
              mret (inr {| hr_Ref := ref; hr_CommitSHA := sha; hr_Files := pg_Files p;
                           hr_Skipped := pg_Skipped p |})
          end
      end
  end.
End GitHub.

(** ** What a checkout promises *)

Section Contract.
Context (conn : Connection) (repo : Repository) (input : RepositoryCheckoutInput).
#[local] Abbreviation org := (owner conn repo).
#[local] Abbreviation name := (rs_Name (rp_Spec repo)).
#[local] Abbreviation l := (limits input).

Definition read_only (h : list GEvent) (e : GEvent) : Prop := mutates e = false.

(** [f] is the downloaded content [raw] of a blob of the tree, within its cap. *)
Definition read_as (h : list GEvent) (es : list GEntry) (f : RepositoryCommitFile) (raw : string)
    : Prop :=
  (∃ e c resp, e ∈ es ∧ cf_Path f = ge_Path e ∧
     GCall c (GGetBlobRaw org name (ge_SHA e) (GOk raw resp)) ∈ h) ∧
  cf_Delete f = false ∧
  if isBinaryContent raw then
    lm_Binary l = true ∧ (slen raw ≤ lm_BinaryBytes l)%Z ∧
    cf_Encoding f = EncodingBase64 ∧ base64_decode (cf_Content f) = Some raw
  else (slen raw ≤ lm_FileBytes l)%Z ∧ cf_Encoding f = "" ∧ cf_Content f = raw.

Definition bytes_read (raws : list string) : Z := foldr (λ raw n, slen raw + n)%Z 0%Z raws.

(** An entry is in the result, or its absence is reported. *)
Definition accounted (files : list RepositoryCommitFile) (skipped : list string) (e : GEntry) : Prop :=
  (∃ f, f ∈ files ∧ cf_Path f = ge_Path e) ∨
  (∃ reason, ge_Path e +:+ reason ∈ skipped) ∨ "(more paths skipped)" ∈ skipped.

Record within (h : list GEvent) (es : list GEntry) (files : list RepositoryCommitFile)
    (skipped : list string) : Prop := {
  wi_files : ∃ raws, Forall2 (read_as h es) files raws ∧ (bytes_read raws ≤ lm_TotalBytes l)%Z;
  wi_count : (Z.of_nat (length files) ≤ lm_Files l)%Z;
  wi_order : cf_Path <$> files `sublist_of` ge_Path <$> es;
  wi_skipped : (length skipped ≤ maxSkipped)%nat;
  wi_accounted : Forall (accounted files skipped) es }.

Definition checkout_result (r : error + RepositoryCheckoutResult) (t : list GEvent) : Prop :=
  ∀ res, r = inr res → ∃ c tree resp resp',
    GCall c (GGetCommitSHA1 org name (hr_Ref res) (GOk (hr_CommitSHA res) resp)) ∈ t ∧
    GCall c (GGetTree org name (hr_CommitSHA res) (GOk tree resp')) ∈ t ∧
    within t (blobs tree) (hr_Files res) (hr_Skipped res) ∧
    (gt_Truncated tree = true → hr_Skipped res ≠ []) ∧
    if decide (hi_Ref input ≠ "") then hr_Ref res = hi_Ref input
    else rs_DefaultBranch (rp_Spec repo) ≠ "" → hr_Ref res = rs_DefaultBranch (rp_Spec repo).
End Contract.

(** ** Lemmas *)

Section Checkout.
Context (conn : Connection) (repo : Repository) (input : RepositoryCheckoutInput).
#[local] Abbreviation org := (owner conn repo).
#[local] Abbreviation name := (rs_Name (rp_Spec repo)).
#[local] Abbreviation l := (limits input).
#[local] Abbreviation read := (read_as conn repo input).

(** The caps leave room for a sum in an [int64]. *)
Definition small_caps : Prop :=
  (lm_FileBytes l < 2 ^ 62 ∧ lm_BinaryBytes l < 2 ^ 62 ∧ lm_TotalBytes l < 2 ^ 62)%Z.

Context (start : list string).
Record progress_ok (h : list GEvent) (es : list GEntry) (p : Progress) : Prop := {
  po_files : ∃ raws, Forall2 (read h es) (pg_Files p) raws ∧ pg_Total p = bytes_read raws;
  po_total : (0 ≤ pg_Total p ≤ lm_TotalBytes l)%Z;
  po_count : (Z.of_nat (length (pg_Files p)) ≤ lm_Files l)%Z;
  po_order : cf_Path <$> pg_Files p `sublist_of` ge_Path <$> es;
  po_skipped : (length (pg_Skipped p) ≤ maxSkipped)%nat;
  po_more : length (pg_Skipped p) = maxSkipped → "(more paths skipped)" ∈ pg_Skipped p;
  po_accounted : Forall (accounted (pg_Files p) (pg_Skipped p)) es;
  po_start : start `prefix_of` pg_Skipped p }.

Lemma read_as_mono h t es es' f raw : read h es f raw → read (h ++ t) (es ++ es') f raw.
Proof.
  intros [(e & c & resp & He & Hp & Hr) Hrest]. split; [|done].
  exists e, c, resp. rewrite !elem_of_app. auto.
Qed.

Lemma accounted_mono files files' skipped skipped' e :
  accounted files skipped e → accounted (files ++ files') (skipped ++ skipped') e.
Proof. intros [(f & ? & ?)|[[reason ?]|?]]; unfold accounted; set_solver. Qed.

Lemma bytes_read_snoc raws raw : bytes_read (raws ++ [raw]) = (bytes_read raws + slen raw)%Z.
Proof. unfold bytes_read. induction raws; simpl; lia. Qed.

Lemma appendSkip_extends skipped x : ∃ t, appendSkip skipped x = skipped ++ t.
Proof.
  unfold appendSkip. repeat case_decide; eexists; [by rewrite app_nil_r|done..].
Qed.

Lemma skip_spec skipped path reason :
  (length skipped ≤ maxSkipped)%nat →
  (length skipped = maxSkipped → "(more paths skipped)" ∈ skipped) →
  let s := appendSkip skipped (path +:+ reason) in
  (length s ≤ maxSkipped)%nat ∧
  (length s = maxSkipped → "(more paths skipped)" ∈ s) ∧
  (path +:+ reason ∈ s ∨ "(more paths skipped)" ∈ s).
Proof.
  intros Hl Hm. unfold appendSkip, maxSkipped in *. repeat case_decide; cbn zeta.
  - assert (length skipped = 100%nat) by lia. auto.
  - rewrite length_app. simpl. split_and!; [lia|set_solver|set_solver].
  - rewrite length_app. simpl. split_and!; [lia|lia|set_solver].
Qed.

Lemma order_skip {A} (xs ys : list A) y : xs `sublist_of` ys → xs `sublist_of` ys ++ [y].
Proof. intros Hs. by apply sublist_inserts_r. Qed.

Lemma skip_ok h t es p e reason : progress_ok h es p →
  progress_ok (h ++ t) (es ++ [e]) (skip p (ge_Path e +:+ reason)).
Proof.
  intros [(raws & Hf & Ht) Htot Hc Ho Hs Hm Ha Hst].
  destruct (skip_spec (pg_Skipped p) (ge_Path e) reason Hs Hm) as (Hs' & Hm' & He).
  destruct (appendSkip_extends (pg_Skipped p) (ge_Path e +:+ reason)) as [sk Hsk].
  split; cbn [pg_Files pg_Skipped pg_Total skip]; [|done|done| |done|done| |].
  - exists raws. split; [|done]. eapply Forall2_impl; [exact Hf|]. intros. by apply read_as_mono.
  - rewrite fmap_app. by apply order_skip.
  - apply Forall_app. split.
    + eapply Forall_impl; [exact Ha|]. intros x Hx. rewrite Hsk, <- (app_nil_r (pg_Files p)).
      by apply accounted_mono.
    + constructor; [|done]. right. destruct He; [left; by exists reason|by right].
  - rewrite Hsk. by apply prefix_app_r.
Qed.

Lemma keep_ok h es p e raw : small_caps → progress_ok h es p →
  (Z.of_nat (length (pg_Files p)) < lm_Files l)%Z →
  (∃ c resp, GCall c (GGetBlobRaw org name (ge_SHA e) (GOk raw resp)) ∈ h) →
  (if isBinaryContent raw then lm_Binary l = true ∧ slen raw ≤ lm_BinaryBytes l
   else slen raw ≤ lm_FileBytes l)%Z →
  (wrap64 (pg_Total p + slen raw) ≤ lm_TotalBytes l)%Z →
  progress_ok h (es ++ [e]) (keep p (ge_Path e) raw (slen raw)).
Proof.
  intros (Hc1 & Hc2 & Hc3) [(raws & Hf & Ht) Htot Hc Ho Hs Hm Ha Hst] Hlt (c & resp & Hr) Hcap Hfit.
  pose proof (slen_nonneg raw).
  assert (slen raw < 2 ^ 62)%Z by (revert Hcap; destruct (isBinaryContent raw); lia).
  assert (wrap64 (pg_Total p + slen raw) = pg_Total p + slen raw)%Z as Hw.
  { unfold wrap64. rewrite Z.mod_small; lia. }
  rewrite Hw in Hfit. unfold keep. rewrite Hw.
  set (f := if isBinaryContent raw then _ else _).
  assert (Hpath : cf_Path f = ge_Path e) by (unfold f; by destruct (isBinaryContent raw)).
  split; cbn [pg_Files pg_Skipped pg_Total skip]; [| |rewrite length_app; cbn [length]; lia| |done|done| |done].
  - exists (raws ++ [raw]). split; [|by rewrite bytes_read_snoc, Ht].
    apply Forall2_app.
    + eapply Forall2_impl; [exact Hf|]. intros f' raw' Hf'. rewrite <- (app_nil_r h).
      by apply read_as_mono.
    + constructor; [|done]. split; [|split].
      * exists e, c, resp. split; [apply elem_snoc|done].
      * unfold f. by destruct (isBinaryContent raw).
      * unfold f. destruct (isBinaryContent raw); simpl; [|by split_and!].
        destruct Hcap. split_and!; [done..|]. apply base64_decode_encode.
  - lia.
  - rewrite !fmap_app. apply sublist_app; [done|]. simpl. by rewrite Hpath.
  - apply Forall_app. split.
    + eapply Forall_impl; [exact Ha|]. intros x Hx. rewrite <- (app_nil_r (pg_Skipped p)).
      by apply accounted_mono.
    + constructor; [|done]. left. exists f. split; [apply elem_snoc|done].
Qed.

Lemma admit_ok h es p e raw : small_caps → progress_ok h es p →
  (Z.of_nat (length (pg_Files p)) < lm_Files l)%Z →
  (∃ c resp, GCall c (GGetBlobRaw org name (ge_SHA e) (GOk raw resp)) ∈ h) →
  progress_ok h (es ++ [e]) (admitBlob l p (ge_Path e) raw).
Proof.
  intros Hcaps Hp Hlt Hr. unfold admitBlob. rewrite <- (app_nil_r h).
  destruct (isBinaryContent raw && _) eqn:H1; [by apply skip_ok|].
  destruct (_ || _) eqn:H2; [by apply skip_ok|].
  destruct (lm_TotalBytes l <? _)%Z eqn:H3; [by apply skip_ok|].
  rewrite app_nil_r. apply keep_ok; try done; [|by apply Z.ltb_ge].
  apply orb_false_iff in H2 as [H2 H2'].
  destruct (isBinaryContent raw); simpl in *; [|by apply Z.ltb_ge].
  split; [by apply negb_false_iff|by apply Z.ltb_ge].
Qed.

Lemma read_only_quiet h e : mutates e = false → read_only h e.
Proof. done. Qed.

Context {W : Type} `{GitHub W}.

Lemma readEntry_hoare h es p c large e : small_caps → progress_ok h es p →
  hoare read_only h (readEntry (W := W) c large org name l p e) (λ r h',
    (∃ t, h' = h ++ t) ∧ match r with inl _ => True | inr p' => progress_ok h' (es ++ [e]) p' end).
Proof.
  intros Hcaps Hp. unfold readEntry.
  assert (Hskip : ∀ reason, hoare read_only h
    (mret (inr (skip p (ge_Path e +:+ reason))) : GEff W (error + Progress)) (λ r h',
    (∃ t, h' = h ++ t) ∧ match r with inl _ => True | inr p' => progress_ok h' (es ++ [e]) p' end)).
  { intros reason. apply hoare_ret. split; [exists []; by rewrite app_nil_r|].
    rewrite <- (app_nil_r h). by apply skip_ok. }
  destruct (_ <=? _)%Z eqn:Hn; [apply Hskip|].
  destruct (maxAnyFileBytes l <? _)%Z; [apply Hskip|].
  destruct (lm_TotalBytes l <? _)%Z; [apply Hskip|].
  destruct (if (_ <? _)%Z then large else _) as [err|bc].
  { apply hoare_ret. split; [exists []; by rewrite app_nil_r|done]. }
  apply hoare_bind, (quiet_hoare _ read_only_quiet); [done|]. intros [resp err|raw resp].
  - apply (refuse_hoare _ read_only_quiet). intros e' t. split; [|done]. rewrite <- app_assoc. by eexists.
  - apply hoare_ret. split; [by eexists|]. apply admit_ok; try done.
    + destruct Hp as [(raws & Hf & Ht) Htot Hc Ho Hs Hm Ha Hst]. split; try done.
      exists raws. split; [|done]. eapply Forall2_impl; [exact Hf|]. intros f raw' Hf'.
      rewrite <- (app_nil_r es). by apply read_as_mono.
    + by apply Z.leb_gt.
    + exists bc, resp. apply elem_snoc.
Qed.

Lemma readEntries_hoare c large es : small_caps → ∀ h seen p, progress_ok h seen p →
  hoare read_only h (readEntries (W := W) c large org name l p es) (λ r h',
    (∃ t, h' = h ++ t) ∧ match r with inl _ => True | inr p' => progress_ok h' (seen ++ es) p' end).
Proof.
  intros Hcaps. induction es as [|e es IH]; intros h seen p Hp; simpl.
  { apply hoare_ret. rewrite app_nil_r. split; [exists []; by rewrite app_nil_r|done]. }
  apply hoare_bind_res. eapply hoare_mono; [by apply readEntry_hoare|].
  intros [err|p'] h' [[t ->] Hp']; [split; [by eexists|done]|].
  eapply hoare_mono; [by apply (IH _ (seen ++ [e]))|].
  intros r h' [[t' ->] Hr]. rewrite <- (app_assoc seen [e] es) in Hr.
  split; [|done]. rewrite <- app_assoc. by eexists.
Qed.
End Checkout.

Section CheckoutFiles.
Context {W : Type} `{GitHub W}.
Context (conn : Connection) (repo : Repository) (input : RepositoryCheckoutInput).

Lemma checkoutRef_hoare h c org : hoare read_only h (checkoutRef (W := W) c org repo input) (λ r _,
  ∀ ref, r = inr ref →
    if decide (hi_Ref input ≠ "") then ref = hi_Ref input
    else rs_DefaultBranch (rp_Spec repo) ≠ "" → ref = rs_DefaultBranch (rp_Spec repo)).
Proof.
  unfold checkoutRef. destruct (decide (hi_Ref input ≠ "")) as [He|He].
  - rewrite (decide_False (P := hi_Ref input = "")), decide_True by done.
    apply hoare_ret. by intros ref [= <-].
  - rewrite (decide_True (P := hi_Ref input = "")) by (by apply dec_stable). case_decide as Hd.
    + apply hoare_ret. by intros ref [= <-].
    + apply hoare_bind, (quiet_hoare _ read_only_quiet); [done|]. intros [resp err|current resp].
      * by apply (refuse_hoare _ read_only_quiet).
      * apply hoare_ret. intros ref _ Hne. by destruct Hd.
Qed.

Lemma progress_start h (tree : GTree) (skipped : list string) :
  (0 ≤ lm_Files (limits input))%Z → (0 ≤ lm_TotalBytes (limits input))%Z → (length skipped ≤ 1)%nat →
  progress_ok conn repo input skipped h [] {| pg_Files := []; pg_Skipped := skipped; pg_Total := 0 |}.
Proof.
  intros Hf Ht Hs. split; cbn [pg_Files pg_Skipped pg_Total]; [by exists []|lia|done|done| | |done|done];
    unfold maxSkipped; lia.
Qed.

Lemma progress_within start h es p : progress_ok conn repo input start h es p →
  within conn repo input h es (pg_Files p) (pg_Skipped p).
Proof.
  intros [(raws & Hf & Ht) Htot Hc Ho Hs Hm Ha Hst]. split; try done. exists raws. split; [done|lia].
Qed.

Lemma orDefault_nonneg n d : (0 ≤ d)%Z → (0 ≤ orDefault n d)%Z.
Proof. unfold orDefault. intros Hd. destruct (n <=? 0)%Z eqn:Hn; lia. Qed.

Lemma CheckoutFiles_hoare cred : small_caps input →
  hoare read_only [] (CheckoutFiles (W := W) conn cred repo input) (checkout_result conn repo input).
Proof.
  intros Hcaps. unfold CheckoutFiles. destruct (client cred _) as [err|c]; [by apply hoare_ret|].
  apply hoare_bind_res. eapply hoare_mono; [apply checkoutRef_hoare|].
  intros [err|ref] h Href; [done|]. specialize (Href ref eq_refl).
  apply hoare_bind, (quiet_hoare _ read_only_quiet); [done|]. intros [resp err|sha resp].
  { by apply (refuse_hoare _ read_only_quiet). }
  apply hoare_bind, (quiet_hoare _ read_only_quiet); [done|]. intros [resp' err|tree resp'].
  { by apply (refuse_hoare _ read_only_quiet). }
  apply hoare_bind_res.
  eapply hoare_mono; [apply (readEntries_hoare conn repo input (truncatedSkip tree) _ _ _ Hcaps _ []), progress_start;
    [done| | |unfold truncatedSkip; by destruct (gt_Truncated tree); simpl; auto]|].
  { apply orDefault_nonneg. done. }
  { apply orDefault_nonneg. by destruct (hi_IncludeBinary input). }
  intros [err|p] h' [[t ->] Hp]; [done|]. apply hoare_ret. intros res [= <-].
  exists c, tree, resp, resp'. cbn [hr_Ref hr_CommitSHA hr_Files hr_Skipped].
  split_and!; [auto with history..|by eapply progress_within| |exact Href].
  intros Htr Hnil. destruct (po_start _ _ _ _ _ _ _ Hp) as [sk Hsk]. unfold truncatedSkip in Hsk. rewrite Hnil, Htr in Hsk. done.
Qed.
End CheckoutFiles.

(** ** Property *)

(** C30: a checkout is a faithful partial copy within its caps.  It only reads.
    Its result names the commit the ref resolved to and the tree of that commit;
    each file is the downloaded content of a blob of that tree (a binary one,
    only if asked for, as the base64 of it), in path order, within the cap of its
    class; the files are at most [MaxFiles] and together at most [MaxTotalBytes];
    and every blob of the tree is among the files or among the at most 100
    skipped paths, or the skip list says that there are more. *)
Theorem CheckoutFiles_faithful {W} `{GitHub W} (conn : Connection) (cred : Credential)
    (repo : Repository) (input : RepositoryCheckoutInput) (w w' : W) r t
    (Hcaps : small_caps input)
    (Hrun : CheckoutFiles conn cred repo input w = (r, w', t)) :
  (∀ before e after, t = before ++ e :: after → read_only before e) ∧
  checkout_result conn repo input r t.
Proof. eapply hoare_run; [by apply CheckoutFiles_hoare|exact Hrun]. Qed.

(** A text file, a binary file and a file over the cap. *)
Definition tree_host : FixedHost := {|
  fh_Repo := not_found; fh_Created := not_found; fh_Ref := not_found; fh_Commits := [];
  fh_Commit := not_found;
  fh_Tree := GOk {| gt_SHA := "7ree"; gt_Truncated := false; gt_Entries := [
    {| ge_Path := "src/main.go"; ge_Type := "blob"; ge_SHA := "a"; ge_Size := 12 |};
    {| ge_Path := "src"; ge_Type := "tree"; ge_SHA := "d"; ge_Size := 0 |};
    {| ge_Path := "logo.png"; ge_Type := "blob"; ge_SHA := "b"; ge_Size := 2 |};
    {| ge_Path := "dump.sql"; ge_Type := "blob"; ge_SHA := "c"; ge_Size := 400000 |}] |} (http 200);
  fh_NewTree := not_found; fh_NewCommit := not_found; fh_Update := not_found;
  fh_Blobs := [("a", "package main"); ("b", String "000" (String "255" ""))] |}.

Definition demo_checkout (binary : bool) : RepositoryCheckoutInput := {|
  hi_Ref := ""; hi_MaxFiles := 0; hi_MaxFileBytes := 0; hi_IncludeBinary := binary;
  hi_MaxBinaryFileBytes := 300000; hi_MaxTotalBytes := 0 |}.

Lemma CheckoutFiles_faithful_witness :
  let G := fixed_github tree_host in
  let repo := demo_repo ∅ "" in
  ∃ res t, CheckoutFiles demo_conn demo_cred repo (demo_checkout true) tt = (inr res, tt, t) ∧
    hr_Files res = [
      {| cf_Path := "logo.png"; cf_Content := "AP8="; cf_Encoding := EncodingBase64; cf_Delete := false |};
      {| cf_Path := "src/main.go"; cf_Content := "package main"; cf_Encoding := ""; cf_Delete := false |}] ∧
    hr_Skipped res = ["dump.sql (file too large)"] ∧
    checkout_result demo_conn repo (demo_checkout true) (inr res) t.
Proof.
  intros G repo. eexists _, _. split; [vm_compute; reflexivity|].
  split; [vm_compute; reflexivity|]. split; [vm_compute; reflexivity|].
  apply (CheckoutFiles_faithful demo_conn demo_cred repo (demo_checkout true) tt tt).
  - split_and!; vm_compute; reflexivity.
  - vm_compute. reflexivity.
Defined.
