(* ===== verification/GitHubActions.v ===== *)
(** * backend/github/actions.go: workflow runs

    The latest run of a workflow with its jobs and the log tails of the failed
    ones, and the dispatch of a new run, over go-github's Actions service. *)

From S2P Require Import Prelude GoStrings GoTime Errors Api Backend.
From S2P Require Import GitHubApi GitHubRepositories GitHubTree.
From Stdlib Require Import Ascii Lia.

#[local] Open Scope string_scope.
#[local] Open Scope list_scope.

Definition workflowJobLogMaxBytes : nat := 1024 * 1024.
Definition workflowJobLogDefaultLines : Z := 200.

(** The services the file calls: the runs of a workflow file (pinned to a commit
    when the SHA is not empty, most recent first), the jobs of a run, the URL of
    a job's log, a dispatch; and the default HTTP client, whose answer is the
    bytes of the body that could be read and whether reading them then failed. *)
Class Workflows (W : Type) := {
  wf_list_runs : Client → string → string → string → string → W → Answer GRuns * W;
  wf_list_jobs : Client → string → string → Z → W → Answer (list GJob) * W;
  wf_job_logs : Client → string → string → Z → W → Answer (option string) * W;
  wf_fetch : string → W → option (string * bool) * W;
  wf_dispatch : Client → string → string → string → string → W → Answer unit * W }.

(** The last [n] lines, a trailing newline tolerated. *)
Definition tailLines (s : string) (n : Z) : string :=
  let lines := SplitByte LF (TrimRightByte LF s) in
  let lines := if (n <? Z.of_nat (length lines))%Z
               then drop (length lines - Z.to_nat n) lines else lines in
  Join newline lines.

(** [io.ReadAll(io.LimitReader(body, n))]: reading stops after [n] bytes, so a
    failure further on is never seen. *)
Definition ReadLimited (n : nat) (body : string) (failed : bool) : option string :=
  if decide (n ≤ String.length body)%nat then Some (stake n body)
  else if failed then None else Some body.

Section GitHub.
Context {W : Type} `{GitHub W} `{Workflows W}.

Definition g_list_runs c o n file sha :=
  call (wf_list_runs c o n file sha) (λ r, GCall c (GListRuns o n file sha r)).
Definition g_list_jobs c o n run :=
  call (wf_list_jobs c o n run) (λ r, GCall c (GListJobs o n run r)).
Definition g_job_logs c o n job :=
  call (wf_job_logs c o n job) (λ r, GCall c (GJobLogs o n job r)).
Definition g_fetch url := call (wf_fetch url) (GFetch url).
Definition g_dispatch c o n file ref :=
  call (wf_dispatch c o n file ref) (λ r, GCall c (GDispatch o n file ref r)).

(** Best effort: a log that cannot be fetched is empty. *)
Definition jobLogTail (c : Client) (org name : string) (jobID maxLines : Z) : GEff W string :=
  let maxLines := if (maxLines <=? 0)%Z then workflowJobLogDefaultLines else maxLines in
  r ← g_job_logs c org name jobID;
  match r with
  | GOk (Some logURL) _ =>
      body ← g_fetch logURL;
      match body with
      | None => mret ""
      | Some (bytes, failed) =>
          match ReadLimited workflowJobLogMaxBytes bytes failed with
          | None => mret ""
          | Some body => mret (tailLines body maxLines)
          end
      end
  | _ => mret ""
  end.

Definition jobStatus (c : Client) (org name : string) (maxLines : Z) (j : GJob)
    : GEff W WorkflowJobStatus :=
  log ← (if decide (gj_Conclusion j = "failure") then jobLogTail c org name (gj_ID j) maxLines
         else mret "");
  mret {| wj_Name := gj_Name j; wj_Status := gj_Status j; wj_Conclusion := gj_Conclusion j;
          wj_FailureLog := log |}.

Fixpoint jobStatuses (c : Client) (org name : string) (maxLines : Z) (js : list GJob)
    : GEff W (list WorkflowJobStatus) :=
  match js with
  | [] => mret []
  | j :: js =>
      s ← jobStatus c org name maxLines j;
      ss ← jobStatuses c org name maxLines js;
      mret (s :: ss)
  end.

Definition runStatus (run : GRun) (jobs : list WorkflowJobStatus) : WorkflowRunStatus :=
  {| wr_Found := true; wr_RunID := gn_ID run; wr_HTMLURL := gn_HTMLURL run;
     wr_HeadSHA := gn_HeadSHA run; wr_Status := gn_Status run;
     wr_Conclusion := gn_Conclusion run; wr_Jobs := jobs |}.
Definition noRun : WorkflowRunStatus :=
  {| wr_Found := false; wr_RunID := 0; wr_HTMLURL := ""; wr_HeadSHA := ""; wr_Status := "";
     wr_Conclusion := ""; wr_Jobs := [] |}.

Definition LatestWorkflowRun (conn : Connection) (cred : Credential) (repo : Repository)
    (query : WorkflowRunQuery) : GEff W (error + WorkflowRunStatus) :=
  match client cred (cs_BaseURL (cn_Spec conn)) with
  | inl err => mret (inl err)
  | inr c =>
      let org := owner conn repo in
      let name := rs_Name (rp_Spec repo) in
      r ← g_list_runs c org name (wq_WorkflowFileName query) (wq_HeadSHA query);
      match r with
      | GErr resp err => refuse resp err
      | GOk runs _ =>
          if decide (gn_TotalCount runs = 0%Z) then mret (inr noRun)
          else match gn_Runs runs with
               | [] => mret (inr noRun)
               | run :: _ =>
                   jobs ← g_list_jobs c org name (gn_ID run);
                   match jobs with
                   | GErr _ _ => mret (inr (runStatus run []))
                   | GOk jobs _ =>
                       js ← jobStatuses c org name (wq_MaxLogLines query) jobs;
                       mret (inr (runStatus run js))
                   end
               end
      end
  end.

Definition DispatchWorkflow (conn : Connection) (cred : Credential) (repo : Repository)
    (workflowFileName ref : string) : GEff W (option error) :=
  match client cred (cs_BaseURL (cn_Spec conn)) with
  | inl err => mret (Some err)
  | inr c =>
      let ref := if decide (TrimSpace ref = "") then "main" else ref in
      r ← g_dispatch c (owner conn repo) (rs_Name (rp_Spec repo)) workflowFileName ref;
      match r with
      | GOk _ _ => mret None
      | GErr _ err => e ← classify None err; mret (Some e)
      end
  end.
End GitHub.

(** ** What is reported *)

Section Contract.
Context (conn : Connection) (repo : Repository) (query : WorkflowRunQuery).
#[local] Abbreviation org := (owner conn repo).
#[local] Abbreviation name := (rs_Name (rp_Spec repo)).

Definition log_lines : Z :=
  if (wq_MaxLogLines query <=? 0)%Z then workflowJobLogDefaultLines else wq_MaxLogLines query.

(** [log] is the end of [s] without its trailing newlines: all of it, or its
    last [n] lines. *)
Definition tail_of (n : Z) (s log : string) : Prop :=
  ∃ pre, TrimRightByte LF s = pre +:+ log ∧
    (Z.of_nat (length (SplitByte LF log)) ≤ n)%Z ∧
    (pre = "" ∨ (∃ p, pre = p +:+ newline) ∧ Z.of_nat (length (SplitByte LF log)) = n).

Definition log_of (h : list GEvent) (j : GJob) (log : string) : Prop :=
  log = "" ∨ ∃ c url resp body failed,
    GCall c (GJobLogs org name (gj_ID j) (GOk (Some url) resp)) ∈ h ∧
    GFetch url (Some (body, failed)) ∈ h ∧
    tail_of log_lines (stake workflowJobLogMaxBytes body) log.

Definition reported (h : list GEvent) (j : GJob) (s : WorkflowJobStatus) : Prop :=
  wj_Name s = gj_Name j ∧ wj_Status s = gj_Status j ∧ wj_Conclusion s = gj_Conclusion j ∧
  (gj_Conclusion j ≠ "failure" → wj_FailureLog s = "") ∧ log_of h j (wj_FailureLog s).

Definition newest (runs : GRuns) : option GRun :=
  if decide (gn_TotalCount runs = 0%Z) then None else head (gn_Runs runs).

Definition jobs_reported (h : list GEvent) (run : GRun) (jobs : list WorkflowJobStatus) : Prop :=
  ∃ c r, GCall c (GListJobs org name (gn_ID run) r) ∈ h ∧
    match r with
    | GErr _ _ => jobs = []
    | GOk js _ => Forall2 (reported h) js jobs
    end.

Definition listed (h : list GEvent) (r : Answer GRuns) : Prop :=
  ∃ c, GCall c (GListRuns org name (wq_WorkflowFileName query) (wq_HeadSHA query) r) ∈ h.

Definition run_result (made : error + Client) (r : error + WorkflowRunStatus) (t : list GEvent) : Prop :=
  match r with
  | inl err => made = inl err ∨
      ∃ resp err0, listed t (GErr resp err0)
  | inr out => ∃ runs resp, listed t (GOk runs resp) ∧
      match newest runs with
      | None => out = noRun
      | Some run => ∃ jobs, out = runStatus run jobs ∧ jobs_reported t run jobs
      end
  end.
End Contract.

(** ** Lemmas *)

Lemma Join_app sep l l' : l ≠ [] → l' ≠ [] → Join sep (l ++ l') = Join sep l +:+ sep +:+ Join sep l'.
Proof.
  intros Hl Hl'. induction l as [|x l IH]; [done|]. destruct l as [|y l].
  - change ([x] ++ l') with (x :: l'). by rewrite Join_cons.
  - change ((x :: y :: l) ++ l') with (x :: ((y :: l) ++ l')). rewrite !Join_cons by done.
    rewrite IH by done. by rewrite !string_app_assoc.
Qed.

Lemma tailLines_spec s n : (0 < n)%Z → tail_of n s (tailLines s n).
Proof.
  intros Hn. unfold tailLines, newline. set (u := TrimRightByte LF s).
  assert (Hparts : ∀ k, (k < length (SplitByte LF u))%nat →
    SplitByte LF (Join (String LF "") (drop k (SplitByte LF u))) = drop k (SplitByte LF u)).
  { intros k Hk. apply SplitByte_Join.
    - intros Hd. apply (f_equal length) in Hd. rewrite length_drop in Hd. simpl in Hd. lia.
    - apply Forall_drop, SplitByte_no_sep. }
  destruct (n <? _)%Z eqn:Hlt.
  - set (k := (length (SplitByte LF u) - Z.to_nat n)%nat).
    exists (Join (String LF "") (take k (SplitByte LF u)) +:+ newline).
    assert (Hk : (0 < k < length (SplitByte LF u))%nat) by (unfold k; lia).
    fold u. rewrite Hparts by lia. rewrite length_drop. split_and!; [|unfold k; lia|].
    + rewrite <- (Join_SplitByte LF u) at 1. rewrite <- (take_drop k (SplitByte LF u)) at 1.
      rewrite Join_app; [by rewrite string_app_assoc| |];
        intros Hd; apply (f_equal length) in Hd; rewrite ?length_take, ?length_drop in Hd; simpl in Hd; lia.
    + right. split; [by eexists|unfold k; lia].
  - exists "". fold u. rewrite Join_SplitByte. split_and!; [done|lia|by left].
Qed.

Lemma stake_all n s : (String.length s ≤ n)%nat → stake n s = s.
Proof.
  intros Hn. unfold stake. rewrite take_ge; [by rewrite of_bytes_bytes_of|]. by rewrite length_bytes_of.
Qed.

Lemma ReadLimited_spec n body failed b : ReadLimited n body failed = Some b → b = stake n body.
Proof.
  unfold ReadLimited. case_decide; [by intros [= <-]|]. destruct failed; [done|].
  intros [= <-]. rewrite stake_all; [done|lia].
Qed.

Section Runs.
Context {W : Type} `{GitHub W} `{Workflows W}.
Context (conn : Connection) (repo : Repository) (query : WorkflowRunQuery).
#[local] Abbreviation org := (owner conn repo).
#[local] Abbreviation name := (rs_Name (rp_Spec repo)).
#[local] Abbreviation quiet := (Forall (λ e, mutates e = false)).

Lemma log_lines_pos : (0 < log_lines query)%Z.
Proof. unfold log_lines. destruct (_ <=? 0)%Z eqn:Hn; [done|lia]. Qed.

Lemma jobLogTail_emits c j :
  emits (jobLogTail (W := W) c org name (gj_ID j) (wq_MaxLogLines query))
    (λ log t, quiet t ∧ log_of conn repo query t j log).
Proof.
  unfold jobLogTail. apply emits_bind, emits_call.
  intros [resp err|[url|] resp]; [apply emits_ret; split; [by repeat constructor|by left]| |
    apply emits_ret; split; [by repeat constructor|by left]].
  apply emits_bind, emits_call. intros [[body failed]|];
    [|apply emits_ret; split; [by repeat constructor|by left]].
  destruct (ReadLimited _ body failed) as [b|] eqn:Hb;
    [|apply emits_ret; split; [by repeat constructor|by left]].
  apply ReadLimited_spec in Hb as ->. apply emits_ret. split; [by repeat constructor|].
  right. exists c, url, resp, body, failed. split_and!; [set_solver|set_solver|].
  apply tailLines_spec, log_lines_pos.
Qed.

Lemma log_of_app h t j log : log_of conn repo query t j log → log_of conn repo query (h ++ t) j log.
Proof.
  intros [?|(c & url & resp & body & failed & ? & ? & ?)]; [by left|right].
  exists c, url, resp, body, failed. eauto with history.
Qed.
Lemma log_of_app_l h t j log : log_of conn repo query h j log → log_of conn repo query (h ++ t) j log.
Proof.
  intros [?|(c & url & resp & body & failed & ? & ? & ?)]; [by left|right].
  exists c, url, resp, body, failed. eauto with history.
Qed.

Lemma jobStatus_emits c j : emits (jobStatus (W := W) c org name (wq_MaxLogLines query) j)
  (λ s t, quiet t ∧ reported conn repo query t j s).
Proof.
  unfold jobStatus. apply emits_bind. case_decide as Hc.
  - eapply emits_mono; [apply jobLogTail_emits|]. intros log t [Ht Hlog]. apply emits_ret.
    rewrite app_nil_r. split; [done|]. by split_and!.
  - apply emits_ret, emits_ret. split; [done|]. split_and!; try done. by left.
Qed.

Lemma jobStatuses_emits c js : emits (jobStatuses (W := W) c org name (wq_MaxLogLines query) js)
  (λ ss t, quiet t ∧ Forall2 (reported conn repo query t) js ss).
Proof.
  induction js as [|j js IH]; simpl; [apply emits_ret; by split|].
  apply emits_bind. eapply emits_mono; [apply jobStatus_emits|]. intros s t [Ht Hs].
  apply emits_bind. eapply emits_mono; [apply IH|]. intros ss t' [Ht' Hss]. apply emits_ret.
  rewrite app_nil_r. split; [by apply Forall_app|]. constructor.
  - destruct Hs as (? & ? & ? & ? & ?). split_and!; try done. by apply log_of_app_l.
  - eapply Forall2_impl; [exact Hss|]. intros j' s' (? & ? & ? & ? & ?). split_and!; try done.
    by apply log_of_app.
Qed.

Lemma LatestWorkflowRun_emits cred :
  emits (LatestWorkflowRun (W := W) conn cred repo query)
    (λ r t, quiet t ∧ run_result conn repo query (client cred (cs_BaseURL (cn_Spec conn))) r t).
Proof.
  unfold LatestWorkflowRun. destruct (client cred _) as [err|c] eqn:Hc.
  { apply emits_ret. split; [done|by left]. }
  apply emits_bind, emits_call. intros [resp err|runs resp].
  { unfold refuse. apply emits_bind. eapply emits_mono; [apply classify_now|]. intros e t Ht.
    apply emits_ret. rewrite app_nil_r. split.
    - constructor; [done|]. eapply Forall_impl; [exact Ht|]. by intros ? [? ->].
    - right. exists resp, err, c. by left. }
  assert (Hlisted : ∀ t, listed conn repo query
    ([GCall c (GListRuns org name (wq_WorkflowFileName query) (wq_HeadSHA query) (GOk runs resp))] ++ t)
    (GOk runs resp)) by (intros t; exists c; by left).
  assert (Hnone : newest runs = None → emits (W := W) (mret (inr noRun)) (λ r t,
    quiet ([GCall c (GListRuns org name (wq_WorkflowFileName query) (wq_HeadSHA query) (GOk runs resp))] ++ t) ∧
    run_result conn repo query (client cred (cs_BaseURL (cn_Spec conn))) r
    ([GCall c (GListRuns org name (wq_WorkflowFileName query) (wq_HeadSHA query) (GOk runs resp))] ++ t))).
  { intros Hn. apply emits_ret. split; [by repeat constructor|]. exists runs, resp.
    split; [apply Hlisted|]. by rewrite Hn. }
  unfold newest in Hnone. case_decide as H0'; [by apply Hnone|].
  destruct (gn_Runs runs) as [|run rest] eqn:Hruns; [by apply Hnone|]. clear Hnone.
  apply emits_bind, emits_call. intros [resp' err|js resp'].
  - apply emits_ret. split; [by repeat constructor|]. exists runs, resp. split; [apply Hlisted|].
    unfold newest. rewrite decide_False, Hruns by done. exists []. split; [done|].
    exists c, (GErr resp' err). split; [set_solver|done].
  - apply emits_bind. eapply emits_mono; [apply jobStatuses_emits|]. intros ss t [Ht Hss].
    apply emits_ret. rewrite app_nil_r. split; [by repeat constructor|]. exists runs, resp.
    split; [apply Hlisted|]. unfold newest. rewrite decide_False, Hruns by done. exists ss.
    split; [done|]. exists c, (GOk js resp'). split; [set_solver|].
    eapply Forall2_impl; [exact Hss|]. intros j s (? & ? & ? & ? & ?). split_and!; try done.
    by do 2 apply (log_of_app [_]).
Qed.
End Runs.

(** ** Property *)

(** LatestWorkflowRun reports what the host shows and nothing else.  It
    changes nothing; it fails only when no client could be made or the host
    refused the run listing; it reports no run exactly when the listing is
    empty, and otherwise the first listed run with every job of that run in
    order (none when the jobs could not be read); only failed jobs carry a log,
    and a log is the end of the first MiB of that job's log, at most the
    requested number of lines. *)
Theorem LatestWorkflowRun_reports {W} `{GitHub W} `{Workflows W} (conn : Connection)
    (cred : Credential) (repo : Repository) (query : WorkflowRunQuery) (w w' : W) r t
    (Hrun : LatestWorkflowRun conn cred repo query w = (r, w', t)) :
  Forall (λ e, mutates e = false) t ∧ run_result conn repo query (client cred (cs_BaseURL (cn_Spec conn))) r t.
Proof. pose proof (LatestWorkflowRun_emits conn repo query cred w) as He. by rewrite Hrun in He. Qed.

(** A host with one failed and one running job. *)
Definition fixed_workflows : Workflows unit := {|
  wf_list_runs := λ _ _ _ _ sha w, (GOk {| gn_TotalCount := 1; gn_Runs := [
    {| gn_ID := 5; gn_HTMLURL := ""; gn_HeadSHA := sha; gn_Status := "completed";
       gn_Conclusion := "failure" |}] |} (http 200), w);
  wf_list_jobs := λ _ _ _ _ w, (GOk [
    {| gj_ID := 1; gj_Name := "test"; gj_Status := "completed"; gj_Conclusion := "failure" |};
    {| gj_ID := 2; gj_Name := "lint"; gj_Status := "in_progress"; gj_Conclusion := "" |}] (http 200), w);
  wf_job_logs := λ _ _ _ _ w, (GOk (Some "https://logs/1") (http 302), w);
  wf_fetch := λ _ w,
    (Some ("setup" +:+ newline +:+ "FAIL: x" +:+ newline +:+ "exit 1" +:+ newline, false), w);
  wf_dispatch := λ _ _ _ _ _ w, (GOk tt (http 204), w) |}.
Definition demo_query : WorkflowRunQuery :=
  {| wq_WorkflowFileName := "build.yml"; wq_HeadSHA := "abc"; wq_MaxLogLines := 2 |}.

Lemma LatestWorkflowRun_reports_witness :
  let G := fixed_github empty_host in
  let F := fixed_workflows in
  let repo := demo_repo ∅ "" in
  ∃ out t, LatestWorkflowRun demo_conn demo_cred repo demo_query tt = (inr out, tt, t) ∧
    wj_FailureLog <$> wr_Jobs out = ["FAIL: x" +:+ newline +:+ "exit 1"; ""] ∧
    run_result demo_conn repo demo_query (client demo_cred "") (inr out) t.
Proof.
  intros G F repo. eexists _, _. split; [vm_compute; reflexivity|].
  split; [vm_compute; reflexivity|].
  apply (LatestWorkflowRun_reports demo_conn demo_cred repo demo_query tt tt). vm_compute. reflexivity.
Defined.
