(* ===== verification/GitHubPackages.v ===== *)
(** * backend/github/backend.go and package_cache.go: listing packages

    [ListPackages] and the paged listings under it.  A listing goes through the
    cache of [RequestCache] and [RequestGate]: this file adds the caller's side of
    [cachedPackageListing], the fetch between the two holdings of the gate.  The
    paging loops run on fuel; [None] says that pages were still coming. *)

From S2P Require Import Prelude GoStrings Encoding Json GoTime Errors RequestCache RequestGate Api Backend.
From S2P Require Import GitHubApi GitHubRepositories.
From Stdlib Require Import Ascii Lia.

#[local] Open Scope string_scope.
#[local] Open Scope list_scope.

(** ** Strings: [url.PathEscape] *)

Definition hex_upper (n : N) : ascii := if (n <? 10)%N then ascii_of_N (48 + n) else ascii_of_N (55 + n).
(** Unreserved characters, and those a path segment may hold. *)
Definition path_segment_char (c : ascii) : bool :=
  in_range c 48 57 || in_range c 65 90 || in_range c 97 122 || ContainsByte "-_.~$&+:=@" c.
Fixpoint PathEscape (s : string) : string :=
  match s with
  | "" => ""
  | String c s =>
      if path_segment_char c then String c (PathEscape s)
      else String "%" (String (hex_upper (N_of_ascii c / 16))
             (String (hex_upper (N_of_ascii c mod 16)) (PathEscape s)))
  end.

(** ** Data *)

Definition packageTypes : list string := ["container"; "docker"; "npm"; "maven"; "rubygems"; "nuget"].
Definition packageVersionsMax : nat := 100.

(** A zero time is rendered as no time. *)
Definition timeText (t : Time) : string := if IsZero t then "" else RFC3339 t.

Definition packageInfo (p : GPackage) : PackageInfo :=
  {| pi_Name := gp_Name p; pi_Type := gp_Type p; pi_Visibility := gp_Visibility p;
     pi_HTMLURL := gp_HTMLURL p; pi_ImageRepository := ""; pi_VersionCount := gp_VersionCount p;
     pi_UpdatedAt := timeText (gp_UpdatedAt p); pi_Versions := [] |}.

Definition packageVersion (v : GVersion) : PackageVersion :=
  {| v_Digest := gv_Name v; v_Tags := gv_Tags v; v_CreatedAt := timeText (gv_CreatedAt v) |}.

(** The image path and versions of an image package. *)
Definition imageInfo (org : string) (p : GPackage) (versions : list PackageVersion) : PackageInfo :=
  {| pi_Name := gp_Name p; pi_Type := gp_Type p; pi_Visibility := gp_Visibility p;
     pi_HTMLURL := gp_HTMLURL p;
     pi_ImageRepository := "ghcr.io/" +:+ ToLower org +:+ "/" +:+ ToLower (gp_Name p);
     pi_VersionCount := Z.max (gp_VersionCount p) (Z.of_nat (length versions));
     pi_UpdatedAt := timeText (gp_UpdatedAt p); pi_Versions := versions |}.

Definition isImageType (pt : string) : bool := bool_decide (pt = "container") || bool_decide (pt = "docker").

Definition linked (repo : Repository) (p : GPackage) : bool :=
  match gp_Repository p with
  | Some name => EqualFold name (rs_Name (rp_Spec repo))
  | None => false
  end.

(** [packageCacheContext]: the scope of a connection's cache entries. *)
Definition packageCacheScope (conn : Connection) : string :=
  sha256 (json_strings [om_UID (cn_Meta conn);
    default "" (om_Annotations (cn_Meta conn) !! "kcp.io/cluster");
    om_Namespace (cn_Meta conn); om_Name (cn_Meta conn)]).

(** ** The services

    The paged listings of the host; the cache state of a credential, which is
    handed over with its gate ([pk_acquire] waits for it, others run meanwhile),
    the outcome of somebody else's flight, a name for an own one; and the JSON
    form of a listing. *)
Class Packages (W : Type) := {
  pk_list : Client → string → string → bool → Z → W → Answer (list GPackage) * W;
  pk_versions : Client → string → string → string → bool → Z → W → Answer (list GVersion) * W;
  pk_baseURL : Client → string;
  pk_acquire : Client → W → option error * W;
  pk_state : W → requestState;
  pk_put : requestState → W → W;
  pk_flight : W → nat;
  pk_wait : nat → W → (error + string) * W;
  pk_packages_json : list GPackage → string;
  pk_packages_of : string → error + list GPackage;
  pk_versions_json : list PackageVersion → string;
  pk_versions_of : string → error + list PackageVersion }.

(** Steps on the cache leave no event of their own, but for its publications. *)
Definition silently {W Ev A} (op : W → A * W) : M W Ev A := λ w, (op w, []).
Definition record {W Ev} (e : Ev) : M W Ev unit := λ w, (tt, w, [e]).

(** [resp == nil || resp.NextPage == 0] ends a loop. *)
Definition nextPage (resp : option Response) : Z :=
  match resp with Some resp => rsp_NextPage resp | None => 0%Z end.

Section GitHub.
Context {W : Type} `{GitHub W} `{Packages W}.

Definition g_list_packages c org ty u p :=
  call (pk_list c org ty u p) (λ r, GCall c (GListPackages org ty u p r)).
Definition g_list_versions c org ty name u p :=
  call (pk_versions c org ty name u p) (λ r, GCall c (GListVersions org ty name u p r)).

(** [for { page; append; if last { break }; opt.Page = resp.NextPage }]; [full]
    says that enough was collected. *)
Fixpoint paginate {A} (fuel : nat) (fetch : Z → GEff W (Answer (list A))) (full : list A → bool)
    (page : Z) (all : list A) : GEff W (option (error + list A)) :=
  match fuel with
  | O => mret None
  | S fuel =>
      r ← fetch page;
      match r with
      | GErr resp err => e ← classify resp err; mret (Some (inl e))
      | GOk items resp =>
          let all := all ++ items in
          if bool_decide (nextPage resp = 0%Z) || full all then mret (Some (inr all))
          else paginate fuel fetch full (nextPage resp) all
      end
  end.

Definition listPackagesOfType (fuel : nat) (c : Client) (org pkgType : string) (asUser : bool)
    : GEff W (option (error + list GPackage)) :=
  paginate fuel (g_list_packages c org pkgType asUser) (λ _, false) 0 [].

Definition listPackageVersions (fuel : nat) (c : Client) (org pkgType pkgName : string)
    (asUser : bool) : GEff W (option (error + list PackageVersion)) :=
  let name := if asUser then PathEscape pkgName else pkgName in
  r ← paginate fuel (g_list_versions c org pkgType name asUser)
        (λ versions, bool_decide (packageVersionsMax ≤ length versions)%nat) 0 [];
  mret (match r with
        | Some (inr versions) => Some (inr (packageVersion <$> versions))
        | Some (inl e) => Some (inl e)
        | None => None
        end).

Definition listingKey (conn : Connection) (c : Client) (parts : list string) : string :=
  cacheKey (packageCacheScope conn) (json_strings (pk_baseURL c :: parts)).

(** What the holder of the gate finds, its flight started. *)
Definition beginListing (key : string) (fresh : bool) (now : Time) : GEff W (Lookup * nat) :=
  silently (λ w,
    let s := expire (pk_state w) now in
    let found := listing_lookup key fresh s in
    let flight := pk_flight w in
    let s := match found with Start => listing_begin key flight s | _ => s end in
    (found, flight, pk_put s w)).

(** The cached bodies with their keys. *)
Definition cached_bodies (s : requestState) : list (string * string) :=
  map_to_list (cr_body <$> s_responses s).

Definition finishListing (key : string) (fetched : error + string) (now later : Time)
    : GEff W (error + string) := λ w,
  let '(result, s) := listing_publish key fetched now later (pk_state w) in
  (result, pk_put s w,
   [GPublish key (cached_bodies (pk_state w)) (cached_bodies s) result]).

Definition cachedPackageListing {A} (json : list A → string) (of_json : string → error + list A)
    (conn : Connection) (c : Client) (parts : list string) (fresh : bool)
    (fetch : GEff W (option (error + list A))) : GEff W (option (error + list A)) :=
  let key := listingKey conn c parts in
  a ← silently (pk_acquire c);
  match a with
  | Some err => mret (Some (inl err))
  | None =>
      now ← g_now;
      f ← beginListing key fresh now;
      match f with
      | (Cached body, _) => _ ← record (GCacheHit key body); mret (Some (of_json body))
      | (Join flight, _) =>
          r ← call (pk_wait flight) (GJoined key);
          mret (Some (match r with inl err => inl err | inr body => of_json body end))
      | (CapacityReached, _) =>
          mret (Some (inl (ENew "github: package refresh capacity reached; retry later")))
      | (Start, _) =>
          r ← fetch;
          match r with
          | None => mret None
          | Some r =>
              now ← g_now;
              later ← g_now;
              p ← finishListing key (match r with inl e => inl e | inr l => inr (json l) end) now later;
              mret (Some (match p with
                          | inl err => inl err
                          | inr _ => r
                          end))
          end
      end
  end.

(** One package of the listing, with its versions when it is an image. *)
Definition describePackage (fuel : nat) (conn : Connection) (c : Client) (org pt : string)
    (asUser fresh : bool) (p : GPackage) : GEff W (option (error + PackageInfo)) :=
  if isImageType pt then
    v ← cachedPackageListing pk_versions_json pk_versions_of conn c
          ["versions"; org; pt; gp_Name p] fresh
          (listPackageVersions fuel c org pt (gp_Name p) asUser);
    mret (match v with
          | Some (inr versions) => Some (inr (imageInfo org p versions))
          | Some (inl e) => Some (inl e)
          | None => None
          end)
  else mret (Some (inr (packageInfo p))).

(** [for _, x := range l { ...; out = append(out, y...) }] with an early return. *)
Fixpoint collect {A B} (f : A → GEff W (option (error + list B))) (l : list A) (out : list B)
    : GEff W (option (error + list B)) :=
  match l with
  | [] => mret (Some (inr out))
  | x :: l =>
      r ← f x;
      match r with
      | Some (inr ys) => collect f l (out ++ ys)
      | Some (inl e) => mret (Some (inl e))
      | None => mret None
      end
  end.

Definition packagesOfType (fuel : nat) (fresh : bool) (conn : Connection) (c : Client)
    (org : string) (asUser : bool) (repo : Repository) (pt : string)
    : GEff W (option (error + list PackageInfo)) :=
  let fresh := bool_decide (pt = "container") && fresh in
  r ← cachedPackageListing pk_packages_json pk_packages_of conn c ["packages"; org; pt] fresh
        (listPackagesOfType fuel c org pt asUser);
  match r with
  | Some (inr pkgs) =>
      collect (λ p, if linked repo p then
                      i ← describePackage fuel conn c org pt asUser fresh p;
                      mret (match i with
                            | Some (inr i) => Some (inr [i])
                            | Some (inl e) => Some (inl e)
                            | None => None
                            end)
                    else mret (Some (inr []))) pkgs []
  | Some (inl e) => mret (Some (inl e))
  | None => mret None
  end.

Definition ListPackages (fuel : nat) (fresh : bool) (conn : Connection) (cred : Credential)
    (repo : Repository) : GEff W (option (error + list PackageInfo)) :=
  match client cred (cs_BaseURL (cn_Spec conn)) with
  | inl err => mret (Some (inl err))
  | inr c =>
      let org := owner conn repo in
      r ← g_get_user c org;
      match r with
      | GErr resp err => e ← classify resp err; mret (Some (inl e))
      | GOk account _ =>
          let asUser := bool_decide (gu_Type account = "User") in
          if negb asUser && negb (bool_decide (gu_Type account = "Organization")) then
            mret (Some (inl (ENew ("github: unknown package owner type " +:+ Quote (gu_Type account)))))
          else collect (packagesOfType fuel fresh conn c org asUser repo) packageTypes []
      end
  end.
End GitHub.

(** ** What a listing is

    [paged ev p l complete]: [l] is the items of the pages from [p] on, in order;
    [complete] when the host said that the last of them has no successor. *)
Inductive paged {A} (ev : Z → Answer (list A) → Prop) : Z → list A → bool → Prop :=
  | paged_last p items resp :
      ev p (GOk items resp) → nextPage resp = 0%Z → paged ev p items true
  | paged_stop p items resp :
      ev p (GOk items resp) → nextPage resp ≠ 0%Z → paged ev p items false
  | paged_more p items resp rest complete :
      ev p (GOk items resp) → nextPage resp ≠ 0%Z → paged ev (nextPage resp) rest complete →
      paged ev p (items ++ rest) complete.

(** ** Terminating on enough fuel *)

Definition settled {W Ev A : Type} (m : nat → M W Ev (option A)) (n : nat) : Prop :=
  ∀ w, ∃ r w' t, ∀ fuel, (n ≤ fuel)%nat → m fuel w = (Some r, w', t).

Section Contract.
Context {W : Type} `{GitHub W} `{Packages W}.
Context (fresh : bool) (conn : Connection) (repo : Repository).
#[local] Abbreviation org := (owner conn repo).

(** The pages of every listing are numbered upwards and end at [last]. *)
Definition pages_end (last : Z) : Prop :=
  (∀ c o ty u p w items resp w', pk_list c o ty u p w = (GOk items resp, w') →
     nextPage resp = 0 ∨ p < nextPage resp ≤ last)%Z ∧
  (∀ c o ty name u p w items resp w', pk_versions c o ty name u p w = (GOk items resp, w') →
     nextPage resp = 0 ∨ p < nextPage resp ≤ last)%Z.

(** A listing that somebody published: a cached one, unless a fresh one was asked
    for, or that of a flight that was joined. *)
Definition served (h : list GEvent) (pt : string) (parts : list string) (body : string) : Prop :=
  ∃ c, (fresh = false ∨ pt ≠ "container") ∧ GCacheHit (listingKey conn c parts) body ∈ h ∨
    GJoined (listingKey conn c parts) (inr body) ∈ h.

Definition obtained (h : list GEvent) (asUser : bool) (pt : string) (l : list GPackage) : Prop :=
  (∃ body, served h pt ["packages"; org; pt] body ∧ pk_packages_of body = inr l) ∨
  paged (λ p r, ∃ c, GCall c (GListPackages org pt asUser p r) ∈ h) 0 l true.

Definition obtained_versions (h : list GEvent) (asUser : bool) (pt name : string)
    (l : list PackageVersion) : Prop :=
  (∃ body, served h pt ["versions"; org; pt; name] body ∧ pk_versions_of body = inr l) ∨
  ∃ vs complete, l = packageVersion <$> vs ∧
    paged (λ p r, ∃ c, GCall c (GListVersions org pt (if asUser then PathEscape name else name)
                                  asUser p r) ∈ h) 0 vs complete ∧
    (complete = false → (packageVersionsMax ≤ length vs)%nat).

Definition described (h : list GEvent) (asUser : bool) (pt : string) (p : GPackage)
    (info : PackageInfo) : Prop :=
  if isImageType pt then
    ∃ versions, obtained_versions h asUser pt (gp_Name p) versions ∧ info = imageInfo org p versions
  else info = packageInfo p.

(** The listings this run fetched to the end, or versions until it had enough. *)
Definition complete_listing (h : list GEvent) (key body : string) : Prop :=
  ∃ c asUser pt,
    (∃ l, key = listingKey conn c ["packages"; org; pt] ∧ body = pk_packages_json l ∧
       paged (λ p r, ∃ c, GCall c (GListPackages org pt asUser p r) ∈ h) 0 l true) ∨
    (∃ name vs complete, key = listingKey conn c ["versions"; org; pt; name] ∧
       body = pk_versions_json (packageVersion <$> vs) ∧
       paged (λ p r, ∃ c, GCall c (GListVersions org pt (if asUser then PathEscape name else name)
                                     asUser p r) ∈ h) 0 vs complete ∧
       (complete = false → (packageVersionsMax ≤ length vs)%nat)).

(** What may be published: a failure, which leaves the cached bodies as they were,
    or a complete listing, under its own key only. *)
Definition publication (h : list GEvent) (e : GEvent) : Prop :=
  match e with
  | GPublish key before after (inl _) => after = before
  | GPublish key before after (inr body) =>
      complete_listing h key body ∧
      ∀ k b, (k, b) ∈ after → (k, b) ∈ before ∨ (k = key ∧ b = body)
  | _ => True
  end.

(** The linked packages of one type, in the order of the listing. *)
Definition type_listed (h : list GEvent) (asUser : bool) (pt : string) (out : list PackageInfo)
    : Prop :=
  ∃ l, obtained h asUser pt l ∧
    Forall2 (described h asUser pt) (filter (λ p, linked repo p = true) l) out.

Definition packages_result (r : option (error + list PackageInfo)) (t : list GEvent) : Prop :=
  ∀ out, r = Some (inr out) → ∃ c account resp outs,
    GCall c (GGetUser org (GOk account resp)) ∈ t ∧
    (gu_Type account = "User" ∨ gu_Type account = "Organization") ∧
    Forall2 (type_listed t (bool_decide (gu_Type account = "User"))) packageTypes outs ∧
    out = concat outs.
End Contract.

(** ** Lemmas: termination *)

Section Settled.
Context {W Ev : Type}.

Lemma settled_ret {A} (a : A) n : settled (W := W) (Ev := Ev) (λ _, mret (Some a)) n.
Proof. intros w. by exists a, w, []. Qed.

Lemma settled_bind {A B} (m : M W Ev A) (k : A → nat → M W Ev (option B)) n :
  (∀ a, settled (k a) n) → settled (λ fuel, a ← m; k a fuel) n.
Proof.
  intros Hk w. destruct (m w) as [[a w1] t1] eqn:Hm. destruct (Hk a w1) as (r & w' & t & Hr).
  exists r, w', (t1 ++ t). intros fuel Hf. unfold mbind, M_bind. by rewrite Hm, Hr.
Qed.

(** After a part that settles, only its result matters. *)
Lemma settled_then {A B} (m : nat → M W Ev (option A)) (k : option A → nat → M W Ev (option B)) n :
  settled m n → (∀ a, settled (k (Some a)) n) → settled (λ fuel, a ← m fuel; k a fuel) n.
Proof.
  intros Hm Hk w. destruct (Hm w) as (a & w1 & t1 & Ha). destruct (Hk a w1) as (r & w' & t & Hr).
  exists r, w', (t1 ++ t). intros fuel Hf. unfold mbind, M_bind. by rewrite Ha, Hr.
Qed.
End Settled.

Section Termination.
Context {W : Type} `{GitHub W} `{Packages W}.

Lemma paginate_settled {A} (fetch : Z → W → Answer (list A) * W) ev (full : list A → bool) last :
  (∀ p w items resp w', fetch p w = (GOk items resp, w') →
     nextPage resp = 0 ∨ p < nextPage resp ≤ last)%Z →
  ∀ k page all, (last < page + Z.of_nat k)%Z →
  settled (λ fuel, paginate fuel (λ p, call (fetch p) (ev p)) full page all) (S k).
Proof.
  intros Hend k. induction k as [|k IH]; intros page all Hk w.
  all: destruct (fetch page w) as [[resp err|items resp] w1] eqn:Hf.
  - destruct (classify resp err w1) as [[e w2] t2] eqn:Hcl.
    exists (inl e), w2, (ev page (GErr resp err) :: t2).
    intros fuel Hfuel. destruct fuel as [|fuel]; [lia|]. simpl.
    unfold mbind, M_bind, call. rewrite Hf, Hcl. simpl. by rewrite app_nil_r.
  - exists (inr (all ++ items)), w1, [ev page (GOk items resp)].
    intros fuel Hfuel. destruct fuel as [|fuel]; [lia|]. simpl.
    unfold mbind, M_bind, call. rewrite Hf. destruct (Hend _ _ _ _ _ Hf) as [Hz|Hz]; [|lia].
    rewrite Hz. done.
  - destruct (classify resp err w1) as [[e w2] t2] eqn:Hcl.
    exists (inl e), w2, (ev page (GErr resp err) :: t2).
    intros fuel Hfuel. destruct fuel as [|fuel]; [lia|]. simpl.
    unfold mbind, M_bind, call. rewrite Hf, Hcl. simpl. by rewrite app_nil_r.
  - destruct (bool_decide (nextPage resp = 0%Z) || full (all ++ items)) eqn:Hstop.
    + exists (inr (all ++ items)), w1, [ev page (GOk items resp)].
      intros fuel Hfuel. destruct fuel as [|fuel]; [lia|]. simpl.
      unfold mbind, M_bind, call. rewrite Hf, Hstop. done.
    + apply orb_false_iff in Hstop as [Hnz%bool_decide_eq_false Hfull].
      destruct (Hend _ _ _ _ _ Hf) as [|Hz]; [done|].
      destruct (IH (nextPage resp) (all ++ items) ltac:(lia) w1) as (r & w' & t & Hr).
      exists r, w', (ev page (GOk items resp) :: t). intros fuel Hfuel.
      destruct fuel as [|fuel]; [lia|]. simpl. unfold mbind, M_bind, call. rewrite Hf.
      rewrite bool_decide_eq_false_2, Hfull by done. simpl. by rewrite Hr by lia.
Qed.

Lemma collect_settled {A B} (f : nat → A → GEff W (option (error + list B))) n :
  (∀ x, settled (λ fuel, f fuel x) n) →
  ∀ l out, settled (λ fuel, collect (f fuel) l out) n.
Proof.
  intros Hf l. induction l as [|x l IH]; intros out; [apply settled_ret|]. simpl.
  apply (settled_then _ (λ r fuel, match r with
    | Some (inr ys) => collect (f fuel) l (out ++ ys)
    | Some (inl e) => mret (Some (inl e))
    | None => mret None end)); [apply Hf|].
  intros [e|ys]; [apply settled_ret|apply IH].
Qed.

Lemma cached_settled {A} json of_json conn c parts fr (fetch : nat → GEff W (option (error + list A))) n :
  settled fetch n →
  settled (λ fuel, cachedPackageListing json of_json conn c parts fr (fetch fuel)) n.
Proof.
  intros Hf. unfold cachedPackageListing. apply (settled_bind (silently (pk_acquire c))). intros [err|]; [apply settled_ret|].
  apply (settled_bind g_now). intros now. apply (settled_bind (beginListing _ _ _)).
  intros [[body|flight| |] fl].
  - apply (settled_bind (record _)). intros _. apply settled_ret.
  - apply (settled_bind (call _ _)). intros r. apply settled_ret.
  - apply settled_ret.
  - apply (settled_then fetch (λ r _, match r with
      | None => mret None
      | Some r => now ← g_now; later ← g_now;
          p ← finishListing _ (match r with inl e => inl e | inr l => inr (json l) end) now later;
          mret (Some (match p with inl err => inl err | inr _ => r end)) end)); [done|].
    intros r. apply (settled_bind g_now). intros now'. apply (settled_bind g_now). intros later.
    apply (settled_bind (finishListing _ _ _ _)). intros p. apply settled_ret.
Qed.

Lemma versions_settled c org pt name u last : pages_end last →
  settled (λ fuel, listPackageVersions fuel c org pt name u) (S (S (Z.to_nat last))).
Proof.
  intros [_ Hv]. unfold listPackageVersions.
  apply (settled_then _ (λ r _, mret (match r with
    | Some (inr versions) => Some (inr (packageVersion <$> versions))
    | Some (inl e) => Some (inl e) | None => None end))).
  - apply (paginate_settled (pk_versions c org pt (if u then PathEscape name else name) u) _ _ last);
      [intros ?????; apply Hv|lia].
  - intros [e|vs]; apply settled_ret.
Qed.

Lemma packages_settled c org pt u last : pages_end last →
  settled (λ fuel, listPackagesOfType fuel c org pt u) (S (S (Z.to_nat last))).
Proof.
  intros [Hl _]. apply (paginate_settled (pk_list c org pt u) _ _ last); [intros ?????; apply Hl|lia].
Qed.

Lemma describe_settled conn c org pt u fr p last : pages_end last →
  settled (λ fuel, describePackage fuel conn c org pt u fr p) (S (S (Z.to_nat last))).
Proof.
  intros Hend. unfold describePackage. destruct (isImageType pt); [|apply settled_ret].
  apply (settled_then _ (λ v _, mret (match v with
    | Some (inr versions) => Some (inr (imageInfo org p versions))
    | Some (inl e) => Some (inl e) | None => None end))).
  - by apply cached_settled, versions_settled.
  - intros [e|vs]; apply settled_ret.
Qed.

Lemma type_settled fr conn c org u repo pt last : pages_end last →
  settled (λ fuel, packagesOfType fuel fr conn c org u repo pt) (S (S (Z.to_nat last))).
Proof.
  intros Hend. unfold packagesOfType.
  apply (settled_then _ (λ r fuel, match r with
    | Some (inr pkgs) => collect (λ p, if linked repo p then
        i ← describePackage fuel conn c org pt u (bool_decide (pt = "container") && fr) p;
        mret (match i with Some (inr i) => Some (inr [i]) | Some (inl e) => Some (inl e)
              | None => None end) else mret (Some (inr []))) pkgs []
    | Some (inl e) => mret (Some (inl e)) | None => mret None end)).
  - by apply cached_settled, packages_settled.
  - intros [e|pkgs]; [apply settled_ret|].
    apply (collect_settled (λ fuel p, if linked repo p then _ else _)). intros p.
    destruct (linked repo p); [|apply settled_ret].
    apply (settled_then _ (λ i _, mret (match i with Some (inr i) => Some (inr [i])
      | Some (inl e) => Some (inl e) | None => None end))); [by apply describe_settled|].
    intros [e|i]; apply settled_ret.
Qed.

Lemma ListPackages_settled fr conn cred repo last : pages_end last →
  settled (λ fuel, ListPackages fuel fr conn cred repo) (S (S (Z.to_nat last))).
Proof.
  intros Hend. unfold ListPackages. destruct (client cred _) as [err|c]; [apply settled_ret|].
  apply (settled_bind (g_get_user _ _)). intros [resp err|account resp].
  - apply (settled_bind (classify _ _)). intros e. apply settled_ret.
  - destruct (negb _ && _); [apply settled_ret|].
    apply (collect_settled (λ fuel, packagesOfType fuel fr conn c _ _ repo)). intros pt.
    by apply type_settled.
Qed.
End Termination.

(** ** Lemmas: what is listed *)

Lemma paged_mono {A} (ev ev' : Z → Answer (list A) → Prop) p l b :
  (∀ q r, ev q r → ev' q r) → paged ev p l b → paged ev' p l b.
Proof. intros He Hp. induction Hp; [eapply paged_last|eapply paged_stop|eapply paged_more]; eauto. Qed.

Section Mono.
Context {W : Type} `{GitHub W} `{Packages W}.
Context (fresh : bool) (conn : Connection) (repo : Repository) (h h' : list GEvent) (Hh : h ⊆ h').

Lemma served_mono pt parts body : served fresh conn h pt parts body → served fresh conn h' pt parts body.
Proof. intros (c & [[? ?]|?]); exists c; [left|right]; auto. Qed.

Lemma obtained_mono u pt l : obtained fresh conn repo h u pt l → obtained fresh conn repo h' u pt l.
Proof.
  intros [(body & Hs & Hb)|Hp]; [left; exists body; split; [by apply served_mono|done]|right].
  eapply paged_mono; [|exact Hp]. intros q r (c & ?). exists c. auto.
Qed.

Lemma described_mono u pt p i : described fresh conn repo h u pt p i → described fresh conn repo h' u pt p i.
Proof.
  unfold described. destruct (isImageType pt); [|done]. intros (vs & Hv & ->). exists vs. split; [|done].
  destruct Hv as [(body & Hs & Hb)|(gs & b & -> & Hp & Hb)];
    [left; exists body; split; [by apply served_mono|done]|right]. exists gs, b. split_and!; try done.
  eapply paged_mono; [|exact Hp]. intros q r (c & ?). exists c. auto.
Qed.

Lemma type_listed_mono u pt out : type_listed fresh conn repo h u pt out → type_listed fresh conn repo h' u pt out.
Proof.
  intros (l & Hl & Hd). exists l. split; [by apply obtained_mono|].
  eapply Forall2_impl; [exact Hd|]. intros. by apply described_mono.
Qed.
End Mono.

Lemma sub_after {A} (h t : list A) : t ⊆ h ++ t.
Proof. set_solver. Qed.
Lemma sub_before {A} (h t : list A) : h ⊆ h ++ t.
Proof. set_solver. Qed.
#[local] Hint Resolve sub_after sub_before : history.

Section Listed.
Context {W : Type} `{GitHub W} `{Packages W}.
Context (fresh : bool) (conn : Connection) (repo : Repository).
#[local] Abbreviation org := (owner conn repo).
#[local] Abbreviation quiet := (Forall (λ e, mutates e = false)).

Lemma complete_listing_mono h h' key body :
  h ⊆ h' → complete_listing conn repo h key body → complete_listing conn repo h' key body.
Proof.
  intros Hh (c & u & pt & [(l & -> & -> & Hp)|(name & vs & b & -> & -> & Hp & Hb)]);
    exists c, u, pt; [left; exists l|right; exists name, vs, b]; split_and!; try done;
    (eapply paged_mono; [|exact Hp]); intros q r (c' & ?); exists c'; auto.
Qed.

(** Read-only, and publishing only what it fetched. *)
Definition tidy (t : list GEvent) : Prop :=
  quiet t ∧ Forall (publication conn repo t) t.

Lemma publication_mono h h' e : h ⊆ h' → publication conn repo h e → publication conn repo h' e.
Proof.
  intros Hh. destruct e as [| | | | |key before after [|body]]; try done. intros [Hc Hk].
  split; [by eapply complete_listing_mono|done].
Qed.

Lemma tidy_app t t' : tidy t → tidy t' → tidy (t ++ t').
Proof.
  intros [Hq Hp] [Hq' Hp']. split; [by apply Forall_app|]. apply Forall_app.
  split; (eapply Forall_impl; [eassumption|]); intros e; apply publication_mono; set_solver.
Qed.
Lemma tidy_nil : tidy [].
Proof. by split. Qed.
Lemma tidy_cons e t : mutates e = false → publication conn repo [] e → tidy t → tidy (e :: t).
Proof. intros Hm Hp Ht. apply (tidy_app [e]); [|done]. split; repeat constructor; try done.
  eapply publication_mono; [|done]. by intros ? ?%elem_of_nil. Qed.
Lemma tidy_snoc t e :
  tidy t → mutates e = false → publication conn repo t e → tidy (t ++ [e]).
Proof.
  intros [Hq Hp] Hm He. split; apply Forall_app; split; try (by repeat constructor);
    [|repeat constructor; (eapply publication_mono; [|exact He]); set_solver].
  eapply Forall_impl; [exact Hp|]. intros x. apply publication_mono. set_solver.
Qed.
Lemma tidy_now t : Forall (λ e, ∃ n, e = GNow n) t → tidy t.
Proof. induction 1 as [|e t [n ->] _ IH]; [apply tidy_nil|by apply tidy_cons]. Qed.
#[local] Hint Resolve tidy_nil : core.

Lemma classify_tidy resp err : emits (W := W) (classify resp err) (λ _ t, tidy t).
Proof. eapply emits_mono; [apply classify_now|]. intros e t Ht. by apply tidy_now. Qed.

(** A result that comes back says [Q] of its list. *)
Definition lists {A} (m : GEff W (option (error + A))) (Q : A → list GEvent → Prop) : Prop :=
  emits m (λ r t, tidy t ∧ ∀ l, r = Some (inr l) → Q l t).

Lemma lists_end {A} (r : option (error + A)) (Q : A → list GEvent → Prop) :
  (∀ l, r = Some (inr l) → Q l []) → lists (mret r) Q.
Proof. intros HQ. apply emits_ret. by split. Qed.

(** Passing a result on, a failure as it is. *)
Lemma lists_then {A B} (m : GEff W (option (error + A))) (k : A → GEff W (option (error + B)))
    (k' : option (error + A) → GEff W (option (error + B))) (P : A → list GEvent → Prop)
    (Q : B → list GEvent → Prop) :
  lists m P → (∀ a, k' (Some (inr a)) = k a) →
  (∀ e, k' (Some (inl e)) = mret (Some (inl e))) → k' None = mret None →
  (∀ a t, P a t → lists (k a) (λ b t', Q b (t ++ t'))) → lists (m ≫= k') Q.
Proof.
  intros Hm Hk He Hn HQ. apply emits_bind. eapply emits_mono; [exact Hm|]. intros r t [Ht Hr].
  destruct r as [[e|a]|].
  - rewrite He. apply emits_ret. rewrite app_nil_r. by split.
  - rewrite Hk. eapply emits_mono; [by apply HQ, Hr|]. intros b t' [Ht' Hb].
    split; [by apply tidy_app|exact Hb].
  - rewrite Hn. apply emits_ret. rewrite app_nil_r. by split.
Qed.

Lemma paginate_lists {A} (fetch : Z → W → Answer (list A) * W) ev (full : list A → bool) :
  (∀ p r, mutates (ev p r) = false ∧ publication conn repo [] (ev p r)) → ∀ fuel page all,
  lists (paginate fuel (λ p, call (fetch p) (ev p)) full page all) (λ l t, ∃ rest b,
    l = all ++ rest ∧ paged (λ p r, ev p r ∈ t) page rest b ∧ (b = false → full l = true)).
Proof.
  intros Hq fuel. induction fuel as [|fuel IH]; intros page all; [by apply lists_end|]. simpl.
  apply emits_bind, emits_call. intros [resp err|items resp].
  { apply emits_bind. eapply emits_mono; [apply classify_tidy|]. intros e t Ht. apply emits_ret.
    rewrite app_nil_r. split; [|done]. apply tidy_cons; [apply Hq..|done]. }
  destruct (bool_decide (nextPage resp = 0%Z) || full (all ++ items)) eqn:Hstop.
  - apply emits_ret. rewrite app_nil_r. split; [apply tidy_cons; [apply Hq..|done]|].
    intros l [= <-].
    case_bool_decide as Hn.
    + exists items, true. split_and!; [done|eapply paged_last; [by left|done]|done].
    + exists items, false. split_and!; [done|eapply paged_stop; [by left|done]|done].
  - apply orb_false_iff in Hstop as [Hn%bool_decide_eq_false _].
    eapply emits_mono; [apply IH|]. intros r t [Ht Hr].
    split; [apply tidy_cons; [apply Hq..|done]|]. intros l Hl. destruct (Hr l Hl) as (rest & b & -> & Hp & Hb).
    exists (items ++ rest), b. split_and!; [by rewrite app_assoc| |done].
    eapply paged_more; [by left|done|]. eapply paged_mono; [|exact Hp]. intros q a Hin. by right.
Qed.

Lemma collect_lists {A B} (f : A → GEff W (option (error + list B))) (P : A → list B → list GEvent → Prop) l :
  (∀ x out h h', h ⊆ h' → P x out h → P x out h') →
  (∀ x, x ∈ l → lists (f x) (P x)) → ∀ out,
  lists (collect f l out) (λ all t, ∃ outs, Forall2 (λ x o, P x o t) l outs ∧ all = out ++ concat outs).
Proof.
  intros Hmono. induction l as [|x l IH]; intros Hf out; simpl.
  { apply lists_end. intros all [= <-]. exists []. split; [done|]. by rewrite app_nil_r. }
  eapply (lists_then _ (λ ys, collect f l (out ++ ys)) _ (P x)); try done; [apply Hf; by left|].
  intros ys t Hys. eapply emits_mono; [apply IH; intros; apply Hf; by right|].
  intros r t' [Ht' Hr]. split; [done|]. intros all Hall. destruct (Hr all Hall) as (outs & Ho & ->).
  exists (ys :: outs). split; [|by rewrite <- app_assoc]. constructor.
  - by eapply Hmono; [apply sub_before|].
  - eapply Forall2_impl; [exact Ho|]. intros y o Hy. by eapply Hmono; [apply sub_after|].
Qed.

Lemma emits_silently {A B} (op : W → A * W) (k : A → GEff W B) (Q : B → list GEvent → Prop) :
  (∀ w, emits (k (op w).1) Q) → emits (silently op ≫= k) Q.
Proof.
  intros HQ w. unfold mbind, M_bind, silently. specialize (HQ w). destruct (op w) as [a w1].
  specialize (HQ w1). simpl in HQ. by destruct (k a w1) as [[b w2] t].
Qed.

Lemma lookup_cached key fr s body : listing_lookup key fr s = Cached body → fr = false.
Proof.
  unfold listing_lookup. destruct fr; [|done].
  destruct (s_responses s !! key), (s_listings s !! key); simpl; try done; by case_decide.
Qed.

Lemma store_bodies s key v k b :
  (cr_body <$> s_responses (store s key v)) !! k = Some b →
  (cr_body <$> s_responses s) !! k = Some b ∨ (k = key ∧ b = cr_body v).
Proof.
  unfold store. case_decide; [by left|].
  assert (∀ m : gmap string cachedResponse, (∀ x, m !! k = Some x → s_responses s !! k = Some x) →
    (cr_body <$> <[key := v]> m) !! k = Some b →
    (cr_body <$> s_responses s) !! k = Some b ∨ (k = key ∧ b = cr_body v)) as Hm.
  { intros m Hm. rewrite fmap_insert, lookup_insert_Some. intros [[<- <-]|[_ Hb]]; [by right|left].
    rewrite lookup_fmap in *. destruct (m !! k) as [x|] eqn:Hx; [|done]. by rewrite (Hm x). }
  destruct (s_responses s !! key); case_decide; cbn; apply Hm; try done.
  intros x Hx. by apply lookup_delete_Some in Hx as [_ Hx].
Qed.

(** A flight publishes the failure of its fetch, or the listing it fetched. *)
Lemma finish_lists {A} (json : list A → string) key (r : error + list A) now later h :
  (∀ l, r = inr l → complete_listing conn repo h key (json l)) →
  emits (W := W) (finishListing key (match r with inl e => inl e | inr l => inr (json l) end) now later)
    (λ p t, (∃ e, t = [e] ∧ mutates e = false ∧ publication conn repo h e) ∧
       ∀ body, p = inr body → ∃ l, r = inr l).
Proof.
  intros Hr w. unfold finishListing, listing_publish. destruct r as [e|l]; simpl.
  - split; [|done]. eexists. split; [reflexivity|]. by split.
  - split; [|by exists l]. eexists. split; [reflexivity|]. split; [done|]. split; [by apply Hr|].
    intros k b. unfold cached_bodies. rewrite !elem_of_map_to_list. apply store_bodies.
Qed.

Lemma cached_lists {A} (json : list A → string) of_json c pt parts
    (fetch : GEff W (option (error + list A))) (P : list A → list GEvent → Prop) :
  (∀ l h h', h ⊆ h' → P l h → P l h') →
  (∀ l h, P l h → complete_listing conn repo h (listingKey conn c parts) (json l)) →
  lists fetch P →
  lists (cachedPackageListing json of_json conn c parts (bool_decide (pt = "container") && fresh) fetch)
    (λ l t, (∃ body, served fresh conn t pt parts body ∧ of_json body = inr l) ∨ P l t).
Proof.
  intros Hmono Hcomplete Hf. unfold cachedPackageListing. apply emits_silently. intros w0.
  destruct (pk_acquire c w0).1 as [err|]; [by apply lists_end|].
  apply emits_bind, emits_call. intros now. apply emits_silently. intros w1. cbn [fst].
  destruct (listing_lookup _ _ _) as [body|flight| |] eqn:Hfound.
  - apply lookup_cached in Hfound. apply emits_bind. intros w. simpl. split; [by apply tidy_cons, tidy_cons|].
    intros l [= Hl]. left. exists body. split; [|done]. exists c. left. split; [|set_solver].
    apply andb_false_iff in Hfound as [Hp%bool_decide_eq_false|?]; [by right|by left].
  - apply emits_bind, emits_call. intros r. apply emits_ret. split; [by apply tidy_cons, tidy_cons|].
    intros l Hl. destruct r as [err|body]; [done|]. injection Hl as Hl. left. exists body.
    split; [|done]. exists c. right. set_solver.
  - apply emits_ret. split; [by apply tidy_cons|done].
  - apply emits_bind. eapply emits_mono; [exact Hf|]. intros [r|] t [Ht Hr].
    2: { apply emits_ret. split; [|done]. rewrite app_nil_r. by apply tidy_cons. }
    apply emits_bind, emits_call. intros n1. apply emits_bind, emits_call. intros n2.
    apply emits_bind. eapply emits_mono; [apply (finish_lists json _ r n1 n2 t)|].
    { intros l ->. apply Hcomplete, Hr. done. }
    intros p ? [(e & -> & Hq & Hp) Hpr]. apply emits_ret. split.
    { match goal with |- tidy ?x =>
        replace x with ((GNow now :: t ++ [GNow n1; GNow n2]) ++ [e])
          by (cbn; rewrite <- !app_assoc; done) end.
      apply tidy_snoc; [|done|].
      { apply tidy_cons; [done..|]. apply tidy_app; [done|]. by apply tidy_cons, tidy_cons. }
      eapply publication_mono; [|exact Hp]. set_solver. }
    intros l Hl. right. assert (r = inr l) as ->.
    { destruct p as [?|body]; [done|]. destruct (Hpr body eq_refl) as [l' ->]. congruence. }
    eapply Hmono; [|by apply Hr]. set_solver.
Qed.

Lemma describe_lists fuel c pt u p : lists
  (describePackage (W := W) fuel conn c org pt u (bool_decide (pt = "container") && fresh) p)
  (λ i t, described fresh conn repo t u pt p i).
Proof.
  unfold describePackage, described. destruct (isImageType pt).
  2: { apply lists_end. by intros i [= <-]. }
  eapply (lists_then _ (λ vs, mret (Some (inr (imageInfo org p vs)))) _
    (λ vs t, obtained_versions fresh conn repo t u pt (gp_Name p) vs)); try done.
  - apply (cached_lists _ _ _ _ _ _ (λ l t, ∃ vs complete, l = packageVersion <$> vs ∧
      paged (λ q r, ∃ c, GCall c (GListVersions org pt (if u then PathEscape (gp_Name p) else gp_Name p) u q r) ∈ t)
        0 vs complete ∧ (complete = false → (packageVersionsMax ≤ length vs)%nat))).
    { intros l h h' Hh (vs & b & -> & Hp & Hb). exists vs, b. split_and!; try done.
      eapply paged_mono; [|exact Hp]. intros q r (c' & ?). exists c'. auto. }
    { intros l h (vs & b & -> & Hp & Hb). exists c, u, pt. right. by exists (gp_Name p), vs, b. }
    unfold listPackageVersions.
    eapply (lists_then _ (λ vs, mret (Some (inr (packageVersion <$> vs))))); try done.
    { apply (paginate_lists (pk_versions c org pt (if u then PathEscape (gp_Name p) else gp_Name p) u)). done. }
    intros l t (rest & b & -> & Hp & Hb). apply lists_end. intros l' [= <-].
    exists rest, b. split_and!; [done| |].
    + eapply paged_mono; [|exact Hp]. intros q r Hin. exists c. set_solver.
    + intros Hf. by apply bool_decide_eq_true in Hb.
  - intros vs t Hv. apply lists_end. intros i [= <-]. exists vs. rewrite app_nil_r. by split.
Qed.

Lemma type_lists fuel c u pt : lists (packagesOfType (W := W) fuel fresh conn c org u repo pt)
  (λ out t, type_listed fresh conn repo t u pt out).
Proof.
  unfold packagesOfType.
  eapply (lists_then _ _ _ (λ l t, obtained fresh conn repo t u pt l)); try done.
  { apply (cached_lists _ _ _ _ _ _ (λ l t,
      paged (λ p r, ∃ c, GCall c (GListPackages org pt u p r) ∈ t) 0 l true)).
    { intros l h h' Hh Hp. eapply paged_mono; [|exact Hp]. intros q r (c' & ?). exists c'. auto. }
    { intros l h Hp. exists c, u, pt. left. by exists l. }
    eapply emits_mono; [apply (paginate_lists (pk_list c org pt u)); done|].
    intros r t [Ht Hr]. split; [done|]. intros l Hl. destruct (Hr l Hl) as (rest & b & -> & Hp & Hb).
    destruct b; [|by discriminate Hb]. eapply paged_mono; [|exact Hp]. intros q a Hin. by exists c. }
  intros l t Hl. eapply emits_mono; [apply (collect_lists _ (λ p o t,
    Forall2 (described fresh conn repo t u pt) (if linked repo p then [p] else []) o))|].
  - intros p o h h' Hh Ho. eapply Forall2_impl; [exact Ho|]. intros. by eapply described_mono.
  - intros p _. destruct (linked repo p); [|by apply lists_end; intros o [= <-]].
    eapply (lists_then _ (λ i, mret (Some (inr [i])))); try done; [apply describe_lists|].
    intros i t' Hi. apply lists_end. intros o [= <-]. constructor; [|done]. by rewrite app_nil_r.
  - intros r t' [Ht' Hr]. split; [done|]. intros out Hout.
    destruct (Hr out Hout) as (outs & Ho & ->). simpl. exists l.
    split; [eapply obtained_mono; [apply sub_before|done]|].
    clear Hr Hout Hl Ht'. induction Ho as [|p o l outs Hp Ho IH]; [constructor|].
    rewrite filter_cons. simpl. destruct (linked repo p) eqn:Hl.
    + rewrite decide_True by done. change (p :: ?x) with ([p] ++ x).
      apply Forall2_app; [|done]. eapply Forall2_impl; [exact Hp|]. intros.
      eapply described_mono; [apply sub_after|done].
    + rewrite decide_False by congruence. inversion Hp; subst. done.
Qed.

Lemma ListPackages_lists fuel cred : emits (ListPackages (W := W) fuel fresh conn cred repo)
  (λ r t, tidy t ∧ packages_result fresh conn repo r t).
Proof.
  unfold ListPackages. destruct (client cred _) as [err|c]; [by apply emits_ret|].
  apply emits_bind, emits_call. intros [resp err|account resp].
  { apply emits_bind. eapply emits_mono; [apply classify_tidy|]. intros e t Ht. apply emits_ret.
    rewrite app_nil_r. split; [by apply tidy_cons|done]. }
  destruct (negb _ && _) eqn:Hkind; [apply emits_ret; split; [by apply tidy_cons|done]|].
  eapply emits_mono; [apply (collect_lists _ (λ pt o t,
    type_listed fresh conn repo t (bool_decide (gu_Type account = "User")) pt o))|].
  - intros. by eapply type_listed_mono.
  - intros pt _. apply type_lists.
  - intros r t [Ht Hr]. split; [by apply tidy_cons|]. intros out Hout.
    destruct (Hr out Hout) as (outs & Ho & ->). exists c, account, resp, outs.
    split_and!; [by left| | |done].
    + apply andb_false_iff in Hkind as [Hk|Hk]; apply negb_false_iff, bool_decide_eq_true in Hk; auto.
    + eapply Forall2_impl; [exact Ho|]. intros. eapply type_listed_mono; [apply sub_after|done].
Qed.
End Listed.

(** ** Properties *)

(** Listing packages terminates.  On a host that numbers the pages of every
    listing upwards and has at most [last] of them, some amount of fuel is
    enough from every world, and from there on more fuel changes nothing: the
    loops of ListPackages end, with a listing or an error. *)
Theorem ListPackages_terminates {W} `{GitHub W} `{Packages W} (fresh : bool)
    (conn : Connection) (cred : Credential) (repo : Repository) (last : Z) (w : W)
    (Hend : pages_end last) :
  ∃ r w' t, ∀ fuel, (S (S (Z.to_nat last)) ≤ fuel)%nat →
    ListPackages fuel fresh conn cred repo w = (Some r, w', t).
Proof. exact (ListPackages_settled fresh conn cred repo last Hend w). Qed.

(** C33: ListPackages returns exactly the packages linked to the repository, and
    publishes nothing but complete listings.  It only reads the host.  What it
    returns is, type by type, the linked packages of a listing of that type, in
    its order: one whose pages it fetched up to the last, or the body it found in
    the cache (never for container images when a fresh listing was asked for) or
    got from the flight it joined, decoded as it was published; image packages
    come with their versions, from such a listing, or from one stopped at 100 or
    more versions.  Whether it succeeds or not, each flight it runs publishes
    either its error, leaving the cached bodies as they were, or the JSON of a
    listing of this connection whose pages it fetched up to the last (or to 100
    versions), under that listing's key only. *)
Theorem ListPackages_exact {W} `{GitHub W} `{Packages W} (fuel : nat) (fresh : bool)
    (conn : Connection) (cred : Credential) (repo : Repository) (w w' : W) r t
    (Hrun : ListPackages fuel fresh conn cred repo w = (r, w', t)) :
  Forall (λ e, mutates e = false) t ∧ packages_result fresh conn repo r t ∧
  Forall (publication conn repo t) t.
Proof.
  pose proof (ListPackages_lists fresh conn repo fuel cred w) as He. rewrite Hrun in He.
  destruct He as [[Hq Hp] Hr]. by split_and!.
Qed.

(** Two pages of container packages, one version each. *)
Definition demo_package (name repo : string) : GPackage :=
  {| gp_Name := name; gp_Type := "container"; gp_Visibility := "private"; gp_HTMLURL := "";
     gp_VersionCount := 0; gp_UpdatedAt := zeroTime; gp_Repository := Some repo |}.
Definition fixed_packages : Packages requestState := {|
  pk_list := λ _ _ ty _ p w,
    (if decide (ty = "container") then
       if decide (p = 0%Z) then GOk [demo_package "app/api" "App"; demo_package "other" "site"]
         (Some {| rsp_StatusCode := 200; rsp_NextPage := 2; rsp_Scopes := "" |})
       else GOk [demo_package "app/web" "app"] (http 200)
     else GOk [] (http 200), w);
  pk_versions := λ _ _ _ _ _ _ w,
    (GOk [{| gv_Name := "sha256:1"; gv_CreatedAt := zeroTime; gv_Tags := ["latest"] |}] (http 200), w);
  pk_baseURL := λ _, "https://api.github.com/";
  pk_acquire := λ _ w, (None, w);
  pk_state := λ w, w; pk_put := λ s _, s; pk_flight := λ _, 0%nat;
  pk_wait := λ _ w, (inl (ENew "cancelled"), w);
  pk_packages_json := λ _, "[]"; pk_packages_of := λ _, inr [];
  pk_versions_json := λ _, "[]"; pk_versions_of := λ _, inr [] |}.

Lemma ListPackages_terminates_witness :
  let G := fixed_github_on requestState empty_host in
  let P := fixed_packages in
  ∃ r w' t, ∀ fuel, (4 ≤ fuel)%nat →
    ListPackages fuel false demo_conn demo_cred (demo_repo ∅ "") newRequestState = (Some r, w', t).
Proof.
  intros G P. apply (ListPackages_terminates false demo_conn demo_cred (demo_repo ∅ "") 2).
  split; intros c o ty; intros; simpl in *; repeat case_decide; simplify_eq; simpl; lia.
Defined.

Lemma ListPackages_exact_witness :
  let G := fixed_github_on requestState empty_host in
  let P := fixed_packages in
  let repo := demo_repo ∅ "" in
  ∃ out s t,
    ListPackages 4 true demo_conn demo_cred repo newRequestState = (Some (inr out), s, t) ∧
    pi_ImageRepository <$> out = ["ghcr.io/acme/app/api"; "ghcr.io/acme/app/web"] ∧
    pi_VersionCount <$> out = [1; 1]%Z ∧ packages_result true demo_conn repo (Some (inr out)) t.
Proof.
  intros G P repo. eexists _, _, _. split; [vm_compute; reflexivity|].
  split; [vm_compute; reflexivity|]. split; [vm_compute; reflexivity|].
  refine (proj1 (proj2 (ListPackages_exact 4 true demo_conn demo_cred repo newRequestState
    (ListPackages 4 true demo_conn demo_cred repo newRequestState).1.2 _ _ _))).
  vm_compute. reflexivity.
Defined.
