(* ===== verification/Collaboration.v ===== *)
(** * backend/collaboration.go and snapshot.go: what crosses the collaboration seam

    Pull requests, feedback, comments, branches and snapshots, and the JSON size
    of a feedback, which the response bound is about. *)

From S2P Require Import Prelude GoStrings Json GoTime Errors Api Backend GitHubPackages.
From Stdlib Require Import Ascii Lia.

#[local] Open Scope string_scope.
#[local] Open Scope list_scope.

Record PullRequestInput := {
  pin_Head : string; pin_Base : string; pin_Commit : string; pin_Title : string; pin_Body : string }.

Record PullRequest := {
  pr_Number : Z; pr_URL : string; pr_Repository : string; pr_HeadRepository : string;
  pr_Head : string; pr_Base : string; pr_Commit : string; pr_State : string; pr_Merged : bool;
  pr_MergeCommit : string; pr_MergedAt : option Time; pr_Merger : string; pr_MergerType : string }.

Record CheckRun := {
  ck_ID : Z; ck_Name : string; ck_AppID : Z; ck_Head : string; ck_Status : string;
  ck_Conclusion : string; ck_DetailsURL : string; ck_Output : string }.
Record Review := {
  rv_ID : Z; rv_Login : string; rv_ActorType : string; rv_Commit : string; rv_State : string;
  rv_Body : string; rv_SubmittedAt : Time }.
Record Feedback := { fb_Checks : list CheckRun; fb_Reviews : list Review }.
Record Comment := {
  cm_ID : Z; cm_URL : string; cm_Body : string; cm_Author : string; cm_AuthorType : string;
  cm_UpdatedAt : Time }.
Record CommentPage := { cp_Comments : list Comment; cp_NextPage : Z }.
Record BranchPage := { bp_Branches : list string; bp_NextPage : Z }.

Record Snapshot := { sn_BaseCommit : string; sn_Commit : string; sn_Tree : string; sn_Bundle : string }.

(** ** JSON *)

Definition json_object (fields : list (string * string)) : string :=
  "{" +:+ GoStrings.Join "," ((λ '(k, v), json_quote k +:+ ":" +:+ v) <$> fields) +:+ "}".
Definition json_array (l : list string) : string := "[" +:+ GoStrings.Join "," l +:+ "]".

(** [t.UTC().Format(time.RFC3339Nano)]: the fraction without trailing zeros. *)
Definition RFC3339Nano (t : Time) : string :=
  let frac := (t mod Second)%Z in
  if decide (frac = 0%Z) then RFC3339 t
  else TrimSuffix (RFC3339 t) "Z" +:+ "." +:+ TrimRightByte "0"%char (pad 9 (FormatInt frac)) +:+ "Z".

Definition check_json (c : CheckRun) : string :=
  json_object [("id", FormatInt (ck_ID c)); ("name", json_quote (ck_Name c));
    ("appID", FormatInt (ck_AppID c)); ("head", json_quote (ck_Head c));
    ("status", json_quote (ck_Status c)); ("conclusion", json_quote (ck_Conclusion c));
    ("detailsURL", json_quote (ck_DetailsURL c)); ("output", json_quote (ck_Output c))].
Definition review_json (r : Review) : string :=
  json_object [("id", FormatInt (rv_ID r)); ("login", json_quote (rv_Login r));
    ("actorType", json_quote (rv_ActorType r)); ("commit", json_quote (rv_Commit r));
    ("state", json_quote (rv_State r)); ("body", json_quote (rv_Body r));
    ("submittedAt", json_quote (RFC3339Nano (rv_SubmittedAt r)))].
Definition feedback_json (f : Feedback) : string :=
  json_object [("checks", json_array (check_json <$> fb_Checks f));
               ("reviews", json_array (review_json <$> fb_Reviews f))].
