(* ===== verification/GitHubPulls.v ===== *)
(** * backend/github/collaboration.go and feedback_diagnostics.go

    Branches, pull requests, their feedback and comments.  Every operation binds
    itself to the recorded repository first ([collaborationClient]); the paged
    readings are bounded by 20 pages and refuse whatever they cannot vouch for. *)

From S2P Require Import Prelude GoStrings Encoding GoTime Errors Api Backend GitHubApi.
From S2P Require Import GitHubRepositories GitHubTree GitHubPackages Collaboration.
From Stdlib Require Import Ascii Lia.

#[local] Open Scope string_scope.
#[local] Open Scope list_scope.

Definition maxPages : nat := 20.
Definition pageSize : nat := 50.
Definition maxDiagnosticBytes : Z := 16384.
Definition maxFeedbackBytes : Z := Z.shiftl 480 10.

(** The services: page [p], of 50 items, of a listing. *)
Class Pulls (W : Type) := {
  pu_branches : Client → string → string → Z → W → Answer (list (option string)) * W;
  pu_list : Client → string → string → string → string → Z → W → Answer (list GPull) * W;
  pu_get : Client → string → string → Z → W → Answer GPull * W;
  pu_create : Client → string → string → string → string → string → string → W → Answer GPull * W;
  pu_edit : Client → string → string → Z → string → string → W → Answer GPull * W;
  pu_checks : Client → string → string → string → Z → W → Answer GChecks * W;
  pu_annotations : Client → string → string → Z → Z → W → Answer (list GAnnotation) * W;
  pu_reviews : Client → string → string → Z → Z → W → Answer (list GReview) * W;
  pu_review_comments : Client → string → string → Z → Z → Z → W → Answer (list GReviewComment) * W;
  pu_comments : Client → string → string → Z → Z → W → Answer (list GComment) * W;
  pu_comment : Client → string → string → Z → string → W → Answer GComment * W;
  pu_reply : Client → string → string → Z → string → Z → W → Answer GComment * W }.

(** ** Validation *)

(** [^[0-9a-f]{40}$] *)
Definition objectID (s : string) : bool :=
  bool_decide (String.length s = 40%nat) && forallb hex_char (bytes_of s).

Definition branch_forbidden : string :=
  " ~^:?*[\" +:+ String "009" (String "013" (String "010" (String "000" ""))).
Definition validBranch (branch : string) : bool :=
  negb (bool_decide (branch = "") || (255 <? slen branch)%Z || HasPrefix branch "-"
        || HasPrefix branch "/" || HasSuffix branch "/" || HasSuffix branch "."
        || ContainsAny branch branch_forbidden || Contains branch ".." || Contains branch "@{"
        || Contains branch "//" || bool_decide (branch = "@"))
  && forallb (λ part, negb (HasPrefix part "." || HasSuffix part ".lock")) (SplitByte slash branch).

Definition validPullInput (i : PullRequestInput) : bool :=
  validBranch (pin_Head i) && validBranch (pin_Base i)
  && negb (bool_decide (pin_Head i = pin_Base i)) && objectID (pin_Commit i).
Definition validPullText (i : PullRequestInput) : bool :=
  negb (bool_decide (TrimSpace (pin_Title i) = "")) && (slen (pin_Title i) <=? 256)%Z
  && (slen (pin_Body i) <=? 32768)%Z.

Definition pullResult (pr : GPull) : PullRequest :=
  {| pr_Number := gq_Number pr; pr_URL := gq_HTMLURL pr; pr_Repository := gq_BaseRepo pr;
     pr_HeadRepository := gq_HeadRepo pr; pr_Head := gq_Head pr; pr_Base := gq_Base pr;
     pr_Commit := gq_SHA pr; pr_State := gq_State pr; pr_Merged := gq_Merged pr;
     pr_MergeCommit := gq_MergeCommit pr;
     pr_MergedAt := if IsZero (gq_MergedAt pr) then None else Some (gq_MergedAt pr);
     pr_Merger := gq_Merger pr; pr_MergerType := gq_MergerType pr |}.

Definition canonical (conn : Connection) (repo : Repository) : string :=
  owner conn repo +:+ "/" +:+ rs_Name (rp_Spec repo).

Definition pullMatches (pr : PullRequest) (conn : Connection) (repo : Repository)
    (i : PullRequestInput) : bool :=
  (0 <? pr_Number pr)%Z && EqualFold (pr_Repository pr) (canonical conn repo)
  && EqualFold (pr_HeadRepository pr) (canonical conn repo)
  && bool_decide (pr_Head pr = pin_Head i) && bool_decide (pr_Base pr = pin_Base i)
  && bool_decide (pr_Commit pr = pin_Commit i).

(** Untrusted text: refused rather than truncated. *)
Definition diagnosticText (text : string) : option error :=
  if (maxDiagnosticBytes <? slen text)%Z || negb (ValidString text)
     || ContainsAny text (String "000" (String "027" ""))
  then Some (ENew "invalid or oversized diagnostic text") else None.

Definition issueComment (raw : GComment) : Comment :=
  {| cm_ID := gc_ID raw; cm_URL := gc_HTMLURL raw; cm_Body := gc_Body raw;
     cm_Author := gc_Login raw; cm_AuthorType := gc_UserType raw; cm_UpdatedAt := gc_UpdatedAt raw |}.

Section GitHub.
Context {W : Type} `{GitHub W} `{Pulls W}.

Definition g_list_branches c o n p := call (pu_branches c o n p) (λ r, GCall c (GListBranches o n p r)).
Definition g_list_pulls c o n h b p := call (pu_list c o n h b p) (λ r, GCall c (GListPulls o n h b p r)).
Definition g_get_pull c o n num := call (pu_get c o n num) (λ r, GCall c (GGetPull o n num r)).
Definition g_create_pull c o n t b h ba :=
  call (pu_create c o n t b h ba) (λ r, GCall c (GCreatePull o n t b h ba r)).
Definition g_edit_pull c o n num t b :=
  call (pu_edit c o n num t b) (λ r, GCall c (GEditPull o n num t b r)).
Definition g_list_checks c o n sha p := call (pu_checks c o n sha p) (λ r, GCall c (GListChecks o n sha p r)).
Definition g_list_annotations c o n k p :=
  call (pu_annotations c o n k p) (λ r, GCall c (GListAnnotations o n k p r)).
Definition g_list_reviews c o n num p :=
  call (pu_reviews c o n num p) (λ r, GCall c (GListReviews o n num p r)).
Definition g_list_review_comments c o n num rv p :=
  call (pu_review_comments c o n num rv p) (λ r, GCall c (GListReviewComments o n num rv p r)).
Definition g_list_comments c o n num p :=
  call (pu_comments c o n num p) (λ r, GCall c (GListIssueComments o n num p r)).
Definition g_create_comment c o n num body :=
  call (pu_comment c o n num body) (λ r, GCall c (GCreateComment o n num body r)).
Definition g_reply c o n num body parent :=
  call (pu_reply c o n num body parent) (λ r, GCall c (GReply o n num body parent r)).

(** ** Binding *)

Definition collaborationClient (conn : Connection) (cred : Credential) (repo : Repository)
    : GEff W (error + Client) :=
  if bool_decide (rt_RepoID (rp_Status repo) = "")
     || bool_decide (om_DeletionTimestamp (rp_Meta repo) ≠ None)
     || bool_decide (om_DeletionTimestamp (cn_Meta conn) ≠ None)
  then mret (inl EIdentityConflict)
  else match client cred (cs_BaseURL (cn_Spec conn)) with
       | inl err => mret (inl err)
       | inr c =>
           r ← g_get_repo c (owner conn repo) (rs_Name (rp_Spec repo));
           match r with
           | GErr resp err => refuse resp err
           | GOk remote _ =>
               if (gr_ID remote <=? 0)%Z
                  || negb (bool_decide (FormatInt (gr_ID remote) = rt_RepoID (rp_Status repo)))
                  || negb (EqualFold (gr_FullName remote) (canonical conn repo))
               then mret (inl EIdentityConflict) else mret (inr c)
           end
       end.

Definition BranchHead (conn : Connection) (cred : Credential) (repo : Repository) (branch : string)
    : GEff W (error + string) :=
  if negb (validBranch branch) then mret (inl (ENew "invalid branch"))
  else
    c ←? collaborationClient conn cred repo;
    r ← g_get_ref c (owner conn repo) (rs_Name (rp_Spec repo)) ("heads/" +:+ branch);
    match r with
    | GErr resp err => if has_status StatusNotFound resp then mret (inr "") else refuse resp err
    | GOk ref resp =>
        if has_status StatusNotFound resp then mret (inr "")
        else
          let sha := default "" (rf_Object ref) in
          if negb (bool_decide (rf_Ref ref = "refs/heads/" +:+ branch)) || negb (objectID sha)
          then mret (inl EIdentityConflict) else mret (inr sha)
    end.

(** ** Pull requests *)

(** The matches of one page; a second one is an error. *)
Fixpoint matchPage (conn : Connection) (repo : Repository) (i : PullRequestInput)
    (found : option PullRequest) (pulls : list GPull) : error + option PullRequest :=
  match pulls with
  | [] => inr found
  | raw :: pulls =>
      if negb (pullMatches (pullResult raw) conn repo i) then matchPage conn repo i found pulls
      else match found with
           | Some _ => inl (ENew "ambiguous pull request identity")
           | None => matchPage conn repo i (Some (pullResult raw)) pulls
           end
  end.

(** [for page := 1; page <= 20; page++]: [budget] pages may still be read. *)
Fixpoint findPages (budget : nat) (c : Client) (conn : Connection) (repo : Repository)
    (i : PullRequestInput) (page : Z) (found : option PullRequest)
    : GEff W (error + option PullRequest) :=
  match budget with
  | O => mret (inl (ENew "pull request search exceeds limit"))
  | S budget =>
      r ← g_list_pulls c (owner conn repo) (rs_Name (rp_Spec repo))
            (owner conn repo +:+ ":" +:+ pin_Head i) (pin_Base i) page;
      match r with
      | GErr resp err => refuse resp err
      | GOk pulls resp =>
          match matchPage conn repo i found pulls with
          | inl err => mret (inl err)
          | inr found =>
              if decide (nextPage resp = 0%Z) then mret (inr found)
              else findPages budget c conn repo i (page + 1) found
          end
      end
  end.

Definition FindPullRequest (conn : Connection) (cred : Credential) (repo : Repository)
    (i : PullRequestInput) : GEff W (error + option PullRequest) :=
  if negb (validPullInput i) then mret (inl (ENew "invalid pull request binding"))
  else
    c ←? collaborationClient conn cred repo;
    findPages maxPages c conn repo i 1 None.

Definition ReadPullRequest (conn : Connection) (cred : Credential) (repo : Repository) (number : Z)
    : GEff W (error + PullRequest) :=
  if (number <=? 0)%Z then mret (inl (ENew "pull request number required"))
  else
    c ←? collaborationClient conn cred repo;
    r ← g_get_pull c (owner conn repo) (rs_Name (rp_Spec repo)) number;
    match r with
    | GErr resp err => refuse resp err
    | GOk raw _ =>
        let result := pullResult raw in
        if negb (bool_decide (pr_Number result = number))
           || negb (EqualFold (pr_Repository result) (canonical conn repo))
        then mret (inl EIdentityConflict) else mret (inr result)
    end.

Definition CreatePullRequest (conn : Connection) (cred : Credential) (repo : Repository)
    (i : PullRequestInput) : GEff W (error + PullRequest) :=
  if negb (validPullInput i) || negb (validPullText i)
  then mret (inl (ENew "invalid pull request input"))
  else
    head ←? BranchHead conn cred repo (pin_Head i);
    if negb (bool_decide (head = pin_Commit i)) then mret (inl EIdentityConflict)
    else
      c ←? collaborationClient conn cred repo;
      r ← g_create_pull c (owner conn repo) (rs_Name (rp_Spec repo)) (pin_Title i) (pin_Body i)
            (pin_Head i) (pin_Base i);
      match r with
      | GErr resp err => refuse resp err
      | GOk raw _ =>
          if negb (pullMatches (pullResult raw) conn repo i) then mret (inl EIdentityConflict)
          else mret (inr (pullResult raw))
      end.

Definition UpdatePullRequest (conn : Connection) (cred : Credential) (repo : Repository)
    (number : Z) (i : PullRequestInput) : GEff W (error + PullRequest) :=
  if negb (validPullInput i) || negb (validPullText i)
  then mret (inl (ENew "invalid pull request input"))
  else
    current ←? ReadPullRequest conn cred repo number;
    if negb (pullMatches current conn repo i) then mret (inl EIdentityConflict)
    else
      c ←? collaborationClient conn cred repo;
      r ← g_edit_pull c (owner conn repo) (rs_Name (rp_Spec repo)) number (pin_Title i) (pin_Body i);
      match r with
      | GErr resp err => refuse resp err
      | GOk raw _ =>
          if negb (pullMatches (pullResult raw) conn repo i) then mret (inl EIdentityConflict)
          else mret (inr (pullResult raw))
      end.

(** ** Feedback *)

Definition annotationText (a : GAnnotation) : string :=
  newline +:+ newline +:+ ga_Path a +:+ ":" +:+ FormatInt (ga_StartLine a) +:+ "-"
  +:+ FormatInt (ga_EndLine a) +:+ " [" +:+ ga_Level a +:+ "] " +:+ ga_Title a +:+ newline
  +:+ ga_Message a +:+ newline +:+ ga_RawDetails a.

Fixpoint appendAnnotations (text : string) (annotations : list GAnnotation) : error + string :=
  match annotations with
  | [] => inr text
  | a :: annotations =>
      if bool_decide (ga_Path a = "") || (ga_StartLine a <? 1)%Z
         || (ga_EndLine a <? ga_StartLine a)%Z
      then inl (ENew "invalid annotation location")
      else
        let text := text +:+ annotationText a in
        match diagnosticText text with
        | Some err => inl err
        | None => appendAnnotations text annotations
        end
  end.

Fixpoint annotationPages (budget : nat) (c : Client) (org name : string) (check : Z) (expected : Z)
    (page : Z) (count : Z) (text : string) : GEff W (error + string) :=
  match budget with
  | O => mret (inl (ENew "annotation pagination exceeds limit"))
  | S budget =>
      r ← g_list_annotations c org name check page;
      match r with
      | GErr resp err => refuse resp err
      | GOk annotations resp =>
          if decide (pageSize < length annotations)%nat
          then mret (inl (ENew "annotation page exceeds limit"))
          else match appendAnnotations text annotations with
               | inl err => mret (inl err)
               | inr text =>
                   let count := (count + Z.of_nat (length annotations))%Z in
                   if decide (nextPage resp = 0%Z) then
                     if decide (count = expected) then mret (inr text)
                     else mret (inl (ENew "incomplete annotation listing"))
                   else annotationPages budget c org name check expected (page + 1) count text
               end
      end
  end.

Definition checkDiagnostic (c : Client) (org name : string) (check : GCheck) (text : string)
    : GEff W (error + string) :=
  match diagnosticText text with
  | Some err => mret (inl err)
  | None =>
      let expected := gk_Annotations check in
      if (expected <? 0)%Z || (1000 <? expected)%Z
      then mret (inl (ENew "annotation count exceeds limit"))
      else if decide (expected = 0%Z) then mret (inr text)
      else annotationPages maxPages c org name (gk_CheckID check) expected 1 0 text
  end.

Definition checkText (check : GCheck) : string :=
  gk_OutTitle check +:+ newline +:+ gk_OutSummary check +:+ newline +:+ gk_OutText check.
Definition checkRun (commit output : string) (check : GCheck) : CheckRun :=
  {| ck_ID := gk_CheckID check; ck_Name := gk_Name check; ck_AppID := gk_App check;
     ck_Head := commit; ck_Status := gk_Status check; ck_Conclusion := gk_Conclusion check;
     ck_DetailsURL := gk_DetailsURL check; ck_Output := output |}.

(** The checks of one page; [done] are those before, whose IDs are seen. *)
Fixpoint readChecks (c : Client) (org name commit : string) (before : list CheckRun)
    (checks : list GCheck) : GEff W (error + list CheckRun) :=
  match checks with
  | [] => mret (inr before)
  | check :: checks =>
      if (gk_CheckID check <=? 0)%Z || (gk_App check <=? 0)%Z || bool_decide (gk_Name check = "")
         || bool_decide (gk_CheckID check ∈ ck_ID <$> before)
      then mret (inl (ENew "invalid or duplicate check identity"))
      else if negb (bool_decide (gk_Head check = commit)) then mret (inl EIdentityConflict)
      else
        output ←? checkDiagnostic c org name check (checkText check);
        readChecks c org name commit (before ++ [checkRun commit output check]) checks
  end.

(** [expected] is the total of the first page, [None] before it. *)
Fixpoint checkPages (budget : nat) (c : Client) (org name commit : string) (page : Z)
    (expected : option Z) (before : list CheckRun) : GEff W (error + (option Z * list CheckRun)) :=
  match budget with
  | O => mret (inl (ENew "check pagination exceeds limit"))
  | S budget =>
      r ← g_list_checks c org name commit page;
      match r with
      | GErr resp err => refuse resp err
      | GOk checks resp =>
          if bool_decide (pageSize < length (gk_Runs checks))%nat || (gk_Total checks <? 0)%Z
          then mret (inl (ENew "invalid check page"))
          else if match expected with
                  | Some n => negb (bool_decide (n = gk_Total checks))
                  | None => false
                  end
          then mret (inl (ENew "check count changed"))
          else
            runs ←? readChecks c org name commit before (gk_Runs checks);
            if decide (nextPage resp = 0%Z) then mret (inr (Some (gk_Total checks), runs))
            else checkPages budget c org name commit (page + 1) (Some (gk_Total checks)) runs
      end
  end.

Definition reviewCommentText (x : GReviewComment) : string :=
  newline +:+ newline +:+ gx_Path x +:+ ":" +:+ FormatInt (gx_Line x) +:+ newline +:+ gx_Body x.

(** The comments of one page on [commit]; [seen] are the IDs before. *)
Fixpoint appendComments (reviewID : Z) (commit text : string) (seen : list Z)
    (comments : list GReviewComment) : error + (string * list Z) :=
  match comments with
  | [] => inr (text, seen)
  | x :: comments =>
      if (gx_ID x <=? 0)%Z || bool_decide (gx_ID x ∈ seen)
         || negb (bool_decide (gx_ReviewID x = reviewID)) || negb (objectID (gx_Commit x))
      then inl (ENew "invalid review comment identity")
      else if negb (bool_decide (gx_Commit x = commit))
      then appendComments reviewID commit text (seen ++ [gx_ID x]) comments
      else if bool_decide (gx_Path x = "") || (gx_Line x <? 0)%Z
      then inl (ENew "invalid review comment location")
      else
        let text := text +:+ reviewCommentText x in
        match diagnosticText text with
        | Some err => inl err
        | None => appendComments reviewID commit text (seen ++ [gx_ID x]) comments
        end
  end.

Fixpoint commentPages (budget : nat) (c : Client) (org name : string) (number reviewID : Z)
    (commit : string) (page : Z) (text : string) (seen : list Z) : GEff W (error + string) :=
  match budget with
  | O => mret (inl (ENew "review comment pagination exceeds limit"))
  | S budget =>
      r ← g_list_review_comments c org name number reviewID page;
      match r with
      | GErr resp err => refuse resp err
      | GOk comments resp =>
          if decide (pageSize < length comments)%nat
          then mret (inl (ENew "review comment page exceeds limit"))
          else match appendComments reviewID commit text seen comments with
               | inl err => mret (inl err)
               | inr (text, seen) =>
                   if decide (nextPage resp = 0%Z) then mret (inr text)
                   else commentPages budget c org name number reviewID commit (page + 1) text seen
               end
      end
  end.

Definition reviewDiagnostic (c : Client) (org name : string) (number : Z) (review : GReview)
    (commit : string) : GEff W (error + string) :=
  match diagnosticText (gw_Body review) with
  | Some err => mret (inl err)
  | None => commentPages maxPages c org name number (gw_ID review) commit 1 (gw_Body review) []
  end.

Definition reviewOf (body : string) (review : GReview) : Review :=
  {| rv_ID := gw_ID review; rv_Login := gw_Login review; rv_ActorType := gw_UserType review;
     rv_Commit := gw_Commit review; rv_State := gw_State review; rv_Body := body;
     rv_SubmittedAt := gw_SubmittedAt review |}.

(** Reviews of other commits and pending ones are passed over, but counted. *)
Definition relevant (commit : string) (review : GReview) : bool :=
  bool_decide (gw_Commit review = commit) && negb (bool_decide (gw_State review = "PENDING")).

Fixpoint readReviews (c : Client) (org name : string) (number : Z) (commit : string)
    (seen : list Z) (before : list Review) (reviews : list GReview)
    : GEff W (error + (list Z * list Review)) :=
  match reviews with
  | [] => mret (inr (seen, before))
  | review :: reviews =>
      if (gw_ID review <=? 0)%Z || bool_decide (gw_ID review ∈ seen)
         || bool_decide (gw_Login review = "") || bool_decide (gw_UserType review = "")
         || negb (objectID (gw_Commit review))
      then mret (inl (ENew "invalid or duplicate review identity"))
      else if negb (relevant commit review)
      then readReviews c org name number commit (seen ++ [gw_ID review]) before reviews
      else if IsZero (gw_SubmittedAt review) then mret (inl (ENew "review timestamp missing"))
      else
        body ←? reviewDiagnostic c org name number review commit;
        readReviews c org name number commit (seen ++ [gw_ID review])
          (before ++ [reviewOf body review]) reviews
  end.

Fixpoint reviewPages (budget : nat) (c : Client) (org name : string) (number : Z)
    (commit : string) (page : Z) (seen : list Z) (before : list Review)
    : GEff W (error + list Review) :=
  match budget with
  | O => mret (inl (ENew "review pagination exceeds limit"))
  | S budget =>
      r ← g_list_reviews c org name number page;
      match r with
      | GErr resp err => refuse resp err
      | GOk reviews resp =>
          if decide (pageSize < length reviews)%nat then mret (inl (ENew "invalid review page"))
          else
            res ←? readReviews c org name number commit seen before reviews;
            if decide (nextPage resp = 0%Z) then mret (inr res.2)
            else reviewPages budget c org name number commit (page + 1) res.1 res.2
      end
  end.

(** The same pull request, at the same place. *)
Definition samePull (a b : PullRequest) : bool :=
  bool_decide (pr_Commit a = pr_Commit b) && bool_decide (pr_Head a = pr_Head b)
  && bool_decide (pr_HeadRepository a = pr_HeadRepository b)
  && bool_decide (pr_Base a = pr_Base b) && bool_decide (pr_State a = pr_State b)
  && bool_decide (pr_Merged a = pr_Merged b).

Definition PullRequestFeedback (conn : Connection) (cred : Credential) (repo : Repository)
    (number : Z) (commit : string) : GEff W (error + Feedback) :=
  if negb (objectID commit) then mret (inl (ENew "feedback commit required"))
  else
    before ←? ReadPullRequest conn cred repo number;
    if negb (bool_decide (pr_Commit before = commit))
       || negb (EqualFold (pr_HeadRepository before) (pr_Repository before))
    then mret (inl EIdentityConflict)
    else
      c ←? collaborationClient conn cred repo;
      let org := owner conn repo in
      let name := rs_Name (rp_Spec repo) in
      checks ←? checkPages maxPages c org name commit 1 None [];
      if negb (bool_decide (Some (Z.of_nat (length checks.2)) = checks.1))
      then mret (inl (ENew "incomplete check listing"))
      else
        reviews ←? reviewPages maxPages c org name number commit 1 [] [];
        after ←? ReadPullRequest conn cred repo number;
        let result := {| fb_Checks := checks.2; fb_Reviews := reviews |} in
        if negb (samePull after before) then mret (inl EIdentityConflict)
        else if (maxFeedbackBytes <? slen (feedback_json result))%Z
        then mret (inl (ENew "feedback exceeds bounded response"))
        else mret (inr result).

(** ** Comments and branches *)

Definition ListComments (conn : Connection) (cred : Credential) (repo : Repository)
    (number page : Z) : GEff W (error + CommentPage) :=
  if (number <=? 0)%Z || (page <? 1)%Z || (20 <? page)%Z
  then mret (inl (ENew "invalid comment page"))
  else
    c ←? collaborationClient conn cred repo;
    r ← g_list_comments c (owner conn repo) (rs_Name (rp_Spec repo)) number page;
    match r with
    | GErr resp err => refuse resp err
    | GOk comments resp =>
        mret (inr {| cp_Comments := issueComment <$> comments; cp_NextPage := nextPage resp |})
    end.

Definition AddComment (conn : Connection) (cred : Credential) (repo : Repository)
    (number : Z) (body : string) : GEff W (error + Comment) :=
  if (number <=? 0)%Z || bool_decide (TrimSpace body = "") || (32768 <? slen body)%Z
  then mret (inl (ENew "invalid comment input"))
  else
    c ←? collaborationClient conn cred repo;
    r ← g_create_comment c (owner conn repo) (rs_Name (rp_Spec repo)) number body;
    match r with
    | GErr resp err => refuse resp err
    | GOk raw _ => mret (inr (issueComment raw))
    end.

Definition ReplyToReview (conn : Connection) (cred : Credential) (repo : Repository)
    (number parent : Z) (body : string) : GEff W (error + Comment) :=
  if (number <=? 0)%Z || (parent <=? 0)%Z || bool_decide (TrimSpace body = "")
     || (32768 <? slen body)%Z
  then mret (inl (ENew "invalid review reply input"))
  else
    c ←? collaborationClient conn cred repo;
    r ← g_reply c (owner conn repo) (rs_Name (rp_Spec repo)) number body parent;
    match r with
    | GErr resp err => refuse resp err
    | GOk raw _ => mret (inr (issueComment raw))
    end.

Fixpoint branchNames (branches : list (option string)) : error + list string :=
  match branches with
  | [] => inr []
  | Some name :: branches =>
      if validBranch name then
        match branchNames branches with
        | inl err => inl err
        | inr names => inr (name :: names)
        end
      else inl (ENew "invalid branch observation")
  | None :: _ => inl (ENew "invalid branch observation")
  end.

Definition ListBranches (conn : Connection) (cred : Credential) (repo : Repository) (page : Z)
    : GEff W (error + BranchPage) :=
  let page := if decide (page = 0%Z) then 1%Z else page in
  if (page <? 1)%Z || (10000 <? page)%Z then mret (inl (ENew "invalid branch page"))
  else
    c ←? collaborationClient conn cred repo;
    r ← g_list_branches c (owner conn repo) (rs_Name (rp_Spec repo)) page;
    match r with
    | GErr resp err => refuse resp err
    | GOk branches resp =>
        if decide (pageSize < length branches)%nat
        then mret (inl (ENew "branch page exceeds limit"))
        else match branchNames branches with
             | inl err => mret (inl err)
             | inr names =>
                 let next := nextPage resp in
                 if negb (bool_decide (next = 0%Z)) && ((next <=? page)%Z || (10000 <? next)%Z)
                 then mret (inl (ENew "invalid next branch page"))
                 else mret (inr {| bp_Branches := names; bp_NextPage := next |})
             end
    end.
End GitHub.
