(* ===== verification/GitHubCollaboration.v ===== *)
(** * Collaboration: what the pull request operations promise

    The operations of [GitHubPulls] under one dispatch ([perform]), the binding
    every call is made under, and the completeness of the paged readings. *)

From S2P Require Import Prelude GoStrings Encoding GoTime Errors Api Backend GitHubApi.
From S2P Require Import GitHubRepositories GitHubTree GitHubPackages Collaboration GitHubPulls.
From Stdlib Require Import Ascii Lia.

#[local] Open Scope string_scope.
#[local] Open Scope list_scope.

(** ** The operations, and what each may do on the host *)

Inductive Operation :=
  | OpBranches (page : Z)
  | OpBranchHead (branch : string)
  | OpFind (i : PullRequestInput)
  | OpRead (number : Z)
  | OpCreate (i : PullRequestInput)
  | OpUpdate (number : Z) (i : PullRequestInput)
  | OpFeedback (number : Z) (commit : string)
  | OpComments (number page : Z)
  | OpAddComment (number : Z) (body : string)
  | OpReply (number parent : Z) (body : string).

Inductive Output :=
  | OBranches (p : BranchPage)
  | OHead (head : string)
  | OFound (pr : option PullRequest)
  | OPull (pr : PullRequest)
  | OFeedback (f : Feedback)
  | OComments (p : CommentPage)
  | OComment (c : Comment).

(** Running an operation and wrapping its result. *)
Definition wrapped {W A} (f : A → Output) (m : GEff W (error + A)) : GEff W (error + Output) :=
  r ←? m; mret (inr (f r)).
Definition perform {W} `{GitHub W} `{Pulls W} (conn : Connection) (cred : Credential)
    (repo : Repository) (op : Operation) : GEff W (error + Output) :=
  match op with
  | OpBranches page => wrapped OBranches (ListBranches conn cred repo page)
  | OpBranchHead branch => wrapped OHead (BranchHead conn cred repo branch)
  | OpFind i => wrapped OFound (FindPullRequest conn cred repo i)
  | OpRead number => wrapped OPull (ReadPullRequest conn cred repo number)
  | OpCreate i => wrapped OPull (CreatePullRequest conn cred repo i)
  | OpUpdate number i => wrapped OPull (UpdatePullRequest conn cred repo number i)
  | OpFeedback number commit => wrapped OFeedback (PullRequestFeedback conn cred repo number commit)
  | OpComments number page => wrapped OComments (ListComments conn cred repo number page)
  | OpAddComment number body => wrapped OComment (AddComment conn cred repo number body)
  | OpReply number parent body => wrapped OComment (ReplyToReview conn cred repo number parent body)
  end.

Section Contract.
Context (conn : Connection) (repo : Repository).
#[local] Abbreviation org := (owner conn repo).
#[local] Abbreviation name := (rs_Name (rp_Spec repo)).

(** The repository a call is about. *)
Definition about (call : Call) : option (string * string) :=
  match call with
  | GGetRef o n _ _ | GListBranches o n _ _ | GListPulls o n _ _ _ _ | GGetPull o n _ _
  | GCreatePull o n _ _ _ _ _ | GEditPull o n _ _ _ _ | GListChecks o n _ _ _
  | GListAnnotations o n _ _ _ | GListReviews o n _ _ _ | GListReviewComments o n _ _ _ _
  | GListIssueComments o n _ _ _ | GCreateComment o n _ _ _ | GReply o n _ _ _ _ => Some (o, n)
  | _ => None
  end.

(** The host confirmed that the repository is the recorded one. *)
Definition bound (h : list GEvent) : Prop :=
  om_DeletionTimestamp (rp_Meta repo) = None ∧ om_DeletionTimestamp (cn_Meta conn) = None ∧
  ∃ c remote resp, GCall c (GGetRepo org name (GOk remote resp)) ∈ h ∧
    (0 < gr_ID remote)%Z ∧ FormatInt (gr_ID remote) = rt_RepoID (rp_Status repo) ∧
    EqualFold (gr_FullName remote) (canonical conn repo) = true.

Definition valid_body (body : string) : Prop := TrimSpace body ≠ "" ∧ (slen body ≤ 32768)%Z.

(** The one write an operation asks for, and what was established before it. *)
Definition requested (op : Operation) (h : list GEvent) (call : Call) : Prop :=
  match op, call with
  | OpCreate i, GCreatePull _ _ title body head base _ =>
      validPullInput i = true ∧ validPullText i = true ∧
      title = pin_Title i ∧ body = pin_Body i ∧ head = pin_Head i ∧ base = pin_Base i ∧
      ∃ c ref resp, GCall c (GGetRef org name ("heads/" +:+ pin_Head i) (GOk ref resp)) ∈ h ∧
        rf_Object ref = Some (pin_Commit i)
  | OpUpdate number i, GEditPull _ _ num title body _ =>
      validPullInput i = true ∧ validPullText i = true ∧
      num = number ∧ title = pin_Title i ∧ body = pin_Body i ∧
      ∃ c raw resp, GCall c (GGetPull org name number (GOk raw resp)) ∈ h ∧
        pullMatches (pullResult raw) conn repo i = true
  | OpAddComment number body, GCreateComment _ _ num b _ =>
      num = number ∧ b = body ∧ (0 < number)%Z ∧ valid_body body
  | OpReply number parent body, GReply _ _ num b p _ =>
      num = number ∧ b = body ∧ p = parent ∧ (0 < number)%Z ∧ (0 < parent)%Z ∧ valid_body body
  | _, _ => False
  end.

Definition calm (h : list GEvent) : Prop := Forall (λ e, mutates e = false) h.

Definition op_guard (op : Operation) (h : list GEvent) (e : GEvent) : Prop :=
  match e with
  | GNow _ => True
  | GCall _ (GGetRepo o n _) => o = org ∧ n = name
  | GCall _ call => bound h ∧ about call = Some (org, name) ∧
      (mutates e = true → calm h ∧ requested op h call)
  | _ => False
  end.

(** What a success vouches for. *)
Definition op_result (op : Operation) (r : error + Output) : Prop :=
  match op, r with
  | OpCreate i, inr (OPull pr) | OpUpdate _ i, inr (OPull pr) => pullMatches pr conn repo i = true
  | OpFind i, inr (OFound (Some pr)) => pullMatches pr conn repo i = true
  | OpRead number, inr (OPull pr) =>
      pr_Number pr = number ∧ EqualFold (pr_Repository pr) (canonical conn repo) = true
  | OpBranchHead branch, inr (OHead head) =>
      validBranch branch = true ∧ (head = "" ∨ objectID head = true)
  | OpBranches _, inr (OBranches p) =>
      Forall (λ b, validBranch b = true) (bp_Branches p) ∧ (length (bp_Branches p) ≤ pageSize)%nat
  | _, _ => True
  end.
End Contract.

(** ** Lemmas: binding *)

Section Binding.
Context {W : Type} `{GitHub W} `{Pulls W}.
Context (conn : Connection) (repo : Repository) (op : Operation) (cred : Credential).
#[local] Abbreviation org := (owner conn repo).
#[local] Abbreviation name := (rs_Name (rp_Spec repo)).
#[local] Abbreviation G := (op_guard conn repo op).

Lemma bound_mono h t : bound conn repo h → bound conn repo (h ++ t).
Proof. intros (? & ? & c & remote & resp & ? & ?). split_and!; try done. exists c, remote, resp. eauto with history. Qed.

(** A reading part: nothing is written, the history grows. *)
Definition reading {A} (h : list GEvent) (m : GEff W A) (Q : A → list GEvent → Prop) : Prop :=
  hoare G h m (λ a h', (∃ t, h' = h ++ t ∧ calm t) ∧ Q a h').

Lemma reading_mono {A} h (m : GEff W A) (Q Q' : A → list GEvent → Prop) :
  reading h m Q → (∀ a t, calm t → Q a (h ++ t) → Q' a (h ++ t)) → reading h m Q'.
Proof.
  intros Hm HQ. eapply hoare_mono; [exact Hm|]. intros a h' [(t & -> & Ht) Ha].
  split; [by exists t|by apply HQ].
Qed.

Lemma reading_ret {A} h (a : A) (Q : A → list GEvent → Prop) : Q a h → reading h (mret a) Q.
Proof. intros HQ. apply hoare_ret. split; [|done]. exists []. split; [by rewrite app_nil_r|constructor]. Qed.

Lemma reading_bind {A B} h (m : GEff W A) (f : A → GEff W B) (Q : B → list GEvent → Prop) :
  reading h m (λ a h', reading h' (f a) Q) → reading h (m ≫= f) Q.
Proof.
  intros Hm. apply hoare_bind. eapply hoare_mono; [exact Hm|]. intros a h' [(t & -> & Ht) Ha].
  eapply hoare_mono; [exact Ha|]. intros b h'' [(t' & -> & Ht') Hb]. split; [|done].
  exists (t ++ t'). rewrite app_assoc. split; [done|]. by apply Forall_app.
Qed.

Lemma reading_bind_res {A B} h (m : GEff W (error + A)) (f : A → GEff W (error + B))
    (Q : error + B → list GEvent → Prop) :
  reading h m (λ r h', match r with inl e => Q (inl e) h' | inr a => reading h' (f a) Q end) →
  reading h (bind_res m f) Q.
Proof.
  intros Hm. apply reading_bind. eapply reading_mono; [exact Hm|]. intros [e|a] t Ht; [|done].
  intros HQ. by apply reading_ret.
Qed.

Lemma reading_call {A} h c (o : W → A * W) (f : A → Call) (Q : A → list GEvent → Prop) :
  bound conn repo h →
  (∀ a, mutates (GCall c (f a)) = false ∧ about (f a) = Some (org, name)) →
  (∀ a, Q a (h ++ [GCall c (f a)])) → reading h (call o (λ a, GCall c (f a))) Q.
Proof.
  intros Hb Hf HQ. apply hoare_call.
  - intros a. destruct (Hf a) as [Hm Ha]. unfold G, op_guard. destruct (f a); try discriminate Ha;
      (split; [done|]; split; [done|]; intros Hw; congruence).
  - intros a. split; [|apply HQ]. eexists. split; [done|]. constructor; [apply Hf|done].
Qed.

Lemma reading_classify h resp err (Q : error → list GEvent → Prop) :
  (∀ e t, Q e (h ++ t)) → reading h (classify resp err) Q.
Proof.
  intros HQ. eapply (hoare_all G (λ e, ∃ now, e = GNow now) _ _ (λ _ _, True)).
  - eapply emits_mono; [apply classify_now|]. done.
  - by intros h' e [now ->].
  - intros e t Ht _. split; [|apply HQ]. exists t. split; [done|].
    eapply Forall_impl; [exact Ht|]. by intros ? [? ->].
Qed.

Lemma reading_refuse {A} h resp err (Q : error + A → list GEvent → Prop) :
  (∀ e t, Q (inl e) (h ++ t)) → reading h (refuse resp err) Q.
Proof. intros HQ. apply reading_bind, reading_classify. intros e t. by apply reading_ret. Qed.

Lemma collaborationClient_reading h (Q : error + Client → list GEvent → Prop) :
  (∀ e t, Q (inl e) (h ++ t)) → (∀ c t, bound conn repo (h ++ t) → Q (inr c) (h ++ t)) →
  reading h (collaborationClient (W := W) conn cred repo) Q.
Proof.
  intros He Hc. unfold collaborationClient. destruct (_ || _ || _) eqn:Hd.
  { apply reading_ret. rewrite <- (app_nil_r h). apply He. }
  apply orb_false_iff in Hd as [[Hid Hr]%orb_false_iff Hn].
  apply bool_decide_eq_false in Hr, Hn. apply dec_stable in Hr, Hn.
  destruct (client cred _) as [err|c].
  { apply reading_ret. rewrite <- (app_nil_r h). apply He. }
  apply hoare_bind, hoare_call; [by split|]. intros [resp err|remote resp].
  - eapply hoare_mono; [apply (reading_refuse _ _ _ (λ r h', ∃ e t, r = inl e ∧ h' = h ++ t))|].
    + intros e t. exists e, ([GCall c (GGetRepo org name (GErr resp err))] ++ t).
      split; [done|]. by rewrite app_assoc.
    + intros r h' [(t & -> & Ht) (e & t' & -> & Heq)]. split.
      * eexists. rewrite <- app_assoc. split; [done|]. by constructor.
      * rewrite Heq. apply He.
  - destruct (_ || _ || _) eqn:Hi; apply hoare_ret.
    + split; [|apply He]. eexists. split; [done|]. by repeat constructor.
    + split; [eexists; split; [done|by repeat constructor]|]. apply Hc.
      apply orb_false_iff in Hi as [[Hp Hf]%orb_false_iff He'].
      apply negb_false_iff in Hf, He'. apply bool_decide_eq_true in Hf. apply Z.leb_gt in Hp.
      split_and!; [done..|]. exists c, remote, resp. split_and!; [apply elem_snoc|lia|done|done].
Qed.
End Binding.

(** ** What a complete reading is

    [numbered ev p l]: [l] is the items of the pages [p], [p + 1], ... up to the
    one the host calls the last; [ev p items next] says that page [p] was read. *)
Inductive numbered {A} (ev : Z → list A → Z → Prop) : Z → list A → Prop :=
  | numbered_last p items : ev p items 0%Z → numbered ev p items
  | numbered_more p items next rest :
      ev p items next → next ≠ 0%Z → numbered ev (p + 1) rest → numbered ev p (items ++ rest).

Lemma numbered_mono {A} (ev ev' : Z → list A → Z → Prop) p l :
  (∀ q items n, ev q items n → ev' q items n) → numbered ev p l → numbered ev' p l.
Proof. intros He Hn. induction Hn; [eapply numbered_last|eapply numbered_more]; eauto. Qed.

Definition listing_page {A} (call : Z → Answer (list A) → Call) (h : list GEvent)
    (p : Z) (items : list A) (next : Z) : Prop :=
  ∃ c resp, GCall c (call p (GOk items resp)) ∈ h ∧ next = nextPage resp.

Lemma listing_page_mono {A} (call : Z → Answer (list A) → Call) h h' p items n :
  h ⊆ h' → listing_page call h p items n → listing_page call h' p items n.
Proof. intros Hh (c & resp & ? & ?). exists c, resp. auto. Qed.

Definition texts {A} (f : A → string) (l : list A) : string := foldr (λ x s, f x +:+ s) "" l.

Section Readings.
Context (conn : Connection) (repo : Repository).
#[local] Abbreviation org := (owner conn repo).
#[local] Abbreviation name := (rs_Name (rp_Spec repo)).

Definition pull_pages (i : PullRequestInput) (h : list GEvent) :=
  listing_page (GListPulls org name (org +:+ ":" +:+ pin_Head i) (pin_Base i)) h.

(** The one pull request among [l] that matches, if there is one. *)
Definition unique_match (i : PullRequestInput) (l : list GPull) (found : option PullRequest) : Prop :=
  match filter (λ raw, pullMatches (pullResult raw) conn repo i = true) l with
  | [] => found = None
  | [raw] => found = Some (pullResult raw)
  | _ => False
  end.

(** The text of a check: its output, followed by all of its annotations. *)
Definition diagnosed (h : list GEvent) (g : GCheck) (output : string) : Prop :=
  diagnosticText output = None ∧
  if decide (gk_Annotations g = 0%Z) then output = checkText g
  else ∃ l, numbered (listing_page (GListAnnotations org name (gk_CheckID g)) h) 1 l ∧
    Z.of_nat (length l) = gk_Annotations g ∧ output = checkText g +:+ texts annotationText l.

Definition checked (h : list GEvent) (commit : string) (g : GCheck) (k : CheckRun) : Prop :=
  (0 < gk_CheckID g)%Z ∧ (0 < gk_App g)%Z ∧ gk_Name g ≠ "" ∧ gk_Head g = commit ∧
  ∃ output, k = checkRun commit output g ∧ diagnosed h g output.

(** A page of check runs that reports [total] of them. *)
Definition check_page (commit : string) (total : Z) (h : list GEvent) (p : Z) (items : list GCheck)
    (next : Z) : Prop :=
  ∃ c checks resp, GCall c (GListChecks org name commit p (GOk checks resp)) ∈ h ∧
    items = gk_Runs checks ∧ total = gk_Total checks ∧ next = nextPage resp.

(** The text of a review: its body, followed by its comments on the commit. *)
Definition discussed (h : list GEvent) (number : Z) (commit : string) (g : GReview)
    (body : string) : Prop :=
  diagnosticText body = None ∧
  ∃ l, numbered (listing_page (GListReviewComments org name number (gw_ID g)) h) 1 l ∧
    NoDup (gx_ID <$> l) ∧
    body = gw_Body g +:+ texts reviewCommentText (filter (λ x, gx_Commit x = commit) l).

Definition reviewed (h : list GEvent) (number : Z) (commit : string) (g : GReview) (r : Review)
    : Prop :=
  gw_SubmittedAt g ≠ zeroTime ∧
  ∃ body, r = reviewOf body g ∧ discussed h number commit g body.

Definition read_pull (h : list GEvent) (number : Z) (pr : PullRequest) : Prop :=
  ∃ c raw resp, GCall c (GGetPull org name number (GOk raw resp)) ∈ h ∧ pr = pullResult raw ∧
    pr_Number pr = number ∧ EqualFold (pr_Repository pr) (canonical conn repo) = true.

Definition feedback_result (number : Z) (commit : string) (r : error + Feedback) (t : list GEvent)
    : Prop :=
  ∀ f, r = inr f →
    (∃ gs, numbered (check_page commit (Z.of_nat (length gs)) t) 1 gs ∧
       Forall2 (checked t commit) gs (fb_Checks f) ∧ NoDup (gk_CheckID <$> gs)) ∧
    (∃ gs, numbered (listing_page (GListReviews org name number) t) 1 gs ∧
       NoDup (gw_ID <$> gs) ∧
       Forall2 (reviewed t number commit) (filter (λ g, relevant commit g = true) gs) (fb_Reviews f)) ∧
    (∃ before after, read_pull t number before ∧ read_pull t number after ∧
       pr_Commit before = commit ∧ samePull after before = true) ∧
    (slen (feedback_json f) ≤ maxFeedbackBytes)%Z.
End Readings.

(** ** Lemmas: the pure parts *)

Lemma matchPage_app conn repo i found l l' :
  matchPage conn repo i found (l ++ l') =
    match matchPage conn repo i found l with
    | inl e => inl e
    | inr found => matchPage conn repo i found l'
    end.
Proof.
  revert found. induction l as [|raw l IH]; intros found; simpl; [done|].
  destruct (pullMatches _ _ _ _); simpl; [|apply IH]. destruct found; [done|apply IH].
Qed.

Lemma matchPage_some conn repo i pr l res : matchPage conn repo i (Some pr) l = inr res →
  res = Some pr ∧ filter (λ raw, pullMatches (pullResult raw) conn repo i = true) l = [].
Proof.
  induction l as [|raw l IH]; simpl; [by intros [= <-]|].
  rewrite filter_cons. destruct (pullMatches _ _ _ _) eqn:Hm; simpl; [done|apply IH].
Qed.

Lemma matchPage_unique conn repo i l res :
  matchPage conn repo i None l = inr res → unique_match conn repo i l res.
Proof.
  unfold unique_match. induction l as [|raw l IH]; simpl; [by intros [= <-]|].
  rewrite filter_cons. destruct (pullMatches _ _ _ _) eqn:Hm; simpl.
  - by intros [-> ->]%matchPage_some.
  - apply IH.
Qed.

Lemma texts_app {A} (f : A → string) l l' : texts f (l ++ l') = texts f l +:+ texts f l'.
Proof. induction l as [|x l IH]; simpl; [done|]. by rewrite IH, string_app_assoc. Qed.

Lemma appendAnnotations_spec text l out : appendAnnotations text l = inr out →
  diagnosticText text = None → diagnosticText out = None ∧ out = text +:+ texts annotationText l.
Proof.
  revert text. induction l as [|a l IH]; intros text; simpl.
  { intros [= <-] Ht. split; [done|]. by rewrite string_app_nil_r. }
  destruct (_ || _); [done|]. destruct (diagnosticText (text +:+ _)) eqn:Hd; [done|].
  intros Hl _. destruct (IH _ Hl Hd) as [? ->]. split; [done|]. by rewrite string_app_assoc.
Qed.

Lemma appendComments_spec reviewID commit text seen l out seen' :
  appendComments reviewID commit text seen l = inr (out, seen') →
  diagnosticText text = None → NoDup seen →
  diagnosticText out = None ∧ seen' = seen ++ (gx_ID <$> l) ∧ NoDup seen' ∧
  out = text +:+ texts reviewCommentText (filter (λ x, gx_Commit x = commit) l).
Proof.
  revert text seen. induction l as [|x l IH]; intros text seen; simpl.
  { intros [= <- <-] Ht Hs. rewrite app_nil_r, string_app_nil_r. done. }
  destruct (_ || _ || _ || _) eqn:Hbad; [done|].
  assert (Hnew : gx_ID x ∉ seen).
  { apply orb_false_iff in Hbad as [[[_ Hb]%orb_false_iff _]%orb_false_iff _].
    by apply bool_decide_eq_false in Hb. }
  assert (Hnd : NoDup seen → NoDup (seen ++ [gx_ID x])).
  { intros Hs. apply NoDup_app. split_and!; [done| |apply NoDup_singleton]. set_solver. }
  rewrite filter_cons. destruct (negb (bool_decide (gx_Commit x = commit))) eqn:Hc.
  - apply negb_true_iff, bool_decide_eq_false in Hc. rewrite (decide_False (P := gx_Commit x = commit)) by exact Hc.
    intros Hl Ht Hs. destruct (IH _ _ Hl Ht (Hnd Hs)) as (? & -> & Hs' & ->).
    rewrite <- app_assoc in Hs' |- *. done.
  - apply negb_false_iff, bool_decide_eq_true in Hc. rewrite (decide_True (P := gx_Commit x = commit)) by exact Hc.
    destruct (bool_decide (gx_Path x = "") || _); [done|].
    destruct (diagnosticText (text +:+ _)) eqn:Hd; [done|].
    intros Hl _ Hs. destruct (IH _ _ Hl Hd (Hnd Hs)) as (? & -> & Hs' & ->).
    rewrite <- app_assoc in Hs' |- *. split_and!; [done|done|exact Hs'|].
    by rewrite string_app_assoc.
Qed.

Lemma branchNames_spec l names : branchNames l = inr names →
  Forall (λ b, validBranch b = true) names ∧ length names = length l.
Proof.
  revert names. induction l as [|[b|] l IH]; intros names; simpl; [by intros [= <-]| |done].
  destruct (validBranch b) eqn:Hb; [|done]. destruct (branchNames l); [done|].
  intros [= <-]. destruct (IH _ eq_refl). split; [by constructor|simpl; congruence].
Qed.

(** ** Lemmas: the readings *)

Lemma sub_grow {A} (h t : list A) : h ⊆ h ++ t.
Proof. set_solver. Qed.
#[local] Hint Resolve sub_grow : history.

Section Loops.
Context {W : Type} `{GitHub W} `{Pulls W}.
Context (conn : Connection) (repo : Repository) (op : Operation) (cred : Credential).
#[local] Abbreviation org := (owner conn repo).
#[local] Abbreviation name := (rs_Name (rp_Spec repo)).
#[local] Abbreviation rd := (reading conn repo op).
#[local] Abbreviation bd := (bound conn repo).

(** One page of a listing, and what the rest of the loop makes of it. *)
Lemma page_hoare {A B} h c (o : W → Answer A * W) (f : Answer A → Call)
    (k : A → option Response → GEff W (error + B)) (Q : error + B → list GEvent → Prop) :
  bd h → (∀ a, mutates (GCall c (f a)) = false ∧ about (f a) = Some (org, name)) →
  (∀ e t, Q (inl e) t) →
  (∀ v resp, let h' := h ++ [GCall c (f (GOk v resp))] in bd h' → rd h' (k v resp) Q) →
  rd h (r ← call o (λ a, GCall c (f a));
        match r with GErr resp err => refuse resp err | GOk v resp => k v resp end) Q.
Proof.
  intros Hb Hf He Hk. apply reading_bind, reading_call; [done..|]. intros [resp err|v resp].
  - apply reading_refuse. intros. apply He.
  - apply Hk. by apply bound_mono.
Qed.

Lemma page_read {A} (call : Z → Answer (list A) → Call) h c p items resp :
  listing_page call (h ++ [GCall c (call p (GOk items resp))]) p items (nextPage resp).
Proof. exists c, resp. split; [apply elem_snoc|done]. Qed.

Lemma findPages_reading h c i page found budget : bd h →
  rd h (findPages (W := W) budget c conn repo i page found) (λ r h', ∀ res, r = inr res →
    ∃ l, numbered (pull_pages conn repo i h') page l ∧ matchPage conn repo i found l = inr res).
Proof.
  revert h page found. induction budget as [|budget IH]; intros h page found Hb; simpl.
  { by apply reading_ret. }
  apply page_hoare; [done|done|done|]. intros pulls resp h' Hb'.
  destruct (matchPage conn repo i found pulls) as [err|found'] eqn:Hm; [by apply reading_ret|].
  case_decide as Hn.
  - apply reading_ret. intros res [= <-]. exists pulls. split; [|done].
    apply numbered_last. rewrite <- Hn. apply page_read.
  - eapply reading_mono; [by apply IH|]. intros r t Ht Hr res Hres.
    destruct (Hr res Hres) as (l & Hl & Hml). exists (pulls ++ l).
    split; [|by rewrite matchPage_app, Hm]. eapply numbered_more; [|exact Hn|exact Hl].
    eapply listing_page_mono; [apply sub_grow|apply page_read].
Qed.

Lemma annotationPages_reading h c g expected page count text budget :
  bd h → diagnosticText text = None →
  rd h (annotationPages (W := W) budget c org name g expected page count text)
    (λ r h', ∀ out, r = inr out → diagnosticText out = None ∧
      ∃ l, numbered (listing_page (GListAnnotations org name g) h') page l ∧
        (count + Z.of_nat (length l))%Z = expected ∧ out = text +:+ texts annotationText l).
Proof.
  revert h page count text. induction budget as [|budget IH]; intros h page count text Hb Ht; simpl.
  { by apply reading_ret. }
  apply page_hoare; [done|done|done|]. intros items resp h' Hb'.
  case_decide; [by apply reading_ret|].
  destruct (appendAnnotations text items) as [err|text'] eqn:Ha; [by apply reading_ret|].
  destruct (appendAnnotations_spec _ _ _ Ha Ht) as [Ht' ->]. case_decide as Hn.
  - case_decide as Hc; [|by apply reading_ret]. apply reading_ret. intros out [= <-].
    split; [done|]. exists items. split_and!; [|done|done].
    apply numbered_last. rewrite <- Hn. apply page_read.
  - eapply reading_mono; [by apply IH|]. intros r t _ Hr out Hout.
    destruct (Hr out Hout) as (Hd & l & Hl & Hlen & ->). split; [done|]. exists (items ++ l).
    rewrite length_app, texts_app, string_app_assoc. split_and!; [|lia|done].
    eapply numbered_more; [|exact Hn|exact Hl].
    eapply listing_page_mono; [apply sub_grow|apply page_read].
Qed.

Lemma checkDiagnostic_reading h c g : bd h →
  rd h (checkDiagnostic (W := W) c org name g (checkText g))
    (λ r h', ∀ out, r = inr out → diagnosed conn repo h' g out).
Proof.
  intros Hb. unfold checkDiagnostic, diagnosed.
  destruct (diagnosticText (checkText g)) eqn:Ht; [by apply reading_ret|].
  destruct (_ || _); [by apply reading_ret|]. case_decide as Hz.
  - apply reading_ret. intros out [= <-]. done.
  - eapply reading_mono; [by apply annotationPages_reading|]. intros r t _ Hr out Hout.
    destruct (Hr out Hout) as (? & l & ? & ? & ?). split; [done|]. exists l. split_and!; [done|lia|done].
Qed.

Lemma checked_mono h h' commit g k : h ⊆ h' → checked conn repo h commit g k → checked conn repo h' commit g k.
Proof.
  intros Hh (? & ? & ? & ? & out & ? & Hd & Ho). split_and!; try done. exists out. split; [done|].
  split; [done|]. case_decide; [done|]. destruct Ho as (l & Hl & ? & ?). exists l.
  split; [|done]. eapply numbered_mono; [|exact Hl]. intros. by eapply listing_page_mono.
Qed.

Lemma readChecks_reading h c commit before checks :
  bd h → NoDup (ck_ID <$> before) →
  rd h (readChecks (W := W) c org name commit before checks) (λ r h', ∀ runs, r = inr runs →
    NoDup (ck_ID <$> runs) ∧
    ∃ new, runs = before ++ new ∧ Forall2 (checked conn repo h' commit) checks new).
Proof.
  revert h before. induction checks as [|g checks IH]; intros h before Hb Hnd; simpl.
  { apply reading_ret. intros runs [= <-]. split; [done|]. exists []. by rewrite app_nil_r. }
  destruct (_ || _ || _ || _) eqn:Hbad; [by apply reading_ret|].
  apply orb_false_iff in Hbad as [[[Hid Happ]%orb_false_iff Hname]%orb_false_iff Hdup].
  apply bool_decide_eq_false in Hname, Hdup.
  destruct (bool_decide (gk_Head g = commit)) eqn:Hhead; [|by apply reading_ret].
  apply bool_decide_eq_true in Hhead. apply reading_bind_res.
  eapply reading_mono; [by apply checkDiagnostic_reading|]. intros [e|out] t _ Hout; [done|].
  specialize (Hout out eq_refl).
  eapply reading_mono; [apply IH; [by apply bound_mono|]|].
  { rewrite fmap_app. apply NoDup_app. split_and!; [done|set_solver|apply NoDup_singleton]. }
  intros r t' _ Hr runs Hruns. destruct (Hr runs Hruns) as (Hnd' & new & -> & Hnew).
  split; [done|]. exists (checkRun commit out g :: new). rewrite <- app_assoc. split; [done|].
  constructor; [|done]. eapply checked_mono; [apply sub_grow|].
  split_and!; [lia|lia|done|done|by exists out].
Qed.

Lemma checkPages_reading h c commit page expected before budget :
  bd h → NoDup (ck_ID <$> before) →
  rd h (checkPages (W := W) budget c org name commit page expected before) (λ r h', ∀ res, r = inr res →
    NoDup (ck_ID <$> res.2) ∧ ∃ total gs new, res.1 = Some total ∧
      (∀ n, expected = Some n → n = total) ∧ res.2 = before ++ new ∧
      numbered (check_page conn repo commit total h') page gs ∧
      Forall2 (checked conn repo h' commit) gs new).
Proof.
  revert h page expected before. induction budget as [|budget IH]; intros h page expected before Hb Hnd; simpl.
  { by apply reading_ret. }
  apply page_hoare; [done|done|done|]. intros checks resp h' Hb'.
  destruct (_ || _); [by apply reading_ret|].
  destruct (match expected with Some n => _ | None => _ end) eqn:Hexp; [by apply reading_ret|].
  assert (Hsame : ∀ n, expected = Some n → n = gk_Total checks).
  { intros n ->. by apply negb_false_iff, bool_decide_eq_true in Hexp. }
  assert (Hpage : check_page conn repo commit (gk_Total checks) h' page (gk_Runs checks) (nextPage resp)).
  { exists c, checks, resp. split; [apply elem_snoc|done]. }
  apply reading_bind_res. eapply reading_mono; [by apply readChecks_reading|].
  intros [e|runs] t _ Hruns; [done|]. destruct (Hruns runs eq_refl) as (Hnd' & new & -> & Hnew).
  assert (Hpage' : ∀ t', check_page conn repo commit (gk_Total checks) (h' ++ t') page (gk_Runs checks) (nextPage resp)).
  { intros t'. destruct Hpage as (c0 & k0 & r0 & Hin & ?). exists c0, k0, r0. split; [by apply elem_before|done]. }
  case_decide as Hn.
  - apply reading_ret. intros res [= <-]. simpl. split; [done|].
    exists (gk_Total checks), (gk_Runs checks), new. split_and!; try done.
    apply numbered_last. rewrite <- Hn. apply Hpage'.
  - eapply reading_mono; [apply IH; [by apply bound_mono|done]|]. intros r t' _ Hr res Hres.
    destruct (Hr res Hres) as (Hnd2 & total & gs & new' & Htot & Heq & Hres2 & Hgs & Hnew').
    specialize (Heq _ eq_refl) as <-. split; [done|].
    exists (gk_Total checks), (gk_Runs checks ++ gs), (new ++ new').
    split_and!; [done|done|by rewrite Hres2, app_assoc| |].
    + eapply numbered_more; [|exact Hn|exact Hgs]. rewrite <- app_assoc. apply Hpage'.
    + apply Forall2_app; [|done]. eapply Forall2_impl; [exact Hnew|].
      intros. eapply checked_mono; [apply sub_grow|done].
Qed.

Lemma commentPages_reading h c number rid commit page text seen budget :
  bd h → diagnosticText text = None → NoDup seen →
  rd h (commentPages (W := W) budget c org name number rid commit page text seen)
    (λ r h', ∀ out, r = inr out → diagnosticText out = None ∧
      ∃ l, numbered (listing_page (GListReviewComments org name number rid) h') page l ∧
        NoDup (seen ++ (gx_ID <$> l)) ∧
        out = text +:+ texts reviewCommentText (filter (λ x, gx_Commit x = commit) l)).
Proof.
  revert h page text seen. induction budget as [|budget IH]; intros h page text seen Hb Ht Hs; simpl.
  { by apply reading_ret. }
  apply page_hoare; [done|done|done|]. intros items resp h' Hb'.
  case_decide; [by apply reading_ret|].
  destruct (appendComments rid commit text seen items) as [err|[text' seen']] eqn:Ha; [by apply reading_ret|].
  destruct (appendComments_spec _ _ _ _ _ _ _ Ha Ht Hs) as (Ht' & -> & Hs' & ->). case_decide as Hn.
  - apply reading_ret. intros out [= <-]. split; [done|]. exists items. split_and!; [|done|done].
    apply numbered_last. rewrite <- Hn. apply page_read.
  - eapply reading_mono; [by apply IH|]. intros r t _ Hr out Hout.
    destruct (Hr out Hout) as (Hd & l & Hl & Hnd & ->). split; [done|]. exists (items ++ l).
    rewrite filter_app, texts_app, string_app_assoc, fmap_app, app_assoc. split_and!; [|done|done].
    eapply numbered_more; [|exact Hn|exact Hl].
    eapply listing_page_mono; [apply sub_grow|apply page_read].
Qed.

Lemma reviewed_mono h h' number commit g r :
  h ⊆ h' → reviewed conn repo h number commit g r → reviewed conn repo h' number commit g r.
Proof.
  intros Hh (? & body & ? & ? & l & Hl & ? & ?). split; [done|]. exists body. split; [done|].
  split; [done|]. exists l. split; [|done]. eapply numbered_mono; [|exact Hl].
  intros. by eapply listing_page_mono.
Qed.

Lemma readReviews_reading h c number commit seen before reviews :
  bd h → NoDup seen →
  rd h (readReviews (W := W) c org name number commit seen before reviews) (λ r h', ∀ res, r = inr res →
    res.1 = seen ++ (gw_ID <$> reviews) ∧ NoDup res.1 ∧ ∃ new, res.2 = before ++ new ∧
    Forall2 (reviewed conn repo h' number commit) (filter (λ g, relevant commit g = true) reviews) new).
Proof.
  revert h seen before. induction reviews as [|g reviews IH]; intros h seen before Hb Hnd; simpl.
  { apply reading_ret. intros res [= <-]. simpl. rewrite app_nil_r. split_and!; [done..|].
    exists []. by rewrite app_nil_r. }
  destruct (_ || _ || _ || _ || _) eqn:Hbad; [by apply reading_ret|].
  assert (Hnd' : NoDup (seen ++ [gw_ID g])).
  { repeat (apply orb_false_iff in Hbad as [Hbad ?]).
    apply NoDup_app. split_and!; [done| |apply NoDup_singleton].
    match goal with Hi : bool_decide (_ ∈ _) = false |- _ => apply bool_decide_eq_false in Hi end.
    set_solver. }
  rewrite filter_cons. destruct (relevant commit g) eqn:Hrel; simpl.
  - destruct (IsZero (gw_SubmittedAt g)) eqn:Hz; [by apply reading_ret|].
    apply bool_decide_eq_false in Hz. apply reading_bind_res. unfold reviewDiagnostic.
    destruct (diagnosticText (gw_Body g)) eqn:Ht; [by apply reading_ret|].
    eapply reading_mono; [apply commentPages_reading; [done|done|apply NoDup_nil_2]|].
    intros [e|body] t _ Hbody; [done|]. specialize (Hbody body eq_refl).
    eapply reading_mono; [apply IH; [by apply bound_mono|done]|]. intros r t' _ Hr res Hres.
    destruct (Hr res Hres) as (Hseen & Hnd2 & new & Hout2 & Hnew). rewrite <- app_assoc in Hseen.
    split_and!; [exact Hseen|exact Hnd2|]. exists (reviewOf body g :: new). rewrite Hout2, <- app_assoc. split; [done|].
    constructor; [|done]. eapply reviewed_mono; [apply sub_grow|]. split; [done|].
    by exists body.
  - eapply reading_mono; [by apply IH|]. intros r t _ Hr res Hres.
    destruct (Hr res Hres) as (Hseen & Hnd2 & Hnew). rewrite <- app_assoc in Hseen.
    split_and!; [exact Hseen|exact Hnd2|exact Hnew].
Qed.

Lemma reviewPages_reading h c number commit page seen before budget :
  bd h → NoDup seen →
  rd h (reviewPages (W := W) budget c org name number commit page seen before) (λ r h', ∀ res, r = inr res →
    ∃ gs new, res = before ++ new ∧ numbered (listing_page (GListReviews org name number) h') page gs ∧
      NoDup (seen ++ (gw_ID <$> gs)) ∧
      Forall2 (reviewed conn repo h' number commit) (filter (λ g, relevant commit g = true) gs) new).
Proof.
  revert h page seen before. induction budget as [|budget IH]; intros h page seen before Hb Hnd; simpl.
  { by apply reading_ret. }
  apply page_hoare; [done|done|done|]. intros items resp h' Hb'.
  case_decide; [by apply reading_ret|].
  apply reading_bind_res. eapply reading_mono; [by apply readReviews_reading|].
  intros [e|res] t _ Hres; [done|]. destruct (Hres res eq_refl) as (Hseen & Hnd2 & new & Hout2 & Hnew).
  assert (Hp : ∀ t', listing_page (GListReviews org name number) ((h' ++ t) ++ t') page items (nextPage resp)).
  { intros t'. rewrite <- app_assoc. eapply listing_page_mono; [apply sub_grow|apply page_read]. }
  case_decide as Hn.
  - apply reading_ret. intros out [= <-]. exists items, new. split_and!; [done| |by rewrite <- Hseen|done].
    apply numbered_last. rewrite <- Hn, <- (app_nil_r (h' ++ t)). apply Hp.
  - eapply reading_mono; [apply IH; [by apply bound_mono|done]|]. intros r t' _ Hr out Hout.
    destruct (Hr out Hout) as (gs & new' & -> & Hgs & Hnd' & Hnew').
    exists (items ++ gs), (new ++ new'). rewrite Hseen, <- app_assoc in Hnd'.
    rewrite Hout2, filter_app, fmap_app, <- app_assoc. split_and!; [done| |done|].
    + eapply numbered_more; [apply Hp|exact Hn|exact Hgs].
    + apply Forall2_app; [|done]. eapply Forall2_impl; [exact Hnew|].
      intros. eapply reviewed_mono; [apply sub_grow|done].
Qed.
End Loops.

Section Operations.
Context {W : Type} `{GitHub W} `{Pulls W}.
Context (conn : Connection) (repo : Repository) (op : Operation) (cred : Credential).
#[local] Abbreviation org := (owner conn repo).
#[local] Abbreviation name := (rs_Name (rp_Spec repo)).
#[local] Abbreviation rd := (reading conn repo op).
#[local] Abbreviation bd := (bound conn repo).
#[local] Abbreviation G := (op_guard conn repo op).

(** Binding first, then the rest. *)
Lemma bind_client {B} h (k : Client → GEff W (error + B)) (Q : error + B → list GEvent → Prop) :
  (∀ e t, Q (inl e) t) → (∀ c t, bd (h ++ t) → rd (h ++ t) (k c) Q) →
  rd h (bind_res (collaborationClient conn cred repo) k) Q.
Proof.
  intros He Hk. apply reading_bind_res. apply collaborationClient_reading; [done|]. apply Hk.
Qed.

Lemma BranchHead_reading h branch :
  rd h (BranchHead (W := W) conn cred repo branch) (λ r h', ∀ head, r = inr head →
    validBranch branch = true ∧ (head = "" ∨ objectID head = true ∧
      ∃ c ref resp, GCall c (GGetRef org name ("heads/" +:+ branch) (GOk ref resp)) ∈ h' ∧
        rf_Object ref = Some head)).
Proof.
  unfold BranchHead. destruct (validBranch branch) eqn:Hv; [|by apply reading_ret].
  apply bind_client; [done|]. intros c t Hb.
  apply reading_bind, reading_call; [done|done|]. intros [resp err|ref resp].
  - destruct (has_status _ resp).
    + apply reading_ret. intros head [= <-]. split; [done|by left].
    + by apply reading_refuse.
  - destruct (has_status _ resp).
    + apply reading_ret. intros head [= <-]. split; [done|by left].
    + destruct (_ || _) eqn:Hbad; [by apply reading_ret|].
      apply orb_false_iff in Hbad as [_ Ho%negb_false_iff]. apply reading_ret.
      intros head [= <-]. split; [done|]. right. split; [done|]. exists c, ref, resp.
      split; [apply elem_snoc|]. by destruct (rf_Object ref).
Qed.

Lemma ReadPullRequest_reading h number :
  rd h (ReadPullRequest (W := W) conn cred repo number) (λ r h', ∀ pr, r = inr pr →
    bd h' ∧ read_pull conn repo h' number pr).
Proof.
  unfold ReadPullRequest. destruct (_ <=? 0)%Z; [by apply reading_ret|].
  apply bind_client; [done|]. intros c t Hb. apply page_hoare; [done|done|done|].
  intros raw resp h' Hb'. destruct (_ || _) eqn:Hbad; [by apply reading_ret|].
  apply orb_false_iff in Hbad as [Hn%negb_false_iff Hr%negb_false_iff].
  apply bool_decide_eq_true in Hn. apply reading_ret. intros pr [= <-]. split; [done|].
  exists c, raw, resp. split_and!; [apply elem_snoc|done..].
Qed.

Lemma read_pull_mono h h' number pr : h ⊆ h' → read_pull conn repo h number pr → read_pull conn repo h' number pr.
Proof. intros Hh (c & raw & resp & ? & ?). exists c, raw, resp. auto. Qed.

Lemma check_page_mono commit total h h' p items n :
  h ⊆ h' → check_page conn repo commit total h p items n → check_page conn repo commit total h' p items n.
Proof. intros Hh (c & ks & resp & ? & ?). exists c, ks, resp. auto. Qed.

Lemma Feedback_reading h number commit :
  rd h (PullRequestFeedback (W := W) conn cred repo number commit) (λ r h',
    feedback_result conn repo number commit r h').
Proof.
  unfold PullRequestFeedback, feedback_result. destruct (objectID commit) eqn:Ho; [|by apply reading_ret].
  apply reading_bind_res. eapply reading_mono; [apply ReadPullRequest_reading|].
  intros [e|before] t0 _ Hbefore; [done|]. destruct (Hbefore before eq_refl) as [_ Hbefore'].
  destruct (negb _ || _) eqn:Hc; [by apply reading_ret|].
  apply orb_false_iff in Hc as [Hc%negb_false_iff%bool_decide_eq_true _].
  apply bind_client; [done|]. intros c t1 Hb. apply reading_bind_res.
  eapply reading_mono; [apply checkPages_reading; [done|apply NoDup_nil_2]|].
  intros [e|[total runs]] t2 _ Hruns; [done|].
  destruct (Hruns _ eq_refl) as (Hnd & n & gs & new & Htot & _ & Hnew & Hgs & Hks). cbn [fst snd] in *. subst total runs.
  destruct (bool_decide _) eqn:Hlen; [|by apply reading_ret].
  apply bool_decide_eq_true in Hlen. injection Hlen as <-. cbn [negb snd].
  apply reading_bind_res. eapply reading_mono; [apply reviewPages_reading; [by apply bound_mono|apply NoDup_nil_2]|].
  intros [e|reviews] t3 _ Hrev; [done|]. destruct (Hrev _ eq_refl) as (rs & new' & -> & Hrs & Hrn & Hrr).
  apply reading_bind_res. eapply reading_mono; [apply ReadPullRequest_reading|].
  intros [e|after] t4 _ Hafter; [done|]. destruct (Hafter after eq_refl) as [_ Hafter'].
  destruct (samePull after before) eqn:Hsame; [|by apply reading_ret].
  destruct (_ <? _)%Z eqn:Hsize; [by apply reading_ret|]. apply reading_ret.
  intros f [= <-]. simpl. split_and!.
  - exists gs. apply Forall2_length in Hks as Hlen. rewrite <- Hlen in Hgs. split_and!.
    + eapply numbered_mono; [|exact Hgs]. intros. eapply check_page_mono; [|done]. set_solver.
    + eapply Forall2_impl; [exact Hks|]. intros. eapply checked_mono; [|done]. set_solver.
    + assert (gk_CheckID <$> gs = ck_ID <$> new) as ->; [|done].
      clear -Hks. induction Hks as [|g k gs new Hk Hks IH]; [done|]. rewrite !fmap_cons, IH. f_equal.
      by destruct Hk as (_ & _ & _ & _ & out & -> & _).
  - exists rs. split_and!; [|done|].
    + eapply numbered_mono; [|exact Hrs]. intros. eapply listing_page_mono; [|done]. set_solver.
    + eapply Forall2_impl; [exact Hrr|]. intros. eapply reviewed_mono; [|done]. set_solver.
  - exists before, after. split_and!; [|done|done|done]. eapply read_pull_mono; [|done]. set_solver.
  - by apply Z.ltb_ge.
Qed.

Lemma reading_hoare {A} (m : GEff W A) (Q : A → list GEvent → Prop) h :
  rd h m Q → hoare G h m Q.
Proof. intros Hm. eapply hoare_mono; [exact Hm|]. by intros a h' [_ ?]. Qed.

(** A reading part before a write. *)
Lemma reading_then {A B} h (m : GEff W (error + A)) (k : A → GEff W (error + B))
    (P : error + A → list GEvent → Prop) (Q : error + B → list GEvent → Prop) :
  calm h → rd h m P → (∀ e t, Q (inl e) t) →
  (∀ a t, calm (h ++ t) → P (inr a) (h ++ t) → hoare G (h ++ t) (k a) Q) →
  hoare G h (bind_res m k) Q.
Proof.
  intros Hcalm Hm He Hk. apply hoare_bind_res. eapply hoare_mono; [exact Hm|].
  intros [e|a] h' [(t & -> & Ht) HP]; [apply He|]. apply Hk; [by apply Forall_app|done].
Qed.

(** The write itself, and the check of its answer. *)
Lemma write_hoare {A B} h c (o : W → Answer A * W) (f : Answer A → Call)
    (k : A → GEff W (error + B)) (Q : error + B → list GEvent → Prop) :
  bd h → calm h → (∀ a, about (f a) = Some (org, name) ∧ requested conn repo op h (f a)) →
  (∀ e t, Q (inl e) t) → (∀ v t, hoare G t (k v) Q) →
  hoare G h (r ← call o (λ a, GCall c (f a));
             match r with GErr resp err => refuse resp err | GOk v resp => k v end) Q.
Proof.
  intros Hb Hcalm Hf He Hk. apply hoare_bind, hoare_call.
  - intros a. destruct (Hf a) as [Ha Hr]. unfold op_guard. destruct (f a); try discriminate Ha; done.
  - intros [resp err|v resp]; [|apply Hk]. apply reading_hoare, reading_refuse. intros. apply He.
Qed.
End Operations.

Section Perform.
Context {W : Type} `{GitHub W} `{Pulls W}.
Context (conn : Connection) (repo : Repository) (cred : Credential).
#[local] Abbreviation org := (owner conn repo).
#[local] Abbreviation name := (rs_Name (rp_Spec repo)).

Lemma wrapped_hoare {A} op (f : A → Output) (m : GEff W (error + A)) :
  hoare (op_guard conn repo op) [] m (λ r _, ∀ a, r = inr a → op_result conn repo op (inr (f a))) →
  hoare (op_guard conn repo op) [] (wrapped f m) (λ r _, op_result conn repo op r).
Proof.
  intros Hm. apply hoare_bind_res. eapply hoare_mono; [exact Hm|]. intros [e|a] h Ha.
  - by destruct op.
  - apply hoare_ret. by apply Ha.
Qed.

Lemma create_pull_hoare i :
  hoare (op_guard conn repo (OpCreate i)) [] (CreatePullRequest (W := W) conn cred repo i)
    (λ r _, ∀ pr, r = inr pr → pullMatches pr conn repo i = true).
Proof.
  unfold CreatePullRequest. destruct (negb _ || _) eqn:Hv; [by apply hoare_ret|].
  apply orb_false_iff in Hv as [Hv%negb_false_iff Ht%negb_false_iff].
  eapply reading_then; [constructor|apply BranchHead_reading|done|].
  intros head t Hcalm Hhead. destruct (Hhead head eq_refl) as [_ Hh].
  destruct (bool_decide (head = pin_Commit i)) eqn:Hc; [|by apply hoare_ret].
  apply bool_decide_eq_true in Hc as ->.
  eapply reading_then; [done|apply (collaborationClient_reading _ _ _ _ _
    (λ r h, ([] ++ t) ⊆ h ∧ (∀ c : Client, r = inr c → bound conn repo h)))|done|].
  { intros e t'. split; [set_solver|done]. }
  { intros c t' Hb. split; [set_solver|done]. }
  intros c t' Hcalm' [Hsub Hb]. specialize (Hb c eq_refl).
  apply write_hoare; [done|done| |done|].
  - intros a. split; [done|]. split_and!; try done.
    destruct Hh as [Hempty|(_ & c' & ref & resp & Hin & Hobj)].
    + exfalso. unfold validPullInput in Hv. rewrite Hempty in Hv.
      apply andb_true_iff in Hv as [_ Hv]. by vm_compute in Hv.
    + exists c', ref, resp. split; [by apply Hsub|done].
  - intros raw t2. destruct (pullMatches (pullResult raw) conn repo i) eqn:Hm; apply hoare_ret; [|done].
    by intros pr [= <-].
Qed.

Lemma update_pull_hoare number i :
  hoare (op_guard conn repo (OpUpdate number i)) [] (UpdatePullRequest (W := W) conn cred repo number i)
    (λ r _, ∀ pr, r = inr pr → pullMatches pr conn repo i = true).
Proof.
  unfold UpdatePullRequest. destruct (negb _ || _) eqn:Hv; [by apply hoare_ret|].
  apply orb_false_iff in Hv as [Hv%negb_false_iff Ht%negb_false_iff].
  eapply reading_then; [constructor|apply ReadPullRequest_reading|done|].
  intros current t Hcalm Hcur. destruct (Hcur current eq_refl) as [_ (c0 & raw & resp & Hin & -> & _)].
  destruct (pullMatches (pullResult raw) conn repo i) eqn:Hm; [|by apply hoare_ret].
  eapply reading_then; [done|apply (collaborationClient_reading _ _ _ _ _
    (λ r h, ([] ++ t) ⊆ h ∧ (∀ c : Client, r = inr c → bound conn repo h)))|done|].
  { intros e t'. split; [set_solver|done]. }
  { intros c t' Hb. split; [set_solver|done]. }
  intros c t' Hcalm' [Hsub Hb]. specialize (Hb c eq_refl).
  apply write_hoare; [done|done| |done|].
  - intros a. split; [done|]. split_and!; try done. exists c0, raw, resp. split; [by apply Hsub|done].
  - intros raw' t2. destruct (pullMatches (pullResult raw') conn repo i) eqn:Hm'; apply hoare_ret; [|done].
    by intros pr [= <-].
Qed.

(** A checked comment is written once the repository is bound. *)
Lemma comment_hoare op (o : Client → W → Answer GComment * W) (f : Answer GComment → Call) :
  (∀ a h, about (f a) = Some (org, name) ∧ requested conn repo op h (f a)) →
  hoare (op_guard conn repo op) []
    (c ←? collaborationClient conn cred repo;
     r ← call (o c) (λ a, GCall c (f a));
     match r with GErr resp err => refuse resp err | GOk raw _ => mret (inr (issueComment raw)) end)
    (λ _ _, True).
Proof.
  intros Hf. eapply reading_then; [constructor|apply (collaborationClient_reading _ _ _ _ _
    (λ r h, ∀ c : Client, r = inr c → bound conn repo h))|done|].
  { done. } { by intros c t Hb c' _. }
  intros c t Hcalm Hb. apply (write_hoare _ _ _ _ c (o c) f (λ raw, mret (inr (issueComment raw))));
    [by apply (Hb c)|done|intros a; apply Hf|done|]. intros v t'. by apply hoare_ret.
Qed.

Lemma ListBranches_hoare page :
  hoare (op_guard conn repo (OpBranches page)) [] (ListBranches (W := W) conn cred repo page)
    (λ r _, ∀ p, r = inr p → Forall (λ b, validBranch b = true) (bp_Branches p) ∧
       (length (bp_Branches p) ≤ pageSize)%nat).
Proof.
  apply reading_hoare. unfold ListBranches. cbv zeta. destruct (_ || _); [by apply reading_ret|].
  apply bind_client; [done|]. intros c t Hb. apply page_hoare; [done|done|done|].
  intros branches resp h' Hb'. case_decide; [by apply reading_ret|].
  destruct (branchNames branches) as [e|names] eqn:Hn; [by apply reading_ret|].
  apply branchNames_spec in Hn as [? Hlen].
  destruct (_ && _); apply reading_ret; [done|]. intros p [= <-]. split; [done|]. simpl. lia.
Qed.

Lemma perform_operation_hoare op :
  hoare (op_guard conn repo op) [] (perform (W := W) conn cred repo op) (λ r _, op_result conn repo op r).
Proof.
  destruct op; apply wrapped_hoare.
  - eapply hoare_mono; [apply ListBranches_hoare|]. done.
  - apply reading_hoare. eapply reading_mono; [apply BranchHead_reading|]. intros r t _ Hr head Hhead.
    destruct (Hr head Hhead) as [? [?|[? _]]]; split; auto.
  - apply reading_hoare. unfold FindPullRequest. destruct (negb _); [by apply reading_ret|].
    apply bind_client; [done|]. intros c t Hb. eapply reading_mono; [by apply findPages_reading|].
    intros r t' _ Hr [pr|] Hpr; [|done]. destruct (Hr _ Hpr) as (l & _ & Hm%matchPage_unique).
    unfold unique_match in Hm. destruct (filter _ l) as [|raw [|]] eqn:Hf; [done| |done].
    injection Hm as ->. assert (raw ∈ filter (λ raw, pullMatches (pullResult raw) conn repo i = true) l) as Hin
      by (rewrite Hf; by left). by apply list_elem_of_filter in Hin as [? _].
  - apply reading_hoare. eapply reading_mono; [apply ReadPullRequest_reading|]. intros r t _ Hr pr Hpr.
    by destruct (Hr pr Hpr) as [_ (c & raw & resp & _ & _ & ?)].
  - eapply hoare_mono; [apply create_pull_hoare|]. done.
  - eapply hoare_mono; [apply update_pull_hoare|]. done.
  - eapply hoare_mono; [apply reading_hoare, Feedback_reading|]. done.
  - apply reading_hoare. unfold ListComments. destruct (_ || _); [by apply reading_ret|].
    apply bind_client; [done|]. intros c t Hb. apply page_hoare; [done|done|done|].
    intros comments resp h' Hb'. by apply reading_ret.
  - unfold AddComment. destruct (_ || _ || _) eqn:Hbad; [by apply hoare_ret|].
    apply orb_false_iff in Hbad as [[Hn Hbody%bool_decide_eq_false]%orb_false_iff Hlen].
    eapply hoare_mono; [apply (comment_hoare _ (λ c, pu_comment c org name number body)
      (GCreateComment org name number body))|done].
    intros a h. split; [done|]. split_and!; [done|done|lia|]. split; [done|lia].
  - unfold ReplyToReview. destruct (_ || _ || _ || _) eqn:Hbad; [by apply hoare_ret|].
    apply orb_false_iff in Hbad as [[[Hn Hp]%orb_false_iff Hbody%bool_decide_eq_false]%orb_false_iff Hlen].
    eapply hoare_mono; [apply (comment_hoare _ (λ c, pu_reply c org name number body parent)
      (GReply org name number body parent))|done].
    intros a h. split; [done|]. split_and!; [done|done|done|lia|lia|]. split; [done|lia].
Qed.
End Perform.

(** ** Properties *)

(** C15: no collaboration call leaves the recorded repository.  For every
    operation, each call other than the identity lookup itself is about the
    repository of the object and comes after the host confirmed its recorded ID
    and full name, with neither object being deleted; nothing is written but the
    one write the operation asks for, with its validated arguments, at most
    once: a pull request is opened only with the branch seen at the requested
    commit, and edited only after it was read as the bound one; and a pull
    request that is returned for a binding matches it. *)
Theorem Collaboration_bound {W} `{GitHub W} `{Pulls W} (conn : Connection) (cred : Credential)
    (repo : Repository) (op : Operation) (w w' : W) r t
    (Hrun : perform conn cred repo op w = (r, w', t)) :
  (∀ before e after, t = before ++ e :: after → op_guard conn repo op before e) ∧
  op_result conn repo op r.
Proof. exact (hoare_run _ _ _ _ _ _ _ (perform_operation_hoare conn repo cred op) Hrun). Qed.

(** Feedback is complete and about one commit.  The returned checks are all
    check runs the host lists for the commit, as many as it counts, with distinct
    IDs, each with its output and all of its annotations; the reviews are all
    submitted reviews of that commit, each with all of its comments on it; every
    text is valid UTF-8 of at most 16 KiB; the pull request was at that commit
    and in the same state before and after; and the response stays within
    480 KiB. *)
Theorem Feedback_complete {W} `{GitHub W} `{Pulls W} (conn : Connection) (cred : Credential)
    (repo : Repository) (number : Z) (commit : string) (w w' : W) r t
    (Hrun : PullRequestFeedback conn cred repo number commit w = (r, w', t)) :
  feedback_result conn repo number commit r t.
Proof.
  exact (proj2 (hoare_run _ _ _ _ _ _ _ (reading_hoare conn repo (OpFeedback number commit) _ _ []
    (Feedback_reading conn repo (OpFeedback number commit) cred [] number commit)) Hrun)).
Qed.

(** FindPullRequest is a search: its page-by-page scan, stopped at the first
    ambiguity, finds exactly what filtering the whole listing by the binding
    leaves: no pull request when none matches, the one that does, never one of
    several. *)
Theorem FindPullRequest_unique {W} `{GitHub W} `{Pulls W} (conn : Connection) (cred : Credential)
    (repo : Repository) (i : PullRequestInput) (w w' : W) found t
    (Hrun : FindPullRequest conn cred repo i w = (inr found, w', t)) :
  ∃ l, numbered (pull_pages conn repo i t) 1 l ∧ unique_match conn repo i l found.
Proof.
  assert (hoare (op_guard conn repo (OpFind i)) [] (FindPullRequest (W := W) conn cred repo i)
    (λ r h', ∀ res, r = inr res → ∃ l, numbered (pull_pages conn repo i h') 1 l ∧
       unique_match conn repo i l res)) as Hh.
  { apply reading_hoare. unfold FindPullRequest. destruct (negb _); [by apply reading_ret|].
    apply bind_client; [done|]. intros c t0 Hb. eapply reading_mono; [by apply findPages_reading|].
    intros r t' _ Hr res Hres. destruct (Hr res Hres) as (l & Hl & Hm). exists l.
    split; [done|by apply matchPage_unique]. }
  by apply (proj2 (hoare_run _ _ _ _ _ _ _ Hh Hrun)).
Qed.

(** A host with one pull request, one annotated check and one discussed review. *)
Definition demo_sha : string := "0123456789abcdef0123456789abcdef01234567".
Definition demo_pull : GPull := {|
  gq_Number := 3; gq_HTMLURL := "https://github.com/acme/app/pull/3"; gq_BaseRepo := "acme/app";
  gq_HeadRepo := "Acme/App"; gq_Head := "feature"; gq_Base := "main"; gq_SHA := demo_sha;
  gq_State := "open"; gq_Merged := false; gq_MergeCommit := ""; gq_Merger := "";
  gq_MergerType := ""; gq_MergedAt := zeroTime |}.
Definition demo_comment (id : Z) (body : string) : GComment := {|
  gc_ID := id; gc_HTMLURL := ""; gc_Body := body; gc_Login := "ann"; gc_UserType := "User";
  gc_UpdatedAt := 0 |}.
Definition fixed_pulls : Pulls unit := {|
  pu_branches := λ _ _ _ _ w, (GOk [Some "main"; Some "feature"] (http 200), w);
  pu_list := λ _ _ _ _ _ p w,
    (if decide (p = 1%Z) then GOk [] (Some {| rsp_StatusCode := 200; rsp_NextPage := 2; rsp_Scopes := "" |})
     else GOk [demo_pull] (http 200), w);
  pu_get := λ _ _ _ _ w, (GOk demo_pull (http 200), w);
  pu_create := λ _ _ _ _ _ _ _ w, (GOk demo_pull (http 201), w);
  pu_edit := λ _ _ _ _ _ _ w, (GOk demo_pull (http 200), w);
  pu_checks := λ _ _ _ sha _ w, (GOk {| gk_Total := 1; gk_Runs := [
    {| gk_CheckID := 9; gk_App := 4; gk_Name := "ci"; gk_Head := sha; gk_Status := "completed";
       gk_Conclusion := "failure"; gk_DetailsURL := ""; gk_OutTitle := "1 error";
       gk_OutSummary := ""; gk_OutText := ""; gk_Annotations := 1 |}] |} (http 200), w);
  pu_annotations := λ _ _ _ _ _ w, (GOk [
    {| ga_Path := "main.go"; ga_StartLine := 3; ga_EndLine := 3; ga_Level := "failure";
       ga_Title := "vet"; ga_Message := "unused"; ga_RawDetails := "" |}] (http 200), w);
  pu_reviews := λ _ _ _ _ _ w, (GOk [
    {| gw_ID := 5; gw_Login := "ann"; gw_UserType := "User"; gw_Commit := demo_sha;
       gw_State := "CHANGES_REQUESTED"; gw_Body := "see below"; gw_SubmittedAt := 0 |}] (http 200), w);
  pu_review_comments := λ _ _ _ _ _ _ w, (GOk [
    {| gx_ID := 6; gx_ReviewID := 5; gx_Commit := demo_sha; gx_Path := "main.go"; gx_Line := 3;
       gx_Body := "why?" |}] (http 200), w);
  pu_comments := λ _ _ _ _ _ w, (GOk [demo_comment 1 "hello"] (http 200), w);
  pu_comment := λ _ _ _ _ body w, (GOk (demo_comment 2 body) (http 201), w);
  pu_reply := λ _ _ _ _ body _ w, (GOk (demo_comment 3 body) (http 201), w) |}.
(** The repository exists and its branch is at the pull request's commit. *)
Definition pull_host : FixedHost := {|
  fh_Repo := GOk {| gr_ID := 7; gr_FullName := "Acme/app"; gr_DefaultBranch := "main";
    gr_HTMLURL := ""; gr_CloneURL := ""; gr_SSHURL := "" |} (http 200);
  fh_Created := not_found;
  fh_Ref := GOk {| rf_Ref := "refs/heads/feature"; rf_Object := Some demo_sha |} (http 200);
  fh_Commits := []; fh_Commit := not_found; fh_Tree := not_found; fh_NewTree := not_found;
  fh_NewCommit := not_found; fh_Update := not_found; fh_Blobs := [] |}.
Definition demo_binding : PullRequestInput := {|
  pin_Head := "feature"; pin_Base := "main"; pin_Commit := demo_sha; pin_Title := "Add feature";
  pin_Body := "" |}.

Lemma Collaboration_bound_witness :
  let G := fixed_github pull_host in
  let P := fixed_pulls in
  let repo := demo_repo ∅ "7" in
  ∃ t, perform demo_conn demo_cred repo (OpCreate demo_binding) tt
    = (inr (OPull (pullResult demo_pull)), tt, t) ∧
    op_result demo_conn repo (OpCreate demo_binding) (inr (OPull (pullResult demo_pull))).
Proof.
  intros G P repo. eexists. split; [vm_compute; reflexivity|].
  refine (proj2 (Collaboration_bound demo_conn demo_cred repo (OpCreate demo_binding) tt tt
    (inr (OPull (pullResult demo_pull)))
    (perform demo_conn demo_cred repo (OpCreate demo_binding) tt).2 _)).
  vm_compute. reflexivity.
Defined.

Lemma Feedback_complete_witness :
  let G := fixed_github pull_host in
  let P := fixed_pulls in
  let repo := demo_repo ∅ "7" in
  ∃ f t, PullRequestFeedback demo_conn demo_cred repo 3 demo_sha tt = (inr f, tt, t) ∧
    ck_ID <$> fb_Checks f = [9%Z] ∧ rv_ID <$> fb_Reviews f = [5%Z] ∧
    feedback_result demo_conn repo 3 demo_sha (inr f) t.
Proof.
  intros G P repo. eexists _, _. split; [vm_compute; reflexivity|].
  split; [vm_compute; reflexivity|]. split; [vm_compute; reflexivity|].
  apply (Feedback_complete demo_conn demo_cred repo 3 demo_sha tt tt). vm_compute. reflexivity.
Defined.

Lemma FindPullRequest_unique_witness :
  let G := fixed_github pull_host in
  let P := fixed_pulls in
  let repo := demo_repo ∅ "7" in
  ∃ t, FindPullRequest demo_conn demo_cred repo demo_binding tt
    = (inr (Some (pullResult demo_pull)), tt, t) ∧
    ∃ l, numbered (pull_pages demo_conn repo demo_binding t) 1 l ∧
      unique_match demo_conn repo demo_binding l (Some (pullResult demo_pull)).
Proof.
  intros G P repo. exists (FindPullRequest demo_conn demo_cred repo demo_binding tt).2.
  split; [vm_compute; reflexivity|].
  apply (FindPullRequest_unique demo_conn demo_cred repo demo_binding tt tt). vm_compute. reflexivity.
Defined.
