(* ===== verification/Dynamic.v ===== *)
(** * The tenant's workspace seen by the MCP tools

    [mcpserver/] works on untyped objects through a dynamic client that acts
    as the caller.  Go's [any] is an inductive type, a [map[string]any] an
    association list; [unstructured]'s accessors are a class, and so are the
    client, the clock, the wait's [select] and the bundle store, which are
    operations on a world.  Every call leaves an event. *)

From S2P Require Import Prelude GoStrings GoTime Errors CommitBundle Api.
From Stdlib Require Import Ascii Lia.

#[local] Open Scope string_scope.

(** ** Go values *)

Inductive any :=
  | ANil
  | ABool (b : bool)
  | AInt (z : Z)
  | AString (s : string)
  | ASlice (l : list any)
  | AMap (m : list (string * any))
  | AMaps (l : list (list (string * any))).

Abbreviation Object := (list (string * any)) (only parsing).

(** [m[k] = v] and [m[k]] *)
Fixpoint put (m : Object) (k : string) (v : any) : Object :=
  match m with
  | [] => [(k, v)]
  | (k', v') :: m => if decide (k' = k) then (k, v) :: m else (k', v') :: put m k v
  end.
Fixpoint get (m : Object) (k : string) : any :=
  match m with
  | [] => ANil
  | (k', v) :: m => if decide (k' = k) then v else get m k
  end.

(** Type assertions. *)
Definition as_string (v : any) : option string :=
  match v with AString s => Some s | _ => None end.
Definition as_map (v : any) : option Object :=
  match v with AMap m => Some m | _ => None end.

Definition string_map (m : gmap string string) : Object :=
  (λ '(k, v), (k, AString v)) <$> map_to_list m.

(** ** [k8s.io/apimachinery/pkg/apis/meta/v1/unstructured]

    The [found] and error results the tools discard are left out. *)
Class Unstructured := {
  GetName : Object → string;
  GetAnnotations : Object → gmap string string;
  GetCreationTimestamp : Object → Time;
  NestedString : Object → list string → string;
  NestedBool : Object → list string → bool;
  NestedInt64 : Object → list string → option Z;
  NestedSlice : Object → list string → option (list any);
  NestedStringSlice : Object → list string → list string;
  NestedMap : Object → list string → option Object;
  FromUnstructured : Object → error + Repository }.

(** ** The client, the clock and the store *)

Inductive Resource :=
  | connectionsGVR | repositoriesGVR | repositoryCommitsGVR | deploykeysGVR | collaboratorsGVR
  | repositoryCheckoutsGVR | repositoryBuildStatusesGVR.

#[export] Instance Resource_eq_dec : EqDecision Resource.
Proof. solve_decision. Defined.

Inductive DynEvent :=
  | DNow (t : Time)
  | DList (k : Resource) (r : error + list Object)
  | DGet (k : Resource) (name : string) (r : error + Object)
  | DCreate (k : Resource) (o : Object) (r : error + Object)
  | DDelete (k : Resource) (name : string) (r : option error)
  | DSelect (expired : bool)
  | DCtxErr (expired : bool)
  | DPut (scope : string) (files : list File) (r : error + BundleRef)
  | DBundleGet (scope name digest : string) (r : error + Bundle)
  | DBundleDelete (scope name digest : string) (r : option error).

(** The waits run under a context with a deadline: [dyn_get_until] reads under it,
    [dyn_ctx_err] is [ctx.Err() != nil], and [dyn_select] is the [select] on it and
    on a ticker whose next tick is due at the given time: true when it took
    [ctx.Done()], false when the tick came. *)
Class Dyn (W : Type) := {
  dyn_now : W → Time * W;
  dyn_list : Resource → W → (error + list Object) * W;
  dyn_get : Resource → string → W → (error + Object) * W;
  dyn_create : Resource → Object → W → (error + Object) * W;
  dyn_delete : Resource → string → W → option error * W;
  dyn_get_until : Time → Resource → string → W → (error + Object) * W;
  dyn_select : Time → Time → W → bool * W;
  dyn_ctx_err : Time → W → bool * W;
  dyn_put : string → list File → W → (error + BundleRef) * W;
  dyn_bundle_get : string → string → string → W → (error + Bundle) * W;
  dyn_bundle_delete : string → string → string → W → option error * W }.

Abbreviation Tool W := (M W DynEvent) (only parsing).

Section Calls.
Context {W : Type} `{Dyn W}.

Definition d_now : Tool W Time := call dyn_now DNow.
Definition d_list (k : Resource) : Tool W (error + list Object) := call (dyn_list k) (DList k).
Definition d_get (k : Resource) (name : string) : Tool W (error + Object) :=
  call (dyn_get k name) (DGet k name).
Definition d_create (k : Resource) (o : Object) : Tool W (error + Object) :=
  call (dyn_create k o) (DCreate k o).
Definition d_delete (k : Resource) (name : string) : Tool W (option error) :=
  call (dyn_delete k name) (DDelete k name).
Definition d_get_until (deadline : Time) (k : Resource) (name : string) : Tool W (error + Object) :=
  call (dyn_get_until deadline k name) (DGet k name).
Definition d_select (deadline due : Time) : Tool W bool := call (dyn_select deadline due) DSelect.
Definition d_ctx_err (deadline : Time) : Tool W bool := call (dyn_ctx_err deadline) DCtxErr.
Definition d_put (scope : string) (files : list File) : Tool W (error + BundleRef) :=
  call (dyn_put scope files) (DPut scope files).
Definition d_bundle_get (scope name digest : string) : Tool W (error + Bundle) :=
  call (dyn_bundle_get scope name digest) (DBundleGet scope name digest).
Definition d_bundle_delete (scope name digest : string) : Tool W (option error) :=
  call (dyn_bundle_delete scope name digest) (DBundleDelete scope name digest).
End Calls.

(** Symbolic execution across the calls above. *)
Ltac is_dyn m :=
  lazymatch m with
  | d_now => idtac | d_list _ => idtac | d_get _ _ => idtac | d_create _ _ => idtac
  | d_delete _ _ => idtac | d_get_until _ _ _ => idtac
  | d_select _ _ => idtac | d_ctx_err _ => idtac | d_put _ _ => idtac
  | d_bundle_get _ _ _ => idtac | d_bundle_delete _ _ _ => idtac
  end.
Ltac dyn_all :=
  repeat (first
    [ all_step
    | lazymatch goal with
      | |- emits ?m _ => is_dyn m; apply emits_all_call; intros ?
      end ]; cbn beta iota zeta).

(** ** Polling

    The loop the three waits share: [Get], stop at a terminal phase, [select].
    [timed_out] is what the caller gets of the last object read when the
    context is done.  [None] is running out of fuel. *)
Definition terminal (phase : string) : bool :=
  bool_decide (phase = RepositoryCommitPhaseSucceeded) ||
  bool_decide (phase = RepositoryCommitPhaseFailed).

Section Poll.
Context {W : Type} `{Dyn W} `{Unstructured}.

(** The [for] of a wait: [deadline] is its context's, [due] the earliest time of
    the next tick. *)
Fixpoint poll_loop (k : Resource) (kind : string) (timed_out : Object → option Object)
    (name : string) (deadline : Time) (fuel : nat) (due : Time)
    : Tool W (option (error + option Object)) :=
  match fuel with
  | O => mret None
  | S fuel =>
      r ← d_get_until deadline k name;
      match r with
      | inl err =>
          expired ← d_ctx_err deadline;
          mret (Some (if expired : bool then inr None
                      else inl (Wrap ("get " +:+ kind +:+ " " +:+ Quote name +:+ ": ") err)))
      | inr obj =>
          if terminal (NestedString obj ["status"; "phase"]) then mret (Some (inr (Some obj)))
          else
            expired ← d_select deadline due;
            if expired : bool then mret (Some (inr (timed_out obj)))
            else poll_loop k kind timed_out name deadline fuel (Add due Second)
      end
  end.

(** [context.WithTimeout(ctx, timeout)], [time.NewTicker(time.Second)], the loop. *)
Definition poll (k : Resource) (kind : string) (timed_out : Object → option Object)
    (fuel : nat) (name : string) (timeout : Duration) : Tool W (option (error + option Object)) :=
  start ← d_now;
  poll_loop k kind timed_out name (Add start timeout) fuel (Add start Second).
End Poll.

(** What the waits rely on of the clock, the ticker and the client: a clock
    reading is not ahead of the clock, which does not run backwards; a tick is
    received no earlier than it is due; and a request whose context's deadline has
    passed is answered with an error. *)
Class Clock (W : Type) `{Dyn W} := {
  clock : W → Time;
  now_clock w t w' : dyn_now w = (t, w') → (t ≤ clock w')%Z;
  get_clock deadline k n w r w' : dyn_get_until deadline k n w = (r, w') → (clock w ≤ clock w')%Z;
  get_expired deadline k n w o w' : dyn_get_until deadline k n w = (inr o, w') → (clock w < deadline)%Z;
  select_tick deadline due w w' : dyn_select deadline due w = (false, w') → (due ≤ clock w')%Z }.

Section PollLemmas.
Context {W : Type} `{Dyn W} `{Unstructured} `{!Clock W}.
#[local] Open Scope Z_scope.

(** Every turn but the first follows a tick, so the fuel bounds the time. *)
Lemma poll_loop_terminates k kind timed_out name deadline fuel due w :
  due - Second ≤ clock w → (1 ≤ fuel)%nat → deadline ≤ due + (Z.of_nat fuel - 2) * Second →
  ∃ r w' t, poll_loop k kind timed_out name deadline fuel due w = (Some r, w', t).
Proof.
  assert (Second = 1000000000) as Hsec by reflexivity.
  revert due w. induction fuel as [|fuel IH]; intros due w Hw Hf Hd; [lia|]. cbn [poll_loop].
  unfold mbind, M_bind, d_get_until, call.
  destruct (dyn_get_until deadline k name w) as [[e|obj] w1] eqn:Hg.
  { unfold d_ctx_err, call. destruct (dyn_ctx_err deadline w1). eauto. }
  pose proof (get_expired _ _ _ _ _ _ Hg) as Hlive.
  destruct (terminal _); [eauto|].
  unfold d_select, call. destruct (dyn_select deadline due w1) as [[] w2] eqn:Hs; [eauto|].
  pose proof (select_tick _ _ _ _ Hs) as Htick.
  pose proof (get_clock _ _ _ _ _ _ Hg).
  destruct (IH (Add due Second) w2) as (r & w3 & t & Hr); unfold Add in *; [lia..|].
  rewrite Hr. eauto.
Qed.

(** A wait of [n] seconds takes at most [n + 1] turns. *)
Lemma poll_returns k kind timed_out name timeout fuel :
  (1 ≤ fuel)%nat → timeout ≤ (Z.of_nat fuel - 1) * Second →
  emits (poll k kind timed_out fuel name timeout) (λ r _, is_Some r).
Proof.
  assert (Second = 1000000000) as Hsec by reflexivity.
  intros Hf Ht w. unfold poll, mbind, M_bind, d_now, call.
  destruct (dyn_now w) as [start w1] eqn:Hn. pose proof (now_clock _ _ _ Hn) as Hc.
  destruct (poll_loop_terminates k kind timed_out name (Add start timeout) fuel (Add start Second) w1)
    as (r & w' & t & ->); unfold Add in *; [lia..|done].
Qed.
End PollLemmas.

Section PollReads.
Context {W : Type} `{Dyn W} `{Unstructured}.

(** What a wait does: it reads the object, the clock and the context. *)
Definition polls (k : Resource) (name : string) (e : DynEvent) : Prop :=
  match e with
  | DGet k' name' _ => k' = k ∧ name' = name
  | DNow _ | DSelect _ | DCtxErr _ => True
  | _ => False
  end.

(** A terminal object was read, or the last one before the deadline. *)
Definition waited (k : Resource) (timed_out : Object → option Object) (name : string)
    (r : option (error + option Object)) (t : list DynEvent) : Prop :=
  Forall (polls k name) t ∧
  match r with
  | Some (inr (Some obj)) =>
      DGet k name (inr obj) ∈ t ∧ terminal (NestedString obj ["status"; "phase"]) = true ∨
      ∃ o, timed_out o = Some obj ∧ DGet k name (inr o) ∈ t ∧
           terminal (NestedString o ["status"; "phase"]) = false
  | _ => True
  end.

Lemma waited_cons k timed_out name r e t :
  polls k name e → waited k timed_out name r t → waited k timed_out name r (e :: t).
Proof.
  intros He [Hp Hr]. split; [by constructor|]. destruct r as [[e'|[o|]]|]; [done| |done|done].
  destruct Hr as [[? ?]|(o' & ? & ? & ?)]; [left|right; exists o'];
    split_and!; try done; by apply list_elem_of_further.
Qed.

Lemma poll_loop_emits k kind timed_out name deadline fuel due :
  emits (poll_loop k kind timed_out name deadline fuel due) (waited k timed_out name).
Proof.
  revert due. induction fuel as [|fuel IH]; intros due; cbn [poll_loop]; [by apply emits_ret|].
  apply emits_bind, emits_call. intros [e|obj].
  { apply emits_bind, emits_call. intros b. apply emits_ret.
    split; [|by destruct b]. repeat (constructor; [done|]). constructor. }
  destruct (terminal _) eqn:Ht.
  { apply emits_ret. split; [by repeat constructor|]. left. split; [by left|done]. }
  apply emits_bind, emits_call. intros [].
  { apply emits_ret. split; [by repeat constructor|]. destruct (timed_out obj) eqn:Ho; [|done].
    right. exists obj. split_and!; [done|by left|done]. }
  eapply emits_mono; [exact (IH (Add due Second))|]. intros r t Hr. by apply waited_cons, waited_cons.
Qed.

Lemma poll_emits k kind timed_out fuel name timeout :
  emits (poll k kind timed_out fuel name timeout) (waited k timed_out name).
Proof.
  unfold poll. apply emits_bind, emits_call. intros start.
  eapply emits_mono; [apply poll_loop_emits|]. intros r t Hr. by apply (waited_cons _ _ _ _ (DNow start)).
Qed.
End PollReads.

(** ** Reference accessors

    What [unstructured] does, for running the tools on examples. *)

Fixpoint nested (v : any) (path : list string) : any :=
  match path with
  | [] => v
  | f :: path => match v with AMap m => nested (get m f) path | _ => ANil end
  end.
Definition slice_strings (l : list any) : list string := omap as_string l.

#[export] Instance unstructured : Unstructured := {
  GetName o := default "" (as_string (nested (AMap o) ["metadata"; "name"]));
  GetAnnotations o :=
    match nested (AMap o) ["metadata"; "annotations"] with
    | AMap m => list_to_map (omap (λ '(k, v), (λ s, (k, s)) <$> as_string v) m)
    | _ => ∅
    end;
  GetCreationTimestamp o :=
    default zeroTime
      (as_string (nested (AMap o) ["metadata"; "creationTimestamp"]) ≫= ParseRFC3339);
  NestedString o path := default "" (as_string (nested (AMap o) path));
  NestedBool o path := match nested (AMap o) path with ABool b => b | _ => false end;
  NestedInt64 o path := match nested (AMap o) path with AInt z => Some z | _ => None end;
  NestedSlice o path := match nested (AMap o) path with ASlice l => Some l | _ => None end;
  NestedStringSlice o path :=
    match nested (AMap o) path with
    | ASlice l => if decide (length (slice_strings l) = length l) then slice_strings l else []
    | _ => []
    end;
  NestedMap o path := as_map (nested (AMap o) path);
  FromUnstructured o :=
    inr {| rp_Meta := {| om_Name := default "" (as_string (nested (AMap o) ["metadata"; "name"]));
             om_Namespace := "";
             om_UID := default "" (as_string (nested (AMap o) ["metadata"; "uid"]));
             om_Generation := 0; om_Labels := ∅; om_Annotations := ∅; om_Finalizers := [];
             om_DeletionTimestamp := None; om_OwnerReferences := [] |};
           rp_Spec := {| rs_ConnectionRef := ""; rs_Name := ""; rs_Owner := "";
             rs_Visibility := ""; rs_Description := ""; rs_DefaultBranch := "";
             rs_AutoInit := false |};
           rp_Status := {| rt_ObservedGeneration := 0; rt_RepoID := ""; rt_HTMLURL := "";
             rt_CloneURL := ""; rt_SSHURL := ""; rt_Conditions := [] |} |} }.

(** ** A fixed workspace

    [get] answers every read; a created object comes back with its cluster; the
    store answers [ref]; the world is the clock, in seconds, which only the
    ticks of a wait advance. *)
Definition created_in (cluster : string) (o : Object) : Object :=
  match get o "metadata" with
  | AMap m => put o "metadata" (AMap (put m "annotations" (AMap [("kcp.io/cluster", AString cluster)])))
  | _ => o
  end.

Definition fixed_dyn (get : Resource → error + Object) (cluster : string) (stored : error + BundleRef)
    (bundle : error + Bundle) : Dyn nat := {|
  dyn_now := λ w, ((Z.of_nat w * Second)%Z, w);
  dyn_list := λ k w, (match get k with inl e => inl e | inr o => inr [o] end, w);
  dyn_get := λ k _ w, (get k, w);
  dyn_create := λ k o w, (inr (created_in cluster o), w);
  dyn_delete := λ _ _ w, (None, w);
  dyn_get_until := λ deadline k _ w,
    (if decide (deadline ≤ Z.of_nat w * Second)%Z then inl (ENew "context deadline exceeded")
     else get k, w);
  dyn_select := λ deadline due w,
    if decide (deadline ≤ due)%Z then (true, w)
    else (false, Nat.max w (Z.to_nat ((due + Second - 1) / Second)));
  dyn_ctx_err := λ deadline w, (bool_decide (deadline ≤ Z.of_nat w * Second)%Z, w);
  dyn_put := λ _ _ w, (stored, w);
  dyn_bundle_get := λ _ _ _ w, (bundle, w);
  dyn_bundle_delete := λ _ _ _ w, (None, w) |}.

Definition fixed_clock get cluster stored bundle :
  @Clock nat (fixed_dyn get cluster stored bundle).
Proof.
  assert (Second = 1000000000)%Z as Hs by reflexivity.
  refine {| clock := λ w, (Z.of_nat w * Second)%Z |}.
  - intros w t w'. cbn [dyn_now fixed_dyn]. by intros [= <- <-].
  - intros deadline k n w r w'. cbn [dyn_get_until fixed_dyn]. by intros [= _ <-].
  - intros deadline k n w o w'. cbn [dyn_get_until fixed_dyn]. intros [= Ho <-].
    case_decide; [done|lia].
  - intros deadline due w w'. cbn [dyn_select fixed_dyn]. case_decide; intros [= <-].
    pose proof (Z.div_mod (due + Second - 1) Second ltac:(lia)) as Hdm.
    pose proof (Z.mod_pos_bound (due + Second - 1) Second ltac:(lia)). lia.
Defined.
