(* ===== verification/TenantClient.v ===== *)
(** * tenant/client.go and the Secret reading of credentials.go

    [ClientFactory] builds dynamic clients that act as the caller: the base
    configuration lends its host and its trust roots, never its credential.
    Clients are cached by cluster and token hash; callers run concurrently, so
    [For] is three atomic steps and the system a step relation.  Clients and
    the library's constructor are parameters, as is [net/url]. *)

From S2P Require Import Prelude GoStrings Encoding GoTime Errors CommitBundle Api Tenant Dynamic.
From Stdlib Require Import Ascii Lia.

#[local] Open Scope string_scope.

(** ** client.go: configurations *)

(** [rest.TLSClientConfig] and the fields of [rest.Config] in use. *)
Record TLSClientConfig := {
  tls_Insecure : bool; tls_ServerName : string;
  tls_CertFile : string; tls_KeyFile : string; tls_CAFile : string;
  tls_CertData : string; tls_KeyData : string; tls_CAData : string;
  tls_NextProtos : list string }.
Record RestConfig := { rc_Host : string; rc_BearerToken : string; rc_TLS : TLSClientConfig }.

Record ClientFactory := { cf_baseHost : string; cf_baseTLS : TLSClientConfig }.

Section BaseHost.
Context {U : Type} (url_Parse : string → error + U) (u_Path : U → string)
        (u_setPath : string → U → U) (u_String : U → string).

Definition stripClusterSuffix (host : string) : error + string :=
  match url_Parse host with
  | inl err => inl (Wrap ("parse base kubeconfig host " +:+ Quote host +:+ ": ") err)
  | inr u =>
      match String.index 0 "/clusters/" (u_Path u) with
      | None => inr (TrimRightByte slash host)
      | Some idx => inr (TrimRightByte slash (u_String (u_setPath (stake idx (u_Path u)) u)))
      end
  end.

Definition without_certificate (tls : TLSClientConfig) : TLSClientConfig :=
  {| tls_Insecure := tls_Insecure tls; tls_ServerName := tls_ServerName tls;
     tls_CertFile := ""; tls_KeyFile := ""; tls_CAFile := tls_CAFile tls;
     tls_CertData := ""; tls_KeyData := ""; tls_CAData := tls_CAData tls;
     tls_NextProtos := tls_NextProtos tls |}.

Definition NewClientFactory (base : option RestConfig) : option ClientFactory :=
  match base with
  | None => None
  | Some base =>
      let baseHost := match stripClusterSuffix (rc_Host base) with
                      | inl _ => TrimRightByte slash (rc_Host base)
                      | inr host => host
                      end in
      Some {| cf_baseHost := baseHost; cf_baseTLS := without_certificate (rc_TLS base) |}
  end.
End BaseHost.

Definition hashToken (token : string) : string := hex_encode (stake 8 (sha256 token)).
Definition cacheKey (clusterID token : string) : string :=
  clusterID +:+ ":" +:+ hashToken token.
Definition clientConfig (f : ClientFactory) (clusterID token : string) : RestConfig :=
  {| rc_Host := cf_baseHost f +:+ "/clusters/" +:+ clusterID; rc_BearerToken := token;
     rc_TLS := cf_baseTLS f |}.

(** ** client.go: [For], one critical section at a time *)

Section Clients.
Context {C : Type} (f : ClientFactory).

(** Where a caller is: before the lookup, after a miss, with a client of its
    own, or answered. *)
Inductive Caller :=
  | Asking (clusterID token : string)
  | Missed (clusterID token : string)
  | Built (clusterID token : string) (d : C)
  | Answered (clusterID token : string) (r : error + C).

Abbreviation Hot := (gmap string C) (only parsing).

(** The next step; [made] is what [dynamic.NewForConfig] answers. *)
Definition advance (made : RestConfig → error + C) (hot : Hot) (c : Caller) : Hot * Caller :=
  match c with
  | Asking clusterID token =>
      if decide (token = "") then
        (hot, Answered clusterID token
                (inl (ENew "no bearer token on request — cannot act on the tenant's behalf")))
      else match hot !! cacheKey clusterID token with
           | Some dyn => (hot, Answered clusterID token (inr dyn))
           | None => (hot, Missed clusterID token)
           end
  | Missed clusterID token =>
      match made (clientConfig f clusterID token) with
      | inl err => (hot, Answered clusterID token
          (inl (Wrap ("dynamic client for cluster " +:+ Quote clusterID +:+ ": ") err)))
      | inr d => (hot, Built clusterID token d)
      end
  | Built clusterID token d =>
      match hot !! cacheKey clusterID token with
      | Some existing => (hot, Answered clusterID token (inr existing))
      | None => (<[cacheKey clusterID token := d]> hot, Answered clusterID token (inr d))
      end
  | Answered _ _ _ => (hot, c)
  end.

(** A caller that is not interrupted. *)
Definition For (made : RestConfig → error + C) (clusterID token : string) (hot : Hot)
    : (error + C) * Hot :=
  let '(hot, c) := advance made hot (Asking clusterID token) in
  let '(hot, c) := advance made hot c in
  let '(hot, c) := advance made hot c in
  match c with
  | Answered _ _ r => (r, hot)
  | _ => (inl (ENew "unreachable"), hot)
  end.

Record Factory := { fa_hot : Hot; fa_callers : list Caller }.

(** Any caller takes the next step; [makes cfg d]: the library may build [d]
    from [cfg]. *)
Definition factory_step (makes : RestConfig → C → Prop) (s s' : Factory) : Prop :=
  ∃ i c made, fa_callers s !! i = Some c ∧ (∀ cfg d, made cfg = inr d → makes cfg d) ∧
    s' = {| fa_hot := (advance made (fa_hot s) c).1;
            fa_callers := <[i := (advance made (fa_hot s) c).2]> (fa_callers s) |}.
End Clients.
Arguments Caller : clear implicits.
Arguments Factory : clear implicits.

(** ** credentials.go *)

Section Secrets.
Context `{Unstructured} (getenv : string → string).

Fixpoint decodeData (m : Object) (out : gmap string string) : error + gmap string string :=
  match m with
  | [] => inr out
  | (k, AString s) :: m =>
      match DecodeString s with
      | None => inl (Wrap ("decoding secret data key " +:+ Quote k +:+ ": ") (ENew "illegal base64 data"))
      | Some dec => decodeData m (<[k := dec]> out)
      end
  | _ :: m => decodeData m out
  end.

Fixpoint stringData (m : Object) (out : gmap string string) : gmap string string :=
  match m with
  | [] => out
  | (k, AString s) :: m => stringData m (<[k := s]> out)
  | _ :: m => stringData m out
  end.

(** Go ranges over the maps in any order; theirs here is that of the list. *)
Definition decodeSecretData (obj : Object) : error + gmap string string :=
  match (match NestedMap obj ["data"] with Some data => decodeData data ∅ | None => inr ∅ end) with
  | inl err => inl err
  | inr out => inr (match NestedMap obj ["stringData"] with Some sd => stringData sd out | None => out end)
  end.

(** [get] is the client's read of a Secret. *)
Definition ResolveToken (get : string → string → error + Object) (namespace name key : string)
    : error + string :=
  if decide (name = "") then inl (ENew "connection secretRef.name is empty")
  else
    let namespace := if decide (namespace = "") then DefaultCredentialsNamespace getenv
                     else namespace in
    let key := if decide (key = "") then DefaultTokenKey else key in
    match get namespace name with
    | inl err =>
        if IsNotFound err then inl ECredentialsMissing
        else if IsForbidden err then inl EAPIBindingMissing
        else inl (Wrap ("get secret " +:+ namespace +:+ "/" +:+ name +:+ ": ") err)
    | inr obj =>
        match decodeSecretData obj with
        | inl err => inl err
        | inr data =>
            match data !! key with
            | None => inl (ENew ("secret " +:+ namespace +:+ "/" +:+ name +:+ " has no key " +:+ Quote key))
            | Some v => inr v
            end
        end
    end.
End Secrets.

(** ** Lemmas: cache keys *)

Lemma length_stake n s : (n ≤ String.length s)%nat → String.length (stake n s) = n.
Proof. unfold stake. rewrite <- !length_bytes_of, bytes_of_of_bytes, length_take. lia. Qed.
Lemma hashToken_length t : String.length (hashToken t) = 16%nat.
Proof. unfold hashToken. by rewrite hex_encode_length, length_stake by (rewrite sha256_length; lia). Qed.

(** The hash has a fixed length, so a key says which cluster it is for. *)
Lemma cacheKey_inj a b t u : cacheKey a t = cacheKey b u → a = b ∧ hashToken t = hashToken u.
Proof.
  unfold cacheKey. intros He%(f_equal bytes_of). rewrite !bytes_of_app in He.
  apply app_inj_2 in He as [Ha He]; [|by rewrite !length_app, !length_bytes_of, !hashToken_length].
  apply app_inv_head in He.
  split; [rewrite <- (of_bytes_bytes_of a), Ha; apply of_bytes_bytes_of|].
  rewrite <- (of_bytes_bytes_of (hashToken t)), He. apply of_bytes_bytes_of.
Qed.

(** ** Lemmas: the factory *)

Section Invariant.
Context {C : Type} (f : ClientFactory) (makes : RestConfig → C → Prop).
Implicit Types (hot : gmap string C) (c : Caller C).

Definition hot_ok hot : Prop := ∀ k d, hot !! k = Some d →
  ∃ clusterID token, k = cacheKey clusterID token ∧ token ≠ "" ∧ makes (clientConfig f clusterID token) d.
Definition caller_ok hot c : Prop :=
  match c with
  | Asking _ _ => True
  | Missed _ token => token ≠ ""
  | Built clusterID token d => token ≠ "" ∧ makes (clientConfig f clusterID token) d
  | Answered clusterID token (inr d) => token ≠ "" ∧ hot !! cacheKey clusterID token = Some d
  | Answered _ _ (inl _) => True
  end.

Lemma advance_ok made hot c :
  (∀ cfg d, made cfg = inr d → makes cfg d) → hot_ok hot → caller_ok hot c →
  hot ⊆ (advance f made hot c).1 ∧ hot_ok (advance f made hot c).1 ∧
  caller_ok (advance f made hot c).1 (advance f made hot c).2.
Proof.
  intros Hm Hh Hc. destruct c as [cl tok|cl tok|cl tok d|cl tok r]; cbn [advance].
  - case_decide; [by split_and!|].
    destruct (hot !! cacheKey cl tok) as [d|] eqn:Hk; by split_and!.
  - destruct (made (clientConfig f cl tok)) as [e|d] eqn:He; split_and!; try done.
    split; [done|by apply Hm].
  - destruct Hc as [Ht Hd]. destruct (hot !! cacheKey cl tok) as [d'|] eqn:Hk; [by split_and!|].
    cbn [fst snd]. split_and!.
    + by apply insert_subseteq.
    + intros k d' [[<- <-]|[_ Hl]]%lookup_insert_Some; [by exists cl, tok|by apply Hh].
    + split; [done|by rewrite lookup_insert_eq].
  - by split_and!.
Qed.

Lemma caller_ok_mono hot hot' c : hot ⊆ hot' → caller_ok hot c → caller_ok hot' c.
Proof.
  intros Hs. destruct c as [| | |cl tok [e|d]]; try done. intros [Ht Hk].
  split; [done|by eapply lookup_weaken].
Qed.

Definition factory_ok (s : Factory C) : Prop :=
  hot_ok (fa_hot s) ∧ Forall (caller_ok (fa_hot s)) (fa_callers s).

Lemma factory_step_ok s s' : factory_ok s → factory_step f makes s s' → factory_ok s'.
Proof.
  intros [Hh Hc] (i & c & made & Hi & Hm & ->).
  destruct (advance_ok made (fa_hot s) c Hm Hh) as (Hs & Hh' & Hc').
  { by eapply Forall_lookup_1. }
  split; [done|]. apply Forall_insert; [|done].
  eapply Forall_impl; [exact Hc|]. intros x. by apply caller_ok_mono.
Qed.
End Invariant.

(** ** Lemmas: Secret data *)

Lemma get_absent (m : Object) k : k ∉ m.*1 → get m k = ANil.
Proof.
  induction m as [|[k' v] m IH]; [done|]. rewrite fmap_cons. cbn [get fst].
  intros [Hk Hm]%not_elem_of_cons. rewrite decide_False by done. by apply IH.
Qed.

Lemma stringData_lookup m out k : NoDup m.*1 →
  stringData m out !! k = match as_string (get m k) with Some s => Some s | None => out !! k end.
Proof.
  revert out. induction m as [|[k' v] m IH]; intros out Hnd; [done|].
  rewrite fmap_cons in Hnd. apply NoDup_cons in Hnd as [Hk' Hnd]. cbn [fst get] in *.
  case_decide as Hk; [subst k'|].
  - apply get_absent in Hk'. destruct v; cbn [stringData]; rewrite IH, Hk' by done; try done.
    apply lookup_insert_eq.
  - destruct v; cbn [stringData]; rewrite IH by done; try done. by rewrite lookup_insert_ne.
Qed.

Lemma decodeData_lookup m out out' k : NoDup m.*1 → decodeData m out = inr out' →
  out' !! k = match as_string (get m k) with Some s => DecodeString s | None => out !! k end.
Proof.
  revert out. induction m as [|[k' v] m IH]; intros out Hnd Hd; [by injection Hd as ->|].
  rewrite fmap_cons in Hnd. apply NoDup_cons in Hnd as [Hk' Hnd]. cbn [fst get] in *.
  assert (Hrest : ∀ o, decodeData m o = inr out' →
    out' !! k = match as_string (get m k) with Some s => DecodeString s | None => o !! k end)
    by (intros o; by apply IH).
  case_decide as Hk; [subst k'; apply get_absent in Hk'; rewrite Hk' in Hrest|];
    destruct v; cbn [decodeData] in Hd; try by apply Hrest in Hd.
  - destruct (DecodeString s) as [dec|] eqn:Hdec; [|done]. apply Hrest in Hd.
    rewrite Hd. cbn [as_string]. by rewrite Hdec, lookup_insert_eq.
  - destruct (DecodeString s) as [dec|] eqn:Hdec; [|done]. apply Hrest in Hd.
    by rewrite lookup_insert_ne in Hd.
Qed.

(** What a resolved token is: the raw string under [stringData] if the key has
    one, else the decoded one under [data]; the Secret is the named one in the
    given or default namespace. *)
Lemma ResolveToken_reads `{Unstructured} getenv get namespace name key v :
  (∀ obj path m, NestedMap obj path = Some m → NoDup m.*1) →
  ResolveToken getenv get namespace name key = inr v →
  let ns := if decide (namespace = "") then DefaultCredentialsNamespace getenv else namespace in
  let k := if decide (key = "") then DefaultTokenKey else key in
  name ≠ "" ∧ ∃ obj, get ns name = inr obj ∧
    ((∃ sd, NestedMap obj ["stringData"] = Some sd ∧ as_string (Dynamic.get sd k) = Some v) ∨
     (∃ data s, NestedMap obj ["data"] = Some data ∧ as_string (Dynamic.get data k) = Some s ∧
        DecodeString s = Some v)).
Proof.
  intros Hnd. unfold ResolveToken. case_decide as Hn; [done|]. cbv zeta. intros Hr. split; [done|].
  set (ns := if decide (namespace = "") then _ else _) in *.
  set (k := if decide (key = "") then _ else _) in *.
  destruct (get ns name) as [e|obj] eqn:Hg.
  { destruct (IsNotFound e); [done|]. by destruct (IsForbidden e). }
  exists obj. split; [done|]. unfold decodeSecretData in Hr.
  assert (Hdata : ∀ out, match NestedMap obj ["data"] with
      | Some data => decodeData data ∅ | None => inr ∅ end = inr out → out !! k = Some v →
    ∃ data s, NestedMap obj ["data"] = Some data ∧ as_string (Dynamic.get data k) = Some s ∧
        DecodeString s = Some v).
  { intros out Ho Hk. destruct (NestedMap obj ["data"]) as [data|] eqn:Hdm;
      [|injection Ho as <-; by rewrite lookup_empty in Hk].
    rewrite (decodeData_lookup data ∅ out k (Hnd _ _ _ Hdm) Ho) in Hk.
    destruct (as_string (Dynamic.get data k)) as [s|] eqn:Hs; [|by rewrite lookup_empty in Hk].
    by exists data, s. }
  destruct (match NestedMap obj ["data"] with Some data => _ | None => _ end) as [e|out]; [done|].
  destruct (NestedMap obj ["stringData"]) as [sd|] eqn:Hsd.
  - destruct (stringData sd out !! k) as [u|] eqn:Hk; [|done]. injection Hr as ->.
    rewrite stringData_lookup in Hk by (by eapply Hnd).
    destruct (as_string (Dynamic.get sd k)) as [s|] eqn:Hs; [|right; by apply (Hdata out)].
    injection Hk as ->. left. by exists sd.
  - destruct (out !! k) as [u|] eqn:Hk; [|done]. injection Hr as ->. right. by apply (Hdata out).
Qed.

(** ** Property *)

(** C23: a dynamic client never speaks for anybody but its caller.  However
    concurrent callers interleave, a client that [For] answers was built with
    the base host's path to the asked cluster, without the provider's bearer
    token or client certificate, and with the caller's token or one with the
    same 64-bit hash; and all callers with one cluster and token hash get one
    and the same client. *)
Theorem factory_sound {U C} (url_Parse : string → error + U) u_Path u_setPath u_String base f
    (makes : RestConfig → C → Prop) asking s
    (Hf : NewClientFactory url_Parse u_Path u_setPath u_String (Some base) = Some f)
    (Hrun : steps (factory_step f makes)
              {| fa_hot := ∅; fa_callers := (λ q, Asking q.1 q.2) <$> asking |} s)
    i clusterID token d (Hi : fa_callers s !! i = Some (Answered clusterID token (inr d))) :
  (∃ token', token' ≠ "" ∧ hashToken token' = hashToken token ∧
     makes {| rc_Host := cf_baseHost f +:+ "/clusters/" +:+ clusterID; rc_BearerToken := token';
              rc_TLS := without_certificate (rc_TLS base) |} d) ∧
  ∀ j token' d', fa_callers s !! j = Some (Answered clusterID token' (inr d')) →
    hashToken token' = hashToken token → d' = d.
Proof.
  assert (factory_ok f makes s) as [Hh Hc].
  { revert Hrun. apply steps_invariant.
    - intros x y. by apply factory_step_ok.
    - split; [intros k x Hk; cbn in Hk; by rewrite lookup_empty in Hk|].
      apply Forall_fmap, Forall_true. by intros []. }
  pose proof (Forall_lookup_1 _ _ _ _ Hc Hi) as [Ht Hk]. split.
  - destruct (Hh _ _ Hk) as (cl & tok & [-> Heq]%cacheKey_inj & Ht' & Hd).
    exists tok. split_and!; [done|done|]. injection Hf as <-. exact Hd.
  - intros j token' d' Hj Heq. pose proof (Forall_lookup_1 _ _ _ _ Hc Hj) as [_ Hk'].
    unfold cacheKey in Hk, Hk'. rewrite Heq in Hk'. congruence.
Qed.

(** Two callers race for one cluster and token; the second insertion finds the
    first one's client. *)
Definition demo_tls : TLSClientConfig :=
  {| tls_Insecure := false; tls_ServerName := ""; tls_CertFile := "provider.crt";
     tls_KeyFile := "provider.key"; tls_CAFile := "ca.crt"; tls_CertData := ""; tls_KeyData := "";
     tls_CAData := ""; tls_NextProtos := [] |}.
Definition demo_base : RestConfig :=
  {| rc_Host := "https://hub/clusters/root:provider"; rc_BearerToken := "provider"; rc_TLS := demo_tls |}.
(** Hosts without a path of their own are their path. *)
Definition demo_factory : option ClientFactory :=
  NewClientFactory (λ s, inr s) (λ u, u) (λ p _, p) (λ u, u) (Some demo_base).
Definition demo_client : ClientFactory :=
  {| cf_baseHost := "https://hub"; cf_baseTLS := without_certificate demo_tls |}.
(** A client is its configuration and a serial number. *)
Definition numbered (cfg : RestConfig) (d : RestConfig * nat) : Prop := d.1 = cfg.
Definition race (who : list (nat * nat)) (s : Factory (RestConfig * nat)) : Factory (RestConfig * nat) :=
  fold_left (λ s '(i, n), match fa_callers s !! i with
    | Some c => {| fa_hot := (advance demo_client (λ cfg, inr (cfg, n)) (fa_hot s) c).1;
                   fa_callers := <[i := (advance demo_client (λ cfg, inr (cfg, n)) (fa_hot s) c).2]>
                                   (fa_callers s) |}
    | None => s end) who s.
Definition race_start : Factory (RestConfig * nat) :=
  {| fa_hot := ∅; fa_callers := [Asking "c1" "tok"; Asking "c1" "tok"] |}.

Lemma race_steps who s : steps (factory_step demo_client numbered) s (race who s).
Proof.
  assert (Hgo : ∀ s0 s, steps (factory_step demo_client numbered) s0 s →
    steps (factory_step demo_client numbered) s0 (race who s)); [|apply Hgo; constructor].
  clear s. induction who as [|[i n] who IH]; intros s0 s Hs; [done|].
  cbn [race fold_left]. apply IH. destruct (fa_callers s !! i) as [c|] eqn:Hi; [|done].
  eapply steps_step; [exact Hs|]. exists i, c, (λ cfg, inr (cfg, n)).
  split_and!; [done|by intros cfg d [= <-]|done].
Qed.

Definition race_end : Factory (RestConfig * nat) :=
  race [(0, 1); (1, 2); (0, 1); (1, 2); (1, 2); (0, 1)]%nat race_start.

Lemma factory_sound_witness :
  demo_factory = Some demo_client ∧
  ∃ d, fa_callers race_end = [Answered "c1" "tok" (inr d); Answered "c1" "tok" (inr d)] ∧
    d.2 = 2%nat ∧
    ∃ token', token' ≠ "" ∧ hashToken token' = hashToken "tok" ∧
      numbered {| rc_Host := "https://hub/clusters/c1"; rc_BearerToken := token';
                  rc_TLS := without_certificate demo_tls |} d.
Proof.
  assert (Hf : demo_factory = Some demo_client) by (vm_compute; reflexivity).
  split; [exact Hf|].
  set (d := (clientConfig demo_client "c1" "tok", 2%nat)). exists d.
  assert (He : fa_callers race_end = [Answered "c1" "tok" (inr d); Answered "c1" "tok" (inr d)])
    by (vm_compute; reflexivity).
  split; [exact He|]. split; [reflexivity|].
  exact (proj1 (factory_sound (λ s, inr s) (λ u, u) (λ p _, p) (λ u, u) demo_base demo_client numbered
    [("c1", "tok"); ("c1", "tok")] race_end Hf (race_steps _ race_start) 0 "c1" "tok" d
    (eq_ind_r (λ l, l !! 0%nat = Some (Answered "c1" "tok" (inr d))) eq_refl He))).
Defined.
