(* ===== verification/McpWrite.v ===== *)
(** * mcpserver/: the tools' common parts and the write tools

    [tools.go] and [tools_write.go]: the caller's identity, the lists, creation
    and deletion of tenant objects, and [commit_files], which stages a bundle,
    creates a RepositoryCommit, moves the bundle to the scope the controller
    reads, and waits for the outcome. *)

From S2P Require Import Prelude GoStrings GoTime Errors Encoding CommitBundle Api Dynamic.
From Stdlib Require Import Ascii Lia.

#[local] Open Scope string_scope.

(** ** context.go *)

Record identity := { tenant : string; clusterID : string; user : string; token : string }.

(** Header and query values of a request, [""] where absent. *)
Definition bearerToken (auth : string) : string :=
  if HasPrefix auth "Bearer " then TrimPrefix auth "Bearer " else "".

Definition or_query (header query : string) : string :=
  if decide (header = "") then query else header.

Definition identityFromRequest (getenv header query : string → string) : identity :=
  let id := {| tenant := header "X-Railgrid-Tenant"; clusterID := header "X-Railgrid-Cluster";
               user := header "X-Railgrid-User";
               token := bearerToken (header "Authorization") |} in
  if decide (getenv "RAILGRID_DEV_ALLOW_TENANT_QUERY" = "true") then
    {| tenant := or_query (tenant id) (query "tenant");
       clusterID := or_query (clusterID id) (query "cluster");
       user := or_query (user id) (query "user");
       token := or_query (token id) (query "token") |}
  else id.

(** ** tools.go *)

Record connectionSummary := {
  cm_Name : string; cm_Provider : string; cm_Owner : string; cm_Login : string;
  cm_Validated : bool }.
Record repositorySummary := {
  rm_Name : string; rm_Connection : string; rm_Repo : string; rm_Visibility : string;
  rm_HTMLURL : string; rm_Ready : bool }.

(** An interface value compared with a string. *)
Definition any_is (v : any) (s : string) : bool := bool_decide (as_string v = Some s).

Section Lists.
Context {W : Type} `{Dyn W} `{Unstructured}.

Definition conditionTrue (u : Object) (condType : string) : bool :=
  match NestedSlice u ["status"; "conditions"] with
  | None => false
  | Some conds =>
      existsb (λ c, match as_map c with
                    | Some m => any_is (get m "type") condType && any_is (get m "status") "True"
                    | None => false
                    end) conds
  end.

Definition connection_summary (u : Object) : connectionSummary :=
  {| cm_Name := GetName u; cm_Provider := NestedString u ["spec"; "provider"];
     cm_Owner := NestedString u ["spec"; "owner"]; cm_Login := NestedString u ["status"; "login"];
     cm_Validated := conditionTrue u ConditionValidated |}.
Definition list_connections : Tool W (error + list connectionSummary) :=
  r ← d_list connectionsGVR;
  mret (match r with
        | inl err => inl (Wrap "list connections: " err)
        | inr items => inr (connection_summary <$> items)
        end).

Definition repository_summary (u : Object) : repositorySummary :=
  {| rm_Name := GetName u; rm_Connection := NestedString u ["spec"; "connectionRef"];
     rm_Repo := NestedString u ["spec"; "name"];
     rm_Visibility := NestedString u ["spec"; "visibility"];
     rm_HTMLURL := NestedString u ["status"; "htmlURL"];
     rm_Ready := conditionTrue u ConditionReady |}.
Definition list_repositories : Tool W (error + list repositorySummary) :=
  r ← d_list repositoriesGVR;
  mret (match r with
        | inl err => inl (Wrap "list repositories: " err)
        | inr items => inr (repository_summary <$> items)
        end).
End Lists.

(** ** tools_write.go: data *)

Definition maxCommitMessageLength : Z := 512.
Definition commitWaitTimeout : Duration := (75 * Second)%Z.

Record createConnectionInput := {
  ci_Name : string; ci_Provider : string; ci_Owner : string; ci_SecretName : string;
  ci_SecretNamespace : string; ci_SecretKey : string; ci_BaseURL : string }.
Record createRepositoryInput := {
  ri_Name : string; ri_ConnectionRef : string; ri_Repo : string; ri_Owner : string;
  ri_Visibility : string; ri_Description : string; ri_DefaultBranch : string;
  ri_AutoInit : option bool }.
Record commitFileInput := { cf_Path : string; cf_Content : string; cf_Encoding : string }.
Record commitFilesInput := {
  fi_RepositoryRef : string; fi_Message : string; fi_Branch : string;
  fi_Files : list commitFileInput; fi_DeletePaths : list string }.
Record addDeployKeyInput := {
  di_Name : string; di_RepositoryRef : string; di_Title : string; di_PublicKey : string;
  di_ReadOnly : bool }.
Record addCollaboratorInput := {
  ai_Name : string; ai_RepositoryRef : string; ai_Username : string; ai_Permission : string }.
Record createOutput := { co_Name : string; co_Kind : string; co_Created : bool }.
Record commitFilesOutput := {
  fo_RepositoryRef : string; fo_Name : string; fo_Phase : string; fo_BundleRef : string;
  fo_BundleDigest : string; fo_CommitSHA : string; fo_CommitURL : string; fo_Branch : string;
  fo_Files : list string; fo_DeletedPaths : list string }.
Definition no_output : commitFilesOutput :=
  {| fo_RepositoryRef := ""; fo_Name := ""; fo_Phase := ""; fo_BundleRef := "";
     fo_BundleDigest := ""; fo_CommitSHA := ""; fo_CommitURL := ""; fo_Branch := "";
     fo_Files := []; fo_DeletedPaths := [] |}.

Definition SchemeGroupVersion : string := "code.railgrid.ai/v1alpha1".

Definition putIf (m : Object) (k v : string) : Object :=
  if decide (v ≠ "") then put m k (AString v) else m.

(** ** Creating and deleting objects *)

Section Objects.
Context {W : Type} `{Dyn W}.

Definition createCR (k : Resource) (kind name : string) (spec : Object)
    : Tool W (error + createOutput) :=
  if decide (name = "") then mret (inl (ENew "name is required"))
  else
    r ← d_create k [("apiVersion", AString SchemeGroupVersion); ("kind", AString kind);
                    ("metadata", AMap [("name", AString name)]); ("spec", AMap spec)];
    mret (match r with
          | inl err =>
              if IsAlreadyExists err then inl (ENew (kind +:+ " " +:+ Quote name +:+ " already exists"))
              else inl (Wrap ("create " +:+ kind +:+ ": ") err)
          | inr _ => inr {| co_Name := name; co_Kind := kind; co_Created := true |}
          end).

Definition deleteCR (k : Resource) (name : string) : Tool W (error + bool) :=
  if decide (name = "") then mret (inl (ENew "name is required"))
  else
    r ← d_delete k name;
    mret (match r with
          | Some err => if IsNotFound err then inr true
                        else inl (Wrap ("delete " +:+ name +:+ ": ") err)
          | None => inr true
          end).

Definition connectionSpec (inp : createConnectionInput) : Object :=
  let provider := if decide (ci_Provider inp = "") then ProviderGitHub else ci_Provider inp in
  let secretRef := putIf (putIf [("name", AString (ci_SecretName inp))]
                            "namespace" (ci_SecretNamespace inp)) "key" (ci_SecretKey inp) in
  putIf [("provider", AString provider); ("type", AString CredentialTypePAT);
         ("owner", AString (ci_Owner inp)); ("secretRef", AMap secretRef)]
    "baseURL" (ci_BaseURL inp).
Definition create_connection (inp : createConnectionInput) : Tool W (error + createOutput) :=
  createCR connectionsGVR "Connection" (ci_Name inp) (connectionSpec inp).

Definition repositorySpec (inp : createRepositoryInput) (repoName : string) : Object :=
  let spec := [("connectionRef", AString (ri_ConnectionRef inp)); ("name", AString repoName)] in
  let spec := putIf spec "owner" (ri_Owner inp) in
  let spec := putIf spec "visibility" (ri_Visibility inp) in
  let spec := putIf spec "description" (ri_Description inp) in
  let spec := putIf spec "defaultBranch" (ri_DefaultBranch inp) in
  if default true (ri_AutoInit inp) then put spec "autoInit" (ABool true) else spec.
Definition create_repository (inp : createRepositoryInput) : Tool W (error + createOutput) :=
  let repoName := if decide (ri_Repo inp = "") then ri_Name inp else ri_Repo inp in
  createCR repositoriesGVR "Repository" (ri_Name inp) (repositorySpec inp repoName).

Definition add_deploy_key (inp : addDeployKeyInput) : Tool W (error + createOutput) :=
  let spec := [("repositoryRef", AString (di_RepositoryRef inp))] in
  let spec := putIf spec "title" (di_Title inp) in
  let spec := putIf spec "publicKey" (di_PublicKey inp) in
  let spec := if di_ReadOnly inp then put spec "readOnly" (ABool true) else spec in
  createCR deploykeysGVR "DeployKey" (di_Name inp) spec.

Definition add_collaborator (inp : addCollaboratorInput) : Tool W (error + createOutput) :=
  let spec := [("repositoryRef", AString (ai_RepositoryRef inp));
               ("username", AString (ai_Username inp))] in
  createCR collaboratorsGVR "Collaborator" (ai_Name inp) (putIf spec "permission" (ai_Permission inp)).

Definition delete_repository (name : string) : Tool W (error + bool) :=
  deleteCR repositoriesGVR name.
Definition remove_collaborator (name : string) : Tool W (error + bool) :=
  deleteCR collaboratorsGVR name.
End Objects.

(** ** Names *)

Definition dash : ascii := "-"%char.

Definition commitObjectName (repositoryRef digest : string) (now : Time) : string :=
  let base := TrimByte dash repositoryRef in
  let base := if decide (base = "") then "repository" else base in
  let sum := TrimPrefix digest "sha256:" in
  let sum := if decide (slen sum > 12)%Z then stake 12 sum else sum in
  let sum := if decide (sum = "") then "bundle" else sum in
  let suffix := sum +:+ "-" +:+ Z_digits 16 (UnixNano now) in
  let maxBase := (253 - slen "-commit-" - slen suffix)%Z in
  let maxBase := if decide (maxBase < 1)%Z then 1%Z else maxBase in
  let base := if decide (slen base > maxBase)%Z
              then TrimByte dash (stake (Z.to_nat maxBase) base) else base in
  let base := if decide (base = "") then "repository" else base in
  base +:+ "-commit-" +:+ suffix.
