(* ===== verification/McpCommit.v ===== *)
(** * mcpserver/tools_write.go: commit_files

    The tool stages a bundle under the tenant's scope, creates a
    RepositoryCommit that names it, stores the bundle again under the scope the
    controller reads, and waits.  What it leaves behind is described by
    [transaction]; every run of the code is one. *)

From S2P Require Import Prelude GoStrings GoTime Errors Encoding CommitBundle Api Dynamic McpWrite.
From Stdlib Require Import Ascii Lia.

#[local] Open Scope string_scope.

(** ** The request object *)

Definition commitLabels (repo : Repository) (repositoryRef : string) : gmap string string :=
  <[LabelRepository := repositoryRef]> (om_Labels (rp_Meta repo)).

Definition repositoryOwner (repo : Repository) : Object :=
  [("apiVersion", AString SchemeGroupVersion); ("kind", AString "Repository");
   ("name", AString (om_Name (rp_Meta repo))); ("uid", AString (om_UID (rp_Meta repo)));
   ("controller", ABool false); ("blockOwnerDeletion", ABool false)].

Definition repositoryCommitObject (repo : Repository) (bundle : BundleRef) (inp : commitFilesInput)
    (now : Time) : Object :=
  let metadata :=
    [("name", AString (commitObjectName (fi_RepositoryRef inp) (ref_Digest bundle) now));
     ("labels", AMap (string_map (commitLabels repo (fi_RepositoryRef inp))))] in
  let metadata :=
    if decide (om_UID (rp_Meta repo) ≠ "")
    then put metadata "ownerReferences" (AMaps [repositoryOwner repo]) else metadata in
  let bundleRef := [("name", AString (ref_Name bundle)); ("digest", AString (ref_Digest bundle))] in
  let spec := [("repositoryRef", AString (fi_RepositoryRef inp));
               ("source", AMap [("bundleRef", AMap bundleRef)])] in
  let spec := putIf (putIf spec "message" (fi_Message inp)) "branch" (fi_Branch inp) in
  [("apiVersion", AString SchemeGroupVersion); ("kind", AString "RepositoryCommit");
   ("metadata", AMap metadata); ("spec", AMap spec)].

Definition bundleFilePaths (files : list FileMeta) : list string := fm_Path <$> files.
Definition bundleDeletedPaths (files : list FileMeta) : list string :=
  fm_Path <$> List.filter fm_Delete files.

(** The files a request submits. *)
Definition submitted (inp : commitFilesInput) : list File :=
  ((λ f, {| f_Path := cf_Path f; f_Content := cf_Content f; f_Encoding := cf_Encoding f;
            f_Delete := false |}) <$> fi_Files inp) ++
  ((λ p, {| f_Path := p; f_Content := ""; f_Encoding := ""; f_Delete := true |})
     <$> fi_DeletePaths inp).

Definition trimmed (inp : commitFilesInput) : commitFilesInput :=
  {| fi_RepositoryRef := TrimSpace (fi_RepositoryRef inp); fi_Message := TrimSpace (fi_Message inp);
     fi_Branch := fi_Branch inp; fi_Files := fi_Files inp; fi_DeletePaths := fi_DeletePaths inp |}.

(** [NormalizeEncoding] on each file in turn. *)
Fixpoint checkEncodings (files : list commitFileInput) : option error :=
  match files with
  | [] => None
  | f :: files =>
      match NormalizeEncoding (cf_Encoding f) with
      | inl err => Some (Wrap ("file " +:+ Quote (cf_Path f) +:+ ": ") err)
      | inr _ => checkEncodings files
      end
  end.

(** The checks before any lookup, on the trimmed request. *)
Definition validate (tenantScope : string) (inp : commitFilesInput) : option error :=
  if decide (tenantScope = "") then Some (ENew "tenant identity is required")
  else if decide (fi_RepositoryRef inp = "") then Some (ENew "repositoryRef is required")
  else if decide (fi_Files inp = [] ∧ fi_DeletePaths inp = []) then
    Some (ENew "at least one file or delete path is required")
  else if decide (RuneCountInString (fi_Message inp) > maxCommitMessageLength)%Z then
    Some (ENew ("commit message is " +:+ FormatInt (RuneCountInString (fi_Message inp))
      +:+ " characters; the limit is " +:+ FormatInt maxCommitMessageLength
      +:+ " — shorten the body"))
  else checkEncodings (fi_Files inp).

(** ** The outcome *)

Section Outcome.
Context {W : Type} `{Dyn W} `{Unstructured}.

Definition repositoryCommitReadyCondition (obj : option Object) : option Object :=
  match obj with
  | None => None
  | Some o =>
      head (List.filter (λ m, any_is (get m "type") ConditionReady)
              (omap as_map (default [] (NestedSlice o ["status"; "conditions"]))))
  end.

Definition repositoryCommitConditionMessage (obj : option Object) : string :=
  match repositoryCommitReadyCondition obj ≫= (λ m, as_string (get m "message")) with
  | Some msg => if decide (msg ≠ "") then msg else "unknown error"
  | None => "unknown error"
  end.

Definition rateLimitDeadline (obj : Object) : Tool W Time :=
  let start := GetCreationTimestamp obj in
  let raw := NestedString obj ["status"; "startedAt"] in
  let start := if decide (raw ≠ "") then default start (ParseRFC3339 raw) else start in
  if IsZero start then now ← d_now; mret (Add now RepositoryCommitRateLimitWindow)
  else mret (Add start RepositoryCommitRateLimitWindow).

Definition unfinishedCommitError (obj : option Object) (out : commitFilesOutput) : Tool W error :=
  let unfinished :=
    ENew ("RepositoryCommit " +:+ Quote (fo_Name out) +:+ " did not finish within the "
      +:+ DurationString commitWaitTimeout +:+ " wait (phase " +:+ fo_Phase out
      +:+ "); the files may not be committed yet: watch RepositoryCommit "
      +:+ Quote (fo_Name out) +:+ " for phase Succeeded or Failed") in
  match repositoryCommitReadyCondition obj, obj with
  | Some cond, Some o =>
      if any_is (get cond "reason") ReasonRateLimited then
        deadline ← rateLimitDeadline o;
        mret (ENew ("RepositoryCommit " +:+ Quote (fo_Name out)
          +:+ " is queued behind a GitHub rate limit ("
          +:+ default "" (as_string (get cond "message"))
          +:+ "); the provider retries it until " +:+ RFC3339 deadline
          +:+ ", then marks it Failed. The files are not committed yet: watch RepositoryCommit "
          +:+ Quote (fo_Name out) +:+ " for phase Succeeded before relying on them"))
      else mret unfinished
  | _, _ => mret unfinished
  end.

Definition repositoryCommitFilePaths (obj : Object) : list string :=
  match NestedSlice obj ["status"; "files"] with
  | None => []
  | Some items =>
      List.filter (λ p, negb (bool_decide (p = "")))
        ((λ m, default "" (as_string (get m "path"))) <$> omap as_map items)
  end.

Definition or_else (s fallback : string) : string := if decide (s ≠ "") then s else fallback.

Definition repositoryCommitOutput (obj : Object) (fallback : commitFilesOutput)
    : commitFilesOutput :=
  {| fo_RepositoryRef := fo_RepositoryRef fallback;
     fo_Name := or_else (GetName obj) (fo_Name fallback);
     fo_Phase := or_else (NestedString obj ["status"; "phase"]) (fo_Phase fallback);
     fo_BundleRef := fo_BundleRef fallback; fo_BundleDigest := fo_BundleDigest fallback;
     fo_CommitSHA := or_else (NestedString obj ["status"; "commitSHA"]) (fo_CommitSHA fallback);
     fo_CommitURL := or_else (NestedString obj ["status"; "commitURL"]) (fo_CommitURL fallback);
     fo_Branch := or_else (NestedString obj ["status"; "branch"]) (fo_Branch fallback);
     fo_Files := (if decide (repositoryCommitFilePaths obj ≠ [])
                  then repositoryCommitFilePaths obj else fo_Files fallback);
     fo_DeletedPaths := fo_DeletedPaths fallback |}.

Definition waitRepositoryCommit (fuel : nat) (name : string) (timeout : Duration)
    : Tool W (option (error + option Object)) :=
  poll repositoryCommitsGVR "RepositoryCommit" Some fuel name timeout.

Definition repositoryCommitBundleStorageScope (created : Object) : string :=
  TrimSpace (default "" (GetAnnotations created !! "kcp.io/cluster")).

Definition getRepository (name : string) : Tool W (error + Repository) :=
  r ← d_get repositoriesGVR name;
  mret (match r with
        | inl err => if IsNotFound err then inl (ENew ("repository " +:+ Quote name +:+ " not found"))
                     else inl (Wrap ("get repository " +:+ Quote name +:+ ": ") err)
        | inr u => match FromUnstructured u with
                   | inl err => inl (Wrap ("decode repository " +:+ Quote name +:+ ": ") err)
                   | inr repo => inr repo
                   end
        end).

(** ** commitFiles *)

Definition Outcome : Type := commitFilesOutput * option error.
Definition refuse (err : error) : option Outcome := Some (no_output, Some err).

(** From the created object on: wait, and report what was read. *)
Definition awaitCommit (fuel : nat) (created : Object) (out : commitFilesOutput)
    : Tool W (option Outcome) :=
  r ← waitRepositoryCommit fuel (GetName created) commitWaitTimeout;
  match r with
  | None => mret None
  | Some (inl err) => mret (Some (out, Some err))
  | Some (inr waited) =>
      let out := match waited with Some o => repositoryCommitOutput o out | None => out end in
      if decide (fo_Phase out = RepositoryCommitPhaseSucceeded) then mret (Some (out, None))
      else if decide (fo_Phase out = RepositoryCommitPhaseFailed) then
        mret (Some (out, Some (ENew ("RepositoryCommit " +:+ Quote (fo_Name out) +:+ " failed: "
                                     +:+ repositoryCommitConditionMessage waited))))
      else err ← unfinishedCommitError waited out; mret (Some (out, Some err))
  end.

Definition createdOutput (inp : commitFilesInput) (created : Object) (bundle : BundleRef)
    : commitFilesOutput :=
  {| fo_RepositoryRef := fi_RepositoryRef inp; fo_Name := GetName created;
     fo_Phase := RepositoryCommitPhasePending; fo_BundleRef := ref_Name bundle;
     fo_BundleDigest := ref_Digest bundle; fo_CommitSHA := ""; fo_CommitURL := "";
     fo_Branch := ""; fo_Files := bundleFilePaths (ref_Files bundle);
     fo_DeletedPaths := bundleDeletedPaths (ref_Files bundle) |}.

Definition noCommitAPI : string :=
  "create RepositoryCommit: RepositoryCommit API is not available in this workspace; enable or re-register the Code provider so repositorycommits.code.railgrid.ai is published: ".

(** [has_store] is [bundles != nil]. *)
Definition commitFiles (fuel : nat) (has_store : bool) (tenantScope : string)
    (inp : commitFilesInput) : Tool W (option Outcome) :=
  if negb has_store then mret (refuse (ENew "commit bundle store is unavailable"))
  else
  let tenantScope := TrimSpace tenantScope in
  let inp := trimmed inp in
  match validate tenantScope inp with
  | Some err => mret (refuse err)
  | None =>
    repo ← getRepository (fi_RepositoryRef inp);
    match repo with
    | inl err => mret (refuse err)
    | inr repo =>
      let files := submitted inp in
      put ← d_put tenantScope files;
      match put with
      | inl err => mret (refuse err)
      | inr bundle =>
        now ← d_now;
        created ← d_create repositoryCommitsGVR (repositoryCommitObject repo bundle inp now);
        match created with
        | inl err =>
            _ ← d_bundle_delete tenantScope (ref_Name bundle) (ref_Digest bundle);
            mret (refuse (Wrap (if IsNotFound err then noCommitAPI
                                else "create RepositoryCommit: ") err))
        | inr created =>
          let storageScope := repositoryCommitBundleStorageScope created in
          if decide (storageScope = "") then
            _ ← d_delete repositoryCommitsGVR (GetName created);
            _ ← d_bundle_delete tenantScope (ref_Name bundle) (ref_Digest bundle);
            mret (refuse (ENew ("created RepositoryCommit " +:+ Quote (GetName created)
                                +:+ " did not include kcp.io/cluster")))
          else
            stored ← d_put storageScope files;
            match stored with
            | inl err =>
                _ ← d_delete repositoryCommitsGVR (GetName created);
                _ ← d_bundle_delete tenantScope (ref_Name bundle) (ref_Digest bundle);
                mret (refuse (Wrap "store RepositoryCommit bundle: " err))
            | inr _ =>
                _ ← (if decide (tenantScope ≠ storageScope)
                     then d_bundle_delete tenantScope (ref_Name bundle) (ref_Digest bundle)
                     else mret None);
                awaitCommit fuel created (createdOutput inp created bundle)
            end
        end
      end
    end
  end.
End Outcome.

(** ** What a run leaves behind *)

Definition is_write (e : DynEvent) : bool :=
  match e with
  | DCreate _ _ _ | DDelete _ _ _ | DPut _ _ _ | DBundleDelete _ _ _ _ => true
  | _ => false
  end.
Definition writes (t : list DynEvent) : list DynEvent := List.filter is_write t.

(** The created object names the bundle. *)
Definition names (o : Object) (b : BundleRef) : Prop :=
  nested (AMap o) ["spec"; "source"; "bundleRef"; "name"] = AString (ref_Name b) ∧
  nested (AMap o) ["spec"; "source"; "bundleRef"; "digest"] = AString (ref_Digest b).

(** The writes of a run with tenant scope [S] and these files, and the
    RepositoryCommit it leaves for the controller, if any. *)
Inductive transaction `{Unstructured} (S : string) (files : list File)
    : option Object → list DynEvent → Prop :=
  | tx_rejected : transaction S files None []
  | tx_unstaged e : transaction S files None [DPut S files (inl e)]
  | tx_refused b o e rd : names o b →
      transaction S files None
        [DPut S files (inr b); DCreate repositoryCommitsGVR o (inl e);
         DBundleDelete S (ref_Name b) (ref_Digest b) rd]
  | tx_unscoped b o c rc rd : names o b → repositoryCommitBundleStorageScope c = "" →
      transaction S files None
        [DPut S files (inr b); DCreate repositoryCommitsGVR o (inr c);
         DDelete repositoryCommitsGVR (GetName c) rc;
         DBundleDelete S (ref_Name b) (ref_Digest b) rd]
  | tx_unstored b o c e rc rd : names o b → repositoryCommitBundleStorageScope c ≠ "" →
      transaction S files None
        [DPut S files (inr b); DCreate repositoryCommitsGVR o (inr c);
         DPut (repositoryCommitBundleStorageScope c) files (inl e);
         DDelete repositoryCommitsGVR (GetName c) rc;
         DBundleDelete S (ref_Name b) (ref_Digest b) rd]
  | tx_moved b o c b' rd : names o b → repositoryCommitBundleStorageScope c ≠ "" →
      S ≠ repositoryCommitBundleStorageScope c →
      transaction S files (Some c)
        [DPut S files (inr b); DCreate repositoryCommitsGVR o (inr c);
         DPut (repositoryCommitBundleStorageScope c) files (inr b');
         DBundleDelete S (ref_Name b) (ref_Digest b) rd]
  | tx_kept b o c b' : names o b → S ≠ "" → S = repositoryCommitBundleStorageScope c →
      transaction S files (Some c)
        [DPut S files (inr b); DCreate repositoryCommitsGVR o (inr c);
         DPut S files (inr b')].

(** What the caller is told: success only of a commit that was read Succeeded. *)
Definition reports `{Unstructured} (left : option Object) (r : option Outcome)
    (t : list DynEvent) : Prop :=
  match left, r with
  | None, Some (out, err) => out = no_output ∧ is_Some err
  | None, None => False
  | Some c, Some (out, None) =>
      ∃ obj, DGet repositoryCommitsGVR (GetName c) (inr obj) ∈ t ∧
        NestedString obj ["status"; "phase"] = RepositoryCommitPhaseSucceeded ∧
        fo_Phase out = RepositoryCommitPhaseSucceeded ∧
        (NestedString obj ["status"; "commitSHA"] ≠ "" →
         fo_CommitSHA out = NestedString obj ["status"; "commitSHA"])
  | Some _, _ => True
  end.

(** ** Lemmas *)

Lemma get_put_ne m k v k' : k ≠ k' → get (put m k v) k' = get m k'.
Proof.
  intros Hk. induction m as [|[j x] m IH]; simpl; [by rewrite decide_False|].
  destruct (decide (j = k)) as [->|Hj]; simpl; [by rewrite !decide_False|].
  destruct (decide (j = k')); done.
Qed.
Lemma get_putIf_ne m k v k' : k ≠ k' → get (putIf m k v) k' = get m k'.
Proof. intros Hk. unfold putIf. destruct (decide (v ≠ "")); [by apply get_put_ne|done]. Qed.

Lemma repositoryCommitObject_names repo bundle inp now :
  names (repositoryCommitObject repo bundle inp now) bundle.
Proof.
  split; unfold repositoryCommitObject; cbn [nested get decide];
    rewrite ?(decide_False (P := "apiVersion" = "spec")), ?(decide_False (P := "kind" = "spec")),
      ?(decide_False (P := "metadata" = "spec")), ?(decide_True (P := "spec" = "spec")) by done;
    by rewrite !get_putIf_ne.
Qed.

Lemma writes_polls k name t : Forall (polls k name) t → writes t = [].
Proof. induction 1 as [|e t He Ht IH]; [done|]. by destruct e. Qed.
Lemma writes_app t u : writes (t ++ u)%list = (writes t ++ writes u)%list.
Proof. unfold writes. apply List.filter_app. Qed.

Section Lemmas.
Context {W : Type} `{Dyn W} `{Unstructured}.

Lemma getRepository_writes name : emits (getRepository name) (λ _ t, writes t = []).
Proof. unfold getRepository. apply emits_bind, emits_call. intros r. by apply emits_ret. Qed.

Lemma unfinished_writes obj out : emits (unfinishedCommitError obj out) (λ _ t, writes t = []).
Proof.
  unfold unfinishedCommitError, rateLimitDeadline.
  repeat (emit_step || (apply emits_call; intros ?)); done.
Qed.

Lemma or_else_eq s f p : or_else s f = p → f ≠ p → s = p.
Proof. unfold or_else. destruct (decide (s ≠ "")); congruence. Qed.

Lemma awaitCommit_reports fuel created out :
  fo_Phase out = RepositoryCommitPhasePending →
  emits (awaitCommit fuel created out) (λ r t, writes t = [] ∧ reports (Some created) r t).
Proof.
  intros Hp. unfold awaitCommit. apply emits_bind. eapply emits_mono; [apply poll_emits|].
  intros r t [Ht%writes_polls Hr].
  destruct r as [[e|waited]|]; try (apply emits_ret; by rewrite app_nil_r).
  cbv zeta. case_decide as Hs.
  - apply emits_ret. rewrite app_nil_r. split; [done|].
    destruct waited as [obj|]; [|by rewrite Hp in Hs]. exists obj.
    assert (NestedString obj ["status"; "phase"] = RepositoryCommitPhaseSucceeded) as Hph.
    { eapply or_else_eq; [exact Hs|]. by rewrite Hp. }
    split_and!; [|done|done|].
    + destruct Hr as [[? _]|(o & [= ->] & ? & _)]; done.
    + cbn [repositoryCommitOutput fo_CommitSHA]. intros Hn. unfold or_else. by rewrite decide_True.
  - case_decide; [apply emits_ret; by rewrite app_nil_r|].
    apply emits_bind. eapply emits_mono; [apply unfinished_writes|]. intros err u Hu.
    apply emits_ret. by rewrite app_nil_r, writes_app, Ht, Hu.
Qed.
End Lemmas.

Lemma commitFiles_emits {W} `{Dyn W} `{Unstructured} fuel has_store tenantScope inp :
  emits (commitFiles (W:=W) fuel has_store tenantScope inp) (λ r t,
    ∃ left, transaction (TrimSpace tenantScope) (submitted inp) left (writes t) ∧
      reports left r t).
Proof.
  assert (Hrefuse : ∀ e t, transaction (TrimSpace tenantScope) (submitted inp) None (writes t) →
    ∃ left, transaction (TrimSpace tenantScope) (submitted inp) left (writes t) ∧
      reports left (refuse e) t) by (intros e u Hu; exists None; split; [done|by split; [|eexists]]).
  unfold commitFiles. destruct has_store; [|apply emits_ret, Hrefuse; constructor].
  cbv zeta. destruct (validate _ _) as [e|] eqn:Hv; [apply emits_ret, Hrefuse; constructor|].
  apply emits_bind. eapply emits_mono; [apply getRepository_writes|]. intros [e|repo] t1 H1.
  { apply emits_ret, Hrefuse. rewrite app_nil_r, H1. constructor. }
  change (submitted (trimmed inp)) with (submitted inp).
  apply emits_bind, emits_call. intros [e|bundle].
  { apply emits_ret, Hrefuse. rewrite app_nil_r, writes_app, H1. constructor. }
  apply emits_bind, emits_call. intros now. apply emits_bind, emits_call. intros [e|created].
  { apply emits_bind, emits_call. intros rd. apply emits_ret, Hrefuse.
    rewrite app_nil_r, writes_app, H1. constructor. apply repositoryCommitObject_names. }
  pose proof (repositoryCommitObject_names repo bundle (trimmed inp) now) as Hn.
  destruct (decide (repositoryCommitBundleStorageScope created = "")) as [Hs|Hs].
  { apply emits_bind, emits_call. intros rc. apply emits_bind, emits_call. intros rd.
    apply emits_ret, Hrefuse. rewrite app_nil_r, writes_app, H1. by constructor. }
  apply emits_bind, emits_call. intros [e|b'].
  { apply emits_bind, emits_call. intros rc. apply emits_bind, emits_call. intros rd.
    apply emits_ret, Hrefuse. rewrite app_nil_r, writes_app, H1. by constructor. }
  assert (Hw : ∀ u r' v, writes v = [] ∧ reports (Some created) r' v →
    transaction (TrimSpace tenantScope) (submitted inp) (Some created) (writes u) →
    ∃ left, transaction (TrimSpace tenantScope) (submitted inp) left (writes (u ++ v)%list) ∧
      reports left r' (u ++ v)%list).
  { intros u r' v [Hv0 Hr'] Hu. exists (Some created). rewrite writes_app, Hv0, app_nil_r.
    split; [done|]. destruct r' as [[out [e|]]|]; try done.
    destruct Hr' as (o & Ho & ?). exists o. split; [|done]. apply elem_of_app. by right. }
  apply emits_bind. destruct (decide (TrimSpace tenantScope ≠ _)) as [Hd|Hd].
  - apply emits_call. intros rd. eapply emits_mono; [by apply awaitCommit_reports|].
    intros r' v Hv'. rewrite !app_assoc. apply Hw; [done|]. rewrite !writes_app, H1.
    by constructor.
  - apply emits_ret. eapply emits_mono; [by apply awaitCommit_reports|].
    intros r' v Hv'. rewrite !app_assoc. apply Hw; [done|]. rewrite !writes_app, H1.
    apply dec_stable in Hd. rewrite <- Hd. constructor; [done|by rewrite Hd|done].
Qed.

(** ** Properties *)

(** C5: every run of [commit_files] is a [transaction], which is one of these.
    It is rejected before any write.  Or it stages the bundle under the tenant's
    scope and gives up: staging fails; or the commit cannot be created, and the
    deletion of the staged bundle is requested; or the created commit carries no
    cluster, or the bundle cannot be stored under it, and the deletions of both
    are requested (whether these deletions succeed is ignored); the answer then
    is an error and no output.  Or it leaves one RepositoryCommit, which names
    the bundle's name and digest, with the bundle stored under the scope the
    controller reads, where the tool does not delete it; then the wait may still
    end in an error, which leaves the commit to the controller, and success is
    reported only of a commit that was read back as Succeeded, with its SHA. *)
Theorem commitFiles_transaction {W} `{Dyn W} `{Unstructured} fuel has_store tenantScope inp
    (w w' : W) r t
    (Hrun : commitFiles fuel has_store tenantScope inp w = (r, w', t)) :
  ∃ left, transaction (TrimSpace tenantScope) (submitted inp) left (writes t) ∧ reports left r t.
Proof.
  pose proof (commitFiles_emits (W:=W) fuel has_store tenantScope inp w) as He.
  by rewrite Hrun in He.
Qed.

(** C32: [commit_files] returns: the wait of 75 seconds takes at most 76 turns, one
    [Get] each, so with that fuel every run ends with an answer, whatever the
    workspace and the store do.  This rests on the clock and on what Go
    documents: a tick of the one-second ticker is not received before it is due,
    and a [Get] whose context's deadline has passed fails. *)
Theorem commitFiles_returns {W} `{Dyn W} `{Unstructured} `{!Clock W} has_store tenantScope inp
    (w : W) :
  ∃ out err w' t, commitFiles 76 has_store tenantScope inp w = (Some (out, err), w', t).
Proof.
  assert (emits (commitFiles 76 has_store tenantScope inp) (λ r _, is_Some r)) as He.
  { assert (Hsome : ∀ x : Outcome, emits (mret (M := M W DynEvent) (Some x)) (λ r _, is_Some r))
      by (intros x; by apply emits_ret).
    assert (Hseq : ∀ A (m : M W DynEvent A) k, (∀ a, emits (k a) (λ r _, is_Some r)) →
      emits (m ≫= k : M W DynEvent (option Outcome)) (λ r _, is_Some r)).
    { intros A m k Hk. apply emits_bind. eapply emits_mono; [apply emits_True|].
      intros a t _. apply Hk. }
    assert (Hawait : ∀ c out, emits (awaitCommit 76 c out) (λ r _, is_Some r)).
    { intros c out. unfold awaitCommit, waitRepositoryCommit. apply emits_bind.
      eapply emits_mono; [apply poll_returns; [lia|done]|].
      intros r t [x ->]. destruct x as [e|obj]; [apply Hsome|]. cbv zeta.
      repeat case_decide; [apply Hsome..|]. apply Hseq. intros e. apply Hsome. }
    unfold commitFiles, refuse. repeat (first [ apply Hsome | apply Hawait | apply Hseq; intros ? | case_match | case_decide ]). }
  specialize (He w). destruct (commitFiles _ _ _ _ _) as [[r w'] t].
  destruct He as [[out err] ->]. eauto.
Qed.

(** ** A run *)

Definition demo_object : Object :=
  [("metadata", AMap [("name", AString "app"); ("uid", AString "u-1")]);
   ("status", AMap [("phase", AString "Succeeded"); ("commitSHA", AString "abc")])].
Definition demo_ref : BundleRef :=
  {| ref_Name := "bundle-1"; ref_Digest := "sha256:1"; ref_Scope := "t"; ref_Size := 1;
     ref_FileCount := 1; ref_Files := [] |}.
Definition demo_request : commitFilesInput :=
  {| fi_RepositoryRef := " app "; fi_Message := "m"; fi_Branch := "";
     fi_Files := [{| cf_Path := "a"; cf_Content := "x"; cf_Encoding := "" |}];
     fi_DeletePaths := ["b"] |}.
Definition demo_dyn : Dyn nat :=
  fixed_dyn (λ _, inr demo_object) "cluster-1" (inr demo_ref) (inl EBundleNotFound).

Lemma commitFiles_transaction_witness :
  ∃ out w' t, commitFiles (H:=demo_dyn) 1 true " t " demo_request 0 = (Some (out, None), w', t) ∧
    fo_CommitSHA out = "abc" ∧
    ∃ left, transaction "t" (submitted demo_request) left (writes t) ∧
      reports left (Some (out, None)) t.
Proof.
  eexists _, _, _. split; [vm_compute; reflexivity|]. split; [reflexivity|].
  eapply (commitFiles_transaction (H:=demo_dyn) 1 true " t " demo_request 0).
  vm_compute. reflexivity.
Defined.

(** A commit that stays pending: the wait runs to its timeout. *)
Definition pending_object : Object :=
  [("metadata", AMap [("name", AString "app"); ("uid", AString "u-1")]);
   ("status", AMap [("phase", AString "Pending")])].
Definition pending_dyn : Dyn nat :=
  fixed_dyn (λ _, inr pending_object) "cluster-1" (inr demo_ref) (inl EBundleNotFound).
Definition is_get (e : DynEvent) : bool :=
  match e with DGet repositoryCommitsGVR _ _ => true | _ => false end.

Lemma commitFiles_returns_witness :
  (let '(r, w', t) := commitFiles (H:=pending_dyn) 76 true " t " demo_request 5 in
   (λ x : Outcome, fo_Phase x.1) <$> r = Some RepositoryCommitPhasePending ∧
   w' = 79 ∧ length (List.filter is_get t) = 75) ∧
  ∃ out err w' t, commitFiles (H:=pending_dyn) 76 true " t " demo_request 5
    = (Some (out, err), w', t).
Proof.
  split; [vm_compute; done|].
  apply (commitFiles_returns (H:=pending_dyn) (Clock0:=fixed_clock _ _ _ _) true " t " demo_request 5).
Defined.
