(* ===== verification/CommitFlow.v ===== *)
(** * From the tool to the store

    [commit_files] works against any bundle store; this file puts the store of
    [commitbundle] behind it.  [history] says that a trace's calls on the store
    are those of a [FileStore], with whatever faults, while others (the
    controller, the sweeper, other requests) use the same directory in between;
    [file_dyn] is a world with such a store. *)

From S2P Require Import Prelude GoStrings GoTime Errors Encoding CommitBundle BundleStore.
From S2P Require Import Api Dynamic McpWrite McpCommit.
From Stdlib Require Import Ascii Lia.

#[local] Open Scope string_scope.

(** ** The store behind the tools *)

Definition store_step (s : FileStore) (e : DynEvent) (s' : FileStore) : Prop :=
  match e with
  | DPut scope files r =>
      ∃ io now rand ctx, Put io now rand ctx (Some s) scope files = (r, Some s')
  | DBundleDelete scope name digest r =>
      ∃ io ctx, Delete io ctx (Some s) scope name digest = (r, Some s')
  | _ => s' = s
  end.

(** A store that carried out the calls of a trace, [others] stepping before and
    after each of them. *)
Inductive history (others : FileStore → FileStore → Prop)
    : FileStore → list DynEvent → FileStore → Prop :=
  | h_done s s' : others s s' → history others s [] s'
  | h_call s s0 e s1 t s' :
      others s s0 → store_step s0 e s1 → history others s1 t s' → history others s (e :: t) s'.

(** A workspace and a directory side by side. *)
Definition lift {A R} (op : A → R * A) (w : FileStore * A) : R * (FileStore * A) :=
  let '(r, a) := op w.2 in (r, (w.1, a)).

Definition file_dyn {A} `{Dyn A} (io : FsOp → option error) (rand : A → string) : Dyn (FileStore * A) := {|
  dyn_now := lift dyn_now;
  dyn_list k := lift (dyn_list k);
  dyn_get k n := lift (dyn_get k n);
  dyn_create k o := lift (dyn_create k o);
  dyn_delete k n := lift (dyn_delete k n);
  dyn_get_until d k n := lift (dyn_get_until d k n);
  dyn_select d due := lift (dyn_select d due);
  dyn_ctx_err d := lift (dyn_ctx_err d);
  dyn_put scope files w :=
    let '(r, s) := Put io (dyn_now w.2).1 (rand w.2) None (Some w.1) scope files in
    (r, (default w.1 s, w.2));
  dyn_bundle_get scope name digest w := (Get io None (Some w.1) scope name digest, w);
  dyn_bundle_delete scope name digest w :=
    let '(r, s) := Delete io None (Some w.1) scope name digest in (r, (default w.1 s, w.2)) |}.

(** ** What the store holds *)

(** The entry under which [b] is kept in the scope's directory. *)
Definition kept (s : FileStore) (key scope : string) (b : Bundle) : Prop :=
  ∃ t, entry_of s key (file_name (b_Name b))
       = Some (RegFile (Stored (json_bundle (scoped scope b))) t).

(** [Put] touches no other scope. *)
Lemma Put_frame io now rand ctx s scope files key r s' key' file
    (Hk : scopeKey scope = inr key)
    (H : Put io now rand ctx (Some s) scope files = (r, Some s')) (Hne : key' ≠ key) :
  entry_of s' key' file = entry_of s key' file.
Proof.
  unfold Put in H. rewrite scopeKey_trim, Hk in H.
  destruct (buildBundle files) as [e|[b ref]]; [by injection H as _ <-|].
  destruct ctx; [by injection H as _ <-|]. destruct (mkdir io s key) as [e|s1] eqn:Hmk;
    [by injection H as _ <-|].
  rewrite <- (mkdir_entries _ _ _ _ key' file Hmk). cbn [b_Name] in H.
  destruct (publish io now rand key _ s1) as [w s2] eqn:Hp. apply publish_frame in Hp as (Hfr & _ & _).
  destruct (io OpStat) as [e|].
  - destruct (IsNotExist e); [destruct w|]; injection H as _ <-; auto.
  - destruct (entry_of s1 key _); [|destruct w]; injection H as _ <-; auto.
    rewrite touch_entry. apply decide_False. by intros [? _].
Qed.

Section Stored.
Context (files : list File) (b : Bundle) (ref : BundleRef)
        (Hb : buildBundle files = inr (b, ref)).

Lemma built_names : ref_Name ref = b_Name b ∧ ref_Digest ref = b_Digest b ∧
  ∃ d, b_Name b = bundle_name (digester_sum d) ∧ b_Digest b = digester_sum d.
Proof. apply buildBundle_spec in Hb as (bfs & _ & _ & [= -> ->]). eauto. Qed.

(** A successful [Put] keeps the bundle when its entry was free or already the
    bundle's own. *)
Lemma Put_kept io now rand ctx s scope key r s'
    (Hk : scopeKey scope = inr key)
    (H : Put io now rand ctx (Some s) scope files = (inr r, Some s'))
    (Hfree : entry_of s key (file_name (b_Name b)) = None ∨ kept s key scope b) :
  kept s' key scope b.
Proof.
  unfold kept in *. unfold Put in H. rewrite scopeKey_trim, Hk, Hb in H.
  destruct ctx; [done|]. destruct (mkdir io s key) as [e|s1] eqn:Hmk; [done|]. cbn [b_Name] in H.
  rewrite <- (mkdir_entries _ _ _ _ key _ Hmk) in Hfree.
  destruct (publish io now rand key _ s1) as [w s2] eqn:Hp.
  apply publish_frame in Hp as (_ & Htgt & _).
  destruct (io OpStat) as [e|].
  - destruct (IsNotExist e); [|done]. destruct w; [done|]. injection H as _ <-. by exists now.
  - destruct (entry_of s1 key (file_name (b_Name b))) as [ent|] eqn:Hent.
    + injection H as _ <-. rewrite touch_entry, decide_True by done. exists now.
      destruct Hfree as [Hf|[t Ht]]; [congruence|]. injection Ht as ->. by rewrite Hent.
    + destruct w; [done|]. injection H as _ <-. by exists now.
Qed.

Lemma kept_Get io s scope key (Hk : scopeKey scope = inr key) (Hr : io OpRead = None)
    (Hutf8 : ValidString (TrimSpace scope) = true) :
  kept s key scope b →
  Get io None (Some s) scope (b_Name b) (b_Digest b) = inr (json_bundle (scoped scope b)).
Proof.
  intros [t Ht]. destruct built_names as (_ & _ & d & Hn & Hd).
  unfold Get. rewrite Hk, Hr, Ht.
  replace (validateBundleName (b_Name b)) with (@None error) by (by rewrite Hn, bundle_name_valid).
  cbn [json_bundle scoped b_Name b_Scope b_Digest].
  rewrite (json_string_valid (b_Name b)) by (rewrite Hn; apply plain_valid, bundle_name_plain).
  rewrite (json_string_valid (b_Digest b)) by (rewrite Hd; apply plain_valid, digest_plain).
  rewrite (json_string_valid _ Hutf8), !decide_False by tauto. done.
Qed.
End Stored.

(** A deletion in another scope. *)
Lemma Delete_other io ctx s scope name digest r s' key key' file :
  scopeKey scope = inr key → key' ≠ key →
  Delete io ctx (Some s) scope name digest = (r, Some s') →
  entry_of s' key' file = entry_of s key' file.
Proof.
  intros Hk Hne H. unfold Delete in H. rewrite Hk in H.
  assert (Hrem : ∀ P : Prop, P → match io OpRemove, entry_of s key (file_name name) with
    | Some e, _ => if IsNotExist e then (None, Some s)
                   else (Some (Wrap ("delete bundle " +:+ Quote name +:+ ": ") e), Some s)
    | None, None => (None, Some s)
    | None, Some _ => (None, Some (set_dir s key (delete (file_name name) (default ∅ (dir_of s key)))))
    end = (r, Some s') → entry_of s' key' file = entry_of s key' file).
  { intros P HP Heq. eapply remove_exact in Heq as [Heq _]; [|exact HP].
    by destruct (Heq key' file) as [?|[? _]]. }
  destruct ctx; [congruence|]. destruct (validateBundleName name); [congruence|].
  case_decide; [|by apply (Hrem True)].
  destruct (Get io None (Some s) scope name digest) as [e|bd].
  - destruct (IsBundleNotFound e); congruence.
  - case_decide; [congruence|by apply (Hrem True)].
Qed.

(** ** Histories *)

Lemma history_step others s t s' e :
  history others s t s' → e ∈ t → ∃ a a', store_step a e a'.
Proof.
  induction 1 as [|s s0 e' s1 t s' _ He _ IH]; [by intros ?%elem_of_nil|].
  intros [->|Hin]%elem_of_cons; [by exists s0, s1|by apply IH].
Qed.

(** What others and every write of the trace keep is kept. *)
Lemma history_keeps others (P : FileStore → Prop) s t s' :
  (∀ a a', others a a' → P a → P a') →
  (∀ e a a', e ∈ writes t → store_step a e a' → P a → P a') →
  history others s t s' → P s → P s'.
Proof.
  intros Ho He Hh. induction Hh as [s s' Hs|s s0 e s1 t s' Hs Hstep Hh IH]; [by apply Ho|].
  intros HP. apply IH.
  - intros e' a a' Hin. apply He. cbn [writes List.filter]. destruct (is_write e); [by right|done].
  - destruct (is_write e) eqn:Hw.
    + eapply He; [|exact Hstep|by eapply Ho].
      cbn [writes List.filter]. rewrite Hw. by left.
    + destruct e; cbn in Hstep, Hw; try done; subst; by eapply Ho.
Qed.

Lemma writes_split t l1 e l2 : writes t = (l1 ++ e :: l2)%list →
  ∃ t1 t2, t = (t1 ++ e :: t2)%list ∧ writes t1 = l1 ∧ writes t2 = l2.
Proof.
  revert l1. induction t as [|x t IH]; intros l1 Heq; [by destruct l1|]. unfold writes in *.
  simpl in Heq.
  destruct (is_write x) eqn:Hx.
  - destruct l1 as [|y l1]; simpl in Heq; injection Heq as -> Heq.
    + by exists [], t.
    + destruct (IH l1 Heq) as (t1 & t2 & -> & H1 & H2). exists (y :: t1), t2.
      split_and!; [done| |done]. simpl. by rewrite Hx, H1.
  - destruct (IH l1 Heq) as (t1 & t2 & -> & H1 & H2). exists (x :: t1), t2.
    split_and!; [done| |done]. simpl. by rewrite Hx.
Qed.

(** The scope's entry for the bundle is free or the bundle's own. *)
Definition free_or_kept (scope : string) (b : Bundle) (s : FileStore) : Prop :=
  ∀ key, scopeKey scope = inr key →
    entry_of s key (file_name (b_Name b)) = None ∨ kept s key scope b.
Definition held (scope : string) (b : Bundle) (s : FileStore) : Prop :=
  ∃ key, scopeKey scope = inr key ∧ kept s key scope b.

(** Reading the bundle's name and digest in the scope gives the bundle. *)
Definition available (scope : string) (b : Bundle) (s : FileStore) : Prop :=
  ∀ io, io OpRead = None →
    Get io None (Some s) scope (b_Name b) (b_Digest b) = inr (json_bundle (scoped scope b)).

Section Availability.
Context (files : list File) (b : Bundle) (ref : BundleRef)
        (Hb : buildBundle files = inr (b, ref)).

Lemma held_available scope s :
  ValidString (TrimSpace scope) = true → held scope b s → available scope b s.
Proof. intros Hu (key & Hk & Hkept) io Hr. by eapply (kept_Get files b ref Hb). Qed.

Lemma step_key scope r s s' :
  store_step s (DPut scope files (inr r)) s' → ∃ key, scopeKey scope = inr key.
Proof.
  intros (io & now & rand & ctx & Hp). unfold Put in Hp. rewrite scopeKey_trim in Hp.
  destruct (scopeKey scope); [done|eauto].
Qed.

Lemma step_names scope r s s' :
  store_step s (DPut scope files (inr r)) s' → ref_Name r = b_Name b ∧ ref_Digest r = b_Digest b.
Proof.
  intros (io & now & rand & ctx & Hp). destruct (built_names files b ref Hb) as (Hn & Hd & _).
  unfold Put in Hp. rewrite Hb in Hp. destruct (scopeKey (TrimSpace scope)); [done|].
  destruct ctx; [done|]. destruct (mkdir _ _ _); [done|]. cbv zeta in Hp.
  repeat case_match; simplify_eq; cbn [ref_Name ref_Digest]; done.
Qed.

(** A successful [Put] of the bundle leaves it held in its scope. *)
Lemma step_held scope r s s' :
  store_step s (DPut scope files (inr r)) s' → free_or_kept scope b s → held scope b s'.
Proof.
  intros Hs Hfree. destruct (step_key _ _ _ _ Hs) as [key Hk].
  destruct Hs as (io & now & rand & ctx & Hp).
  exists key. split; [done|]. eapply (Put_kept files b ref Hb); [done|exact Hp|by apply Hfree].
Qed.

(** A successful [Put] in a scope that does not collide with [scope]. *)
Lemma step_put scope scope' r s s' :
  (∀ k, scopeKey scope' = inr k → scopeKey scope = inr k → scope' = scope) →
  store_step s (DPut scope' files (inr r)) s' →
  free_or_kept scope b s → free_or_kept scope b s'.
Proof.
  intros Hinj Hs Hfree key Hk. destruct (step_key _ _ _ _ Hs) as [key' Hk'].
  destruct (decide (key' = key)) as [->|Hne].
  - rewrite <- (Hinj key Hk' Hk) in *. right.
    destruct (step_held _ _ _ _ Hs Hfree) as (k & ? & ?). by replace key with k by congruence.
  - destruct Hs as (io & now & rand & ctx & Hp).
    unfold kept. rewrite (Put_frame io now rand ctx s scope' files key' (inr r) s' key _ Hk' Hp)
      by congruence. by apply Hfree.
Qed.

Lemma step_delete scope scope' name digest r s s' :
  (∀ k, scopeKey scope' = inr k → scopeKey scope ≠ inr k) →
  store_step s (DBundleDelete scope' name digest r) s' → held scope b s → held scope b s'.
Proof.
  intros Hne (io & ctx & Hd) (key & Hk & [tm Ht]). exists key. split; [done|]. exists tm.
  destruct (scopeKey scope') as [e|key'] eqn:Hk'.
  - unfold Delete in Hd. rewrite Hk' in Hd. repeat case_match; congruence.
  - erewrite Delete_other; [exact Ht|exact Hk'| |exact Hd]. intros ->. by apply (Hne key').
Qed.

(** A run that stores the bundle in [scope] and then nothing that takes it away. *)
Lemma stored_available scope scope' o c b1 b2 rest t :
  ValidString (TrimSpace scope) = true →
  (∀ k, scopeKey scope' = inr k → scopeKey scope = inr k → scope' = scope) →
  (∀ e a a', e ∈ rest → store_step a e a' → held scope b a → held scope b a') →
  names o b1 →
  writes t = ([DPut scope' files (inr b1); DCreate repositoryCommitsGVR o (inr c)]
              ++ DPut scope files (inr b2) :: rest)%list →
  ∃ t1 ref' t2, t = (t1 ++ DPut scope files (inr ref') :: t2)%list ∧
  ∀ others s s0 s1,
    (∀ a a', others a a' → free_or_kept scope b a → free_or_kept scope b a') →
    free_or_kept scope b s → history others s t1 s0 →
    store_step s0 (DPut scope files (inr ref')) s1 →
    nested (AMap o) ["spec"; "source"; "bundleRef"; "name"] = AString (b_Name b) ∧
    nested (AMap o) ["spec"; "source"; "bundleRef"; "digest"] = AString (b_Digest b) ∧
    available scope b s1 ∧
    ∀ later s', (∀ a a', later a a' → held scope b a → held scope b a') →
      history later s1 t2 s' → available scope b s'.
Proof.
  intros Hutf8 Hinj Hrest [Hn Hd] Hw. apply writes_split in Hw as (t1 & t2 & -> & Ht1 & Ht2).
  exists t1, b2, t2. split; [done|]. intros others s s0 s1 Ho Hs Hh Hput.
  assert (DPut scope' files (inr b1) ∈ t1) as Hin.
  { apply list_elem_of_In. eapply (proj1 (List.filter_In is_write _ _)).
    unfold writes in Ht1. rewrite Ht1. by left. }
  destruct (history_step _ _ _ _ _ Hh Hin) as (a & a' & Hstep).
  destruct (step_names _ _ _ _ Hstep) as [Hname Hdigest]. rewrite Hn, Hd, Hname, Hdigest.
  assert (free_or_kept scope b s0) as Hs0.
  { eapply history_keeps; [exact Ho| |exact Hh|exact Hs]. rewrite Ht1.
    intros e x x' [->|[->|?%elem_of_nil]%elem_of_cons]%elem_of_cons Hx; [|by simpl in Hx; subst|done].
    by eapply step_put. }
  pose proof (step_held _ _ _ _ Hput Hs0) as Hheld.
  split_and!; [done..|by apply held_available|]. intros later s' Hl Hh'.
  apply held_available; [done|]. eapply history_keeps; [exact Hl| |exact Hh'|exact Hheld].
  rewrite Ht2. exact Hrest.
Qed.
End Availability.

(** ** Properties *)

(** C7: the RepositoryCommit that [commit_files] leaves can be carried out.  Take
    any history of the bundle directory in which the tool's calls are those of the
    file store, with whatever faults, and in between others do as they like, but
    leave at the bundle's entry in the commit's scope nothing or this bundle (as
    it is at the start).  Then the commit's bundle reference is the name and
    digest of the bundle of the submitted files, and once the tool has stored it
    under the commit's cluster, the store answers that name and digest with
    exactly that bundle.  No later call of the tool takes it away, its removal of
    the staged copy included, also when the two scopes are one: as long as the
    others keep the entry, the bundle stays available.  Assumed are that a commit
    was created and not taken back, that the digests naming the two scopes'
    directories do not collide, and that the cluster name is valid UTF-8. *)
Theorem commitFiles_bundle_available {W} `{Dyn W} `{Unstructured}
    fuel has_store tenantScope inp (w w' : W) r t b ref o c
    (Hrun : commitFiles fuel has_store tenantScope inp w = (r, w', t))
    (Hb : buildBundle (submitted inp) = inr (b, ref))
    (Hcreated : DCreate repositoryCommitsGVR o (inr c) ∈ t)
    (Hleft : ∀ name e, DDelete repositoryCommitsGVR name e ∉ t)
    (Hinj : ∀ k, scopeKey (TrimSpace tenantScope) = inr k →
       scopeKey (repositoryCommitBundleStorageScope c) = inr k →
       TrimSpace tenantScope = repositoryCommitBundleStorageScope c)
    (Hutf8 : ValidString (TrimSpace (repositoryCommitBundleStorageScope c)) = true) :
  let scope := repositoryCommitBundleStorageScope c in
  ∃ t1 ref' t2, t = (t1 ++ DPut scope (submitted inp) (inr ref') :: t2)%list ∧
  ∀ others s s0 s1,
    (∀ a a', others a a' → free_or_kept scope b a → free_or_kept scope b a') →
    free_or_kept scope b s → history others s t1 s0 →
    store_step s0 (DPut scope (submitted inp) (inr ref')) s1 →
    nested (AMap o) ["spec"; "source"; "bundleRef"; "name"] = AString (b_Name b) ∧
    nested (AMap o) ["spec"; "source"; "bundleRef"; "digest"] = AString (b_Digest b) ∧
    available scope b s1 ∧
    ∀ later s', (∀ a a', later a a' → held scope b a → held scope b a') →
      history later s1 t2 s' → available scope b s'.
Proof.
  pose proof (commitFiles_emits (W:=W) fuel has_store tenantScope inp w) as He.
  rewrite Hrun in He. destruct He as (left & Htx & _). cbv zeta.
  assert (Hin : DCreate repositoryCommitsGVR o (inr c) ∈ writes t)
    by (apply list_elem_of_In, List.filter_In; split; [by apply list_elem_of_In|done]).
  assert (Hout : ∀ name e, DDelete repositoryCommitsGVR name e ∉ writes t).
  { intros name e Hx%list_elem_of_In%List.filter_In. apply (Hleft name e), list_elem_of_In, Hx. }
  remember (writes t) as ws eqn:Hws. symmetry in Hws.
  destruct Htx as [|e|b1 o1 e rd Hnm|b1 o1 c1 rc rd Hnm Hs|b1 o1 c1 e rc rd Hnm Hs
    |b1 o1 c1 b2 rd Hnm Hs Hne|b1 o1 c1 b2 Hnm Hs Heq];
    apply list_elem_of_In in Hin; simpl in Hin; destruct_or? Hin; try done; injection Hin as -> ->.
  - exfalso. eapply Hout. by right; right; left.
  - exfalso. eapply Hout. by right; right; right; left.
  - eapply (stored_available _ b ref Hb _ (TrimSpace tenantScope)); [done..| |exact Hnm|exact Hws].
    intros e a a' ->%list_elem_of_singleton Hstep. eapply step_delete; [|exact Hstep].
    intros k Hk1 Hk2. by apply Hne, (Hinj k).
  - eapply (stored_available _ b ref Hb _ (TrimSpace tenantScope)); [done..| |exact Hnm|].
    + by intros e a a' ?%elem_of_nil.
    + rewrite Hws. cbn. by rewrite <- Heq.
Qed.

(** ** A run *)

Definition flow_dyn : Dyn (FileStore * nat) := file_dyn (H:=demo_dyn) no_faults (λ _, "r").
Definition flow_created : Object := Eval vm_compute in
  match buildBundle (submitted demo_request), FromUnstructured demo_object with
  | inr (_, ref), inr repo => repositoryCommitObject repo ref (trimmed demo_request) 0
  | _, _ => []
  end.
Definition flow_trace : list DynEvent := Eval vm_compute in
  (commitFiles (H:=flow_dyn) 1 true "t" demo_request (empty_store, 0)).2.
Definition flow_bundle : Bundle := Eval vm_compute in
  match buildBundle (submitted demo_request) with
  | inr (b, _) => b
  | inl _ => {| b_Name := ""; b_Digest := ""; b_Scope := ""; b_Size := 0; b_Files := [] |}
  end.

(** The store after the two [Put]s and after the staged copy's removal, beside a
    directory of somebody else's. *)
Definition flow_put (scope : string) (s : FileStore) : FileStore :=
  default s (Put no_faults 0 "r" None (Some s) scope (submitted demo_request)).2.
Definition flow_s1 : FileStore := Eval vm_compute in flow_put "t" empty_store.
Definition flow_s2 : FileStore := Eval vm_compute in flow_put "cluster-1" flow_s1.
Definition flow_s3 : FileStore := Eval vm_compute in
  default flow_s2 (Delete no_faults None (Some flow_s2) "t" (b_Name flow_bundle) (b_Digest flow_bundle)).2.
Definition flow_key : string := Eval vm_compute in
  match scopeKey "cluster-1" with inr k => k | inl _ => "" end.
Definition elsewhere (s s' : FileStore) : Prop :=
  s' = s ∨ ∃ key d, key ≠ flow_key ∧ s' = set_dir s key d.

Lemma elsewhere_kept s s' file : elsewhere s s' → entry_of s' flow_key file = entry_of s flow_key file.
Proof. intros [->|(key & d & Hne & ->)]; [done|]. by rewrite entry_of_set, decide_False. Qed.
Lemma flow_scope key : scopeKey "cluster-1" = inr key → key = flow_key.
Proof. intros Hk. vm_compute in Hk. by injection Hk as <-. Qed.

Lemma commitFiles_bundle_available_witness :
  ∃ b ref, buildBundle (submitted demo_request) = inr (b, ref) ∧
    available "cluster-1" b (set_dir flow_s3 "scope-x" ∅).
Proof.
  eexists flow_bundle, _. split; [vm_compute; reflexivity|].
  assert (repositoryCommitBundleStorageScope (created_in "cluster-1" flow_created) = "cluster-1")
    as Hscope by (vm_compute; reflexivity).
  edestruct (commitFiles_bundle_available (H:=flow_dyn) 1 true "t" demo_request
    (empty_store, 0) (flow_s3, 0)
    (commitFiles (H:=flow_dyn) 1 true "t" demo_request (empty_store, 0)).1.1 flow_trace flow_bundle
    (snd (default (flow_bundle, demo_ref) (match buildBundle (submitted demo_request) with
       inr x => Some x | inl _ => None end))) flow_created
    (created_in "cluster-1" flow_created)) as (t1 & ref' & t2 & Ht & Hall).
  - vm_compute. reflexivity.
  - vm_compute. reflexivity.
  - do 3 apply list_elem_of_further. apply list_elem_of_here.
  - intros name e. rewrite list_elem_of_In. simpl. intuition congruence.
  - intros k Hk1 Hk2. rewrite Hscope in Hk2. vm_compute in Hk1, Hk2. congruence.
  - rewrite Hscope. vm_compute. reflexivity.
  - rewrite Hscope in Ht, Hall. unfold flow_trace in Ht.
    do 4 (destruct t1 as [|? t1]; [discriminate Ht|injection Ht as <- Ht]).
    destruct t1 as [|? t1].
    2: { injection Ht as _ Ht. repeat (destruct t1 as [|? t1]; [discriminate Ht|injection Ht as _ Ht]).
         destruct t1; discriminate Ht. }
    injection Ht as <- <-.
    refine (proj2 (proj2 (proj2 (Hall elsewhere empty_store flow_s1 flow_s2 _ _ _ _)))
      elsewhere _ _ _).
    + intros a a' Ha Hf key ->%flow_scope. unfold kept. rewrite (elsewhere_kept _ _ _ Ha).
      by apply Hf.
    + intros key _. left. reflexivity.
    + eapply h_call; [by left|reflexivity|].
      eapply h_call; [by left|exists no_faults, 0%Z, "r", None; vm_compute; reflexivity|].
      eapply h_call; [by left|reflexivity|]. eapply h_call; [by left|reflexivity|].
      apply h_done. by left.
    + exists no_faults, 0%Z, "r", None. vm_compute. reflexivity.
    + intros a a' Ha (key & Hk & Hkept). exists key. split; [done|].
      apply flow_scope in Hk as ->. unfold kept. by rewrite (elsewhere_kept _ _ _ Ha).
    + eapply h_call; [by left|exists no_faults, None; vm_compute; reflexivity|].
      eapply h_call; [by left|reflexivity|]. eapply h_call; [by left|reflexivity|].
      apply h_done. right. exists "scope-x", ∅. split; [by vm_compute|reflexivity].
Defined.
