(* ===== verification/McpRequests.v ===== *)
(** * mcpserver/tools_checkout.go and tools_buildstatus.go

    Requests that live as long as the call: the tool creates a
    RepositoryCheckout or RepositoryBuildStatus, waits for its terminal phase,
    collects the result and deletes the request whatever happened. *)

From S2P Require Import Prelude GoStrings GoTime Errors Encoding CommitBundle Api Dynamic McpWrite McpCommit.
From Stdlib Require Import Ascii Lia.

#[local] Open Scope string_scope.

(** ** Data *)

Record checkoutRepositoryInput := {
  ki_RepositoryRef : string; ki_Ref : string; ki_BinaryEncoding : string }.
Record checkoutFileOutput := { kf_Path : string; kf_Content : string; kf_Encoding : string }.
Record checkoutRepositoryOutput := {
  ko_RepositoryRef : string; ko_Name : string; ko_Phase : string; ko_Ref : string;
  ko_CommitSHA : string; ko_Files : list checkoutFileOutput; ko_Skipped : list string }.
Definition no_checkout : checkoutRepositoryOutput :=
  {| ko_RepositoryRef := ""; ko_Name := ""; ko_Phase := ""; ko_Ref := ""; ko_CommitSHA := "";
     ko_Files := []; ko_Skipped := [] |}.

Record buildStatusInput := {
  gi_RepositoryRef : string; gi_WorkflowFileName : string; gi_Ref : string; gi_MaxLogLines : Z }.
Record buildStatusJobOutput := {
  gj_Name : string; gj_Status : string; gj_Conclusion : string; gj_FailureLog : string }.
Record buildStatusOutput := {
  go_RepositoryRef : string; go_Found : bool; go_RunID : Z; go_HTMLURL : string;
  go_HeadSHA : string; go_Status : string; go_Conclusion : string;
  go_Jobs : list buildStatusJobOutput }.
Record rebuildInput := {
  xi_RepositoryRef : string; xi_WorkflowFileName : string; xi_Ref : string }.
Record rebuildOutput := { xo_RepositoryRef : string; xo_Dispatched : bool }.

(** ** Names *)

Definition checkoutObjectName (repositoryRef : string) (now : Time) : string :=
  let base := TrimByte dash repositoryRef in
  let base := if decide (base = "") then "repository" else base in
  let suffix := Z_digits 16 (UnixNano now) in
  let maxBase := (253 - slen "-checkout-" - slen suffix)%Z in
  let base := if decide (slen base > maxBase)%Z
              then TrimByte dash (stake (Z.to_nat maxBase) base) else base in
  let base := if decide (base = "") then "repository" else base in
  base +:+ "-checkout-" +:+ suffix.

Definition defaultWorkflowFileName : string := "build.yaml".

(** What follows the last slash or backslash. *)
Fixpoint after_separator (s : string) : string :=
  match s with
  | EmptyString => ""
  | String c r =>
      if ContainsAny r "/\" then after_separator r
      else if bool_decide (c = slash ∨ c = "\"%char) then r else s
  end.

Definition normalizeWorkflowFileName (name : string) : string :=
  let name := TrimSpace name in
  if decide (name = "") then defaultWorkflowFileName
  else
    let name := after_separator name in
    if decide (name = "") then defaultWorkflowFileName else name.

Section Requests.
Context {W : Type} `{Dyn W} `{Unstructured}.

(** ** Checkout *)

Definition waitRepositoryCheckout (fuel : nat) (name : string) (timeout : Duration)
    : Tool W (option (error + option Object)) :=
  poll repositoryCheckoutsGVR "RepositoryCheckout" (λ _, None) fuel name timeout.

Definition checkoutObject (inp : checkoutRepositoryInput) (includeBinary : bool) (now : Time)
    : Object :=
  let spec := putIf [("repositoryRef", AString (ki_RepositoryRef inp))] "ref" (ki_Ref inp) in
  let metadata := [("name", AString (checkoutObjectName (ki_RepositoryRef inp) now));
                   ("labels", AMap [(LabelRepository, AString (ki_RepositoryRef inp))])] in
  let metadata :=
    if includeBinary
    then put metadata "annotations" (AMap [(AnnotationCheckoutBinaryEncoding, AString EncodingBase64)])
    else metadata in
  [("apiVersion", AString SchemeGroupVersion); ("kind", AString "RepositoryCheckout");
   ("metadata", AMap metadata); ("spec", AMap spec)].

(** The status read, over the output so far. *)
Definition checkoutStatus (obj : Object) (out : checkoutRepositoryOutput)
    : checkoutRepositoryOutput :=
  {| ko_RepositoryRef := ko_RepositoryRef out; ko_Name := ko_Name out;
     ko_Phase := NestedString obj ["status"; "phase"];
     ko_Ref := or_else (NestedString obj ["status"; "ref"]) (ko_Ref out);
     ko_CommitSHA := or_else (NestedString obj ["status"; "commitSHA"]) (ko_CommitSHA out);
     ko_Files := ko_Files out;
     ko_Skipped := (if decide (NestedStringSlice obj ["status"; "skipped"] ≠ [])
                    then NestedStringSlice obj ["status"; "skipped"] else ko_Skipped out) |}.

(** A file goes to the caller, unless it is encoded and the caller did not ask
    for that. *)
Definition shown (includeBinary : bool) (f : BundleFile) : bool :=
  bool_decide (bf_Encoding f = "") || includeBinary.
Definition checkoutFile (f : BundleFile) : checkoutFileOutput :=
  {| kf_Path := bf_Path f; kf_Content := bf_Content f; kf_Encoding := bf_Encoding f |}.
Definition checkoutResult (includeBinary : bool) (files : list BundleFile)
    (out : checkoutRepositoryOutput) : checkoutRepositoryOutput :=
  {| ko_RepositoryRef := ko_RepositoryRef out; ko_Name := ko_Name out; ko_Phase := ko_Phase out;
     ko_Ref := ko_Ref out; ko_CommitSHA := ko_CommitSHA out;
     ko_Files := checkoutFile <$> List.filter (shown includeBinary) files;
     ko_Skipped := (ko_Skipped out ++
       ((λ f, bf_Path f +:+ " (binary)") <$> List.filter (λ f, negb (shown includeBinary f)) files))%list |}.

Definition CheckoutOutcome : Type := checkoutRepositoryOutput * option error.

(** Collecting the result of a created request; the request itself is deleted
    by the caller. *)
Definition collectCheckout (fuel : nat) (includeBinary : bool) (created : Object)
    (out : checkoutRepositoryOutput) : Tool W (option CheckoutOutcome) :=
  r ← waitRepositoryCheckout fuel (GetName created) (75 * Second)%Z;
  match r with
  | None => mret None
  | Some (inl err) => mret (Some (out, Some err))
  | Some (inr None) =>
      mret (Some (out, Some (ENew ("RepositoryCheckout " +:+ Quote (ko_Name out)
                                   +:+ " did not complete in time"))))
  | Some (inr (Some waited)) =>
      let out := checkoutStatus waited out in
      if decide (ko_Phase out ≠ RepositoryCheckoutPhaseSucceeded) then
        mret (Some (out, Some (ENew ("RepositoryCheckout " +:+ Quote (ko_Name out) +:+ " failed: "
                                     +:+ repositoryCommitConditionMessage (Some waited)))))
      else
        let bundleScope := TrimSpace (default "" (GetAnnotations waited !! "kcp.io/cluster")) in
        let bundleName := NestedString waited ["status"; "bundleRef"; "name"] in
        let bundleDigest := NestedString waited ["status"; "bundleRef"; "digest"] in
        if decide (bundleScope = "" ∨ bundleName = "") then
          mret (Some (out, Some (ENew ("RepositoryCheckout " +:+ Quote (ko_Name out)
                                       +:+ " succeeded but reported no bundle"))))
        else
          bundle ← d_bundle_get bundleScope bundleName bundleDigest;
          match bundle with
          | inl err => mret (Some (out, Some (Wrap "read checkout bundle: " err)))
          | inr bundle =>
              _ ← d_bundle_delete bundleScope bundleName bundleDigest;
              mret (Some (checkoutResult includeBinary (b_Files bundle) out, None))
          end
  end.

Definition binaryEncoding (s : string) : error + bool :=
  if decide (s = "") then inr false
  else if decide (s = EncodingBase64) then inr true
  else inl (ENew ("unsupported binaryEncoding " +:+ Quote s +:+ ": use " +:+ Quote EncodingBase64
                  +:+ " or omit it")).

Definition checkoutRepository (fuel : nat) (has_store : bool) (inp : checkoutRepositoryInput)
    : Tool W (option CheckoutOutcome) :=
  let refuse err := mret (Some (no_checkout, Some err)) in
  if negb has_store then refuse (ENew "bundle store is unavailable")
  else
  let inp := {| ki_RepositoryRef := TrimSpace (ki_RepositoryRef inp); ki_Ref := ki_Ref inp;
                ki_BinaryEncoding := ki_BinaryEncoding inp |} in
  if decide (ki_RepositoryRef inp = "") then refuse (ENew "repositoryRef is required")
  else match binaryEncoding (ki_BinaryEncoding inp) with
  | inl err => refuse err
  | inr includeBinary =>
    repo ← getRepository (ki_RepositoryRef inp);
    match repo with
    | inl err => refuse err
    | inr _ =>
      now ← d_now;
      created ← d_create repositoryCheckoutsGVR (checkoutObject inp includeBinary now);
      match created with
      | inl err =>
          refuse (Wrap (if IsNotFound err then
            "create RepositoryCheckout: RepositoryCheckout API is not available in this workspace; re-register the Code provider so repositorycheckouts.code.railgrid.ai is published: "
            else "create RepositoryCheckout: ") err)
      | inr created =>
          let out := {| ko_RepositoryRef := ki_RepositoryRef inp; ko_Name := GetName created;
                        ko_Phase := RepositoryCheckoutPhasePending; ko_Ref := "";
                        ko_CommitSHA := ""; ko_Files := []; ko_Skipped := [] |} in
          r ← collectCheckout fuel includeBinary created out;
          _ ← d_delete repositoryCheckoutsGVR (GetName created);
          mret r
      end
    end
  end.

(** ** Build status *)

Definition waitRepositoryBuildStatus (fuel : nat) (name : string) (timeout : Duration)
    : Tool W (option (error + option Object)) :=
  poll repositoryBuildStatusesGVR "RepositoryBuildStatus" (λ _, None) fuel name timeout.

Definition collectBuildStatus (fuel : nat) (created : Object)
    : Tool W (option (error + Object)) :=
  r ← waitRepositoryBuildStatus fuel (GetName created) (75 * Second)%Z;
  mret (match r with
        | None => None
        | Some (inl err) => Some (inl err)
        | Some (inr None) =>
            Some (inl (ENew ("RepositoryBuildStatus " +:+ Quote (GetName created)
                             +:+ " did not complete in time")))
        | Some (inr (Some waited)) =>
            if decide (NestedString waited ["status"; "phase"] ≠ RepositoryBuildStatusPhaseSucceeded)
            then Some (inl (ENew ("RepositoryBuildStatus " +:+ Quote (GetName created)
                   +:+ " failed: " +:+ repositoryCommitConditionMessage (Some waited))))
            else Some (inr waited)
        end).

Definition runBuildStatusRequest (fuel : nat) (repositoryRef : string) (spec : Object)
    : Tool W (option (error + Object)) :=
  now ← d_now;
  created ← d_create repositoryBuildStatusesGVR
    [("apiVersion", AString SchemeGroupVersion); ("kind", AString "RepositoryBuildStatus");
     ("metadata", AMap [("name", AString (checkoutObjectName repositoryRef now));
                        ("labels", AMap [(LabelRepository, AString repositoryRef)])]);
     ("spec", AMap spec)];
  match created with
  | inl err =>
      mret (Some (inl (Wrap (if IsNotFound err then
        "create RepositoryBuildStatus: the RepositoryBuildStatus API is not available in this workspace; re-register the Code provider: "
        else "create RepositoryBuildStatus: ") err)))
  | inr created =>
      r ← collectBuildStatus fuel created;
      _ ← d_delete repositoryBuildStatusesGVR (GetName created);
      mret r
  end.

Definition jobOutput (jm : Object) : buildStatusJobOutput :=
  {| gj_Name := NestedString jm ["name"]; gj_Status := NestedString jm ["status"];
     gj_Conclusion := NestedString jm ["conclusion"];
     gj_FailureLog := NestedString jm ["failureLog"] |}.

Definition buildStatusResult (repositoryRef : string) (obj : Object) : buildStatusOutput :=
  match NestedMap obj ["status"; "run"] with
  | None => {| go_RepositoryRef := repositoryRef; go_Found := false; go_RunID := 0;
               go_HTMLURL := ""; go_HeadSHA := ""; go_Status := ""; go_Conclusion := "";
               go_Jobs := [] |}
  | Some run =>
      {| go_RepositoryRef := repositoryRef; go_Found := NestedBool run ["found"];
         go_RunID := default 0%Z (NestedInt64 run ["runID"]);
         go_HTMLURL := NestedString run ["htmlURL"]; go_HeadSHA := NestedString run ["headSHA"];
         go_Status := NestedString run ["status"];
         go_Conclusion := NestedString run ["conclusion"];
         go_Jobs := jobOutput <$> omap as_map (default [] (NestedSlice run ["jobs"])) |}
  end.

Definition requestSpec (repositoryRef workflow action ref : string) : Object :=
  putIf [("repositoryRef", AString repositoryRef); ("workflowFileName", AString workflow);
         ("action", AString action)] "ref" ref.

Definition buildStatus (fuel : nat) (inp : buildStatusInput)
    : Tool W (option (error + buildStatusOutput)) :=
  let repositoryRef := TrimSpace (gi_RepositoryRef inp) in
  let workflow := normalizeWorkflowFileName (gi_WorkflowFileName inp) in
  if decide (repositoryRef = "") then mret (Some (inl (ENew "repositoryRef is required")))
  else
    let spec := requestSpec repositoryRef workflow RepositoryBuildStatusActionStatus (gi_Ref inp) in
    let spec := if decide (gi_MaxLogLines inp > 0)%Z
                then put spec "maxLogLines" (AInt (gi_MaxLogLines inp)) else spec in
    r ← runBuildStatusRequest fuel repositoryRef spec;
    mret (match r with
          | None => None
          | Some (inl err) => Some (inl err)
          | Some (inr obj) => Some (inr (buildStatusResult repositoryRef obj))
          end).

Definition rebuildWorkflow (fuel : nat) (inp : rebuildInput)
    : Tool W (option (error + rebuildOutput)) :=
  let repositoryRef := TrimSpace (xi_RepositoryRef inp) in
  let workflow := normalizeWorkflowFileName (xi_WorkflowFileName inp) in
  if decide (repositoryRef = "") then mret (Some (inl (ENew "repositoryRef is required")))
  else
    let spec := requestSpec repositoryRef workflow RepositoryBuildStatusActionRerun (xi_Ref inp) in
    r ← runBuildStatusRequest fuel repositoryRef spec;
    mret (match r with
          | None => None
          | Some (inl err) => Some (inl err)
          | Some (inr obj) =>
              Some (inr {| xo_RepositoryRef := repositoryRef;
                           xo_Dispatched := NestedBool obj ["status"; "dispatched"] |})
          end).
End Requests.

(** ** Lemmas *)

Section Lemmas.
Context {W : Type} `{Dyn W} `{Unstructured}.

(** What a finished checkout owes its caller. *)
Definition checkout_done (includeBinary : bool) (created : Object) (out : checkoutRepositoryOutput)
    (t : list DynEvent) : Prop :=
  ∃ obj scope name digest bundle rb,
    DGet repositoryCheckoutsGVR (GetName created) (inr obj) ∈ t ∧
    NestedString obj ["status"; "phase"] = RepositoryCheckoutPhaseSucceeded ∧
    scope = TrimSpace (default "" (GetAnnotations obj !! "kcp.io/cluster")) ∧
    name = NestedString obj ["status"; "bundleRef"; "name"] ∧
    digest = NestedString obj ["status"; "bundleRef"; "digest"] ∧
    DBundleGet scope name digest (inr bundle) ∈ t ∧
    writes t = [DBundleDelete scope name digest rb] ∧
    (∀ f, f ∈ b_Files bundle →
      checkoutFile f ∈ ko_Files out ∨
      (includeBinary = false ∧ bf_Encoding f ≠ "" ∧ (bf_Path f +:+ " (binary)") ∈ ko_Skipped out)) ∧
    (∀ g, g ∈ ko_Files out → ∃ f, f ∈ b_Files bundle ∧ g = checkoutFile f ∧
      (kf_Encoding g = "" ∨ includeBinary = true)).

Lemma checkoutResult_partition includeBinary files out (Hout : ko_Files out = []) :
  (∀ f, f ∈ files →
    checkoutFile f ∈ ko_Files (checkoutResult includeBinary files out) ∨
    (includeBinary = false ∧ bf_Encoding f ≠ "" ∧
     (bf_Path f +:+ " (binary)") ∈ ko_Skipped (checkoutResult includeBinary files out))) ∧
  (∀ g, g ∈ ko_Files (checkoutResult includeBinary files out) →
    ∃ f, f ∈ files ∧ g = checkoutFile f ∧ (kf_Encoding g = "" ∨ includeBinary = true)).
Proof.
  cbn [checkoutResult ko_Files ko_Skipped]. split.
  - intros f Hf. destruct (shown includeBinary f) eqn:Hs.
    + left. apply list_elem_of_fmap. exists f. split; [done|]. by apply elem_filter.
    + right. unfold shown in Hs. apply orb_false_iff in Hs as [Hs%bool_decide_eq_false ->].
      split_and!; [done..|]. apply elem_of_app. right. apply list_elem_of_fmap. exists f.
      split; [done|]. apply elem_filter. split; [done|]. unfold shown.
      by rewrite bool_decide_eq_false_2.
  - intros g Hg. apply list_elem_of_fmap in Hg as (f & -> & [Hf Hs]%elem_filter).
    exists f. split_and!; [done..|]. unfold shown in Hs.
    apply orb_true_iff in Hs as [?%bool_decide_eq_true|?]; [by left|by right].
Qed.

Lemma collectCheckout_emits fuel includeBinary created out (Hout : ko_Files out = []) :
  emits (collectCheckout fuel includeBinary created out) (λ r t,
    match r with
    | Some (out', None) => checkout_done includeBinary created out' t
    | _ => writes t = []
    end).
Proof.
  unfold collectCheckout. apply emits_bind. eapply emits_mono; [apply poll_emits|].
  intros r t [Ht%writes_polls Hr].
  destruct r as [[e|[obj|]]|]; try (apply emits_ret; by rewrite app_nil_r). cbv zeta.
  destruct Hr as [[Hget _]|(? & ? & _)]; [|done].
  case_decide as Hp; [apply emits_ret; by rewrite app_nil_r|].
  case_decide; [apply emits_ret; by rewrite app_nil_r|].
  apply emits_bind, emits_call. intros [e|bundle].
  { apply emits_ret. by rewrite app_nil_r, writes_app, Ht. }
  apply emits_bind, emits_call. intros rb. apply emits_ret. rewrite app_nil_r.
  destruct (checkoutResult_partition includeBinary (b_Files bundle) (checkoutStatus obj out))
    as [Hall Honly]; [done|].
  eexists obj, _, _, _, bundle, rb. split_and!; [|done| | | | | |exact Hall|exact Honly]; try done.
  - by apply elem_before.
  - apply elem_of_app. right. by left.
  - by rewrite writes_app, Ht.
Qed.

(** A request that was created is deleted, whatever became of it. *)
Lemma collectBuildStatus_emits fuel created :
  emits (collectBuildStatus fuel created) (λ r t, writes t = [] ∧
    match r with
    | Some (inr obj) => DGet repositoryBuildStatusesGVR (GetName created) (inr obj) ∈ t ∧
        NestedString obj ["status"; "phase"] = RepositoryBuildStatusPhaseSucceeded
    | _ => True
    end).
Proof.
  unfold collectBuildStatus. apply emits_bind. eapply emits_mono; [apply poll_emits|].
  intros r t [Ht%writes_polls Hr]. apply emits_ret. rewrite app_nil_r. split; [done|].
  destruct r as [[e|[obj|]]|]; try done. case_decide as Hp; [done|].
  destruct Hr as [[Hget _]|(? & ? & _)]; [|done]. done.
Qed.
End Lemmas.

(** The writes of a transient request: none, a refused creation, or a creation
    whose object is deleted at the end, [mid] in between. *)
Inductive transient `{Unstructured} (k : Resource) (mid : list DynEvent)
    : option Object → list DynEvent → Prop :=
  | tr_none : transient k mid None []
  | tr_refused o e : transient k mid None [DCreate k o (inl e)]
  | tr_reclaimed o c rd :
      transient k mid (Some c) ([DCreate k o (inr c)] ++ mid ++ [DDelete k (GetName c) rd]).

Lemma checkoutRepository_emits {W} `{Dyn W} `{Unstructured} fuel has_store inp :
  emits (checkoutRepository (W:=W) fuel has_store inp) (λ r t, match r with
    | None => ∃ left, transient repositoryCheckoutsGVR [] left (writes t)
    | Some (_, Some _) => ∃ left, transient repositoryCheckoutsGVR [] left (writes t)
    | Some (out, None) => ∃ o c mid rd t0,
      t = (t0 ++ [DCreate repositoryCheckoutsGVR o (inr c)] ++ mid
             ++ [DDelete repositoryCheckoutsGVR (GetName c) rd])%list ∧ writes t0 = [] ∧
      checkout_done (bool_decide (ki_BinaryEncoding inp = EncodingBase64)) c out mid
    end).
Proof.
  unfold checkoutRepository.
  destruct has_store; [|apply emits_ret; exists None; constructor]. cbv zeta.
  case_decide; [apply emits_ret; exists None; constructor|].
  cbn [ki_BinaryEncoding ki_RepositoryRef].
  destruct (binaryEncoding (ki_BinaryEncoding inp)) as [e|inc] eqn:Hinc;
    [apply emits_ret; exists None; constructor|].
  assert (inc = bool_decide (ki_BinaryEncoding inp = EncodingBase64)) as ->.
  { unfold binaryEncoding in Hinc. case_decide as He1; [rewrite He1 in *; by injection Hinc as <-|].
    case_decide as He2; [|done]. injection Hinc as <-. by rewrite bool_decide_eq_true_2. }
  apply emits_bind. eapply emits_mono; [apply getRepository_writes|]. intros [e|repo] t1 Ht1.
  { apply emits_ret. exists None. rewrite app_nil_r, Ht1. constructor. }
  apply emits_bind, emits_call. intros now. apply emits_bind, emits_call. intros [e|created].
  { apply emits_ret. exists None. rewrite app_nil_r, writes_app, Ht1. constructor. }
  apply emits_bind. eapply emits_mono; [by apply collectCheckout_emits|]. intros r t2 Hr.
  apply emits_bind, emits_call. intros rd. apply emits_ret.
  destruct r as [[out' [e|]]|].
  1,3: exists (Some created); rewrite app_nil_r, !writes_app, Ht1, Hr; by constructor.
  eexists _, created, t2, rd, (t1 ++ [DNow now])%list. rewrite app_nil_r, <- !app_assoc.
  split_and!; [done|by rewrite writes_app, Ht1|done].
Qed.

Lemma runBuildStatusRequest_emits {W} `{Dyn W} `{Unstructured} fuel repositoryRef spec :
  emits (runBuildStatusRequest (W:=W) fuel repositoryRef spec) (λ r t,
    ∃ left, transient repositoryBuildStatusesGVR [] left (writes t) ∧
    match r with
    | Some (inr obj) => ∃ c, left = Some c ∧
      DGet repositoryBuildStatusesGVR (GetName c) (inr obj) ∈ t ∧
      NestedString obj ["status"; "phase"] = RepositoryBuildStatusPhaseSucceeded
    | _ => True
    end).
Proof.
  unfold runBuildStatusRequest. apply emits_bind, emits_call. intros now.
  apply emits_bind, emits_call. intros [e|created].
  { apply emits_ret. exists None. split; [constructor|done]. }
  apply emits_bind. eapply emits_mono; [apply collectBuildStatus_emits|]. intros r' t2 [Ht Hr].
  apply emits_bind, emits_call. intros rd. apply emits_ret. exists (Some created). split.
  - rewrite app_nil_r. cbn [writes List.filter is_write app]. rewrite writes_app, Ht. constructor.
  - destruct r' as [[e|obj]|]; try done. destruct Hr as [Hget Hph]. exists created.
    split_and!; [done| |done]. do 2 right. by apply elem_before.
Qed.

(** ** Properties *)

(** [checkout_repository] leaves nothing behind: the request it created is
    its last deletion on every path.  It succeeds only after reading the
    request back as Succeeded and its bundle from the reported scope, name and
    digest; then that bundle alone is deleted, every file of it is returned or,
    when encoded and not asked for, listed as skipped, and nothing else is
    returned. *)
Theorem checkoutRepository_reclaims {W} `{Dyn W} `{Unstructured} fuel has_store inp
    (w w' : W) out err t
    (Hrun : checkoutRepository fuel has_store inp w = (Some (out, err), w', t)) :
  match err with
  | Some _ => ∃ left, transient repositoryCheckoutsGVR [] left (writes t)
  | None => ∃ o c mid rd t0,
      t = (t0 ++ [DCreate repositoryCheckoutsGVR o (inr c)] ++ mid
             ++ [DDelete repositoryCheckoutsGVR (GetName c) rd])%list ∧ writes t0 = [] ∧
      checkout_done (bool_decide (ki_BinaryEncoding inp = EncodingBase64)) c out mid
  end.
Proof.
  pose proof (checkoutRepository_emits (W:=W) fuel has_store inp w) as He. rewrite Hrun in He.
  by destruct err.
Qed.

(** [build_status] and [rebuild] make one request each and take it back:
    the creation is their first write and the deletion of the same object
    their last, and a result is that of a request read as Succeeded. *)
Theorem runBuildStatusRequest_reclaims {W} `{Dyn W} `{Unstructured} fuel repositoryRef spec
    (w w' : W) r t
    (Hrun : runBuildStatusRequest fuel repositoryRef spec w = (Some r, w', t)) :
  ∃ left, transient repositoryBuildStatusesGVR [] left (writes t) ∧
  match r with
  | inl _ => True
  | inr obj => ∃ c, left = Some c ∧
      DGet repositoryBuildStatusesGVR (GetName c) (inr obj) ∈ t ∧
      NestedString obj ["status"; "phase"] = RepositoryBuildStatusPhaseSucceeded
  end.
Proof.
  pose proof (runBuildStatusRequest_emits (W:=W) fuel repositoryRef spec w) as He.
  by rewrite Hrun in He.
Qed.

(** ** Runs *)

Definition demo_checkout_object : Object :=
  [("metadata", AMap [("name", AString "co"); ("annotations", AMap [("kcp.io/cluster", AString "c1")])]);
   ("status", AMap [("phase", AString "Succeeded"); ("commitSHA", AString "abc");
      ("bundleRef", AMap [("name", AString "bundle-1"); ("digest", AString "sha256:1")])])].
Definition demo_bundle : Bundle :=
  {| b_Name := "bundle-1"; b_Digest := "sha256:1"; b_Scope := "c1"; b_Size := 2;
     b_Files := [ {| bf_Path := "a.txt"; bf_Content := "x"; bf_Encoding := ""; bf_Size := 1;
                     bf_Digest := ""; bf_Delete := false |};
                  {| bf_Path := "b.png"; bf_Content := "AA=="; bf_Encoding := "base64"; bf_Size := 1;
                     bf_Digest := ""; bf_Delete := false |} ] |}.
Definition checkout_dyn : Dyn nat :=
  fixed_dyn (λ _, inr demo_checkout_object) "c1" (inl EBundleNotFound) (inr demo_bundle).
Definition demo_checkout_input : checkoutRepositoryInput :=
  {| ki_RepositoryRef := " app"; ki_Ref := "main"; ki_BinaryEncoding := "" |}.

Lemma checkoutRepository_reclaims_witness :
  ∃ out w' t, checkoutRepository (H:=checkout_dyn) 1 true demo_checkout_input 3
      = (Some (out, None), w', t) ∧
    ko_Files out = [ {| kf_Path := "a.txt"; kf_Content := "x"; kf_Encoding := "" |} ] ∧
    ko_Skipped out = ["b.png (binary)"] ∧
    ∃ o c mid rd t0, t = (t0 ++ [DCreate repositoryCheckoutsGVR o (inr c)] ++ mid
        ++ [DDelete repositoryCheckoutsGVR (GetName c) rd])%list ∧ writes t0 = [] ∧
      checkout_done false c out mid.
Proof.
  eexists _, _, _. split; [vm_compute; reflexivity|]. split; [reflexivity|]. split; [reflexivity|].
  refine (checkoutRepository_reclaims (H:=checkout_dyn) 1 true demo_checkout_input 3 _ _ None _ _).
  vm_compute. reflexivity.
Defined.

Lemma runBuildStatusRequest_reclaims_witness :
  ∃ obj w' t, runBuildStatusRequest (H:=checkout_dyn) 1 "app" [] 3 = (Some (inr obj), w', t) ∧
    ∃ left, transient repositoryBuildStatusesGVR [] left (writes t) ∧
      ∃ c, left = Some c ∧ DGet repositoryBuildStatusesGVR (GetName c) (inr obj) ∈ t ∧
        NestedString obj ["status"; "phase"] = RepositoryBuildStatusPhaseSucceeded.
Proof.
  eexists _, _, _. split; [vm_compute; reflexivity|].
  refine (runBuildStatusRequest_reclaims (H:=checkout_dyn) 1 "app" [] 3 _ (inr _) _ _).
  vm_compute. reflexivity.
Defined.
