(* ===== verification/McpNames.v ===== *)
(** * The names the MCP tools give

    Object names end in the time of the request in hexadecimal: they fit the
    API server's 253 bytes and two requests at different times never share one.
    Workflow file names are reduced to a base name. *)

From S2P Require Import Prelude GoStrings GoTime Encoding Api Dynamic McpWrite McpRequests.
From Stdlib Require Import Ascii Lia.

#[local] Open Scope string_scope.

(** ** Hexadecimal numbers *)

Section Digits.
Context (base : N) (Hbase : (2 ≤ base ≤ 16)%N).

Definition digit_char (d : N) : ascii :=
  if (d <? 10)%N then ascii_of_N (48 + d) else ascii_of_N (87 + d).
Definition char_digit (c : ascii) : N :=
  if (N_of_ascii c <? 58)%N then (N_of_ascii c - 48)%N else (N_of_ascii c - 87)%N.

Lemma N_digit_char d : (d < 16)%N →
  N_of_ascii (digit_char d) = (if (d <? 10)%N then 48 + d else 87 + d)%N.
Proof. intros Hd. unfold digit_char. destruct (N.ltb_spec d 10); rewrite N_ascii_embedding; lia. Qed.

Lemma char_digit_char d : (d < 16)%N → char_digit (digit_char d) = d.
Proof.
  intros Hd. unfold char_digit. rewrite N_digit_char by done.
  destruct (N.ltb_spec d 10); [rewrite (proj2 (N.ltb_lt _ 58)) by lia; lia|].
  rewrite (proj2 (N.ltb_ge _ 58)) by lia. lia.
Qed.

Lemma digit_char_not_dash d : (d < 16)%N → digit_char d ≠ dash.
Proof.
  intros Hd He. apply (f_equal N_of_ascii) in He. rewrite N_digit_char in He by done.
  change (N_of_ascii dash) with 45%N in He. destruct (d <? 10)%N; lia.
Qed.

(** The value of a digit string over [v]. *)
Fixpoint value (v : N) (s : string) : N :=
  match s with
  | EmptyString => v
  | String c s => value (v * base + char_digit c)%N s
  end.

Lemma digits_pos_value fuel n acc v : (n < base ^ N.of_nat fuel)%N → v = 0%N →
  value v (digits_pos fuel base n acc) = value n acc.
Proof.
  intros Hn ->. revert n acc Hn. induction fuel as [|fuel IH]; intros n acc Hn.
  { simpl in *. f_equal. lia. }
  cbn [digits_pos]. fold (digit_char (n mod base)).
  assert (n mod base < base)%N as Hm by (apply N.mod_lt; lia).
  destruct (N.ltb_spec n base).
  - cbn [value]. rewrite char_digit_char by lia. f_equal. rewrite N.mod_small by done. lia.
  - rewrite IH.
    + cbn [value]. rewrite char_digit_char by lia. f_equal.
      pose proof (N.div_mod n base ltac:(lia)). lia.
    + rewrite Nat2N.inj_succ, N.pow_succ_r' in Hn.
      apply N.Div0.div_lt_upper_bound; lia.
Qed.

Lemma digits_pos_chars fuel n acc :
  Forall (λ c, c ≠ dash) (bytes_of acc) →
  Forall (λ c, c ≠ dash) (bytes_of (digits_pos fuel base n acc)).
Proof.
  revert n acc. induction fuel as [|fuel IH]; intros n acc Ha; [done|].
  cbn [digits_pos]. fold (digit_char (n mod base)).
  assert (Forall (λ c, c ≠ dash) (bytes_of (String (digit_char (n mod base)) acc))) as Hc.
  { constructor; [|done]. apply digit_char_not_dash.
    pose proof (N.mod_lt n base ltac:(lia)). lia. }
  destruct (n <? base)%N; [done|by apply IH].
Qed.

Lemma digits_pos_length fuel n acc k : (n < base ^ N.of_nat k)%N → (0 < k)%nat →
  (String.length (digits_pos fuel base n acc) ≤ String.length acc + k)%nat.
Proof.
  revert n acc k. induction fuel as [|fuel IH]; intros n acc k Hn Hk; [simpl; lia|].
  cbn [digits_pos]. destruct (N.ltb_spec n base); [simpl; lia|].
  destruct k as [|[|k]]; [lia|simpl in Hn; lia|].
  etrans; [apply (IH _ _ (S k)); [|lia]|cbn [String.length]; lia].
  rewrite Nat2N.inj_succ, N.pow_succ_r' in Hn. apply N.Div0.div_lt_upper_bound; lia.
Qed.

Lemma N_digits_value n : value 0%N (N_digits base n) = n.
Proof.
  unfold N_digits. rewrite digits_pos_value; [done| |done].
  rewrite Nat2N.inj_succ, N2Nat.id. destruct (N.eq_dec n 0%N) as [->|Hn].
  { apply N.neq_0_lt_0, N.pow_nonzero. lia. }
  eapply N.lt_le_trans; [apply N.log2_spec; lia|]. apply N.pow_le_mono_l. lia.
Qed.
End Digits.

Lemma slen_digits z : (- 2 ^ 63 ≤ z < 2 ^ 63)%Z → (slen (Z_digits 16 z) ≤ 17)%Z.
Proof.
  intros Hz. unfold Z_digits, N_digits, slen.
  assert (∀ n, (n < 16 ^ 16)%N →
    (String.length (digits_pos (S (N.to_nat (N.log2 n))) 16 n "") ≤ 16)%nat) as Hd.
  { intros n Hn. etrans; [apply (digits_pos_length 16 ltac:(lia) _ _ _ 16 Hn); lia|done]. }
  assert (16 ^ 16 = 18446744073709551616)%N as E by done.
  destruct (Z.ltb_spec z 0).
  - cbn [String.append String.length]. specialize (Hd (Z.to_N (- z)) ltac:(lia)). lia.
  - specialize (Hd (Z.to_N z) ltac:(lia)). lia.
Qed.

Lemma wrap64_range z : (- 2 ^ 63 ≤ wrap64 z < 2 ^ 63)%Z.
Proof. unfold wrap64. pose proof (Z.mod_pos_bound (z + 2 ^ 63) (2 ^ 64)). lia. Qed.

(** What follows the last dash. *)
Lemma last_dash {A} (d : A) p1 p2 l1 l2 :
  Forall (λ c, c ≠ d) l1 → Forall (λ c, c ≠ d) l2 →
  (p1 ++ d :: l1 = p2 ++ d :: l2)%list → p1 = p2 ∧ l1 = l2.
Proof.
  intros H1 H2. revert p2. induction p1 as [|x p1 IH]; intros [|y p2] He; simpl in He.
  - by injection He as ->.
  - injection He as _ ->. apply Forall_app in H1 as [_ H1]. by inversion H1.
  - injection He as _ <-. apply Forall_app in H2 as [_ H2]. by inversion H2.
  - injection He as -> He. by destruct (IH p2 He) as [-> ->].
Qed.

(** ** Lengths *)

Lemma length_TrimLeftByte c s : (String.length (TrimLeftByte c s) ≤ String.length s)%nat.
Proof. induction s as [|a s IH]; simpl; [lia|]. destruct (decide (a = c)); simpl; lia. Qed.
Lemma slen_TrimByte c s : (slen (TrimByte c s) ≤ slen s)%Z.
Proof.
  unfold slen, TrimByte, TrimRightByte. rewrite length_srev.
  pose proof (length_TrimLeftByte c (srev (TrimLeftByte c s))).
  rewrite length_srev in H. pose proof (length_TrimLeftByte c s). lia.
Qed.
(** A name made of a base of at most [room] bytes. *)
Lemma base_fits room base :
  (10 ≤ room)%Z →
  let base' := if decide (slen base > room)%Z then TrimByte dash (stake (Z.to_nat room) base) else base in
  (slen (if decide (base' = "") then "repository" else base') ≤ room)%Z.
Proof.
  intros Hr base'. destruct (decide (base' = "")); [exact Hr|]. subst base'.
  destruct (decide (slen base > room)%Z); [|lia].
  etrans; [apply slen_TrimByte|]. pose proof (slen_stake (Z.to_nat room) base). lia.
Qed.

(** The digits of a time: an optional sign and digits without a dash. *)
Lemma Z_digits_split z : ∃ p l, bytes_of (Z_digits 16 z) = (p ++ l)%list ∧
  Forall (λ c, c ≠ dash) l ∧
  p = (if (z <? 0)%Z then [dash] else []) ∧ value 16 0%N (of_bytes l) = Z.to_N (Z.abs z).
Proof.
  unfold Z_digits. assert (2 ≤ 16 ≤ 16)%N as Hb by lia.
  assert (∀ n, Forall (λ c, c ≠ dash) (bytes_of (N_digits 16 n))) as Hc
    by (intros n; apply digits_pos_chars; [done|constructor]).
  destruct (Z.ltb_spec z 0).
  - exists [dash], (bytes_of (N_digits 16 (Z.to_N (- z)))).
    split_and!; [by rewrite bytes_of_app|apply Hc|done|].
    rewrite of_bytes_bytes_of, N_digits_value by done. f_equal. lia.
  - exists [], (bytes_of (N_digits 16 (Z.to_N z))). split_and!; [done|apply Hc|done|].
    rewrite of_bytes_bytes_of, N_digits_value by done. f_equal. lia.
Qed.

(** The time a checkout name ends in. *)
Lemma checkout_name_time b1 b2 z1 z2 :
  b1 +:+ "-checkout-" +:+ Z_digits 16 z1 = b2 +:+ "-checkout-" +:+ Z_digits 16 z2 → z1 = z2.
Proof.
  intros He. apply (f_equal bytes_of) in He. rewrite !bytes_of_app in He.
  destruct (Z_digits_split z1) as (p1 & l1 & E1 & F1 & P1 & V1).
  destruct (Z_digits_split z2) as (p2 & l2 & E2 & F2 & P2 & V2).
  rewrite E1, E2 in He. change (bytes_of "-checkout-") with (bytes_of "-checkout" ++ [dash])%list in He.
  assert (Hsplit : ∀ (b p l : list ascii) z, p = (if (z <? 0)%Z then [dash] else []) →
    (b ++ (bytes_of "-checkout" ++ [dash]) ++ p ++ l)%list =
    ((b ++ bytes_of "-checkout" ++ p) ++ dash :: l)%list).
  { intros b p l z ->. rewrite <- !app_assoc. by destruct (z <? 0)%Z. }
  rewrite (Hsplit _ _ _ z1), (Hsplit _ _ _ z2) in He by done.
  apply last_dash in He as [Hp Hl]; [|done..]. subst l2. rewrite V1 in V2.
  assert ((z1 <? 0) = (z2 <? 0))%Z as Hsign; [|destruct (Z.ltb_spec z1 0), (Z.ltb_spec z2 0); lia].
  subst p1 p2. apply (f_equal last) in Hp. rewrite !last_app in Hp.
  by destruct (z1 <? 0)%Z, (z2 <? 0)%Z.
Qed.

Lemma slen_time t : (slen (Z_digits 16 (UnixNano t)) ≤ 17)%Z.
Proof. apply slen_digits, wrap64_range. Qed.

Lemma slen_commit_suffix digest t :
  let sum := TrimPrefix digest "sha256:" in
  let sum := if decide (slen sum > 12)%Z then stake 12 sum else sum in
  let sum := if decide (sum = "") then "bundle" else sum in
  (0 ≤ slen (sum +:+ "-" +:+ Z_digits 16 (UnixNano t)) ≤ 30)%Z.
Proof.
  intros sum0 sum1 sum2. assert (slen sum2 ≤ 12)%Z as Hs.
  { subst sum2. destruct (decide (sum1 = "")); [done|]. subst sum1.
    destruct (decide (slen sum0 > 12)%Z); [|lia]. apply (slen_stake 12). }
  rewrite !slen_app. change (slen "-") with 1%Z.
  pose proof (slen_time t). pose proof (slen_nonneg sum2).
  pose proof (slen_nonneg (Z_digits 16 (UnixNano t))). lia.
Qed.

(** ** Properties *)

(** The names of the objects the tools create fit the API server's limit of
    253 bytes, for every repository reference, digest and time, and two
    checkout or build-status requests made at different times have different
    names, whatever repositories they are for. *)
Theorem request_names repositoryRef repositoryRef' digest now now' :
  (slen (commitObjectName repositoryRef digest now) ≤ 253)%Z ∧
  (slen (checkoutObjectName repositoryRef now) ≤ 253)%Z ∧
  (checkoutObjectName repositoryRef now = checkoutObjectName repositoryRef' now' →
   UnixNano now = UnixNano now').
Proof.
  split_and!.
  - unfold commitObjectName. pose proof (slen_commit_suffix digest now) as Hs. cbv zeta in *.
    set (suffix := (if decide (_ = "") then "bundle" else _) +:+ _) in *.
    assert (slen "-commit-" = 8%Z) as Hc by done.
    rewrite (decide_False (P := (253 - slen "-commit-" - slen suffix < 1)%Z)) by lia.
    match goal with |- context [decide (slen ?b > ?room)%Z] =>
      pose proof (base_fits room b ltac:(lia)) as Hb end.
    cbv zeta in Hb. rewrite !slen_app. lia.
  - unfold checkoutObjectName. pose proof (slen_time now) as Hs.
    match goal with |- context [decide (slen ?b > ?room)%Z] =>
      pose proof (base_fits room b ltac:(change (slen "-checkout-") with 10%Z; lia)) as Hb end.
    cbv zeta in Hb. rewrite !slen_app. lia.
  - unfold checkoutObjectName. apply checkout_name_time.
Qed.

(** A separator of a workflow path. *)
Definition separator (c : ascii) : Prop := c = slash ∨ c = "\"%char.

Lemma ContainsAny_separator s : ContainsAny s "/\" = false ↔ Forall (λ c, ¬ separator c) (bytes_of s).
Proof.
  unfold ContainsAny. cbn [bytes_of String.list_ascii_of_string existsb].
  rewrite orb_false_r, orb_false_iff. induction s as [|c s IH]; [by split|].
  cbn [ContainsByte bytes_of String.list_ascii_of_string]. rewrite !orb_false_iff, Forall_cons.
  change (String.list_ascii_of_string s) with (bytes_of s). rewrite <- IH.
  rewrite !bool_decide_eq_false. unfold separator, slash. tauto.
Qed.

Lemma after_separator_clean s : Forall (λ c, ¬ separator c) (bytes_of (after_separator s)).
Proof.
  induction s as [|c s IH]; [constructor|]. cbn [after_separator].
  destruct (ContainsAny s "/\") eqn:Hs; [done|]. apply ContainsAny_separator in Hs.
  case_bool_decide as Hc; [done|]. by constructor.
Qed.

Lemma after_separator_suffix s : ∃ p, bytes_of s = (p ++ bytes_of (after_separator s))%list ∧
  (p = [] ∨ ∃ q c, p = (q ++ [c])%list ∧ separator c).
Proof.
  induction s as [|c s (p & Hp & Hend)]; [by exists []; split; [|left]|]. cbn [after_separator].
  destruct (ContainsAny s "/\") eqn:Hs.
  - exists (c :: p). split; [by simpl; rewrite <- Hp|]. right.
    destruct Hend as [->|(q & c' & -> & Hc)]; [|by exists (c :: q), c'].
    exfalso. simpl in Hp. pose proof (after_separator_clean s) as Hcl. rewrite <- Hp in Hcl.
    apply ContainsAny_separator in Hcl. congruence.
  - case_bool_decide as Hc; [|by exists []; split; [|left]].
    exists [c]. split; [done|]. right. by exists [], c.
Qed.

(** The workflow a build request names is a base name: never empty, free
    of separators, and what follows the last slash or backslash of the trimmed
    input; the default is used exactly when that is empty. *)
Theorem normalizeWorkflowFileName_spec name :
  Forall (λ c, ¬ separator c) (bytes_of (normalizeWorkflowFileName name)) ∧
  normalizeWorkflowFileName name ≠ "" ∧
  ∃ dir file, bytes_of (TrimSpace name) = (dir ++ bytes_of file)%list ∧
    (dir = [] ∨ ∃ q c, dir = (q ++ [c])%list ∧ separator c) ∧
    normalizeWorkflowFileName name = (if decide (file = "") then defaultWorkflowFileName else file).
Proof.
  assert (Forall (λ c, ¬ separator c) (bytes_of defaultWorkflowFileName)) as Hdef
    by (by apply ContainsAny_separator).
  unfold normalizeWorkflowFileName. destruct (decide (TrimSpace name = "")) as [->|Hn].
  { split_and!; [done|done|]. exists [], "". split_and!; [done|by left|done]. }
  cbv zeta. destruct (after_separator_suffix (TrimSpace name)) as (p & Hp & Hend).
  split_and!.
  - destruct (decide _); [done|apply after_separator_clean].
  - by destruct (decide (after_separator (TrimSpace name) = "")).
  - by exists p, (after_separator (TrimSpace name)).
Qed.
