(* ===== verification/McpServer.v ===== *)
(** * mcpserver/: the server a request gets

    [server.go] builds a server per request, whose tools close over the
    identity of that request.  Every tool first asks the client factory for a
    client of the caller and then runs its body ([McpWrite], [McpCommit],
    [McpRequests]) on it.  Decoding the arguments of a call and choosing the
    tool by its name belong to the MCP library: a call here is its tool and
    typed input.  What the tools do on clients is stated per tool as a
    contract on its writes. *)

From S2P Require Import Prelude GoStrings GoTime Errors Encoding CommitBundle Api Dynamic McpWrite McpCommit McpRequests.
From Stdlib Require Import Ascii Lia.

#[local] Open Scope string_scope.

(** ** Calls and answers *)

Inductive WriteCall :=
  | CreateConnection (inp : createConnectionInput)
  | CreateRepository (inp : createRepositoryInput)
  | DeleteRepository (name : string)
  | CommitFiles (inp : commitFilesInput)
  | AddDeployKey (inp : addDeployKeyInput)
  | AddCollaborator (inp : addCollaboratorInput)
  | RemoveCollaborator (name : string).
Inductive BuildCall :=
  | BuildStatus (inp : buildStatusInput)
  | Rebuild (inp : rebuildInput).
Inductive ToolCall :=
  | ListConnections
  | ListRepositories
  | Writing (c : WriteCall)
  | CheckoutRepository (inp : checkoutRepositoryInput)
  | Building (c : BuildCall).

Inductive ToolOutput :=
  | ONothing
  | OConnections (l : list connectionSummary)
  | ORepositories (l : list repositorySummary)
  | OCreated (o : createOutput)
  | ODeleted (deleted : bool)
  | OCommit (o : commitFilesOutput)
  | OText (json : string)
  | OBuildStatus (o : buildStatusOutput)
  | ORebuild (o : rebuildOutput).

Abbreviation Answer := (ToolOutput * option error)%type (only parsing).

(** A tool that answers with its output or an error. *)
Definition answer {A} (f : A → ToolOutput) (r : error + A) : Answer :=
  match r with inl err => (ONothing, Some err) | inr a => (f a, None) end.

(** ** The tools *)

Section Bodies.
Context {W : Type} `{Dyn W} `{Unstructured}.
(** [json.Marshal] of a checkout's output. *)
Context (Marshal : checkoutRepositoryOutput → error + string).

Definition checkoutToolResult (out : checkoutRepositoryOutput) : error + string :=
  match Marshal out with
  | inl err => inl (Wrap "encode checkout result: " err)
  | inr raw => inr raw
  end.

Definition checkoutAnswer (r : CheckoutOutcome) : Answer :=
  match r with
  | (_, Some err) => (ONothing, Some err)
  | (out, None) => answer OText (checkoutToolResult out)
  end.

(** What the tools of each [register] function do with their client; [None] is
    running out of fuel. *)
Definition registerWriteTools (fuel : nat) (has_store : bool) (ident : identity) (c : WriteCall)
    : Tool W (option Answer) :=
  match c with
  | CreateConnection inp => r ← create_connection inp; mret (Some (answer OCreated r))
  | CreateRepository inp => r ← create_repository inp; mret (Some (answer OCreated r))
  | DeleteRepository name => r ← delete_repository name; mret (Some (answer ODeleted r))
  | CommitFiles inp =>
      r ← commitFiles fuel has_store (tenant ident) inp;
      mret ((λ '(out, err), (OCommit out, err)) <$> r)
  | AddDeployKey inp => r ← add_deploy_key inp; mret (Some (answer OCreated r))
  | AddCollaborator inp => r ← add_collaborator inp; mret (Some (answer OCreated r))
  | RemoveCollaborator name => r ← remove_collaborator name; mret (Some (answer ODeleted r))
  end.

Definition registerCheckoutTools (fuel : nat) (has_store : bool) (inp : checkoutRepositoryInput)
    : Tool W (option Answer) :=
  r ← checkoutRepository fuel has_store inp;
  mret (checkoutAnswer <$> r).

Definition registerBuildStatusTools (fuel : nat) (c : BuildCall) : Tool W (option Answer) :=
  match c with
  | BuildStatus inp => r ← buildStatus fuel inp; mret (answer OBuildStatus <$> r)
  | Rebuild inp => r ← rebuildWorkflow fuel inp; mret (answer ORebuild <$> r)
  end.

Definition registerTools (fuel : nat) (has_store : bool) (ident : identity) (c : ToolCall)
    : Tool W (option Answer) :=
  match c with
  | ListConnections => r ← list_connections; mret (Some (answer OConnections r))
  | ListRepositories => r ← list_repositories; mret (Some (answer ORepositories r))
  | Writing c => registerWriteTools fuel has_store ident c
  | CheckoutRepository inp => registerCheckoutTools fuel has_store inp
  | Building c => registerBuildStatusTools fuel c
  end.
End Bodies.

(** ** The client of a request *)

(** The factory of the provider and the workspaces behind its clients. *)
Class Clients (W C : Type) := {
  cl_for : string → string → W → (error + C) * W;
  cl_dyn : C → Dyn W }.

Inductive ToolEvent (C : Type) :=
  | TFor (cluster token : string) (r : error + C)
  | TDyn (client : C) (e : DynEvent).
Arguments TFor {C}.
Arguments TDyn {C}.

Section Server.
Context {W C : Type} `{Clients W C} `{Unstructured}.
Context (Marshal : checkoutRepositoryOutput → error + string).

Definition t_for (cluster token : string) : M W (ToolEvent C) (error + C) :=
  call (cl_for cluster token) (TFor cluster token).

(** [factory] is [deps.Tenant != nil]: the provider has a kubeconfig. *)
Definition tenantClient (factory : bool) (ident : identity) : M W (ToolEvent C) (error + C) :=
  if decide (tenant ident = "") then
    mret (inl (ENew "no tenant identity on this request — bearer token did not resolve to a workspace"))
  else if decide (clusterID ident = "") then
    mret (inl (ENew "no workspace cluster on this request (X-Railgrid-Cluster missing) — cannot address the tenant workspace by ID"))
  else if decide (token ident = "") then
    mret (inl (ENew "no bearer token on this request — the MCP request must carry the caller's credentials"))
  else if negb factory then
    mret (inl (ENew "tenant client unavailable (provider kubeconfig not set)"))
  else t_for (clusterID ident) (token ident).

Definition callTool (factory : bool) (fuel : nat) (has_store : bool) (ident : identity)
    (c : ToolCall) : M W (ToolEvent C) (option Answer) :=
  dyn ← tenantClient factory ident;
  match dyn with
  | inl err => mret (Some (ONothing, Some err))
  | inr d => relabel (TDyn d) (registerTools (H := cl_dyn d) Marshal fuel has_store ident c)
  end.

(** A call on the server of one request. *)
Definition serve (getenv header query : string → string) (factory : bool) (fuel : nat)
    (has_store : bool) (c : ToolCall) : M W (ToolEvent C) (option Answer) :=
  callTool factory fuel has_store (identityFromRequest getenv header query) c.
End Server.

(** ** What a tool may write *)

(** A creation of one object, answered as the API server answered it. *)
Inductive one_create (k : Resource) (kind name : string) : option Answer → list DynEvent → Prop :=
  | oc_refused err : one_create k kind name (Some (ONothing, Some err)) []
  | oc_failed o e err : one_create k kind name (Some (ONothing, Some err)) [DCreate k o (inl e)]
  | oc_created o u : nested (AMap o) ["metadata"; "name"] = AString name →
      nested (AMap o) ["kind"] = AString kind →
      one_create k kind name
        (Some (OCreated {| co_Name := name; co_Kind := kind; co_Created := true |}, None))
        [DCreate k o (inr u)].

(** A deletion of the named object; one that is gone already is a success. *)
Inductive one_delete (k : Resource) (name : string) : option Answer → list DynEvent → Prop :=
  | od_refused err : one_delete k name (Some (ONothing, Some err)) []
  | od_failed e err : IsNotFound e = false →
      one_delete k name (Some (ONothing, Some err)) [DDelete k name (Some e)]
  | od_deleted r : (∀ e, r = Some e → IsNotFound e = true) →
      one_delete k name (Some (ODeleted true, None)) [DDelete k name r].

(** The writes of each tool of a caller of this tenant. *)
Definition contract `{Unstructured} (tenant : string) (c : ToolCall) (r : option Answer)
    (ws : list DynEvent) : Prop :=
  match c with
  | ListConnections | ListRepositories => ws = []
  | Writing (CreateConnection inp) => one_create connectionsGVR "Connection" (ci_Name inp) r ws
  | Writing (CreateRepository inp) => one_create repositoriesGVR "Repository" (ri_Name inp) r ws
  | Writing (AddDeployKey inp) => one_create deploykeysGVR "DeployKey" (di_Name inp) r ws
  | Writing (AddCollaborator inp) => one_create collaboratorsGVR "Collaborator" (ai_Name inp) r ws
  | Writing (DeleteRepository name) => one_delete repositoriesGVR name r ws
  | Writing (RemoveCollaborator name) => one_delete collaboratorsGVR name r ws
  | Writing (CommitFiles inp) =>
      ∃ left, transaction (TrimSpace tenant) (submitted inp) left ws ∧
        match r with Some (_, None) => is_Some left | _ => True end
  | CheckoutRepository _ =>
      ∃ left mid, transient repositoryCheckoutsGVR mid left ws ∧
        (mid = [] ∨ ∃ scope name digest rd, mid = [DBundleDelete scope name digest rd])
  | Building _ =>
      ∃ left, transient repositoryBuildStatusesGVR [] left ws ∧
        match r with Some (_, None) => is_Some left | _ => True end
  end.

(** ** Lemmas *)

Section Lemmas.
Context {W : Type} `{Dyn W} `{Unstructured} (Marshal : checkoutRepositoryOutput → error + string).

Lemma createCR_emits k kind name spec :
  emits (r ← createCR k kind name spec; mret (Some (answer OCreated r)))
    (λ r t, one_create k kind name r (writes t)).
Proof.
  unfold createCR. case_decide as Hn; [apply emits_bind, emits_ret, emits_ret; constructor|].
  apply emits_bind, emits_bind, emits_call. intros [e|u]; apply emits_ret, emits_ret.
  - destruct (IsAlreadyExists e); constructor.
  - by constructor.
Qed.

Lemma deleteCR_emits k name :
  emits (r ← deleteCR k name; mret (Some (answer ODeleted r)))
    (λ r t, one_delete k name r (writes t)).
Proof.
  unfold deleteCR. case_decide; [apply emits_bind, emits_ret, emits_ret; constructor|].
  apply emits_bind, emits_bind, emits_call. intros [e|]; apply emits_ret, emits_ret; [|by constructor].
  destruct (IsNotFound e) eqn:He; constructor; [by intros ? [= <-]|done].
Qed.

(** The request tools, once their request is described. *)
Lemma request_emits fuel ref spec {A} (f : Object → A) (out : A → ToolOutput) :
  emits (r ← (r ← runBuildStatusRequest fuel ref spec;
              mret (match r with None => None | Some (inl err) => Some (inl err)
                               | Some (inr obj) => Some (inr (f obj)) end));
         mret (answer out <$> r))
    (λ r t, ∃ left, transient repositoryBuildStatusesGVR [] left (writes t) ∧
       match r with Some (_, None) => is_Some left | _ => True end).
Proof.
  apply emits_bind, emits_bind. eapply emits_mono; [apply runBuildStatusRequest_emits|].
  intros r t (left & Ht & Hr). apply emits_ret, emits_ret. rewrite !app_nil_r.
  exists left. split; [done|]. destruct r as [[err|obj]|]; try done.
  destruct Hr as (c & -> & _). by eexists.
Qed.

Lemma request_refused {A} (err : error) (out : A → ToolOutput) :
  emits (r ← mret (M := M W DynEvent) (Some (inl err)); mret (answer out <$> r))
    (λ r t, ∃ left, transient repositoryBuildStatusesGVR [] left (writes t) ∧
       match r with Some (_, None) => is_Some left | _ => True end).
Proof. apply emits_bind, emits_ret, emits_ret. exists None. split; [constructor|done]. Qed.

Lemma registerWriteTools_emits fuel has_store ident c :
  emits (registerWriteTools fuel has_store ident c)
    (λ r t, contract (tenant ident) (Writing c) r (writes t)).
Proof.
  destruct c; cbn [registerWriteTools contract];
    try apply createCR_emits; try apply deleteCR_emits.
  apply emits_bind. eapply emits_mono; [apply commitFiles_emits|]. intros r t (left & Ht & Hr).
  apply emits_ret. rewrite app_nil_r. exists left. split; [done|].
  destruct r as [[out [err|]]|]; try done. destruct left; [by eexists|]. by destruct Hr as [_ [? Hr]].
Qed.

Lemma registerCheckoutTools_emits fuel has_store tenant inp :
  emits (registerCheckoutTools Marshal fuel has_store inp)
    (λ r t, contract tenant (CheckoutRepository inp) r (writes t)).
Proof.
  apply emits_bind. eapply emits_mono; [apply checkoutRepository_emits|]. intros r t Hr.
  apply emits_ret. rewrite app_nil_r. destruct r as [[out [err|]]|].
  1,3: destruct Hr as [lf Hr]; exists lf, []; split; [done|by left].
  destruct Hr as (o & cr & mid & rd & t0 & -> & Ht0 & Hd).
  destruct Hd as (? & scope & name & digest & ? & rb & _ & _ & _ & _ & _ & _ & Hm & _).
  exists (Some cr), [DBundleDelete scope name digest rb].
  split; [|right; by eexists _, _, _, _]. rewrite !writes_app, Ht0, Hm. constructor.
Qed.

Lemma registerTools_emits fuel has_store ident c :
  emits (registerTools Marshal fuel has_store ident c)
    (λ r t, contract (tenant ident) c r (writes t)).
Proof.
  destruct c as [| |c|inp|[inp|inp]]; cbn [registerTools].
  - unfold list_connections. apply emits_bind, emits_bind, emits_call. intros r. by apply emits_ret, emits_ret.
  - unfold list_repositories. apply emits_bind, emits_bind, emits_call. intros r. by apply emits_ret, emits_ret.
  - apply registerWriteTools_emits.
  - apply registerCheckoutTools_emits.
  - cbn [registerBuildStatusTools contract]. unfold buildStatus. cbv zeta.
    case_decide; [apply request_refused|apply request_emits].
  - cbn [registerBuildStatusTools contract]. unfold rebuildWorkflow. cbv zeta.
    case_decide; [apply request_refused|apply request_emits].
Qed.
End Lemmas.

(** A request of a caller the provider knows everything it needs of. *)
Definition identified (ident : identity) : Prop :=
  tenant ident ≠ "" ∧ clusterID ident ≠ "" ∧ token ident ≠ "".
#[export] Instance identified_dec ident : Decision (identified ident).
Proof. unfold identified. apply _. Defined.

Section Tools.
Context {W C : Type} `{Clients W C} `{Unstructured}.
Context (Marshal : checkoutRepositoryOutput → error + string).

Lemma tenantClient_emits factory ident :
  emits (tenantClient (C := C) factory ident) (λ r t,
    (t = [] ∧ (¬ identified ident ∨ factory = false) ∧ (∃ err, r = inl err)) ∨
    (identified ident ∧ factory = true ∧ t = [TFor (clusterID ident) (token ident) r])).
Proof.
  unfold tenantClient, identified.
  do 3 (case_decide; [apply emits_ret; left; split_and!; [done|left; tauto|by eexists]|]).
  destruct factory; cbn [negb]; [|apply emits_ret; left; split_and!; [done|by right|by eexists]].
  apply emits_call. intros r. right. by split_and!.
Qed.

(** A tool's trace: nothing, a refused client, or one client and its calls. *)
Inductive tool_trace (ident : identity) (c : ToolCall)
    : option Answer → list (ToolEvent C) → Prop :=
  | tt_refused err : tool_trace ident c (Some (ONothing, Some err)) []
  | tt_no_client e err : identified ident →
      tool_trace ident c (Some (ONothing, Some err)) [TFor (clusterID ident) (token ident) (inl e)]
  | tt_client d r t : identified ident → contract (tenant ident) c r (writes t) →
      tool_trace ident c r (TFor (clusterID ident) (token ident) (inr d) :: (TDyn d <$> t)).

Lemma callTool_emits factory fuel has_store ident c :
  emits (callTool (C := C) Marshal factory fuel has_store ident c) (tool_trace ident c).
Proof.
  unfold callTool. apply emits_bind. eapply emits_mono; [apply tenantClient_emits|].
  intros r t [(-> & _ & err & ->)|(Hi & _ & ->)]; [apply emits_ret; constructor|].
  destruct r as [err|d]; [apply emits_ret; by constructor|].
  apply emits_relabel. eapply emits_mono; [apply registerTools_emits|]. intros r t Ht.
  by constructor.
Qed.
End Tools.

Definition workspace {C} (t : list (ToolEvent C)) : list DynEvent :=
  omap (λ e, match e with TDyn _ e => Some e | TFor _ _ _ => None end) t.
Lemma workspace_relabel {C} (d : C) t : workspace (TDyn d <$> t) = t.
Proof. induction t as [|e t IH]; [done|]. cbn in *. by f_equal. Qed.

(** The cluster and token a request carries: in its headers, or, only when the
    development switch is on, in its query where the headers carry none. *)
Definition carried (getenv header query : string → string) (cluster tok : string) : Prop :=
  let dev := getenv "RAILGRID_DEV_ALLOW_TENANT_QUERY" = "true" in
  cluster ≠ "" ∧ tok ≠ "" ∧
  (header "X-Railgrid-Cluster" = cluster ∨
   dev ∧ header "X-Railgrid-Cluster" = "" ∧ query "cluster" = cluster) ∧
  (header "Authorization" = "Bearer " +:+ tok ∨
   dev ∧ (∀ tok', header "Authorization" = "Bearer " +:+ tok' → tok' = "") ∧ query "token" = tok).

Lemma bearerToken_spec auth : bearerToken auth ≠ "" → auth = "Bearer " +:+ bearerToken auth.
Proof.
  unfold bearerToken. destruct (HasPrefix auth _) eqn:Hp; [|done]. intros _.
  apply HasPrefix_spec in Hp as [u ->]. by rewrite TrimPrefix_app.
Qed.
Lemma bearerToken_none tok : bearerToken ("Bearer " +:+ tok) = "" → tok = "".
Proof.
  unfold bearerToken.
  assert (HasPrefix ("Bearer " +:+ tok) "Bearer " = true) as -> by (apply HasPrefix_spec; by exists tok).
  by rewrite TrimPrefix_app.
Qed.

Lemma identity_carried getenv header query :
  let id := identityFromRequest getenv header query in
  identified id → carried getenv header query (clusterID id) (token id).
Proof.
  cbv zeta. unfold identified, carried, identityFromRequest, or_query.
  destruct (decide (getenv "RAILGRID_DEV_ALLOW_TENANT_QUERY" = "true")) as [Hd|Hd];
    cbn [tenant clusterID token].
  - intros (_ & Hc & Ht). split_and!; [done..| |].
    + destruct (decide (header "X-Railgrid-Cluster" = "")); [by right|by left].
    + destruct (decide (bearerToken (header "Authorization") = "")) as [Hb|Hb].
      * right. split_and!; [done| |done]. intros tok Heq. rewrite Heq in Hb. by apply bearerToken_none.
      * left. by apply bearerToken_spec.
  - intros (_ & Hc & Ht). split_and!; [done..|by left|left]. by apply bearerToken_spec.
Qed.

(** ** Properties *)

(** C18: a tool acts for the caller of its request and nobody else.  Whatever
    the tool and its arguments, either nothing is called and the answer is an
    error, or the first thing done is to ask the factory for the cluster and
    token the request carries, both non-empty: those of its X-Railgrid-Cluster
    and Authorization headers, or, only when RAILGRID_DEV_ALLOW_TENANT_QUERY is
    true and the header carries none, that of its query.  When the factory
    refuses, nothing else happens and the answer is an error; else every later
    call goes through the one client it answered. *)
Theorem serve_acts_as_caller {W C} `{Clients W C} `{Unstructured} Marshal getenv header query
    factory fuel has_store c (w w' : W) r (t : list (ToolEvent C))
    (Hrun : serve Marshal getenv header query factory fuel has_store c w = (r, w', t)) :
  match t with
  | [] => ∃ err, r = Some (ONothing, Some err)
  | TFor cluster tok res :: rest =>
      carried getenv header query cluster tok ∧
      match res with
      | inl _ => rest = [] ∧ ∃ err, r = Some (ONothing, Some err)
      | inr d => ∀ e, e ∈ rest → ∃ ev, e = TDyn d ev
      end
  | TDyn _ _ :: _ => False
  end.
Proof.
  pose proof (callTool_emits (C := C) Marshal factory fuel has_store
    (identityFromRequest getenv header query) c w) as Ht.
  unfold serve in Hrun. rewrite Hrun in Ht.
  destruct Ht as [err|e err Hi|d r t Hi _]; [by eexists|..];
    (split; [by apply identity_carried|]).
  - split; [done|by eexists].
  - intros e (ev & -> & _)%list_elem_of_fmap. by eexists.
Qed.

(** C19: what each tool may write.  The lists write nothing; a creating tool
    writes at most its one object, of its kind and name, and reports it created
    only if the API server took it; a deleting tool deletes at most the named
    object and reports success only if it is gone; commit_files is a
    transaction; a checkout and the build tools delete the request they
    created, and of bundles only the one they read. *)
Theorem callTool_contract {W C} `{Clients W C} `{Unstructured} Marshal factory fuel has_store ident
    c (w w' : W) r (t : list (ToolEvent C))
    (Hrun : callTool Marshal factory fuel has_store ident c w = (r, w', t)) :
  (writes (workspace t) = [] ∧ ∃ err, r = Some (ONothing, Some err)) ∨
  contract (tenant ident) c r (writes (workspace t)).
Proof.
  pose proof (callTool_emits (C := C) Marshal factory fuel has_store ident c w) as Ht.
  rewrite Hrun in Ht. destruct Ht as [err|e err _|d r t _ Hc].
  - left. split; [done|by eexists].
  - left. split; [done|by eexists].
  - right. change (workspace (_ :: ?u)) with (workspace u). by rewrite workspace_relabel.
Qed.

(** ** Runs *)

(** A client is the cluster and token it was made for. *)
#[local] Instance demo_clients : Clients nat (string * string) := {
  cl_for cluster token w := (inr (cluster, token), w);
  cl_dyn c := fixed_dyn (λ _, inr demo_checkout_object) c.1 (inl EBundleNotFound) (inr demo_bundle) }.
Definition demo_headers (h : string) : string :=
  if decide (h = "X-Railgrid-Tenant") then "acme"
  else if decide (h = "X-Railgrid-Cluster") then "c1"
  else if decide (h = "Authorization") then "Bearer tok" else "".
Definition no_marshal (_ : checkoutRepositoryOutput) : error + string := inr "{}".

Definition demo_serve : option Answer * nat * list (ToolEvent (string * string)) :=
  serve no_marshal (λ _, "") demo_headers (λ _, "") true 1 true
    (CheckoutRepository demo_checkout_input) 3.

Lemma serve_acts_as_caller_witness :
  ∃ w' rest, demo_serve
    = (Some (OText "{}", None), w', TFor "c1" "tok" (inr ("c1", "tok")) :: rest) ∧
    length rest = 8%nat ∧ ∀ e, e ∈ rest → ∃ ev, e = TDyn ("c1", "tok") ev.
Proof.
  eexists _, _. split; [vm_compute; reflexivity|]. split; [reflexivity|].
  match goal with |- ∀ e, e ∈ ?rest → _ =>
    assert (∃ w', demo_serve
      = (Some (OText "{}", None), w', TFor "c1" "tok" (inr ("c1", "tok")) :: rest)) as [w' Hrun]
      by (eexists; vm_compute; reflexivity) end.
  exact (proj2 (serve_acts_as_caller no_marshal (λ _, "") demo_headers
    (λ _, "") true 1 true (CheckoutRepository demo_checkout_input) 3%nat w' _
    (TFor "c1" "tok" (inr ("c1", "tok")) :: _) Hrun)).
Defined.

Definition demo_identity : identity := identityFromRequest (λ _, "") demo_headers (λ _, "").
Lemma callTool_contract_witness :
  ∃ r w' t, callTool no_marshal true 1 true demo_identity (Writing (DeleteRepository "app")) 3 = (r, w', t) ∧
    r = Some (ODeleted true, None) ∧ writes (workspace t) = [DDelete repositoriesGVR "app" None] ∧
    ((writes (workspace t) = [] ∧ ∃ err, r = Some (ONothing, Some err)) ∨
     contract (tenant demo_identity) (Writing (DeleteRepository "app")) r (writes (workspace t))).
Proof.
  eexists _, _, _. split; [vm_compute; reflexivity|]. split; [reflexivity|]. split; [reflexivity|].
  refine (callTool_contract no_marshal true 1 true demo_identity (Writing (DeleteRepository "app")) 3 _ _ _ _).
  vm_compute. reflexivity.
Defined.
