(* ===== verification/Schema.v ===== *)
(** * The schemas of apis/v1alpha1, and what the tools create

    The kubebuilder markers of the resource types are the schema against which
    the API server checks every object.  Here they are data: a small language
    of schemas with an executable checker over the untyped objects of
    [Dynamic].  The tools build untyped maps, so nothing in Go checks them
    against these types; the theorem below does, for every tool and input. *)

From S2P Require Import Prelude GoStrings GoTime Errors Encoding CommitBundle Api Dynamic McpWrite McpCommit McpRequests McpServer.
From Stdlib Require Import Ascii Btauto Lia.

#[local] Open Scope string_scope.

(** ** Schemas *)

(** Lengths count characters.  Objects are closed: a field the type does not
    have is an error, since the API server would drop it.  [SAny] is a schema
    of the apimachinery, as is that of an object's metadata. *)
Inductive schema :=
  | SAny
  | SBool
  | SInt (lo hi : Z)
  | SString (lo hi : Z)
  | SEnum (values : list string)
  | SObject (fields : list (string * (bool * schema))).

Definition one_of (values : list string) (s : string) : bool :=
  bool_decide (s ∈ values).
Definition known (fields : list (string * (bool * schema))) (m : Object) : bool :=
  forallb (λ kv, existsb (λ f, bool_decide (f.1 = kv.1)) fields) m.

(** A field is required, or may be absent. *)
Fixpoint valid (s : schema) (v : any) {struct s} : bool :=
  match s, v with
  | SAny, _ => true
  | SBool, ABool _ => true
  | SInt lo hi, AInt z => (lo <=? z)%Z && (z <=? hi)%Z
  | SString lo hi, AString x => len_in lo hi x
  | SEnum values, AString x => one_of values x
  | SObject fields, AMap m =>
      known fields m &&
      forallb (λ f, match get m f.1 with
                    | ANil => negb f.2.1
                    | v => valid f.2.2 v
                    end) fields
  | _, _ => false
  end.

Definition required (k : string) (s : schema) : string * (bool * schema) := (k, (true, s)).
Definition optional (k : string) (s : schema) : string * (bool * schema) := (k, (false, s)).

(** ** types_*.go: the markers *)

Definition GitProvider_schema : schema := SEnum [ProviderGitHub].
Definition ConnectionCredentialType_schema : schema :=
  SEnum [CredentialTypePAT; CredentialTypeGitHubApp; CredentialTypeOAuth].
Definition LocalSecretReference_schema : schema := SObject
  [required "name" (SString 1 253); optional "namespace" (SString 0 253);
   optional "key" (SString 0 253)].
Definition ConnectionSpec_schema : schema := SObject
  [required "provider" GitProvider_schema; required "type" ConnectionCredentialType_schema;
   required "owner" (SString 1 100); required "secretRef" LocalSecretReference_schema;
   optional "baseURL" (SString 0 2048)].

Definition RepositoryVisibility_schema : schema :=
  SEnum [VisibilityPrivate; VisibilityPublic; VisibilityInternal].
Definition RepositorySpec_schema : schema := SObject
  [required "connectionRef" (SString 1 253); required "name" (SString 1 100);
   optional "owner" (SString 0 100); optional "visibility" RepositoryVisibility_schema;
   optional "description" (SString 0 2048); optional "defaultBranch" (SString 0 255);
   optional "autoInit" SBool].

Definition DeployKeySpec_schema : schema := SObject
  [required "repositoryRef" (SString 1 253); optional "title" (SString 0 255);
   optional "publicKey" (SString 0 8192); optional "readOnly" SBool].

Definition CollaboratorPermission_schema : schema :=
  SEnum [PermissionPull; PermissionPush; PermissionAdmin].
Definition CollaboratorSpec_schema : schema := SObject
  [required "repositoryRef" (SString 1 253); required "username" (SString 1 100);
   optional "permission" CollaboratorPermission_schema].

Definition RepositoryCommitBundleReference_schema : schema := SObject
  [required "name" (SString 1 253); optional "digest" (SString 0 96)].
Definition RepositoryCommitSource_schema : schema := SObject
  [required "bundleRef" RepositoryCommitBundleReference_schema].
Definition RepositoryCommitSpec_schema : schema := SObject
  [required "repositoryRef" (SString 1 253); optional "branch" (SString 0 255);
   optional "message" (SString 0 512); required "source" RepositoryCommitSource_schema].

Definition RepositoryCheckoutSpec_schema : schema := SObject
  [required "repositoryRef" (SString 1 253); optional "ref" (SString 0 255)].

Definition RepositoryBuildStatusSpec_schema : schema := SObject
  [required "repositoryRef" (SString 1 253); required "workflowFileName" (SString 1 255);
   optional "ref" (SString 0 255);
   optional "action" (SEnum [RepositoryBuildStatusActionStatus; RepositoryBuildStatusActionRerun]);
   optional "maxLogLines" (SInt 1 1000)].

(** An object of a kind, with its spec. *)
Definition crd (kind : string) (spec : schema) : schema := SObject
  [optional "apiVersion" (SEnum [SchemeGroupVersion]); optional "kind" (SEnum [kind]);
   optional "metadata" SAny; required "spec" spec].
Definition schema_of (k : Resource) : schema :=
  match k with
  | connectionsGVR => crd "Connection" ConnectionSpec_schema
  | repositoriesGVR => crd "Repository" RepositorySpec_schema
  | repositoryCommitsGVR => crd "RepositoryCommit" RepositoryCommitSpec_schema
  | deploykeysGVR => crd "DeployKey" DeployKeySpec_schema
  | collaboratorsGVR => crd "Collaborator" CollaboratorSpec_schema
  | repositoryCheckoutsGVR => crd "RepositoryCheckout" RepositoryCheckoutSpec_schema
  | repositoryBuildStatusesGVR => crd "RepositoryBuildStatus" RepositoryBuildStatusSpec_schema
  end.

(** ** What each tool creates *)

Definition createdCR (kind name : string) (spec : Object) : Object :=
  [("apiVersion", AString SchemeGroupVersion); ("kind", AString kind);
   ("metadata", AMap [("name", AString name)]); ("spec", AMap spec)].
Definition deployKeySpec (inp : addDeployKeyInput) : Object :=
  let spec := putIf (putIf [("repositoryRef", AString (di_RepositoryRef inp))]
                       "title" (di_Title inp)) "publicKey" (di_PublicKey inp) in
  if di_ReadOnly inp then put spec "readOnly" (ABool true) else spec.
Definition collaboratorSpec (inp : addCollaboratorInput) : Object :=
  putIf [("repositoryRef", AString (ai_RepositoryRef inp)); ("username", AString (ai_Username inp))]
    "permission" (ai_Permission inp).
Definition hostName (inp : createRepositoryInput) : string :=
  if decide (ri_Repo inp = "") then ri_Name inp else ri_Repo inp.
Definition buildSpec (c : BuildCall) : Object :=
  match c with
  | BuildStatus inp =>
      let spec := requestSpec (TrimSpace (gi_RepositoryRef inp))
        (normalizeWorkflowFileName (gi_WorkflowFileName inp)) RepositoryBuildStatusActionStatus
        (gi_Ref inp) in
      if decide (gi_MaxLogLines inp > 0)%Z then put spec "maxLogLines" (AInt (gi_MaxLogLines inp))
      else spec
  | Rebuild inp =>
      requestSpec (TrimSpace (xi_RepositoryRef inp))
        (normalizeWorkflowFileName (xi_WorkflowFileName inp)) RepositoryBuildStatusActionRerun
        (xi_Ref inp)
  end.

(** The bounds on the input that the tools leave to the API server. *)
Definition buildFits (c : BuildCall) : bool :=
  match c with
  | BuildStatus inp =>
      len_in 1 253 (TrimSpace (gi_RepositoryRef inp)) &&
      len_in 1 255 (normalizeWorkflowFileName (gi_WorkflowFileName inp)) &&
      len_in 0 255 (gi_Ref inp) && (gi_MaxLogLines inp <=? 1000)%Z
  | Rebuild inp =>
      len_in 1 253 (TrimSpace (xi_RepositoryRef inp)) &&
      len_in 1 255 (normalizeWorkflowFileName (xi_WorkflowFileName inp)) && len_in 0 255 (xi_Ref inp)
  end.
Definition fits (c : ToolCall) : bool :=
  match c with
  | Writing (CreateConnection inp) =>
      one_of [""; ProviderGitHub] (ci_Provider inp) && len_in 1 100 (ci_Owner inp) &&
      len_in 1 253 (ci_SecretName inp) && len_in 0 253 (ci_SecretNamespace inp) &&
      len_in 0 253 (ci_SecretKey inp) && len_in 0 2048 (ci_BaseURL inp)
  | Writing (CreateRepository inp) =>
      len_in 1 253 (ri_ConnectionRef inp) && len_in 1 100 (hostName inp) &&
      len_in 0 100 (ri_Owner inp) &&
      one_of [""; VisibilityPrivate; VisibilityPublic; VisibilityInternal] (ri_Visibility inp) &&
      len_in 0 2048 (ri_Description inp) && len_in 0 255 (ri_DefaultBranch inp)
  | Writing (AddDeployKey inp) =>
      len_in 1 253 (di_RepositoryRef inp) && len_in 0 255 (di_Title inp) &&
      len_in 0 8192 (di_PublicKey inp)
  | Writing (AddCollaborator inp) =>
      len_in 1 253 (ai_RepositoryRef inp) && len_in 1 100 (ai_Username inp) &&
      one_of [""; PermissionPull; PermissionPush; PermissionAdmin] (ai_Permission inp)
  | Writing (CommitFiles inp) =>
      len_in 1 253 (TrimSpace (fi_RepositoryRef inp)) && len_in 0 255 (fi_Branch inp)
  | CheckoutRepository inp =>
      len_in 1 253 (TrimSpace (ki_RepositoryRef inp)) && len_in 0 255 (ki_Ref inp)
  | Building c => buildFits c
  | _ => true
  end.

(** The references the bundle store hands out. *)
Definition ref_typed (b : BundleRef) : bool :=
  len_in 1 253 (ref_Name b) && len_in 0 96 (ref_Digest b).

(** ** Lemmas: checking an object *)

Lemma one_of_cons_ne v l s : s ≠ v → one_of (v :: l) s = one_of l s.
Proof.
  intros Hs. unfold one_of. apply bool_decide_ext. rewrite elem_of_cons. by intuition.
Qed.

(** Evaluate the checker on an object with literal keys, one case per field
    that may be absent, and compare the remaining atoms. *)
Ltac check_object :=
  repeat case_decide; subst;
  cbv -[len_in one_of andb orb negb Z.leb RuneCountInString TrimSpace
        normalizeWorkflowFileName checkoutObjectName commitObjectName string_map commitLabels];
  repeat match goal with
  | |- context [len_in ?lo ?hi ""] => let b := eval vm_compute in (len_in lo hi "") in
      change (len_in lo hi "") with b
  | |- context [one_of ?l ""] => let b := eval vm_compute in (one_of l "") in
      change (one_of l "") with b
  | |- context [one_of ?l (String ?a ?s)] => let b := eval vm_compute in (one_of l (String a s)) in
      change (one_of l (String a s)) with b
  | H : ?s ≠ "" |- context [one_of ("" :: ?l) ?s] => rewrite (one_of_cons_ne "" l s H)
  end;
  cbn [orb andb negb]; try btauto.

Lemma connection_valid inp :
  valid (schema_of connectionsGVR) (AMap (createdCR "Connection" (ci_Name inp) (connectionSpec inp)))
  = fits (Writing (CreateConnection inp)).
Proof.
  destruct inp as [name prov owner sn sns sk url].
  unfold createdCR, connectionSpec, putIf. cbn [ci_Name ci_Provider ci_Owner ci_SecretName
    ci_SecretNamespace ci_SecretKey ci_BaseURL fits].
  check_object.
Qed.

Lemma repository_valid inp :
  valid (schema_of repositoriesGVR)
    (AMap (createdCR "Repository" (ri_Name inp) (repositorySpec inp (hostName inp))))
  = fits (Writing (CreateRepository inp)).
Proof.
  destruct inp as [name conn repo owner vis desc branch init].
  unfold createdCR, repositorySpec, putIf. cbn [ri_Name ri_ConnectionRef ri_Owner ri_Visibility
    ri_Description ri_DefaultBranch ri_AutoInit fits].
  generalize (hostName {| ri_Name := name; ri_ConnectionRef := conn; ri_Repo := repo;
    ri_Owner := owner; ri_Visibility := vis; ri_Description := desc; ri_DefaultBranch := branch;
    ri_AutoInit := init |}) as host. intros host.
  destruct (default true init); check_object.
Qed.

Lemma deployKey_valid inp :
  valid (schema_of deploykeysGVR) (AMap (createdCR "DeployKey" (di_Name inp) (deployKeySpec inp)))
  = fits (Writing (AddDeployKey inp)).
Proof.
  destruct inp as [name repo title key ro]. unfold createdCR, deployKeySpec, putIf.
  cbn [di_Name di_RepositoryRef di_Title di_PublicKey di_ReadOnly fits].
  destruct ro; check_object.
Qed.

Lemma collaborator_valid inp :
  valid (schema_of collaboratorsGVR)
    (AMap (createdCR "Collaborator" (ai_Name inp) (collaboratorSpec inp)))
  = fits (Writing (AddCollaborator inp)).
Proof.
  destruct inp as [name repo user perm]. unfold createdCR, collaboratorSpec, putIf.
  cbn [ai_Name ai_RepositoryRef ai_Username ai_Permission fits].
  check_object.
Qed.

Lemma checkout_valid inp inc now :
  let inp' := {| ki_RepositoryRef := TrimSpace (ki_RepositoryRef inp); ki_Ref := ki_Ref inp;
                 ki_BinaryEncoding := ki_BinaryEncoding inp |} in
  valid (schema_of repositoryCheckoutsGVR) (AMap (checkoutObject inp' inc now))
  = fits (CheckoutRepository inp).
Proof.
  destruct inp as [repo ref enc]. unfold checkoutObject, putIf.
  cbn [ki_RepositoryRef ki_Ref ki_BinaryEncoding fits].
  destruct inc; check_object.
Qed.

(** The message is not among the bounds of the input: the tool checks it. *)
Lemma commit_valid inp now repo bundle :
  (RuneCountInString (TrimSpace (fi_Message inp)) ≤ maxCommitMessageLength)%Z →
  valid (schema_of repositoryCommitsGVR) (AMap (repositoryCommitObject repo bundle (trimmed inp) now))
  = fits (Writing (CommitFiles inp)) && ref_typed bundle.
Proof.
  unfold ref_typed. destruct inp as [ref msg branch files dels]. unfold repositoryCommitObject, putIf.
  cbn [fi_RepositoryRef fi_Message fi_Branch fi_Files fi_DeletePaths trimmed fits] in *.
  generalize (TrimSpace msg). intros m Hm.
  assert (len_in 0 512 m = true) as Hl.
  { unfold len_in. apply andb_true_iff. unfold maxCommitMessageLength in Hm.
    pose proof (rune_count_bounds 0 m). unfold RuneCountInString in *. split; apply Z.leb_le; lia. }
  check_object; rewrite ?Hl; btauto.
Qed.

Definition buildObject (repositoryRef : string) (spec : Object) (now : Time) : Object :=
  [("apiVersion", AString SchemeGroupVersion); ("kind", AString "RepositoryBuildStatus");
   ("metadata", AMap [("name", AString (checkoutObjectName repositoryRef now));
                      ("labels", AMap [(LabelRepository, AString repositoryRef)])]);
   ("spec", AMap spec)].
Lemma build_valid c ref now :
  valid (schema_of repositoryBuildStatusesGVR) (AMap (buildObject ref (buildSpec c) now)) = buildFits c.
Proof.
  unfold buildObject. destruct c as [[repo wf rf n]|[repo wf rf]]; cbn [buildSpec buildFits
    gi_RepositoryRef gi_WorkflowFileName gi_Ref gi_MaxLogLines xi_RepositoryRef xi_WorkflowFileName
    xi_Ref]; unfold requestSpec, putIf.
  - destruct (decide (n > 0)%Z) as [Hn|Hn].
    + assert (1 <=? n = true)%Z as Hl by lia. check_object; rewrite ?Hl; btauto.
    + assert (n <=? 1000 = true)%Z as Hl by lia. check_object; rewrite ?Hl; btauto.
  - check_object.
Qed.

(** A built bundle's reference fits the fields that carry it. *)
Lemma buildBundle_ref_typed files b r : buildBundle files = inr (b, r) → ref_typed r = true.
Proof.
  unfold buildBundle. case_decide; [done|]. case_decide; [done|].
  destruct (collectFiles _ _ _ _) as [|[bfs hd]]; [done|].
  destruct (sizeFiles _ _ _ _) as [|[[bfs' total] dg]]; [done|]. intros [= _ <-].
  unfold ref_typed. cbn [ref_Name ref_Digest]. apply andb_true_iff. split.
  - unfold bundle_name. cbn [String.append].
    apply len_in_bytes. pose proof (slen_stake 24 (TrimPrefix (digester_sum dg) "sha256:")).
    unfold slen in *. cbn [String.length] in *. lia.
  - unfold len_in, RuneCountInString. pose proof (rune_count_bounds 0 (digester_sum dg)) as Hb.
    pose proof (digester_sum_length dg) as Hs.
    apply andb_true_iff. split; apply Z.leb_le; lia.
Qed.

(** ** Lemmas: the runs of the tools *)

(** An event that creates an object creates one of its type exactly when the
    input fits. *)
Definition typed (c : ToolCall) (e : DynEvent) : Prop :=
  match e with DCreate k o _ => valid (schema_of k) (AMap o) = fits c | _ => True end.
Definition stores_typed (t : list DynEvent) : Prop :=
  ∀ scope files b, DPut scope files (inr b) ∈ t → ref_typed b = true.

Section Runs.
Context {W : Type} `{Dyn W} `{Unstructured}.

Lemma createCR_typed c k kind name spec :
  valid (schema_of k) (AMap (createdCR kind name spec)) = fits c →
  emits (createCR k kind name spec) (λ _ t, Forall (typed c) t).
Proof. intros Hv. unfold createCR. dyn_all; done. Qed.

Lemma deleteCR_typed c k name : emits (deleteCR k name) (λ _ t, Forall (typed c) t).
Proof. unfold deleteCR. dyn_all; done. Qed.

Lemma polls_typed c k name t : Forall (polls k name) t → Forall (typed c) t.
Proof. intros Hp. eapply Forall_impl; [exact Hp|]. by intros []. Qed.
Lemma poll_typed c k kind timed_out fuel name timeout :
  emits (poll k kind timed_out fuel name timeout) (λ _ t, Forall (typed c) t).
Proof. eapply emits_mono; [apply poll_emits|]. intros r t [Hp _]. by eapply polls_typed. Qed.

Lemma getRepository_typed c name : emits (getRepository name) (λ _ t, Forall (typed c) t).
Proof. unfold getRepository. dyn_all; done. Qed.

Lemma awaitCommit_typed c fuel created out :
  emits (awaitCommit fuel created out) (λ _ t, Forall (typed c) t).
Proof.
  unfold awaitCommit, waitRepositoryCommit, unfinishedCommitError, rateLimitDeadline.
  apply emits_all_bind; [apply poll_typed|]. intros r. dyn_all; done.
Qed.

Lemma runBuildStatusRequest_typed c fuel ref spec :
  (∀ now, valid (schema_of repositoryBuildStatusesGVR) (AMap (buildObject ref spec now)) = fits c) →
  emits (runBuildStatusRequest fuel ref spec) (λ _ t, Forall (typed c) t).
Proof.
  intros Hv. unfold runBuildStatusRequest, collectBuildStatus, waitRepositoryBuildStatus.
  apply emits_all_bind; [dyn_all; done|]. intros now.
  apply emits_all_bind; [apply emits_all_call; intros r; apply Hv|]. intros [e|created]; [dyn_all; done|].
  apply emits_all_bind; [apply emits_all_bind; [apply poll_typed|intros r; dyn_all; done]|].
  intros r. dyn_all; done.
Qed.

Lemma checkoutRepository_typed fuel has_store inp :
  emits (checkoutRepository fuel has_store inp)
    (λ _ t, Forall (typed (CheckoutRepository inp)) t).
Proof.
  unfold checkoutRepository. destruct has_store; [|dyn_all; done]. cbv zeta.
  case_decide; [dyn_all; done|]. destruct (binaryEncoding _) as [e|inc]; [dyn_all; done|].
  apply emits_all_bind; [apply getRepository_typed|]. intros [e|repo]; [dyn_all; done|].
  apply emits_all_bind; [dyn_all; done|]. intros now.
  apply emits_all_bind; [apply emits_all_call; intros r; apply checkout_valid|].
  intros [e|created]; [dyn_all; done|].
  apply emits_all_bind; [|intros r; dyn_all; done].
  unfold collectCheckout, waitRepositoryCheckout. apply emits_all_bind; [apply poll_typed|].
  intros r. dyn_all; done.
Qed.

Lemma stores_typed_app_r t u : stores_typed (t ++ u)%list → stores_typed u.
Proof. intros Hs scope files b Hb. eapply Hs. apply elem_of_app. by right. Qed.

Lemma commitFiles_typed fuel has_store scope inp :
  emits (commitFiles fuel has_store scope inp)
    (λ _ t, stores_typed t → Forall (typed (Writing (CommitFiles inp))) t).
Proof.
  set (c := Writing (CommitFiles inp)).
  assert (Hall : ∀ A (m : Tool W A), emits m (λ _ t, Forall (typed c) t) →
    emits m (λ _ t, stores_typed t → Forall (typed c) t))
    by (intros A m Hm; eapply emits_mono; [exact Hm|done]).
  unfold commitFiles. destruct has_store; [|apply Hall; dyn_all; done]. cbv zeta.
  destruct (validate _ _) as [e|] eqn:Hv; [apply Hall; dyn_all; done|].
  assert ((RuneCountInString (TrimSpace (fi_Message inp)) ≤ maxCommitMessageLength)%Z) as Hm.
  { unfold validate in Hv. cbn [fi_RepositoryRef fi_Message fi_Files fi_DeletePaths trimmed] in Hv.
    repeat (case_decide; [done|]). lia. }
  apply emits_bind. eapply emits_mono; [apply (getRepository_typed c)|]. intros [e|repo] t1 Ht1.
  { apply emits_ret. by rewrite app_nil_r. }
  apply emits_bind, emits_call. intros [e|bundle].
  { apply emits_ret. intros _. rewrite app_nil_r. apply Forall_app. by repeat constructor. }
  destruct (ref_typed bundle) eqn:Hb.
  2:{ eapply emits_mono; [apply emits_True|]. intros r t _ Hs.
      apply stores_typed_app_r in Hs.
      assert (ref_typed bundle = true) by (eapply Hs; by left). congruence. }
  eapply emits_mono; [|intros r t Ht Hs; apply Forall_app; split;
    [exact Ht1|constructor; [done|exact Ht]]].
  apply emits_all_bind; [dyn_all; done|]. intros now.
  apply emits_all_bind.
  { apply emits_all_call. intros r. cbn [typed]. rewrite commit_valid by done. by rewrite Hb, andb_true_r. }
  intros [e|created]; [dyn_all; done|]. case_decide; [dyn_all; done|].
  apply emits_all_bind; [dyn_all; done|]. intros [e|b']; [dyn_all; done|].
  apply emits_all_bind; [dyn_all; done|]. intros _. apply awaitCommit_typed.
Qed.

Lemma registerTools_typed Marshal fuel has_store ident c :
  emits (registerTools Marshal fuel has_store ident c)
    (λ _ t, stores_typed t → Forall (typed c) t).
Proof.
  assert (Hall : ∀ A B (m : Tool W A) (f : A → B), emits m (λ _ t, Forall (typed c) t) →
    emits (r ← m; mret (f r)) (λ _ t, stores_typed t → Forall (typed c) t)).
  { intros A B m f Hm. eapply emits_mono; [|intros r t Ht _; exact Ht].
    apply emits_all_bind; [exact Hm|]. intros r. apply emits_ret. constructor. }
  destruct c as [| |[inp|inp|name|inp|inp|inp|name]|inp|[inp|inp]];
    cbn [registerTools registerWriteTools registerBuildStatusTools];
    try (apply Hall; apply deleteCR_typed).
  - apply Hall. unfold list_connections. dyn_all; done.
  - apply Hall. unfold list_repositories. dyn_all; done.
  - apply Hall, createCR_typed, connection_valid.
  - apply Hall, createCR_typed, repository_valid.
  - apply emits_bind. eapply emits_mono; [apply commitFiles_typed|]. intros r t Ht.
    apply emits_ret. by rewrite app_nil_r.
  - apply Hall, createCR_typed, deployKey_valid.
  - apply Hall, createCR_typed, collaborator_valid.
  - apply Hall, checkoutRepository_typed.
  - apply Hall. unfold buildStatus. cbv zeta. case_decide; [dyn_all; done|].
    apply emits_all_bind; [|intros r; dyn_all; done].
    apply runBuildStatusRequest_typed. intros now. apply (build_valid (BuildStatus inp)).
  - apply Hall. unfold rebuildWorkflow. cbv zeta. case_decide; [dyn_all; done|].
    apply emits_all_bind; [|intros r; dyn_all; done].
    apply runBuildStatusRequest_typed. intros now. apply (build_valid (Rebuild inp)).
Qed.
End Runs.

Lemma stores_typed_check t :
  forallb (λ e, match e with DPut _ _ (inr b) => ref_typed b | _ => true end) t = true →
  stores_typed t.
Proof. rewrite forallb_forall. intros Ht scope files b Hb%list_elem_of_In. by apply (Ht _ Hb). Qed.

(** ** Property *)

(** C20: every object a tool creates has the type of its kind.  Given a store
    whose references fit their fields, as those of a built bundle do, the API
    server's schema accepts what a tool creates exactly when the caller's
    input is within the bounds that the tool leaves to the server; no field is
    misspelt, of the wrong kind, missing, or sent empty where it must not be,
    and an over-long commit message never reaches the server. *)
Theorem created_objects_typed {W C} `{Clients W C} `{Unstructured} Marshal factory fuel has_store
    ident c (w w' : W) r (t : list (ToolEvent C))
    (Hrun : callTool Marshal factory fuel has_store ident c w = (r, w', t))
    (Hstore : stores_typed (workspace t)) k o res
    (Hcreate : DCreate k o res ∈ workspace t) :
  valid (schema_of k) (AMap o) = fits c.
Proof.
  assert (emits (callTool (C := C) Marshal factory fuel has_store ident c)
    (λ _ t, stores_typed (workspace t) → Forall (typed c) (workspace t))) as He.
  { unfold callTool. apply emits_bind. eapply emits_mono; [apply tenantClient_emits|].
    intros [e|d] u Hu; [apply emits_ret|apply emits_relabel].
    - destruct Hu as [(-> & _)|(_ & _ & ->)]; by constructor.
    - destruct Hu as [(_ & _ & ? & ?)|(_ & _ & ->)]; [done|].
      eapply emits_mono; [apply registerTools_typed|]. intros r0 t0 Ht.
      change (workspace (_ ++ ?v)%list) with (workspace v). by rewrite workspace_relabel. }
  specialize (He w). rewrite Hrun in He. specialize (He Hstore). rewrite Forall_forall in He.
  exact (He _ Hcreate).
Qed.

(** ** A run *)

Definition typed_ref : BundleRef :=
  {| ref_Name := "bundle-1"; ref_Digest := "sha256:1"; ref_Scope := "c1"; ref_Size := 1;
     ref_FileCount := 1; ref_Files := [] |}.
#[local] Instance typed_clients : Clients nat string := {
  cl_for cluster token w := (inr cluster, w);
  cl_dyn c := fixed_dyn (λ _, inr demo_checkout_object) c (inr typed_ref) (inr demo_bundle) }.
Definition typed_call : ToolCall := Writing (CommitFiles
  {| fi_RepositoryRef := " app"; fi_Message := "Update."; fi_Branch := "main";
     fi_Files := [ {| cf_Path := "a.txt"; cf_Content := "x"; cf_Encoding := "" |} ];
     fi_DeletePaths := [] |}).
Definition typed_run : option Answer * nat * list (ToolEvent string) :=
  callTool no_marshal true 1 true demo_identity typed_call 3.

Lemma created_objects_typed_witness :
  ∃ r w' t o res, typed_run = (r, w', t) ∧ DCreate repositoryCommitsGVR o res ∈ workspace t ∧
    fits typed_call = true ∧ valid (schema_of repositoryCommitsGVR) (AMap o) = fits typed_call.
Proof.
  eexists _, _, _, _, _. split; [vm_compute; reflexivity|].
  split; [do 3 right; left|]. split; [vm_compute; reflexivity|].
  eapply (created_objects_typed no_marshal true 1 true demo_identity typed_call 3);
    [vm_compute; reflexivity|apply stores_typed_check; vm_compute; reflexivity|].
  do 3 right. left.
Defined.
