(* ===== verification/GitHubSnapshots.v ===== *)
(** * backend/github/snapshot.go: verifying and publishing Git snapshots

    The [git] binary, the temp directory and the file written into it are
    operations on the world; its environment and arguments, the bound on its
    output, the format check and the one push are the code's. *)

From S2P Require Import Prelude GoStrings Encoding GoTime Errors Api Backend Tenant GitHubApi.
From S2P Require Import GitHubRepositories GitHubPackages Collaboration GitHubPulls GitHubCollaboration.
From Stdlib Require Import Ascii Lia.

#[local] Open Scope string_scope.

Definition MaxSnapshotBundleBytes : Z := (25 * 1024 * 1024)%Z.

Inductive SEvent :=
  | SHost (e : GEvent)
  | SMkdirTemp (r : error + string)
  | SWriteFile (path data : string) (r : option error)
  | SRemoveAll (dir : string)
  | SGit (env args : list string) (r : error + string).

(** [git_exec dir env args]: the writes to standard output, in order, and
    whether the command succeeded. *)
Class Git (W : Type) := {
  git_mkdirTemp : W → (error + string) * W;
  git_writeFile : string → string → W → option error * W;
  git_removeAll : string → W → unit * W;
  git_exec : string → list string → list string → W → (list string * bool) * W;
  git_path : string }.

(** ** boundedGitOutput *)

Record boundedGitOutput := { bo_Buffer : string; bo_overflow : bool }.
Definition output_limit : Z := 2 ^ 20.

Definition Write (w : boundedGitOutput) (p : string) : boundedGitOutput :=
  let remaining := (output_limit - slen (bo_Buffer w))%Z in
  if decide (slen p > remaining)%Z
  then {| bo_Buffer := bo_Buffer w +:+ stake (Z.to_nat remaining) p; bo_overflow := true |}
  else {| bo_Buffer := bo_Buffer w +:+ p; bo_overflow := bo_overflow w |}.

Definition output (chunks : list string) : boundedGitOutput :=
  fold_left Write chunks {| bo_Buffer := ""; bo_overflow := false |}.

Record snapshotGit := { sg_dir : string; sg_token : string }.

Section Snapshots.
Context {W : Type} `{GitHub W} `{Pulls W} `{Git W}.
Context (url_Parse : string → option Url).

#[local] Abbreviation SEff := (M W SEvent) (only parsing).

Definition gitEnv (g : snapshotGit) : list string :=
  ["PATH=" +:+ git_path; "HOME=" +:+ sg_dir g; "LANG=C"; "GIT_TERMINAL_PROMPT=0";
   "GIT_CONFIG_NOSYSTEM=1"; "GIT_CONFIG_GLOBAL=/dev/null"; "GIT_CONFIG_COUNT=5";
   "GIT_CONFIG_KEY_0=http.extraHeader";
   "GIT_CONFIG_VALUE_0=Authorization: Basic " +:+ base64_encode ("x-access-token:" +:+ sg_token g);
   "GIT_CONFIG_KEY_1=core.hooksPath"; "GIT_CONFIG_VALUE_1=/dev/null";
   "GIT_CONFIG_KEY_2=protocol.file.allow"; "GIT_CONFIG_VALUE_2=never";
   "GIT_CONFIG_KEY_3=protocol.ext.allow"; "GIT_CONFIG_VALUE_3=never";
   "GIT_CONFIG_KEY_4=http.followRedirects"; "GIT_CONFIG_VALUE_4=false"].

Definition gitResult (r : list string * bool) : error + string :=
  if negb r.2 then inl (ENew "git snapshot command failed")
  else if bo_overflow (output r.1) then inl (ENew "git snapshot command output exceeds limit")
  else inr (bo_Buffer (output r.1)).

Definition run (g : snapshotGit) (args : list string) : SEff (error + string) :=
  call (λ w, let '(r, w) := git_exec (sg_dir g) (gitEnv g) args w in (gitResult r, w))
    (SGit (gitEnv g) args).

Definition NL : string := String "010" "".

(** The public Runner snapshot format. *)
Definition canonicalCommit (input : Snapshot) : string :=
  "tree " +:+ sn_Tree input +:+ NL +:+ "parent " +:+ sn_BaseCommit input +:+ NL +:+
  "author Railgrid Runner <runner@localhost> 946684800 +0000" +:+ NL +:+
  "committer Railgrid Runner <runner@localhost> 946684800 +0000" +:+ NL +:+ NL +:+
  "Implementation snapshot" +:+ NL.

(** [m] or a fixed error in place of its own. *)
Definition or_fail {A} (m : SEff (error + A)) (msg : string) : SEff (error + A) :=
  r ← m; mret (match r with inl _ => inl (ENew msg) | inr a => inr a end).

Definition headsMsg : string := "snapshot bundle must expose only the exact result commit".
Definition treeMsg : string := "snapshot tree mismatch".

Definition verify (g : snapshotGit) (input : Snapshot) : SEff (error + unit) :=
  let bundlePath := Clean (sg_dir g +:+ "/snapshot.bundle") in
  w ← call (git_writeFile bundlePath (sn_Bundle input)) (SWriteFile bundlePath (sn_Bundle input));
  match w with
  | Some err => mret (inl err)
  | None =>
      _ ←? or_fail (run g ["bundle"; "verify"; bundlePath]) "snapshot bundle prerequisites invalid";
      heads ←? or_fail (run g ["bundle"; "list-heads"; bundlePath]) headsMsg;
      if decide (TrimSpace heads ≠ sn_Commit input +:+ " refs/heads/runner-result")
      then mret (inl (ENew headsMsg))
      else
        _ ←? or_fail (run g ["bundle"; "unbundle"; bundlePath]) "snapshot bundle import failed";
        raw ←? or_fail (run g ["cat-file"; "commit"; sn_Commit input]) "snapshot commit unavailable";
        if decide (raw ≠ canonicalCommit input)
        then mret (inl (ENew "snapshot must contain one parent and canonical public metadata"))
        else
          tree ←? or_fail (run g ["rev-parse"; sn_Commit input +:+ "^{tree}"]) treeMsg;
          if decide (TrimSpace tree ≠ sn_Tree input) then mret (inl (ENew treeMsg))
          else mret (inr tt)
  end.

Definition pushArgs (remote commit branch expected : string) : list string :=
  ["push"; "--porcelain"; "--force-with-lease=refs/heads/" +:+ branch +:+ ":" +:+ expected; remote;
   commit +:+ ":refs/heads/" +:+ branch].

Definition badLease (branch expected : string) : bool :=
  negb (validBranch branch) || (negb (bool_decide (expected = "")) && negb (objectID expected)).

Definition advance (g : snapshotGit) (remote commit branch expected : string)
    : SEff (error + unit) :=
  if negb (validBranch branch) || negb (objectID commit)
     || (negb (bool_decide (expected = "")) && negb (objectID expected))
  then mret (inl (ENew "invalid branch lease"))
  else
    _ ←? or_fail (run g (pushArgs remote commit branch expected))
           "git branch publication failed; inspect the exact branch head before retrying";
    mret (inr tt).

(** The Git transport's origin: GitHub's, or that of the Enterprise server. *)
Definition gitBase (conn : Connection) : error + string :=
  if decide (cs_BaseURL (cn_Spec conn) = "") then inr "https://github.com"
  else match url_Parse (cs_BaseURL (cn_Spec conn)) with
  | None => inl (ENew "invalid Git host")
  | Some u =>
      if negb (bool_decide (u_Scheme u = "https")) || bool_decide (u_Host u = "") || u_HasUser u
         || negb (bool_decide (u_RawQuery u = "")) || negb (bool_decide (u_Fragment u = ""))
      then inl (ENew "invalid Git host")
      else inr (u_Scheme u +:+ "://" +:+ u_Host u)
  end.

Definition gitRemote (base : string) (conn : Connection) (repo : Repository) : string :=
  base +:+ "/" +:+ PathEscape (owner conn repo) +:+ "/" +:+ PathEscape (rs_Name (rp_Spec repo))
  +:+ ".git".

Definition validSnapshot (input : Snapshot) : bool :=
  objectID (sn_BaseCommit input) && objectID (sn_Commit input) && objectID (sn_Tree input)
  && negb (bool_decide (sn_BaseCommit input = sn_Commit input))
  && negb (bool_decide (sn_Bundle input = "")) && (slen (sn_Bundle input) <=? MaxSnapshotBundleBytes)%Z.

(** Inside the temp directory, which is removed when this returns. *)
Definition inDirectory (g : snapshotGit) (remote : string) (input : Snapshot)
    (apply : option (snapshotGit → string → SEff (error + unit))) : SEff (error + unit) :=
  _ ←? run g ["init"; "--bare"; "."];
  _ ←? or_fail (run g ["fetch"; "--no-tags"; "--depth=1"; "--filter=blob:none"; remote;
                       sn_BaseCommit input]) "snapshot base commit unavailable";
  _ ←? verify g input;
  match apply with
  | Some apply => apply g remote
  | None => mret (inr tt)
  end.

Definition withSnapshot (conn : Connection) (cred : Credential) (repo : Repository)
    (input : Snapshot) (apply : option (snapshotGit → string → SEff (error + unit)))
    : SEff (error + unit) :=
  if negb (validSnapshot input) then mret (inl (ENew "invalid bounded Git snapshot"))
  else
    _ ←? relabel SHost (collaborationClient conn cred repo);
    match gitBase conn with
    | inl err => mret (inl err)
    | inr base =>
        dir ←? call git_mkdirTemp SMkdirTemp;
        r ← inDirectory {| sg_dir := dir; sg_token := cr_Token cred |}
              (gitRemote base conn repo) input apply;
        _ ← call (git_removeAll dir) (λ _, SRemoveAll dir);
        mret r
    end.

Definition VerifySnapshot (conn : Connection) (cred : Credential) (repo : Repository)
    (input : Snapshot) : SEff (error + unit) :=
  withSnapshot conn cred repo input None.

Definition PublishSnapshot (conn : Connection) (cred : Credential) (repo : Repository)
    (input : Snapshot) (branch expected : string) : SEff (error + unit) :=
  if badLease branch expected then mret (inl (ENew "invalid branch lease"))
  else withSnapshot conn cred repo input
         (Some (λ g remote, advance g remote (sn_Commit input) branch expected)).
End Snapshots.

(** ** What is established before a push *)

Definition is_push (e : SEvent) : bool :=
  match e with SGit _ (a :: _) _ => bool_decide (a = "push") | _ => false end.
Definition pushless (t : list SEvent) : Prop := Forall (λ e, is_push e = false) t.

Definition hosts (t : list SEvent) : list GEvent :=
  omap (λ e, match e with SHost g => Some g | _ => None end) t.

Section Claims.
Context {W : Type} `{GitHub W} `{Pulls W} `{Git W}.
Context (url_Parse : string → option Url) (conn : Connection) (repo : Repository).

(** The command ran in [g]'s directory and printed [out]. *)
Definition ran (t : list SEvent) (g : snapshotGit) (args : list string) (out : string) : Prop :=
  SGit (gitEnv g) args (inr out) ∈ t.

(** The bundle, imported into the directory, exposes only the commit, whose
    object is the canonical snapshot of the base with the stated tree. *)
Definition checked_snapshot (g : snapshotGit) (input : Snapshot) (t : list SEvent) : Prop :=
  let path := Clean (sg_dir g +:+ "/snapshot.bundle") in
  SWriteFile path (sn_Bundle input) None ∈ t ∧
  (∃ out, ran t g ["bundle"; "verify"; path] out) ∧
  (∃ heads, ran t g ["bundle"; "list-heads"; path] heads ∧
     TrimSpace heads = sn_Commit input +:+ " refs/heads/runner-result") ∧
  (∃ out, ran t g ["bundle"; "unbundle"; path] out) ∧
  ran t g ["cat-file"; "commit"; sn_Commit input] (canonicalCommit input) ∧
  (∃ tree, ran t g ["rev-parse"; sn_Commit input +:+ "^{tree}"] tree ∧
     TrimSpace tree = sn_Tree input).

(** Verified against the repository that the host confirmed, in a temp
    directory that is removed at the end. *)
Definition verified (g : snapshotGit) (base : string) (input : Snapshot) (t : list SEvent) : Prop :=
  validSnapshot input = true ∧ bound conn repo (hosts t) ∧ gitBase url_Parse conn = inr base ∧
  SMkdirTemp (inr (sg_dir g)) ∈ t ∧
  (∃ out, ran t g ["fetch"; "--no-tags"; "--depth=1"; "--filter=blob:none";
                   gitRemote base conn repo; sn_BaseCommit input] out) ∧
  checked_snapshot g input t.

(** ** Lemmas *)

Lemma checked_grow g input t u : checked_snapshot g input u → checked_snapshot g input (t ++ u)%list.
Proof.
  intros (Hw & [o1 Hb] & (hd & Hl & ?) & [o2 Hu] & Hc & (tr & Hr & ?)). unfold ran in *.
  split_and!; [|exists o1|exists hd; split; [|done]|exists o2| |exists tr; split; [|done]];
    unfold ran; by apply elem_after.
Qed.

(** A command that is not a push, and its fixed error. *)
Lemma or_fail_run g args msg :
  emits (or_fail (W := W) (run g args) msg) (λ r t,
    ∃ res, t = [SGit (gitEnv g) args res] ∧
      match r with inr out => res = inr out | inl _ => ∃ e, res = inl e end).
Proof.
  unfold or_fail, run. apply emits_bind, emits_call. intros res. apply emits_ret. exists res.
  split; [done|]. destruct res; eauto.
Qed.

Lemma pushless_app t u : pushless (t ++ u)%list ↔ pushless t ∧ pushless u.
Proof. apply Forall_app. Qed.

(** One more command of a checking routine [k]: a failure is the routine's. *)
Lemma command_step {A} g args msg (k : string → M W SEvent (error + A)) (h : list SEvent)
    (Q : error + A → list SEvent → Prop) :
  is_push (SGit (gitEnv g) args (inl EIdentityConflict)) = false → pushless h →
  (∀ e u, pushless u → Q (inl e) u) →
  (∀ out, let h' := (h ++ [SGit (gitEnv g) args (inr out)])%list in
     pushless h' → ran h' g args out → emits (k out) (λ r u, Q r (h' ++ u)%list)) →
  emits (out ←? or_fail (run g args) msg; k out) (λ r u, Q r (h ++ u)%list).
Proof.
  intros Hp Hh Hfail Hk. apply emits_bind_res. eapply emits_mono; [apply or_fail_run|].
  intros [e|out] t (res & -> & Hres).
  - apply Hfail, pushless_app. split; [done|]. by repeat constructor.
  - rewrite Hres in *. eapply emits_mono.
    + apply Hk; [|apply elem_snoc]. apply pushless_app. split; [done|]. by repeat constructor.
    + intros r u Hu. rewrite app_assoc. exact Hu.
Qed.

Lemma ran_app t u g args out : ran t g args out → ran (t ++ u)%list g args out.
Proof. apply elem_before. Qed.

Lemma verify_emits g input :
  emits (verify (W := W) g input) (λ r t, pushless t ∧
    match r with inr _ => checked_snapshot g input t | inl _ => True end).
Proof.
  unfold verify. cbv zeta. set (path := Clean _).
  apply emits_bind, emits_call. intros [e|].
  { apply emits_ret. split; [by repeat constructor|done]. }
  set (Q := λ (r : error + unit) (t : list SEvent), pushless t ∧
    match r with inr _ => checked_snapshot g input t | inl _ => True end).
  assert (Hfail : ∀ e u, pushless u → Q (inl e) u) by done.
  apply (command_step g _ _ _ [SWriteFile path (sn_Bundle input) None] Q);
    [done|by repeat constructor|done|]. intros o1 h1 Hp1 Hr1.
  apply (command_step g _ _ _ h1 Q); [done..|]. intros heads h2 Hp2 Hr2.
  case_decide as Hheads; [apply emits_ret, Hfail; by rewrite app_nil_r|].
  apply (command_step g _ _ _ h2 Q); [done..|]. intros o3 h3 Hp3 Hr3.
  apply (command_step g _ _ _ h3 Q); [done..|]. intros raw h4 Hp4 Hr4.
  case_decide as Hraw; [apply emits_ret, Hfail; by rewrite app_nil_r|].
  subst raw.
  apply (command_step g _ _ _ h4 Q); [done..|]. intros tree h5 Hp5 Hr5.
  case_decide as Htree; [apply emits_ret, Hfail; by rewrite app_nil_r|].
  apply emits_ret. rewrite app_nil_r. split; [done|].
  split_and!; [|exists o1|exists heads; split; [|done]|exists o3| |exists tree; split; done];
    unfold h5, h4, h3, h2; repeat first [exact Hr1 | exact Hr2 | exact Hr3 | exact Hr4 | apply ran_app].
  unfold h1. repeat apply elem_before. by left.
Qed.

Definition ok {A} (r : error + A) : Prop := ∃ a, r = inr a.

(** The last step of [inDirectory]: nothing, or the push. *)
Definition finish (apply : option (snapshotGit → string → M W SEvent (error + unit)))
    (g : snapshotGit) (remote : string) : M W SEvent (error + unit) :=
  match apply with Some apply => apply g remote | None => mret (inr tt) end.

Lemma inDirectory_emits g remote input apply (R : error + unit → list SEvent → Prop) :
  emits (finish apply g remote) R →
  emits (inDirectory g remote input apply) (λ r t, ∃ t1 t2, t = (t1 ++ t2)%list ∧ pushless t1 ∧
    ((t2 = [] ∧ ∃ e, r = inl e) ∨
     ((∃ out, ran t1 g ["fetch"; "--no-tags"; "--depth=1"; "--filter=blob:none"; remote;
                        sn_BaseCommit input] out) ∧ checked_snapshot g input t1 ∧ R r t2))).
Proof.
  intros HR. unfold inDirectory. fold (finish apply g remote).
  set (Q := λ (r : error + unit) (t : list SEvent), ∃ t1 t2, t = (t1 ++ t2)%list ∧ pushless t1 ∧ _).
  assert (Hfail : ∀ e u, pushless u → Q (inl e) u).
  { intros e u Hu. exists u, []. rewrite app_nil_r. split_and!; [done..|]. left. eauto. }
  apply emits_bind_res. unfold run at 1. apply emits_call. intros [e|o0].
  { apply Hfail. by repeat constructor. }
  apply (command_step g _ _ _ [SGit (gitEnv g) ["init"; "--bare"; "."] (inr o0)] Q);
    [done|by repeat constructor|done|]. intros o1 h1 Hp1 Hr1.
  apply emits_bind_res. eapply emits_mono; [apply verify_emits|]. intros [e|_] t [Ht Hc].
  { apply Hfail, pushless_app. by split. }
  eapply emits_mono; [exact HR|]. intros r u HRu. exists (h1 ++ t)%list, u.
  rewrite app_assoc. split_and!; [done|by apply pushless_app|]. right.
  split_and!; [exists o1; by apply ran_app|by apply checked_grow|done].
Qed.

Lemma advance_emits g remote commit branch expected :
  badLease branch expected = false → objectID commit = true →
  emits (advance (W := W) g remote commit branch expected) (λ r t,
    ∃ res, t = [SGit (gitEnv g) (pushArgs remote commit branch expected) res] ∧ (ok r ↔ ok res)).
Proof.
  unfold badLease, advance. intros [Hb He]%orb_false_iff Hc. rewrite Hb, He, Hc.
  apply emits_bind_res. eapply emits_mono; [apply or_fail_run|]. intros [e|out] t (res & -> & Hres).
  - exists res. split; [done|]. destruct Hres as [e' ->]. split; by intros [? ?].
  - apply emits_ret. exists res. split; [done|]. subst res. split; intros _; by eexists.
Qed.

Lemma collaborationClient_bound cred :
  emits (collaborationClient (W := W) conn cred repo) (λ r t,
    match r with inr _ => bound conn repo t | inl _ => True end).
Proof.
  eapply emits_mono.
  - apply (collaborationClient_reading (W := W) conn repo (OpBranches 0) cred []
      (λ r h, match r with inr _ => bound conn repo h | inl _ => True end)); done.
  - intros r t [_ [_ Hr]]. exact Hr.
Qed.

Lemma pushless_hosts (t : list GEvent) : pushless (SHost <$> t).
Proof. induction t; constructor; done. Qed.
Lemma hosts_fmap (t : list GEvent) : hosts (SHost <$> t) = t.
Proof. induction t as [|e t IH]; [done|]. cbn. f_equal. exact IH. Qed.
Lemma hosts_app t u : hosts (t ++ u)%list = (hosts t ++ hosts u)%list.
Proof. unfold hosts. apply omap_app. Qed.

(** A run: refused before anything is applied, or verified and then [R]; the
    temp directory goes last. *)
Definition applied (input : Snapshot) (R : snapshotGit → string → error + unit → list SEvent → Prop)
    (r : error + unit) (t : list SEvent) : Prop :=
  (pushless t ∧ ∃ e, r = inl e) ∨
  ∃ before g base mid, t = (before ++ mid ++ [SRemoveAll (sg_dir g)])%list ∧ pushless before ∧
    verified g base input before ∧ R g (gitRemote base conn repo) r mid.

Lemma withSnapshot_applied cred input apply
    (R : snapshotGit → string → error + unit → list SEvent → Prop) :
  (∀ g remote, validSnapshot input = true → emits (finish apply g remote) (R g remote)) →
  emits (withSnapshot url_Parse conn cred repo input apply) (applied input R).
Proof.
  intros HR. unfold withSnapshot.
  assert (Hfail : ∀ e t, pushless t → applied input R (inl e) t) by (intros e t Ht; left; eauto).
  destruct (validSnapshot input) eqn:Hv; cbn [negb]; [|apply emits_ret, Hfail; constructor].
  apply emits_bind_res, emits_relabel. eapply emits_mono; [apply collaborationClient_bound|].
  intros [e|c] t0 Hb; [apply Hfail, pushless_hosts|].
  destruct (gitBase url_Parse conn) as [e|base] eqn:Hbase.
  { apply emits_ret, Hfail. rewrite app_nil_r. apply pushless_hosts. }
  apply emits_bind_res, emits_call. intros [e|dir].
  { apply Hfail, pushless_app. split; [apply pushless_hosts|by repeat constructor]. }
  set (g := {| sg_dir := dir; sg_token := cr_Token cred |}).
  apply emits_bind. eapply emits_mono; [apply inDirectory_emits, HR; done|].
  intros r t (t1 & t2 & -> & Hp & Hcase). apply emits_bind, emits_call. intros _. apply emits_ret.
  set (h0 := ((SHost <$> t0) ++ [SMkdirTemp (inr dir)])%list).
  assert (pushless h0) as Hp0 by (apply pushless_app; split; [apply pushless_hosts|by repeat constructor]).
  destruct Hcase as [[-> [e ->]]|([out Hf] & Hc & Hr)].
  - apply Hfail. rewrite !app_nil_r, app_assoc. apply pushless_app. split; [done|].
    apply pushless_app. split; [done|by repeat constructor].
  - right. exists (h0 ++ t1)%list, g, base, t2. split_and!; [|by apply pushless_app| |done].
    { unfold h0. by rewrite <- !app_assoc, app_nil_r. }
    split_and!; [done| |done| | |by apply checked_grow].
    + unfold h0. rewrite !hosts_app, hosts_fmap, <- app_assoc. by apply bound_mono.
    + apply elem_before. unfold h0. apply elem_snoc.
    + exists out. by apply elem_after.
Qed.
End Claims.

(** What publishing with a lease amounts to: nothing pushed and an error, or one
    push after the verification. *)
Definition published {W} `{GitHub W} `{Pulls W} `{Git W} (url_Parse : string → option Url)
    (conn : Connection) (repo : Repository) (input : Snapshot) (branch expected : string)
    (r : error + unit) (t : list SEvent) : Prop :=
  (pushless t ∧ ∃ e, r = inl e) ∨
  ∃ before g base res, t = (before ++
      [SGit (gitEnv g)
         ["push"; "--porcelain"; "--force-with-lease=refs/heads/" +:+ branch +:+ ":" +:+ expected;
          gitRemote base conn repo; sn_Commit input +:+ ":refs/heads/" +:+ branch] res]
      ++ [SRemoveAll (sg_dir g)])%list ∧
    pushless before ∧ verified url_Parse conn repo g base input before ∧
    validBranch branch = true ∧ (expected = "" ∨ objectID expected = true) ∧ (ok r ↔ ok res).

Lemma PublishSnapshot_published {W} `{GitHub W} `{Pulls W} `{Git W} url_Parse conn cred repo input
    branch expected :
  emits (PublishSnapshot (W := W) url_Parse conn cred repo input branch expected)
    (published url_Parse conn repo input branch expected).
Proof.
  unfold PublishSnapshot. destruct (badLease branch expected) eqn:Hl.
  { apply emits_ret. left. split; [constructor|eauto]. }
  eapply emits_mono.
  - apply (withSnapshot_applied url_Parse conn repo cred input
      (Some (λ g remote, advance g remote (sn_Commit input) branch expected))
      (λ g remote r t, ∃ res,
         t = [SGit (gitEnv g) (pushArgs remote (sn_Commit input) branch expected) res] ∧
         (ok r ↔ ok res))).
    intros g remote Hv. apply advance_emits; [done|]. unfold validSnapshot in Hv.
    rewrite !andb_true_iff in Hv. tauto.
  - intros r t [He|(before & g & base & mid & -> & Hp & Hv & res & -> & Hok)]; [by left|].
    right. exists before, g, base, res. unfold badLease in Hl. apply orb_false_iff in Hl as [Hb He].
    split_and!; try done; [by apply negb_false_iff in Hb|].
    apply andb_false_iff in He as [He%negb_false_iff|He%negb_false_iff];
      [left; by apply bool_decide_eq_true in He|by right].
Qed.

Lemma VerifySnapshot_verified {W} `{GitHub W} `{Pulls W} `{Git W} url_Parse conn cred repo input :
  emits (VerifySnapshot (W := W) url_Parse conn cred repo input) (λ r t, pushless t ∧
    (ok r → ∃ before g base, t = (before ++ [SRemoveAll (sg_dir g)])%list ∧
                             verified url_Parse conn repo g base input before)).
Proof.
  eapply emits_mono.
  - apply (withSnapshot_applied url_Parse conn repo cred input None (λ _ _ r t, r = inr tt ∧ t = [])).
    intros. by apply emits_ret.
  - intros r t [[Hp [e ->]]|(before & g & base & mid & -> & Hp & Hv & -> & ->)].
    + split; [done|]. by intros [? ?].
    + split; [apply pushless_app; split; [done|by repeat constructor]|].
      intros _. by exists before, g, base.
Qed.

(** ** Properties *)

(** C16: publishing moves a branch by exactly one push with the caller's lease,
    and only after the snapshot was verified: the host confirmed the recorded
    repository, the base commit came from its remote, and the imported bundle
    exposes only the result commit, whose object is the canonical snapshot of
    that base and tree.  Success is that push's success; otherwise nothing was
    pushed and an error is returned.  No failure is followed by another push. *)
Theorem PublishSnapshot_lease {W} `{GitHub W} `{Pulls W} `{Git W} url_Parse conn cred repo input
    branch expected (w w' : W) r t
    (Hrun : PublishSnapshot url_Parse conn cred repo input branch expected w = (r, w', t)) :
  published url_Parse conn repo input branch expected r t.
Proof.
  pose proof (PublishSnapshot_published (W := W) url_Parse conn cred repo input branch expected w) as He.
  by rewrite Hrun in He.
Qed.

(** Verifying never pushes, and what it accepts is verified. *)
Theorem VerifySnapshot_sound {W} `{GitHub W} `{Pulls W} `{Git W} url_Parse conn cred repo input
    (w w' : W) r t
    (Hrun : VerifySnapshot url_Parse conn cred repo input w = (r, w', t)) :
  pushless t ∧ (ok r → ∃ before g base,
    t = (before ++ [SRemoveAll (sg_dir g)])%list ∧ verified url_Parse conn repo g base input before).
Proof.
  pose proof (VerifySnapshot_verified (W := W) url_Parse conn cred repo input w) as He.
  by rewrite Hrun in He.
Qed.

(** ** A run *)

Definition base_sha : string := "89abcdef0123456789abcdef0123456789abcdef".
Definition tree_sha : string := "fedcba9876543210fedcba9876543210fedcba98".
Definition demo_snapshot : Snapshot :=
  {| sn_BaseCommit := base_sha; sn_Commit := demo_sha; sn_Tree := tree_sha; sn_Bundle := "PACK" |}.

(** A [git] that imports the demo snapshot. *)
Definition fixed_git : Git unit := {|
  git_mkdirTemp := λ w, (inr "/tmp/code-snapshot-1", w);
  git_writeFile := λ _ _ w, (None, w);
  git_removeAll := λ _ w, (tt, w);
  git_exec := λ _ _ args w,
    (match args with
     | ["bundle"; "list-heads"; _] => ([demo_sha; " refs/heads/runner-result" +:+ NL], true)
     | "cat-file" :: _ => ([canonicalCommit demo_snapshot], true)
     | "rev-parse" :: _ => ([tree_sha +:+ NL], true)
     | _ => ([], true)
     end, w);
  git_path := "/usr/bin" |}.

Lemma PublishSnapshot_lease_witness :
  let G := fixed_github pull_host in
  let P := fixed_pulls in
  let T := fixed_git in
  let repo := demo_repo ∅ "7" in
  ∃ t, PublishSnapshot (λ _, None) demo_conn demo_cred repo demo_snapshot "feature" "" tt
    = (inr tt, tt, t) ∧
    published (λ _, None) demo_conn repo demo_snapshot "feature" "" (inr tt) t.
Proof.
  intros G P T repo. eexists. split; [vm_compute; reflexivity|].
  apply (PublishSnapshot_lease (λ _, None) demo_conn demo_cred repo demo_snapshot "feature" "" tt tt).
  vm_compute. reflexivity.
Defined.

Lemma VerifySnapshot_sound_witness :
  let G := fixed_github pull_host in
  let P := fixed_pulls in
  let T := fixed_git in
  let repo := demo_repo ∅ "7" in
  ∃ t, VerifySnapshot (λ _, None) demo_conn demo_cred repo demo_snapshot tt = (inr tt, tt, t) ∧
    ∃ before g base, t = (before ++ [SRemoveAll (sg_dir g)])%list ∧
      verified (λ _, None) demo_conn repo g base demo_snapshot before.
Proof.
  intros G P T repo. eexists. split; [vm_compute; reflexivity|].
  refine (proj2 (VerifySnapshot_sound (λ _, None) demo_conn demo_cred repo demo_snapshot tt tt
    (inr tt) _ _) _); [|by exists tt]. vm_compute. reflexivity.
Defined.
