(* ===== verification/ActionSnapshots.v ===== *)
(** * actions/snapshots.go: the snapshot upload area

    A directory per tenant, in it a directory per (resource identities, caller)
    scope, in it one file per snapshot, named by the digest of its bytes.  The
    file system's faults, the clock at each visited file and the decoder of
    foreign bytes are parameters. *)

From S2P Require Import Prelude GoStrings Encoding Json GoTime Errors Api Backend Tenant.
From S2P Require Import GitHubPackages Collaboration GitHubPulls.
From Stdlib Require Import Ascii Lia.

#[local] Open Scope string_scope.
#[local] Open Scope Z_scope.

Definition MaxInputBytes : Z := 36 * 2 ^ 20.
Definition MaxOutputBytes : Z := 512 * 2 ^ 10.
Definition snapshotTTL : Duration := Hour.
Definition maxSnapshots : Z := 16.
Definition maxTenantBytes : Z := 256 * 2 ^ 20.

(** ** server.go: the action's input *)

Record Input := {
  in_Repository : string; in_RepositoryUID : string; in_ConnectionUID : string;
  in_Branch : string; in_ExpectedHead : string; in_Number : Z; in_Page : Z;
  in_ParentCommentID : Z; in_Pull : PullRequestInput; in_Snapshot : option Snapshot;
  in_BundleRef : string }.

(** ** The upload area *)

(** [json.Marshal] of a snapshot, and what decoding it again gives. *)
Definition snapshot_json (s : Snapshot) : string :=
  json_object [("baseCommit", json_quote (sn_BaseCommit s)); ("commit", json_quote (sn_Commit s));
    ("tree", json_quote (sn_Tree s)); ("bundle", json_quote (base64_encode (sn_Bundle s)))].
Definition json_snapshot (s : Snapshot) : Snapshot :=
  {| sn_BaseCommit := json_string (sn_BaseCommit s); sn_Commit := json_string (sn_Commit s);
     sn_Tree := json_string (sn_Tree s); sn_Bundle := sn_Bundle s |}.

Inductive SnapData := Marshalled (s : Snapshot) | RawBytes (b : string).
Definition data_bytes (d : SnapData) : string :=
  match d with Marshalled s => snapshot_json s | RawBytes b => b end.

Record SnapFile := { sf_Data : SnapData; sf_ModTime : Time; sf_Regular : bool }.
(** Files by scope directory and name. *)
Abbreviation TenantDir := (gmap (string * string) SnapFile) (only parsing).
Abbreviation SnapDir := (gmap string TenantDir) (only parsing).

Inductive SnapOp :=
  | OpMkdirAll | OpVisit (scope name : string) | OpRemove (scope name : string) | OpStat
  | OpCreateTemp | OpWriteTemp (written : nat) | OpCloseTemp | OpRename | OpRemoveTemp | OpOpen | OpStatFile
  | OpReadAll.

Definition snapshotDigest (s : string) : bool :=
  bool_decide (String.length s = 64%nat) && forallb hex_char (bytes_of s).

Definition NULS : string := String "000" "".

(** The tenant and scope directories, under the configured root. *)
Definition snapshotScope (authorization cluster : string) (inp : Input) : string * string :=
  (hex_encode (sha256 cluster),
   hex_encode (sha256 (in_RepositoryUID inp +:+ NULS +:+ in_ConnectionUID inp +:+ NULS +:+ authorization))).

Definition tenant_dir (d : SnapDir) (tenant : string) : TenantDir := default ∅ (d !! tenant).
Definition snap_file (d : SnapDir) (tenant scope name : string) : option SnapFile :=
  tenant_dir d tenant !! (scope, name).

Definition file_size (f : SnapFile) : Z := slen (data_bytes (sf_Data f)).

(** [filepath.WalkDir]'s order. *)
Definition walk_le (p q : (string * string) * SnapFile) : Prop :=
  string_le p.1.1 q.1.1 ∧ (p.1.1 = q.1.1 → string_le p.1.2 q.1.2).
#[export] Instance walk_le_dec p q : Decision (walk_le p q).
Proof. unfold walk_le. apply _. Defined.

Section Area.
Context (io : SnapOp → option error) (visited : string → string → Time)
        (decode : string → option Snapshot).

(** The callback of [WalkDir], over the files still to visit. *)
Fixpoint walk (files : list ((string * string) * SnapFile)) (d : TenantDir) (count size : Z)
    : TenantDir * (error + Z * Z) :=
  match files with
  | [] => (d, inr (count, size))
  | ((scope, name), f) :: files =>
      match io (OpVisit scope name) with
      | Some err => (d, inl err)
      | None =>
          if negb (sf_Regular f) then (d, inl (ENew "invalid snapshot storage entry"))
          else if decide (Sub (visited scope name) (sf_ModTime f) > snapshotTTL) then
            match io (OpRemove scope name) with
            | Some err => (d, inl err)
            | None => walk files (delete (scope, name) d) count size
            end
          else walk files d (count + 1) (size + file_size f)
      end
  end.

Definition listing (d : TenantDir) : list ((string * string) * SnapFile) :=
  merge_sort walk_le (map_to_list d).

(** The deferred removal of the temp file. *)
Definition dropTemp (scope temp : string) (d : TenantDir) : TenantDir :=
  match io OpRemoveTemp with None => delete (scope, temp) d | Some _ => d end.

(** [temp.Write]: the error that stops it, and after how many bytes. *)
Fixpoint write_fault (written pending : nat) : option (nat * error) :=
  match io (OpWriteTemp written), pending with
  | Some err, _ => Some (written, err)
  | None, O => None
  | None, S pending => write_fault (S written) pending
  end.

(** From [os.CreateTemp] on. *)
Definition storeSnapshot (now : Time) (scope name temp : string) (s : Snapshot) (d : TenantDir)
    : TenantDir * option error :=
  let file data := {| sf_Data := data; sf_ModTime := now; sf_Regular := true |} in
  match io OpCreateTemp with
  | Some err => (d, Some err)
  | None =>
      match write_fault 0 (String.length (snapshot_json s)) with
      | Some (n, err) =>
          let partial := RawBytes (stake n (snapshot_json s)) in
          (dropTemp scope temp (<[(scope, temp) := file partial]> d), Some err)
      | None =>
          let written := <[(scope, temp) := file (Marshalled s)]> d in
          match io OpCloseTemp with
          | Some err => (dropTemp scope temp written, Some err)
          | None =>
              match io OpRename with
              | Some err => (dropTemp scope temp written, Some err)
              | None => (dropTemp scope temp (<[(scope, name) := file (Marshalled s)]>
                                                (delete (scope, temp) d)), None)
              end
          end
      end
  end.

Definition snapshotRef (s : Snapshot) : string := hex_encode (sha256 (snapshot_json s)).
Definition snapshotName (ref : string) : string := ref +:+ ".json".

(** The rest of [stage] under the lock, in the tenant's directory. *)
Definition stageIn (now : Time) (temp scope ref : string) (s : Snapshot) (d : TenantDir)
    : TenantDir * (error + string) :=
  match io OpMkdirAll with
  | Some err => (d, inl err)
  | None =>
      match walk (listing d) d 0 0 with
      | (d, inl err) => (d, inl err)
      | (d, inr (count, size)) =>
          let write :=
            if decide (count >= maxSnapshots ∨ size + slen (snapshot_json s) > maxTenantBytes)
            then (d, inl (ENew "tenant snapshot quota reached"))
            else match storeSnapshot now scope (snapshotName ref) temp s d with
                 | (d, Some err) => (d, inl err)
                 | (d, None) => (d, inr ref)
                 end in
          match io OpStat, d !! (scope, snapshotName ref) with
          | Some err, _ => if IsNotExist err then write else (d, inl err)
          | None, Some _ => (d, inr ref)
          | None, None => write
          end
      end
  end.

(** [rand] is the random part of the temp file's name. *)
Definition stage (now : Time) (rand authorization cluster : string) (inp : Input) (d : SnapDir)
    : SnapDir * (error + string) :=
  match in_Snapshot inp with
  | None => (d, inl (ENew "invalid snapshot upload"))
  | Some s =>
      if decide (sn_Bundle s = "" ∨ slen (sn_Bundle s) > 25 * 2 ^ 20)
      then (d, inl (ENew "invalid snapshot upload"))
      else if decide (slen (snapshot_json s) > MaxInputBytes)
      then (d, inl (ENew "snapshot upload exceeds limit"))
      else
        let '(tenant, scope) := snapshotScope authorization cluster inp in
        let '(t, r) := stageIn now ("upload-" +:+ rand) scope (snapshotRef s) s (tenant_dir d tenant) in
        (<[tenant := t]> d, r)
  end.

Definition loadSnapshot (now : Time) (authorization cluster : string) (inp : Input) (d : SnapDir)
    : error + Snapshot :=
  if negb (snapshotDigest (in_BundleRef inp)) then inl (ENew "invalid snapshot reference")
  else
    let '(tenant, scope) := snapshotScope authorization cluster inp in
    match io OpOpen, snap_file d tenant scope (snapshotName (in_BundleRef inp)) with
    | Some err, _ => inl err
    | None, None => inl (EOs true "no such file or directory")
    | None, Some f =>
        if bool_decide (is_Some (io OpStatFile)) || negb (sf_Regular f)
           || bool_decide (Sub now (sf_ModTime f) > snapshotTTL)
           || bool_decide (file_size f > MaxInputBytes)
        then inl (ENew "snapshot unavailable or expired")
        else if bool_decide (is_Some (io OpReadAll)) || bool_decide (file_size f > MaxInputBytes)
        then inl (ENew "snapshot exceeds limit")
        else if decide (hex_encode (sha256 (data_bytes (sf_Data f))) ≠ in_BundleRef inp)
        then inl (ENew "snapshot digest mismatch")
        else match sf_Data f with
             | Marshalled s => inr (json_snapshot s)
             | RawBytes b => match decode b with Some s => inr s | None => inl (ENew "invalid JSON") end
             end
    end.
End Area.

(** ** Lemmas: counting *)

Definition one (_ : SnapFile) : Z := 1.

Lemma file_size_nonneg f : 0 ≤ file_size f.
Proof. apply slen_nonneg. Qed.

Lemma wsum_foldr {K A} `{Countable K} (w : A → Z) (m : gmap K A) :
  wsum w m = foldr (λ kv z, w kv.2 + z) 0 (map_to_list m).
Proof.
  unfold wsum. rewrite map_fold_foldr. generalize (map_to_list m) as l.
  intros l. induction l as [|[k v] l IH]; [done|]. cbn in *. by rewrite IH.
Qed.

Section Weights.
Context (w : SnapFile → Z) (Hw : ∀ f, 0 ≤ w f).
Implicit Types d : TenantDir.

Definition weight (l : list ((string * string) * SnapFile)) : Z := foldr (λ kv z, w kv.2 + z) 0 l.

Lemma weight_perm l l' : l ≡ₚ l' → weight l = weight l'.
Proof. induction 1; simpl; lia. Qed.

Lemma wsum_listing d : wsum w d = weight (listing d).
Proof.
  unfold listing. rewrite (weight_perm _ _ (merge_sort_Permutation walk_le (map_to_list d))).
  apply wsum_foldr.
Qed.

Lemma wsum_delete_le d k : wsum w (delete k d) ≤ wsum w d.
Proof.
  destruct (d !! k) as [v|] eqn:Hk; [|by rewrite delete_id].
  rewrite (wsum_delete w d k v Hk). specialize (Hw v). lia.
Qed.
Lemma wsum_insert_le d k v : wsum w (<[k:=v]> d) ≤ wsum w d + w v.
Proof.
  rewrite <- insert_delete_eq, wsum_insert by apply lookup_delete_eq.
  pose proof (wsum_delete_le d k). lia.
Qed.
End Weights.

(** ** Lemmas: the walk *)

Section Walk.
Context (io : SnapOp → option error) (visited : string → string → Time).

Definition expired (k : string * string) (f : SnapFile) : Prop :=
  Sub (visited k.1 k.2) (sf_ModTime f) > snapshotTTL.

(** What the walk may do to a directory. *)
Definition swept (d d' : TenantDir) : Prop :=
  ∀ k, d' !! k = d !! k ∨ (d' !! k = None ∧ ∃ f, d !! k = Some f ∧ expired k f).

Lemma walk_swept files d c s d' r :
  NoDup files.*1 → (∀ k f, (k, f) ∈ files → d !! k = Some f) →
  walk io visited files d c s = (d', r) → swept d d'.
Proof.
  revert d c s. induction files as [|[[scope name] f] files IH]; intros d c s Hnd Hin Hr; simpl in Hr.
  { injection Hr as <- _. by left. }
  apply NoDup_cons in Hnd as [Hnot Hnd].
  destruct (io (OpVisit scope name)); [injection Hr as <- _; by left|].
  destruct (negb (sf_Regular f)); [injection Hr as <- _; by left|].
  assert (∀ k g, (k, g) ∈ files → d !! k = Some g ∧ k ≠ (scope, name)) as Htl.
  { intros k g Hk. split; [apply Hin; by right|]. intros ->. apply Hnot.
    apply list_elem_of_fmap. by exists ((scope, name), g). }
  case_decide as He.
  - destruct (io (OpRemove scope name)); [injection Hr as <- _; by left|].
    assert (swept (delete (scope, name) d) d') as Hs.
    { eapply IH; [done| |exact Hr]. intros k g Hk. destruct (Htl k g Hk) as [? ?].
      by rewrite lookup_delete_ne. }
    intros k. destruct (decide (k = (scope, name))) as [->|Hk].
    + right. destruct (Hs (scope, name)) as [Heq|[Heq _]]; rewrite ?lookup_delete_eq in Heq;
        (split; [done|]; exists f; split; [apply Hin; by left|done]).
    + destruct (Hs k) as [Heq|(Heq & g & Hg & ?)]; rewrite lookup_delete_ne in * by done;
        [by left|right; eauto].
  - eapply IH; [done| |exact Hr]. intros k g Hk. by apply Htl.
Qed.

Lemma walk_weight w files d c s d' r :
  (∀ f, 0 ≤ w f) → NoDup files.*1 → (∀ k f, (k, f) ∈ files → d !! k = Some f) →
  walk io visited files d c s = (d', r) → wsum w d' ≤ wsum w d.
Proof.
  intros Hw. revert d c s. induction files as [|[[scope name] f] files IH]; intros d c s Hnd Hin Hr;
    simpl in Hr.
  { by injection Hr as <- _. }
  apply NoDup_cons in Hnd as [Hnot Hnd].
  destruct (io (OpVisit scope name)); [by injection Hr as <- _|].
  destruct (negb (sf_Regular f)); [by injection Hr as <- _|].
  case_decide as He; [|eapply IH; [done| |exact Hr]; intros; apply Hin; by right].
  destruct (io (OpRemove scope name)); [by injection Hr as <- _|].
  etrans; [eapply IH; [done| |exact Hr]|by apply wsum_delete_le].
  intros k g Hk. rewrite lookup_delete_ne; [apply Hin; by right|]. intros <-. apply Hnot.
  apply list_elem_of_fmap. by exists ((scope, name), g).
Qed.

(** What is left after a whole walk is what was counted. *)
Lemma walk_counts files d c s d' c' s' :
  NoDup files.*1 → (∀ k f, (k, f) ∈ files → d !! k = Some f) →
  walk io visited files d c s = (d', inr (c', s')) →
  wsum one d' - c' = wsum one d - c - weight one files ∧
  wsum file_size d' - s' = wsum file_size d - s - weight file_size files.
Proof.
  revert d c s. induction files as [|[[scope name] f] files IH]; intros d c s Hnd Hin Hr; simpl in Hr.
  { injection Hr as <- <- <-. simpl. lia. }
  apply NoDup_cons in Hnd as [Hnot Hnd].
  destruct (io (OpVisit scope name)); [done|].
  destruct (negb (sf_Regular f)); [done|].
  assert (d !! (scope, name) = Some f) as Hf by (apply Hin; by left).
  case_decide as He.
  - destruct (io (OpRemove scope name)); [done|].
    apply IH in Hr as [H1 H2]; [|done|].
    + pose proof (wsum_delete one d _ f Hf). pose proof (wsum_delete file_size d _ f Hf).
      cbn [weight foldr snd]. fold (weight one files) (weight file_size files). unfold one in *. lia.
    + intros k g Hk. rewrite lookup_delete_ne; [apply Hin; by right|]. intros <-. apply Hnot.
      apply list_elem_of_fmap. by exists ((scope, name), g).
  - apply IH in Hr as [H1 H2]; [|done|intros; apply Hin; by right].
    cbn [weight foldr snd]. fold (weight one files) (weight file_size files). unfold one in *. lia.
Qed.

Lemma listing_NoDup d : NoDup (listing d).*1.
Proof.
  unfold listing. rewrite (merge_sort_Permutation walk_le (map_to_list d)). apply NoDup_fst_map_to_list.
Qed.
Lemma listing_lookup d k f : (k, f) ∈ listing d → d !! k = Some f.
Proof.
  unfold listing. rewrite (merge_sort_Permutation walk_le (map_to_list d)).
  by rewrite elem_of_map_to_list.
Qed.

Lemma walk_all d d' r : walk io visited (listing d) d 0 0 = (d', r) →
  swept d d' ∧ wsum one d' ≤ wsum one d ∧ wsum file_size d' ≤ wsum file_size d ∧
  (∀ c s, r = inr (c, s) → wsum one d' = c ∧ wsum file_size d' = s).
Proof.
  intros Hr. pose proof (listing_NoDup d) as Hnd. pose proof (listing_lookup d) as Hin.
  split_and!; [by eapply walk_swept|by eapply walk_weight| |].
  - eapply walk_weight; [apply file_size_nonneg|done..].
  - intros c s ->. apply walk_counts in Hr as [H1 H2]; [|done..].
    pose proof (wsum_listing one d) as E1. pose proof (wsum_listing file_size d) as E2. lia.
Qed.
End Walk.

(** ** Lemmas: storing *)

(** The file a successful upload leaves. *)
Definition stored_file (now : Time) (s : Snapshot) : SnapFile :=
  {| sf_Data := Marshalled s; sf_ModTime := now; sf_Regular := true |}.

Lemma dropTemp_other io scope temp d k : k ≠ (scope, temp) → dropTemp io scope temp d !! k = d !! k.
Proof. intros Hk. unfold dropTemp. destruct (io OpRemoveTemp); [done|]. by rewrite lookup_delete_ne. Qed.
Lemma dropTemp_weight w io scope temp d : (∀ f, 0 ≤ w f) → wsum w (dropTemp io scope temp d) ≤ wsum w d.
Proof. intros Hw. unfold dropTemp. destruct (io OpRemoveTemp); [done|]. by apply wsum_delete_le. Qed.

Lemma storeSnapshot_entries io now scope name temp s d d' e :
  storeSnapshot io now scope name temp s d = (d', e) →
  (∀ k, k ≠ (scope, temp) →
     d' !! k = if decide (k = (scope, name) ∧ e = None) then Some (stored_file now s) else d !! k).
Proof.
  unfold storeSnapshot. intros H k Hk.
  destruct (io OpCreateTemp); [injection H as <- <-; by rewrite decide_False by naive_solver|].
  destruct (write_fault _ _ _) as [[n err]|].
  { injection H as <- <-. rewrite dropTemp_other, lookup_insert_ne by done.
    by rewrite decide_False by naive_solver. }
  destruct (io OpCloseTemp).
  { injection H as <- <-. rewrite dropTemp_other, lookup_insert_ne by done.
    by rewrite decide_False by naive_solver. }
  destruct (io OpRename).
  { injection H as <- <-. rewrite dropTemp_other, lookup_insert_ne by done.
    by rewrite decide_False by naive_solver. }
  injection H as <- <-. rewrite dropTemp_other by done. case_decide as Hn.
  - destruct Hn as [-> _]. apply lookup_insert_eq.
  - rewrite lookup_insert_ne, lookup_delete_ne by naive_solver. done.
Qed.

Lemma storeSnapshot_weight w io now scope name temp s d d' e :
  (∀ f, 0 ≤ w f) → storeSnapshot io now scope name temp s d = (d', e) →
  (∀ n, w {| sf_Data := RawBytes (stake n (snapshot_json s)); sf_ModTime := now; sf_Regular := true |}
     ≤ w (stored_file now s)) →
  wsum w d' ≤ wsum w d + w (stored_file now s).
Proof.
  unfold storeSnapshot. intros Hw H Hraw. pose proof (Hw (stored_file now s)).
  destruct (io OpCreateTemp); [injection H as <- _; lia|].
  destruct (write_fault _ _ _) as [[n err]|].
  { injection H as <- _. etrans; [by apply dropTemp_weight|].
    etrans; [by apply wsum_insert_le|]. specialize (Hraw n). lia. }
  destruct (io OpCloseTemp); [injection H as <- _; etrans; [by apply dropTemp_weight|]; by apply wsum_insert_le|].
  destruct (io OpRename); [injection H as <- _; etrans; [by apply dropTemp_weight|]; by apply wsum_insert_le|].
  injection H as <- _. etrans; [by apply dropTemp_weight|]. etrans; [by apply wsum_insert_le|].
  pose proof (wsum_delete_le w Hw d (scope, temp)). unfold stored_file. lia.
Qed.

Lemma slen_stake_le n s : slen (stake n s) ≤ slen s.
Proof.
  unfold slen, stake. rewrite <- !length_bytes_of, bytes_of_of_bytes, length_take. lia.
Qed.

(** A tenant within its quota. *)
Definition within (d : TenantDir) : Prop :=
  wsum one d ≤ maxSnapshots ∧ wsum file_size d ≤ maxTenantBytes.

Lemma stageIn_within io visited now temp scope ref s d d' r :
  stageIn io visited now temp scope ref s d = (d', r) → within d → within d'.
Proof.
  intros H [Hc Hs]. unfold stageIn in H. destruct (io OpMkdirAll); [by injection H as <- _|].
  destruct (walk io visited (listing d) d 0 0) as [d1 [e|[count size]]] eqn:Hwalk;
    apply walk_all in Hwalk as (_ & H1 & H2 & Hcount).
  { injection H as <- _. split; lia. }
  destruct (Hcount _ _ eq_refl) as [Ec Es]. assert (within d1) as Hw1 by (split; lia).
  assert (Hwrite : ∀ p, (if decide (count >= maxSnapshots ∨ size + slen (snapshot_json s) > maxTenantBytes)
    then (d1, inl (ENew "tenant snapshot quota reached"))
    else match storeSnapshot io now scope (snapshotName ref) temp s d1 with
         | (d, Some err) => (d, inl err) | (d, None) => (d, inr ref) end) = p → within p.1).
  { intros p <-. case_decide as Hq; [done|].
    destruct (storeSnapshot io now scope (snapshotName ref) temp s d1) as [d2 e] eqn:Hst.
    assert (within d2) as Hw2; [|by destruct e].
    apply Decidable.not_or in Hq as [Hq1 Hq2].
    pose proof (storeSnapshot_weight one _ _ _ _ _ _ _ _ _ ltac:(done) Hst ltac:(done)).
    pose proof (storeSnapshot_weight file_size _ _ _ _ _ _ _ _ _ file_size_nonneg Hst
      (λ n, slen_stake_le n (snapshot_json s))).
    change (file_size (stored_file now s)) with (slen (snapshot_json s)) in *.
    change (one (stored_file now s)) with 1 in *. split; lia. }
  destruct (io OpStat) as [e|].
  - destruct (IsNotExist e); [by apply Hwrite in H|by injection H as <- _].
  - destruct (d1 !! (scope, snapshotName ref)); [by injection H as <- _|by apply Hwrite in H].
Qed.

(** Every entry: as it was, swept, the temp file, or the new snapshot. *)
Lemma stageIn_entries io visited now temp scope ref s d d' r k :
  stageIn io visited now temp scope ref s d = (d', r) → k ≠ (scope, temp) →
  d' !! k = d !! k ∨
  (d' !! k = None ∧ ∃ f, d !! k = Some f ∧ expired visited k f) ∨
  (k = (scope, snapshotName ref) ∧ r = inr ref ∧ d' !! k = Some (stored_file now s)).
Proof.
  intros H Hk. unfold stageIn in H. destruct (io OpMkdirAll); [injection H as <- _; by left|].
  destruct (walk io visited (listing d) d 0 0) as [d1 [e|[count size]]] eqn:Hwalk;
    apply walk_all in Hwalk as (Hsw & _); pose proof (Hsw k) as Hk1.
  { injection H as <- _. tauto. }
  assert (Hsame : d' = d1 → d' !! k = d !! k ∨
    (d' !! k = None ∧ ∃ f, d !! k = Some f ∧ expired visited k f) ∨
    (k = (scope, snapshotName ref) ∧ r = inr ref ∧ d' !! k = Some (stored_file now s)))
    by (intros ->; tauto).
  assert (Hwrite : (if decide (count >= maxSnapshots ∨ size + slen (snapshot_json s) > maxTenantBytes)
    then (d1, inl (ENew "tenant snapshot quota reached"))
    else match storeSnapshot io now scope (snapshotName ref) temp s d1 with
         | (d, Some err) => (d, inl err) | (d, None) => (d, inr ref) end) = (d', r) →
    d' !! k = d !! k ∨
    (d' !! k = None ∧ ∃ f, d !! k = Some f ∧ expired visited k f) ∨
    (k = (scope, snapshotName ref) ∧ r = inr ref ∧ d' !! k = Some (stored_file now s))).
  { case_decide; [intros [= <- <-]; by apply Hsame|].
    destruct (storeSnapshot io now scope (snapshotName ref) temp s d1) as [d2 e] eqn:Hst.
    pose proof (storeSnapshot_entries _ _ _ _ _ _ _ _ _ Hst k Hk) as He.
    destruct e as [e|]; intros [= <- <-].
    - rewrite decide_False in He by naive_solver. rewrite He. tauto.
    - case_decide as Hd; [right; right; tauto|]. rewrite He. tauto. }
  destruct (io OpStat) as [e|].
  - destruct (IsNotExist e); [by apply Hwrite|]. injection H as <- _. by apply Hsame.
  - destruct (d1 !! (scope, snapshotName ref)); [|by apply Hwrite]. injection H as <- _. by apply Hsame.
Qed.

(** A success leaves the named entry in place. *)
Lemma stageIn_present io visited now temp scope ref s d d' ref' :
  stageIn io visited now temp scope ref s d = (d', inr ref') → temp ≠ snapshotName ref →
  io OpStat = None →
  ref' = ref ∧ (d' !! (scope, snapshotName ref) = Some (stored_file now s) ∨
                d' !! (scope, snapshotName ref) = d !! (scope, snapshotName ref) ∧
                is_Some (d !! (scope, snapshotName ref))).
Proof.
  intros H Ht Hio. assert ((scope, snapshotName ref) ≠ (scope, temp)) as Hk by congruence.
  unfold stageIn in H. rewrite Hio in H. destruct (io OpMkdirAll); [done|].
  destruct (walk io visited (listing d) d 0 0) as [d1 [e|[count size]]] eqn:Hwalk; [done|].
  apply walk_all in Hwalk as (Hsw & _).
  destruct (d1 !! (scope, snapshotName ref)) as [f|] eqn:Hf.
  - injection H as <- <-. split; [done|]. right.
    destruct (Hsw (scope, snapshotName ref)) as [Heq|[Heq _]]; [|congruence].
    split; [done|]. rewrite <- Heq. by exists f.
  - case_decide; [done|].
    destruct (storeSnapshot io now scope (snapshotName ref) temp s d1) as [d2 [e|]] eqn:Hst; [done|].
    injection H as <- <-. split; [done|]. left.
    rewrite (storeSnapshot_entries _ _ _ _ _ _ _ _ _ Hst _ Hk). by rewrite decide_True.
Qed.

(** ** Lemmas: names *)

Lemma snapshotRef_digest s : snapshotDigest (snapshotRef s) = true.
Proof.
  unfold snapshotDigest, snapshotRef. rewrite hex_encode_length, sha256_length.
  rewrite bool_decide_eq_true_2 by done. apply forallb_forall. intros c Hc%list_elem_of_In.
  by rewrite (proj1 (Forall_forall _ _) (hex_encode_chars _) c Hc).
Qed.

(** A temp file is never taken for a snapshot. *)
Lemma temp_not_snapshot rand ref : snapshotDigest ref = true → "upload-" +:+ rand ≠ snapshotName ref.
Proof.
  unfold snapshotDigest. intros [Hl%bool_decide_eq_true Hh]%andb_true_iff He.
  destruct ref as [|c ref]; [done|]. injection He as Hc _. subst c. done.
Qed.

Lemma snapshotName_inj a b : snapshotName a = snapshotName b → a = b.
Proof.
  intros He%(f_equal bytes_of). unfold snapshotName in He. rewrite !bytes_of_app in He.
  apply app_inv_tail in He. by rewrite <- (of_bytes_bytes_of a), He, of_bytes_bytes_of.
Qed.

Lemma stage_cases io visited now rand authorization cluster inp d d' r :
  stage io visited now rand authorization cluster inp d = (d', r) →
  (d' = d ∧ ∃ e, r = inl e) ∨
  ∃ s t, in_Snapshot inp = Some s ∧ slen (snapshot_json s) ≤ MaxInputBytes ∧
    d' = <[(snapshotScope authorization cluster inp).1 := t]> d ∧
    stageIn io visited now ("upload-" +:+ rand) (snapshotScope authorization cluster inp).2
      (snapshotRef s) s (tenant_dir d (snapshotScope authorization cluster inp).1) = (t, r).
Proof.
  unfold stage. destruct (in_Snapshot inp) as [s|]; [|intros [= <- <-]; left; eauto].
  case_decide; [intros [= <- <-]; left; eauto|]. case_decide as Hm; [intros [= <- <-]; left; eauto|].
  destruct (snapshotScope authorization cluster inp) as [tenant scope].
  destruct (stageIn _ _ _ _ _ _ _ _) as [t r'] eqn:Hin. intros [= <- <-]. right.
  exists s, t. split_and!; [done|lia|done|exact Hin].
Qed.

Lemma tenant_dir_insert d tenant t tenant' :
  tenant_dir (<[tenant := t]> d) tenant' = if decide (tenant = tenant') then t else tenant_dir d tenant'.
Proof.
  unfold tenant_dir. case_decide as Ht; [subst; by rewrite lookup_insert_eq|by rewrite lookup_insert_ne].
Qed.

(** ** Properties *)

(** One upload: any fault, clock, caller and input. *)
Definition stage_step (d d' : SnapDir) : Prop :=
  ∃ io visited now rand authorization cluster inp r,
    stage io visited now rand authorization cluster inp d = (d', r).

(** Snapshot files hold what their name says. *)
Definition digests (d : SnapDir) : Prop :=
  ∀ tenant scope ref f, snapshotDigest ref = true →
    snap_file d tenant scope (snapshotName ref) = Some f →
    hex_encode (sha256 (data_bytes (sf_Data f))) = ref.

(** C17: from an empty area, no sequence of uploads, by any callers and with any
    file-system faults, takes a tenant over 16 files or 256 MiB (temp files
    left by a failed removal included), and a file named by a digest always
    holds bytes of that digest. *)
Theorem snapshots_invariant d (Hd : steps stage_step ∅ d) :
  (∀ tenant, within (tenant_dir d tenant)) ∧ digests d.
Proof.
  revert Hd. apply (steps_invariant stage_step (λ d, (∀ tenant, within (tenant_dir d tenant)) ∧ digests d)).
  - intros x y [Hq Hdg] (io & visited & now & rand & auth & cluster & inp & r & Hs).
    apply stage_cases in Hs as [[-> _]|(s & t & _ & _ & -> & Hin)]; [done|]. split.
    + intros tenant. rewrite tenant_dir_insert. case_decide; [|done].
      eapply stageIn_within; [exact Hin|apply Hq].
    + intros tenant scope ref f Href Hf. unfold snap_file in Hf. rewrite tenant_dir_insert in Hf.
      case_decide as Ht; [subst tenant|by apply (Hdg tenant scope ref f)].
      eapply (stageIn_entries _ _ _ _ _ _ _ _ _ _ (scope, snapshotName ref)) in Hin as
        [Heq|[[Heq _]|(Heq & _ & Hnew)]].
      * rewrite Heq in Hf. by eapply Hdg.
      * congruence.
      * rewrite Hnew in Hf. injection Hf as <-. injection Heq as _ ->%snapshotName_inj. done.
      * intros Hx%(f_equal snd). exact (temp_not_snapshot rand ref Href (eq_sym Hx)).
  - split; [|intros tenant scope ref f _ Hf].
    + intros tenant. unfold tenant_dir. rewrite lookup_empty. done.
    + unfold snap_file, tenant_dir in Hf. by rewrite lookup_empty in Hf.
Qed.

(** An upload touches only its caller's scope: in any other scope, of this
    or another tenant, every file stays as it was, except files of the same
    tenant that had expired when visited. *)
Theorem stage_isolated io visited now rand authorization cluster inp d d' r tenant scope name
    (Hs : stage io visited now rand authorization cluster inp d = (d', r))
    (Hother : (tenant, scope) ≠ snapshotScope authorization cluster inp) :
  snap_file d' tenant scope name = snap_file d tenant scope name ∨
  (tenant = (snapshotScope authorization cluster inp).1 ∧ snap_file d' tenant scope name = None ∧
   ∃ f, snap_file d tenant scope name = Some f ∧
     Sub (visited scope name) (sf_ModTime f) > snapshotTTL).
Proof.
  apply stage_cases in Hs as [[-> _]|(s & t & _ & _ & -> & Hin)]; [by left|].
  unfold snap_file. rewrite tenant_dir_insert. case_decide as Ht; [|by left]. subst tenant.
  assert (scope ≠ (snapshotScope authorization cluster inp).2) as Hsc.
  { intros ->. apply Hother. by destruct (snapshotScope authorization cluster inp). }
  eapply (stageIn_entries _ _ _ _ _ _ _ _ _ _ (scope, name)) in Hin as [Heq|[(Heq & f & Hf & He)|([=] & _)]];
    [by left|right; split; [done|]; split; [done|]; by exists f|done|congruence].
Qed.

(** What a caller uploads it gets back: for an hour, the same caller naming
    the returned reference loads the uploaded snapshot (its identifiers passed
    through JSON), and whatever anybody loads was stored under the caller's own
    scope, is not expired, and hashes to the reference asked for. *)
Theorem stage_then_load io visited now rand authorization cluster inp d d' ref s
    (Hs : stage io visited now rand authorization cluster inp d = (d', inr ref))
    (Hin : in_Snapshot inp = Some s) (Hstat : io OpStat = None)
    (Hfresh : snap_file d (snapshotScope authorization cluster inp).1
                (snapshotScope authorization cluster inp).2 (snapshotName (snapshotRef s)) = None) :
  ref = snapshotRef s ∧
  ∀ decode now' inp', in_BundleRef inp' = ref →
    snapshotScope authorization cluster inp' = snapshotScope authorization cluster inp →
    Sub now' now ≤ snapshotTTL →
    loadSnapshot (λ _, None) decode now' authorization cluster inp' d' = inr (json_snapshot s).
Proof.
  apply stage_cases in Hs as [[_ [e ?]]|(s' & t & Hin' & Hlen & -> & Hst)]; [done|].
  rewrite Hin in Hin'. injection Hin' as <-.
  apply stageIn_present in Hst as [-> Hpres]; [|apply temp_not_snapshot, snapshotRef_digest|done].
  split; [done|]. intros decode now' inp' Href Hscope Httl.
  unfold loadSnapshot. rewrite Href, snapshotRef_digest, Hscope.
  unfold snap_file in *. destruct (snapshotScope authorization cluster inp) as [tenant scope].
  cbn [fst snd negb] in *. rewrite tenant_dir_insert, decide_True by done.
  destruct Hpres as [->|[_ [f Hf]]]; [|congruence].
  cbn [stored_file sf_Regular sf_ModTime sf_Data negb data_bytes].
  change (file_size (stored_file now s)) with (slen (snapshot_json s)).
  rewrite !bool_decide_eq_false_2 by (lia || by intros [? ?]). cbn [orb].
  fold (snapshotRef s). rewrite decide_False by tauto. done.
Qed.

(** What a load returns. *)
Theorem loadSnapshot_sound io decode now authorization cluster inp d s
    (Hl : loadSnapshot io decode now authorization cluster inp d = inr s) :
  snapshotDigest (in_BundleRef inp) = true ∧
  ∃ f, snap_file d (snapshotScope authorization cluster inp).1
         (snapshotScope authorization cluster inp).2 (snapshotName (in_BundleRef inp)) = Some f ∧
    hex_encode (sha256 (data_bytes (sf_Data f))) = in_BundleRef inp ∧
    Sub now (sf_ModTime f) ≤ snapshotTTL ∧ file_size f ≤ MaxInputBytes ∧
    match sf_Data f with Marshalled s' => s = json_snapshot s' | RawBytes b => decode b = Some s end.
Proof.
  unfold loadSnapshot in Hl. destruct (snapshotDigest (in_BundleRef inp)) eqn:Hd; [|done].
  cbn [negb] in Hl. destruct (snapshotScope authorization cluster inp) as [tenant scope].
  destruct (io OpOpen); [done|].
  destruct (snap_file d tenant scope (snapshotName (in_BundleRef inp))) as [f|] eqn:Hf; [|done].
  destruct (_ || _ || _ || _) eqn:Hx; [done|]. destruct (_ || _) eqn:Hy in Hl; [done|].
  case_decide as Hh; [done|].
  apply orb_false_iff in Hx as [[_ Hx1%bool_decide_eq_false]%orb_false_iff Hx2%bool_decide_eq_false].
  split; [done|]. exists f. split_and!; [done|done|lia|lia|].
  destruct (sf_Data f); [by injection Hl|]. destruct (decode b); [by injection Hl as ->|done].
Qed.

(** ** Examples *)

Definition demo_upload : Snapshot :=
  {| sn_BaseCommit := "1111111111111111111111111111111111111111";
     sn_Commit := "2222222222222222222222222222222222222222";
     sn_Tree := "3333333333333333333333333333333333333333"; sn_Bundle := "bundle" |}.
Definition demo_stage : Input :=
  {| in_Repository := "acme/app"; in_RepositoryUID := "u-1"; in_ConnectionUID := "c-1";
     in_Branch := "feature"; in_ExpectedHead := ""; in_Number := 0; in_Page := 0;
     in_ParentCommentID := 0;
     in_Pull := {| pin_Head := ""; pin_Base := ""; pin_Commit := ""; pin_Title := ""; pin_Body := "" |};
     in_Snapshot := Some demo_upload; in_BundleRef := "" |}.
Definition demo_load (ref : string) : Input :=
  {| in_Repository := "acme/app"; in_RepositoryUID := "u-1"; in_ConnectionUID := "c-1";
     in_Branch := "feature"; in_ExpectedHead := ""; in_Number := 0; in_Page := 0;
     in_ParentCommentID := 0; in_Pull := in_Pull demo_stage; in_Snapshot := None;
     in_BundleRef := ref |}.
Definition demo_staged : SnapDir * (error + string) :=
  stage (λ _, None) (λ _ _, 0) 0 "7" "Bearer t" "c1" demo_stage ∅.
Definition demo_ref : string := Eval vm_compute in snapshotRef demo_upload.

Lemma demo_staged_eq : stage (λ _, None) (λ _ _, 0) 0 "7" "Bearer t" "c1" demo_stage ∅ = (demo_staged.1, inr demo_ref).
Proof.
  change (demo_staged = (demo_staged.1, inr demo_ref)).
  assert (Hr : demo_staged.2 = inr demo_ref) by (vm_compute; reflexivity).
  rewrite <- Hr. apply surjective_pairing.
Qed.

Lemma snapshots_invariant_witness :
  steps stage_step ∅ demo_staged.1 ∧ within (tenant_dir demo_staged.1 (hex_encode (sha256 "c1"))) ∧
  digests demo_staged.1.
Proof.
  assert (Hd : steps stage_step ∅ demo_staged.1).
  { eapply steps_step; [apply steps_refl|].
    exists (λ _, None), (λ _ _, 0), 0, "7", "Bearer t", "c1", demo_stage, (inr demo_ref).
    exact demo_staged_eq. }
  split; [exact Hd|]. destruct (snapshots_invariant demo_staged.1 Hd) as [Hw Hg].
  split; [apply Hw|exact Hg].
Defined.

Lemma stage_isolated_witness :
  snap_file demo_staged.1 (hex_encode (sha256 "c2")) "s" "x.json" = snap_file ∅ (hex_encode (sha256 "c2")) "s" "x.json".
Proof.
  destruct (stage_isolated (λ _, None) (λ _ _, 0) 0 "7" "Bearer t" "c1" demo_stage ∅ demo_staged.1
    (inr demo_ref) (hex_encode (sha256 "c2")) "s" "x.json" demo_staged_eq) as [He|(Ht & _)];
    [vm_compute; discriminate|exact He|vm_compute in Ht; discriminate Ht].
Defined.

Lemma stage_then_load_witness :
  loadSnapshot (λ _, None) (λ _, None) (30 * Minute) "Bearer t" "c1" (demo_load demo_ref) demo_staged.1
    = inr (json_snapshot demo_upload).
Proof.
  destruct (stage_then_load (λ _, None) (λ _ _, 0) 0 "7" "Bearer t" "c1" demo_stage ∅ demo_staged.1
    demo_ref demo_upload demo_staged_eq eq_refl eq_refl) as [_ Hl].
  - vm_compute. reflexivity.
  - apply Hl; vm_compute; congruence.
Defined.

Lemma loadSnapshot_sound_witness :
  loadSnapshot (λ _, None) (λ _, None) (30 * Minute) "Bearer t" "c1" (demo_load demo_ref) demo_staged.1
    = inr (json_snapshot demo_upload) ∧ snapshotDigest demo_ref = true.
Proof.
  assert (Hl : loadSnapshot (λ _, None) (λ _, None) (30 * Minute) "Bearer t" "c1" (demo_load demo_ref)
    demo_staged.1 = inr (json_snapshot demo_upload)) by (vm_compute; reflexivity).
  split; [exact Hl|].
  exact (proj1 (loadSnapshot_sound _ _ _ _ _ _ _ _ Hl)).
Defined.
