(* ===== verification/ActionsServer.v ===== *)
(** * actions/server.go and authority.go: repository actions over HTTP

    A request names a cluster, a repository and an action.  The server admits
    it into a slot, authorises the caller with the caller's own token, reads
    the input, resolves the repository, its connection and credential through
    the provider's export, and only then runs the action on the git host or the
    upload area.  HTTP, JSON decoding of the input, the response envelope, the
    dynamic clients and the SDK are the world's; every call is an event. *)

From S2P Require Import Prelude GoStrings Encoding GoTime Errors Api Backend Tenant Dynamic.
From S2P Require Import GitHubApi GitHubRepositories GitHubPackages Collaboration GitHubPulls.
From S2P Require Import GitHubCollaboration GitHubSnapshots ActionSnapshots.
From Stdlib Require Import Ascii Lia.

#[local] Open Scope string_scope.

(** ** Requests and responses *)

Record HttpRequest := {
  hr_Method : string; hr_Path : string; hr_RawPath : string; hr_Authorization : string;
  hr_Cluster : string }.

Inductive Response :=
  | RNotFound
  | RBadScope
  | RFailure (status : Z) (code : string)
  | RSuccess (body : string).

Inductive ActionOutput :=
  | AoOperation (o : Output)
  | AoStaged (bundleRef : string)
  | AoSnapshot (commit tree : string).

Definition lower_alnum (c : ascii) : bool := in_range c 97 122 || in_range c 48 57.
Definition segment (s : string) : bool :=
  match bytes_of s with
  | c :: l => lower_alnum c && (Z.of_nat (length l) <=? 252)%Z
              && forallb (λ c, lower_alnum c || bool_decide (c = "."%char ∨ c = "-"%char)) l
  | [] => false
  end.

Definition verbs : list string :=
  ["branches"; "branch_head"; "find_pull_request"; "pull_request"; "create_pull_request";
   "update_pull_request"; "feedback"; "comments"; "add_comment"; "reply_to_review";
   "prepare_snapshot"; "publish_snapshot"].

(** The route: cluster, repository and action. *)
Definition route (r : HttpRequest) : option (string * string * string) :=
  if decide (hr_Method r = "POST" ∧ hr_RawPath r = "") then
    match SplitByte slash (TrimByte slash (hr_Path r)) with
    | [p0; p1; cluster; p3; name; action; p6] =>
        if decide (p0 = "actions" ∧ p1 = "clusters" ∧ p3 = "repositories" ∧ p6 = "v1" ∧
                   (action ∈ verbs ∨ action = "stage_snapshot"))
        then Some (cluster, name, action) else None
    | _ => None
    end
  else None.

Definition goodScope (r : HttpRequest) (cluster name : string) : bool :=
  segment cluster && segment name && negb (bool_decide (name = ".")) && negb (bool_decide (name = ".."))
  && bool_decide (cluster = hr_Cluster r).

(** ** The host's optional interfaces *)

Record Implementation (W : Type) := {
  im_Collaboration : option (Connection → Credential → Repository → Operation →
                             M W GEvent (error + Output));
  im_BranchLister : option (Connection → Credential → Repository → Z → M W GEvent (error + BranchPage));
  im_Verify : option (Connection → Credential → Repository → Snapshot → M W SEvent (error + unit));
  im_Publish : Connection → Credential → Repository → Snapshot → string → string →
               M W SEvent (error + unit) }.
Arguments im_Collaboration {_}.
Arguments im_BranchLister {_}.
Arguments im_Verify {_}.
Arguments im_Publish {_}.

(** GitHub implements all of them. *)
Definition github_implementation {W} `{GitHub W} `{Pulls W} `{Git W}
    (url_Parse : string → option Url) : Implementation W := {|
  im_Collaboration := Some perform;
  im_BranchLister := Some ListBranches;
  im_Verify := Some (VerifySnapshot url_Parse);
  im_Publish := PublishSnapshot url_Parse |}.

(** ** The world *)

Inductive ApiResource := RRepositories | RConnections | RSecrets | RAccessReviews | REndpointSlices.

Inductive AEvent (C : Type) :=
  | AFor (cluster token : string) (r : error + C)
  | AAuthority (cluster name : string) (r : error + C)
  | AGet (c : C) (k : ApiResource) (ns name : string) (r : error + Object)
  | ACreate (c : C) (k : ApiResource) (o : Object) (r : error + Object)
  | ACredential (conn : Connection) (r : error + Credential)
  | ASlot (granted : bool)
  | ARelease
  | ASnapshotSlot (granted : bool)
  | ASnapshotRelease
  | ARead (limit : Z) (r : error + Input)
  | AStage (r : error + string)
  (* the upload area and the clock at the load *)
  | ALoad (area : SnapDir) (now : Time) (r : error + Snapshot)
  | AHost (e : GEvent)
  | ASnap (e : SEvent).
Arguments AFor {_}.
Arguments AAuthority {_}.
Arguments AGet {_}.
Arguments ACreate {_}.
Arguments ACredential {_}.
Arguments ASlot {_}.
Arguments ARelease {_}.
Arguments ASnapshotSlot {_}.
Arguments ASnapshotRelease {_}.
Arguments ARead {_}.
Arguments AStage {_}.
Arguments ALoad {_}.
Arguments AHost {_}.
Arguments ASnap {_}.

(** [C] is the dynamic clients.  The upload area and what surrounds it are part
    of the world. *)
Class Actions (W C : Type) := {
  aw_For : string → string → W → (error + C) * W;
  aw_Authority : string → string → W → (error + C) * W;
  aw_Get : C → ApiResource → string → string → W → (error + Object) * W;
  aw_Create : C → ApiResource → Object → W → (error + Object) * W;
  aw_Resolve : Connection → gmap string string → W → (error + Credential) * W;
  aw_slot : W → bool * W;
  aw_release : W → unit * W;
  aw_snapshotSlot : W → bool * W;
  aw_snapshotRelease : W → unit * W;
  aw_Read : Z → W → (error + Input) * W;
  aw_area : W → SnapDir;
  aw_setArea : SnapDir → W → W;
  aw_now : W → Time;
  aw_rand : W → string;
  aw_io : W → SnapOp → option error;
  aw_visited : W → string → string → Time;
  aw_decode : string → option Snapshot;
  aw_getenv : string → string;
  aw_Success : string → string → ActionOutput → error + string }.

(** Accessors of unstructured objects, and the typed conversion. *)
Class ObjectMetaApi := {
  GetUID : Object → string;
  GetDeletionTimestamp : Object → option Time;
  NestedStringMap : Object → list string → gmap string string;
  ConnectionOf : Object → error + Connection }.

(** [reflect.DeepEqual] on decoded JSON. *)
Fixpoint lookup_any (m : Object) (k : string) : option any :=
  match m with
  | [] => None
  | (k', v) :: m => if decide (k' = k) then Some v else lookup_any m k
  end.
Fixpoint DeepEqual (a b : any) : bool :=
  let maps := fix maps (m : Object) (m' : Object) : bool :=
    match m with
    | [] => true
    | (k, v) :: m => match lookup_any m' k with Some v' => DeepEqual v v' | None => false end
                     && maps m m'
    end in
  match a, b with
  | ANil, ANil => true
  | ABool x, ABool y => bool_decide (x = y)
  | AInt x, AInt y => bool_decide (x = y)
  | AString x, AString y => bool_decide (x = y)
  | ASlice l, ASlice l' =>
      (fix slices (l l' : list any) : bool :=
         match l, l' with
         | [], [] => true
         | x :: l, y :: l' => DeepEqual x y && slices l l'
         | _, _ => false
         end) l l'
  | AMap m, AMap m' => bool_decide (length m = length m') && maps m m'
  | AMaps l, AMaps l' =>
      (fix slices (l l' : list Object) : bool :=
         match l, l' with
         | [], [] => true
         | m :: l, m' :: l' => bool_decide (length m = length m') && maps m m' && slices l l'
         | _, _ => false
         end) l l'
  | _, _ => false
  end.

(** ** The handler *)

Section Server.
Context {W C : Type} `{Actions W C} `{Unstructured} `{ObjectMetaApi}.
Context (has_caller has_authority : bool) (Backends : string → option (Implementation W)).

#[local] Abbreviation AEff := (M W (AEvent C)) (only parsing).

Definition a_for (cluster token : string) : AEff (error + C) :=
  call (aw_For cluster token) (AFor cluster token).
Definition a_authority (cluster name : string) : AEff (error + C) :=
  call (aw_Authority cluster name) (AAuthority cluster name).
Definition a_get (c : C) (k : ApiResource) (ns name : string) : AEff (error + Object) :=
  call (aw_Get c k ns name) (AGet c k ns name).
Definition a_create (c : C) (k : ApiResource) (o : Object) : AEff (error + Object) :=
  call (aw_Create c k o) (ACreate c k o).
Definition a_resolve (conn : Connection) (data : gmap string string) : AEff (error + Credential) :=
  call (aw_Resolve conn data) (ACredential conn).
Definition a_slot : AEff bool := call aw_slot ASlot.
Definition a_release : AEff unit := call aw_release (λ _, ARelease).
Definition a_snapshotSlot : AEff bool := call aw_snapshotSlot ASnapshotSlot.
Definition a_snapshotRelease : AEff unit := call aw_snapshotRelease (λ _, ASnapshotRelease).
(** [readActionRequest] *)
Definition a_read (limit : Z) : AEff (error + Input) := call (aw_Read limit) (ARead limit).
Definition a_stage (authorization cluster : string) (inp : Input) : AEff (error + string) :=
  call (λ w, let '(d, r) := stage (aw_io w) (aw_visited w) (aw_now w) (aw_rand w) authorization
                              cluster inp (aw_area w) in (r, aw_setArea d w)) AStage.
Definition a_load (authorization cluster : string) (inp : Input) : AEff (error + Snapshot) :=
  λ w, let r := loadSnapshot (aw_io w) aw_decode (aw_now w) authorization cluster inp (aw_area w) in
       (r, w, [ALoad (aw_area w) (aw_now w) r]).

Definition denied : error := ENew "repository action denied".
(** [m], any error of which is the one denial. *)
Definition or_denied {A} (m : AEff (error + A)) : AEff (error + A) :=
  r ← m; mret (match r with inl _ => inl denied | inr a => inr a end).

Definition reviewObject (name action : string) : Object :=
  [("apiVersion", AString "authorization.k8s.io/v1"); ("kind", AString "SelfSubjectAccessReview");
   ("spec", AMap [("resourceAttributes", AMap
     [("group", AString "code.railgrid.ai"); ("resource", AString "repositories");
      ("name", AString name); ("verb", AString "invoke"); ("subresource", AString action)])])].

Definition authorize (r : HttpRequest) (cluster name action : string) : AEff (error + Object) :=
  let token := TrimPrefix (hr_Authorization r) "Bearer " in
  if negb has_caller || negb has_authority || bool_decide (token = "")
     || bool_decide (token = hr_Authorization r)
  then mret (inl denied)
  else
    caller ←? or_denied (a_for cluster token);
    visible ←? or_denied (a_get caller RRepositories "" name);
    if decide (GetDeletionTimestamp visible ≠ None) then mret (inl denied)
    else
      review ←? or_denied (a_create caller RAccessReviews (reviewObject name action));
      if NestedBool review ["status"; "allowed"] then mret (inr visible) else mret (inl denied).

Definition secretData (values : gmap string string) : option (gmap string string) :=
  if decide (map_Forall (λ _ v, is_Some (DecodeString v)) values)
  then Some ((λ v, default "" (DecodeString v)) <$> values) else None.

Definition specOf (o : Object) : any := get o "spec".

Definition canonicalName (conn : Connection) (repo : Repository) : string :=
  let owner := rs_Owner (rp_Spec repo) in
  (if decide (owner = "") then cs_Owner (cn_Spec conn) else owner) +:+ "/" +:+ rs_Name (rp_Spec repo).

Definition resolve (cluster name : string) (visible : Object) (inp : Input)
    : AEff (error + (Connection * Repository * Credential)) :=
  if bool_decide (in_RepositoryUID inp = "") || bool_decide (in_ConnectionUID inp = "")
     || negb (bool_decide (GetUID visible = in_RepositoryUID inp))
  then mret (inl denied)
  else
    provider ←? or_denied (a_authority cluster name);
    authoritative ←? or_denied (a_get provider RRepositories "" name);
    if negb (bool_decide (GetUID authoritative = GetUID visible))
       || bool_decide (GetDeletionTimestamp authoritative ≠ None)
       || negb (DeepEqual (specOf authoritative) (specOf visible))
    then mret (inl denied)
    else match FromUnstructured authoritative with
    | inl _ => mret (inl denied)
    | inr repo =>
      if decide (rt_RepoID (rp_Status repo) = "") then mret (inl denied)
      else
        connection ←? or_denied (a_get provider RConnections "" (rs_ConnectionRef (rp_Spec repo)));
        if negb (bool_decide (GetUID connection = in_ConnectionUID inp))
           || bool_decide (GetDeletionTimestamp connection ≠ None)
        then mret (inl denied)
        else match ConnectionOf connection with
        | inl _ => mret (inl denied)
        | inr conn =>
          if negb (EqualFold (in_Repository inp) (canonicalName conn repo)) then mret (inl denied)
          else
            let ref := cs_SecretRef (cn_Spec conn) in
            let ns := if decide (ls_Namespace ref = "") then DefaultCredentialsNamespace aw_getenv
                      else ls_Namespace ref in
            secret ←? or_denied (a_get provider RSecrets ns (ls_Name ref));
            match secretData (NestedStringMap secret ["data"]) with
            | None => mret (inl denied)
            | Some data =>
                credential ←? or_denied (a_resolve conn data);
                mret (inr (conn, repo, credential))
            end
        end
    end.

(** The verbs of [backend.Collaboration] and [backend.BranchLister]. *)
Definition operation (action : string) (inp : Input) : option Operation :=
  if decide (action = "branches") then Some (OpBranches (in_Page inp))
  else if decide (action = "branch_head") then Some (OpBranchHead (in_Branch inp))
  else if decide (action = "find_pull_request") then Some (OpFind (in_Pull inp))
  else if decide (action = "pull_request") then Some (OpRead (in_Number inp))
  else if decide (action = "create_pull_request") then Some (OpCreate (in_Pull inp))
  else if decide (action = "update_pull_request") then Some (OpUpdate (in_Number inp) (in_Pull inp))
  else if decide (action = "feedback") then Some (OpFeedback (in_Number inp) (pin_Commit (in_Pull inp)))
  else if decide (action = "comments") then Some (OpComments (in_Number inp) (in_Page inp))
  else if decide (action = "add_comment") then Some (OpAddComment (in_Number inp) (pin_Body (in_Pull inp)))
  else if decide (action = "reply_to_review")
  then Some (OpReply (in_Number inp) (in_ParentCommentID inp) (pin_Body (in_Pull inp)))
  else None.

(** [inl] is a response of its own, [inr] the action's error or output. *)
Definition snapshotAction (r : HttpRequest) (cluster action : string) (impl : Implementation W)
    (conn : Connection) (cred : Credential) (repo : Repository) (inp : Input)
    : AEff (Response + (error + ActionOutput)) :=
  match im_Verify impl with
  | None => mret (inl (RFailure 422 "invalid_snapshot"))
  | Some verify =>
      if bool_decide (in_Snapshot inp ≠ None) || bool_decide (in_BundleRef inp = "")
      then mret (inl (RFailure 422 "invalid_snapshot"))
      else
        loaded ← a_load (hr_Authorization r) cluster inp;
        match loaded with
        | inl _ => mret (inl (RFailure 422 "snapshot_unavailable"))
        | inr snapshot =>
            res ← relabel ASnap
              (if decide (action = "prepare_snapshot") then verify conn cred repo snapshot
               else im_Publish impl conn cred repo snapshot (in_Branch inp) (in_ExpectedHead inp));
            mret (inr (match res with
                       | inl err => inl err
                       | inr _ => inr (AoSnapshot (sn_Commit snapshot) (sn_Tree snapshot))
                       end))
        end
  end.

Definition dispatch (r : HttpRequest) (cluster action : string) (impl : Implementation W)
    (conn : Connection) (cred : Credential) (repo : Repository) (inp : Input)
    : AEff (Response + (error + ActionOutput)) :=
  match im_Collaboration impl with
  | None => mret (inl (RFailure 422 "unsupported_action"))
  | Some collaborate =>
      if decide (action = "stage_snapshot") then
        res ← a_stage (hr_Authorization r) cluster inp;
        mret (inr (match res with inl err => inl err | inr ref => inr (AoStaged ref) end))
      else match operation action inp with
      | None => snapshotAction r cluster action impl conn cred repo inp
      | Some (OpBranches page) =>
          match im_BranchLister impl with
          | None => mret (inl (RFailure 422 "unsupported_action"))
          | Some lister =>
              res ← relabel AHost (lister conn cred repo page);
              mret (inr (match res with inl err => inl err | inr p => inr (AoOperation (OBranches p)) end))
          end
      | Some op =>
          res ← relabel AHost (collaborate conn cred repo op);
          mret (inr (match res with inl err => inl err | inr o => inr (AoOperation o) end))
      end
  end.

(** The response to an action's outcome. *)
Definition respond (action name : string) (out : error + ActionOutput) : Response :=
  match out with
  | inl err => if IsIdentityConflict err then RFailure 409 "identity_conflict"
               else RFailure 502 "upstream_outcome_unconfirmed"
  | inr o =>
      match aw_Success action name o with
      | inl _ => RFailure 502 "result_limit"
      | inr encoded => if decide (slen encoded > MaxOutputBytes)%Z then RFailure 502 "result_limit"
                       else RSuccess encoded
      end
  end.

Definition inputLimit (action : string) : Z :=
  if decide (action = "stage_snapshot") then MaxInputBytes else 65536%Z.

(** From reading the input to the response. *)
Definition execute (r : HttpRequest) (cluster name action : string) (visible : Object)
    : AEff Response :=
  request ← a_read (inputLimit action);
  match request with
  | inl _ => mret (RFailure 400 "invalid_action_input")
  | inr inp =>
      resolved ← resolve cluster name visible inp;
      match resolved with
      | inl _ => mret (RFailure 403 "action_forbidden")
      | inr (conn, repo, credential) =>
          match Backends (cs_Provider (cn_Spec conn)) with
          | None => mret (RFailure 422 "unsupported_provider")
          | Some impl =>
              out ← dispatch r cluster action impl conn credential repo inp;
              mret (match out with inl resp => resp | inr out => respond action name out end)
          end
      end
  end.

Definition snapshotActions : list string := ["stage_snapshot"; "prepare_snapshot"; "publish_snapshot"].

(** Inside an action slot. *)
Definition admitted (r : HttpRequest) (cluster name action : string) : AEff Response :=
  auth ← authorize r cluster name action;
  match auth with
  | inl _ => mret (RFailure 403 "action_forbidden")
  | inr visible =>
      if decide (action ∈ snapshotActions) then
        granted ← a_snapshotSlot;
        if granted : bool then
          resp ← execute r cluster name action visible;
          _ ← a_snapshotRelease;
          mret resp
        else mret (RFailure 503 "action_capacity_unavailable")
      else execute r cluster name action visible
  end.

Definition ServeHTTP (r : HttpRequest) : AEff Response :=
  match route r with
  | None => mret RNotFound
  | Some (cluster, name, action) =>
      if negb (goodScope r cluster name) then mret RBadScope
      else
        granted ← a_slot;
        if granted : bool then
          resp ← admitted r cluster name action;
          _ ← a_release;
          mret resp
        else mret (RFailure 503 "action_capacity_unavailable")
  end.
End Server.

(** ** authority.go *)

(** The provider's own client, the clients of an endpoint's workspace. *)
Class Exports (W C : Type) := {
  ex_own : W → (error + C) * W;
  ex_at : string → W → (error + C) * W }.

Definition endpointSliceName : string := "code.providers.railgrid.ai".

Section Exporting.
Context {W C : Type} `{Actions W C} `{Exports W C} `{Unstructured}.

Fixpoint tryEndpoints (cluster repository : string) (items : list any)
    : M W (AEvent C) (error + C) :=
  match items with
  | [] => mret (inl (ENew "repository unavailable through Code export"))
  | item :: items =>
      match as_map item ≫= (λ m, as_string (get m "url")) with
      | None => tryEndpoints cluster repository items
      | Some endpoint =>
          if decide (endpoint = "") then tryEndpoints cluster repository items
          else
            client ← (λ w, let '(r, w) := ex_at (TrimRightByte slash endpoint +:+ "/clusters/" +:+ cluster) w
                           in (r, w, []));
            match client with
            | inl err => mret (inl err)
            | inr client =>
                r ← a_get client RRepositories "" repository;
                match r with
                | inr _ => mret (inr client)
                | inl _ => tryEndpoints cluster repository items
                end
            end
      end
  end.

Definition ExportClient (has_config : bool) (cluster repository : string)
    : M W (AEvent C) (error + C) :=
  if negb has_config || negb (segment cluster)
  then mret (inl (ENew "code provider authority unavailable"))
  else
    own ← (λ w, let '(r, w) := ex_own w in (r, w, []));
    match own with
    | inl err => mret (inl err)
    | inr own =>
        slice ← a_get own REndpointSlices "" endpointSliceName;
        match slice with
        | inl err => mret (inl err)
        | inr slice =>
            tryEndpoints cluster repository (default [] (NestedSlice slice ["status"; "endpoints"]))
        end
    end.
End Exporting.
