(* ===== verification/ActionsContract.v ===== *)
(** * What a repository action promises

    [served] describes the trace of a request: its slots, the checks, and what
    it does once everything is established.  From it follow the authorisation
    of every act, the slot discipline, and, with GitHub behind the server, the
    contract of the host operations. *)

From S2P Require Import Prelude GoStrings Encoding GoTime Errors Api Backend Tenant Dynamic.
From S2P Require Import GitHubApi GitHubRepositories GitHubPackages Collaboration GitHubPulls.
From S2P Require Import GitHubCollaboration GitHubSnapshots ActionSnapshots ActionsServer.
From Stdlib Require Import Ascii Lia.

#[local] Open Scope string_scope.

Section Contract.
Context {W C : Type} `{Actions W C} `{Unstructured} `{ObjectMetaApi}.
Implicit Types t h : list (AEvent C).

(** Reading and checking, as opposed to acting and to the slots. *)
Definition checking (e : AEvent C) : Prop :=
  match e with
  | AFor _ _ _ | AAuthority _ _ _ | AGet _ _ _ _ _ | ACredential _ _ | ARead _ _ => True
  | ACreate _ k _ _ => k = RAccessReviews
  | _ => False
  end.
(** Acting: the git host, a Git command, the upload area. *)
Definition acting (e : AEvent C) : Prop :=
  match e with AHost _ | ASnap _ | AStage _ | ALoad _ _ _ => True | _ => False end.

(** The caller, with its own token, sees the live object and may invoke the
    action on it. *)
Definition authorised (token cluster name action : string) (visible : Object) t : Prop :=
  token ≠ "" ∧ GetDeletionTimestamp visible = None ∧
  ∃ caller review, AFor cluster token (inr caller) ∈ t ∧
    AGet caller RRepositories "" name (inr visible) ∈ t ∧
    ACreate caller RAccessReviews (reviewObject name action) (inr review) ∈ t ∧
    NestedBool review ["status"; "allowed"] = true.

(** Through the export the provider sees the same live object, with a recorded
    remote, and the live connection, and resolved its credential; the input
    names exactly these. *)
Definition resolved (cluster name : string) (visible : Object) (inp : Input) (conn : Connection)
    (repo : Repository) (cred : Credential) t : Prop :=
  in_RepositoryUID inp ≠ "" ∧ in_ConnectionUID inp ≠ "" ∧ GetUID visible = in_RepositoryUID inp ∧
  ∃ provider authoritative connection,
    AAuthority cluster name (inr provider) ∈ t ∧
    AGet provider RRepositories "" name (inr authoritative) ∈ t ∧
    GetUID authoritative = GetUID visible ∧ GetDeletionTimestamp authoritative = None ∧
    DeepEqual (specOf authoritative) (specOf visible) = true ∧
    FromUnstructured authoritative = inr repo ∧ rt_RepoID (rp_Status repo) ≠ "" ∧
    AGet provider RConnections "" (rs_ConnectionRef (rp_Spec repo)) (inr connection) ∈ t ∧
    GetUID connection = in_ConnectionUID inp ∧ GetDeletionTimestamp connection = None ∧
    ConnectionOf connection = inr conn ∧
    EqualFold (in_Repository inp) (canonicalName conn repo) = true ∧
    ACredential conn (inr cred) ∈ t.

(** The bearer token of a request. *)
Definition bearer (r : HttpRequest) : string := TrimPrefix (hr_Authorization r) "Bearer ".

(** The snapshot slot around the actions that hold bundles in memory. *)
Definition opened (action : string) : list (AEvent C) :=
  if decide (action ∈ snapshotActions) then [ASnapshotSlot true] else [].
Definition closed (action : string) : list (AEvent C) :=
  if decide (action ∈ snapshotActions) then [ASnapshotRelease] else [].

(** What a request does; [D] describes the traces of its act. *)
Section Served.
Context (D : string → Implementation W → Connection → Credential → Repository → Input →
             list (AEvent C) → Prop)
        (Backends : string → option (Implementation W)).

Inductive acted (action cluster name : string) (visible : Object) : list (AEvent C) → Prop :=
  | ac_refused t : Forall checking t → acted action cluster name visible t
  | ac_done t1 t2 inp conn repo cred impl :
      Forall checking t1 → ARead (inputLimit action) (inr inp) ∈ t1 →
      resolved cluster name visible inp conn repo cred t1 →
      Backends (cs_Provider (cn_Spec conn)) = Some impl →
      D action impl conn cred repo inp t2 → acted action cluster name visible (t1 ++ t2).

Inductive served (r : HttpRequest) : list (AEvent C) → Prop :=
  | sv_nothing : served r []
  | sv_no_slot : served r [ASlot false]
  | sv_forbidden cluster name action t :
      route r = Some (cluster, name, action) → Forall checking t →
      served r ([ASlot true] ++ t ++ [ARelease])
  | sv_no_snapshot_slot cluster name action t :
      route r = Some (cluster, name, action) → Forall checking t →
      served r ([ASlot true] ++ t ++ [ASnapshotSlot false; ARelease])
  | sv_admitted cluster name action visible t1 t2 :
      route r = Some (cluster, name, action) → goodScope r cluster name = true →
      Forall checking t1 → authorised (bearer r) cluster name action visible t1 →
      acted action cluster name visible t2 →
      served r ([ASlot true] ++ t1 ++ opened action ++ t2 ++ closed action ++ [ARelease]).
End Served.

(** ** Lemmas *)

Lemma or_denied_step {A B} (m : W → (error + A) * W) (ev : error + A → AEvent C)
    (k : A → M W (AEvent C) (error + B)) h (Q : error + B → list (AEvent C) → Prop) :
  (∀ r, checking (ev r)) → Forall checking h →
  (∀ u, Forall checking u → Q (inl denied) u) →
  (∀ a, let h' := (h ++ [ev (inr a)])%list in Forall checking h' → ev (inr a) ∈ h' →
     emits (k a) (λ r u, Q r (h' ++ u)%list)) →
  emits (a ←? or_denied (call m ev); k a) (λ r u, Q r (h ++ u)%list).
Proof.
  intros Hev Hh Hfail Hk. apply emits_bind_res, emits_bind, emits_call. intros [e|a].
  - apply emits_ret. apply Hfail, Forall_app. split; [done|]. by repeat constructor.
  - apply emits_ret. eapply emits_mono; [apply Hk|].
    + apply Forall_app. split; [done|]. by repeat constructor.
    + apply elem_snoc.
    + intros r u Hu. cbn [app] in *. by rewrite <- app_assoc in Hu.
Qed.

Lemma authorize_emits hc ha r cluster name action :
  emits (authorize (W := W) (C := C) hc ha r cluster name action) (λ res t,
    Forall checking t ∧
    match res with
    | inr visible => authorised (bearer r) cluster name action visible t
    | inl _ => True
    end).
Proof.
  set (Q := λ (res : error + Object) t, Forall checking t ∧
    match res with inr visible => authorised (bearer r) cluster name action visible t | inl _ => True end).
  assert (Hfail : ∀ u, Forall checking u → Q (inl denied) u) by done.
  unfold authorize. fold (bearer r). cbv zeta. destruct (_ || _ || _ || _) eqn:Hc; [by apply emits_ret|].
  assert (bearer r ≠ "") as Htok.
  { apply orb_false_iff in Hc as [[_ Hc]%orb_false_iff _]. by apply bool_decide_eq_false in Hc. }
  apply (or_denied_step _ _ _ [] Q); [done..|]. intros caller h1 F1 E1.
  apply (or_denied_step _ _ _ h1 Q); [done..|]. intros visible h2 F2 E2.
  destruct (decide (GetDeletionTimestamp visible ≠ None)) as [Hd|Hd];
    [apply emits_ret, Hfail; by rewrite app_nil_r|].
  apply (or_denied_step _ _ _ h2 Q); [done..|]. intros review h3 F3 E3.
  destruct (NestedBool review ["status"; "allowed"]) eqn:Ha; apply emits_ret; rewrite app_nil_r;
    [|by apply Hfail]. split; [done|]. split; [done|]. split; [by apply dec_stable|].
  exists caller, review. split_and!; [|by apply elem_before|done|done].
  unfold h3. apply elem_before. by apply elem_before.
Qed.

Lemma resolve_resolved cluster name visible inp :
  emits (resolve (W := W) (C := C) cluster name visible inp) (λ res t,
    Forall checking t ∧
    match res with
    | inr (conn, repo, cred) => resolved cluster name visible inp conn repo cred t
    | inl _ => True
    end).
Proof.
  set (Q := λ (res : error + (Connection * Repository * Credential)) t, Forall checking t ∧
    match res with
    | inr (conn, repo, cred) => resolved cluster name visible inp conn repo cred t
    | inl _ => True
    end).
  assert (Hfail : ∀ u, Forall checking u → Q (inl denied) u) by done.
  unfold resolve. destruct (_ || _ || _) eqn:Hin; [by apply emits_ret|].
  apply orb_false_iff in Hin as [[Hr Hc]%orb_false_iff Hu%negb_false_iff].
  apply bool_decide_eq_false in Hr, Hc. apply bool_decide_eq_true in Hu.
  apply (or_denied_step _ _ _ [] Q); [done..|]. intros provider h1 F1 E1.
  apply (or_denied_step _ _ _ h1 Q); [done..|]. intros auth h2 F2 E2.
  destruct (_ || _ || _) eqn:Hau; [apply emits_ret, Hfail; by rewrite app_nil_r|].
  apply orb_false_iff in Hau as [[Hau1%negb_false_iff Hau2]%orb_false_iff Hau3%negb_false_iff].
  apply bool_decide_eq_true in Hau1. apply bool_decide_eq_false, dec_stable in Hau2.
  destruct (FromUnstructured auth) as [e|repo] eqn:Hrepo; [apply emits_ret, Hfail; by rewrite app_nil_r|].
  destruct (decide (rt_RepoID (rp_Status repo) = "")) as [Hid|Hid]; [apply emits_ret, Hfail; by rewrite app_nil_r|].
  apply (or_denied_step _ _ _ h2 Q); [done..|]. intros connection h3 F3 E3.
  destruct (_ || _) eqn:Hcn; [apply emits_ret, Hfail; by rewrite app_nil_r|].
  apply orb_false_iff in Hcn as [Hcn1%negb_false_iff Hcn2].
  apply bool_decide_eq_true in Hcn1. apply bool_decide_eq_false, dec_stable in Hcn2.
  destruct (ConnectionOf connection) as [e|conn] eqn:Hconn; [apply emits_ret, Hfail; by rewrite app_nil_r|].
  destruct (EqualFold _ _) eqn:Hfold; cbn [negb]; [|apply emits_ret, Hfail; by rewrite app_nil_r].
  cbv zeta. apply (or_denied_step _ _ _ h3 Q); [done..|]. intros secret h4 F4 E4.
  destruct (secretData _) as [data|]; [|apply emits_ret, Hfail; by rewrite app_nil_r].
  apply (or_denied_step _ _ _ h4 Q); [done..|]. intros cred h5 F5 E5.
  apply emits_ret. rewrite app_nil_r. split; [done|].
  split_and!; [done..|]. exists provider, auth, connection. unfold h5, h4, h3, h2.
  split_and!; try done; repeat first [exact E1 | exact E2 | exact E3 | apply elem_before].
Qed.

Section Serving.
Context (Backends : string → option (Implementation W)) (r : HttpRequest)
        (D : string → Implementation W → Connection → Credential → Repository → Input →
             list (AEvent C) → Prop).
Context (HD : ∀ cluster name action impl conn cred repo inp,
  route r = Some (cluster, name, action) →
  emits (dispatch (C := C) r cluster action impl conn cred repo inp)
    (λ _ t, D action impl conn cred repo inp t)).

Lemma execute_emits cluster name action visible :
  route r = Some (cluster, name, action) →
  emits (execute (C := C) Backends r cluster name action visible)
    (λ _ t, acted D Backends action cluster name visible t).
Proof.
  intros Hroute. unfold execute. apply emits_bind, emits_call. intros [e|inp].
  { apply emits_ret, ac_refused. by repeat constructor. }
  apply emits_bind. eapply emits_mono; [apply resolve_resolved|]. intros [e|[[conn repo] cred]] t [Ht Hr].
  { apply emits_ret, ac_refused. rewrite app_nil_r. by constructor. }
  destruct (Backends _) as [impl|] eqn:Hb.
  2: { apply emits_ret, ac_refused. rewrite app_nil_r. by constructor. }
  apply emits_bind. eapply emits_mono; [by eapply HD|]. intros out u Hu. apply emits_ret.
  rewrite app_nil_r.
  eapply (ac_done D Backends action cluster name visible (ARead (inputLimit action) (inr inp) :: t) u inp);
    [by constructor|by left| |exact Hb|exact Hu].
  destruct Hr as (? & ? & ? & provider & auth & connection & Hr). split_and!; [done..|].
  exists provider, auth, connection. destruct_and! Hr. split_and!; try done; by right.
Qed.

Lemma ServeHTTP_served hc ha : emits (ServeHTTP (C := C) hc ha Backends r) (λ _ t, served D Backends r t).
Proof.
  pose proof execute_emits as Hexec. unfold ServeHTTP. destruct (route r) as [[[cluster name] action]|] eqn:Hroute;
    [|apply emits_ret; constructor].
  destruct (goodScope r cluster name) eqn:Hscope; cbn [negb]; [|apply emits_ret; constructor].
  apply emits_bind, emits_call. intros []; [|apply emits_ret, sv_no_slot].
  apply emits_bind. eapply (emits_mono _ (λ _ t, ∀ p, p = ([ASlot true] ++ t ++ [ARelease])%list →
    served D Backends r p)).
  2: { intros resp t Ht. apply emits_bind, emits_call. intros _. apply emits_ret, Ht.
       by rewrite app_nil_r. }
  unfold admitted. apply emits_bind. eapply emits_mono; [apply authorize_emits|].
  intros [e|visible] t1 [F1 Hauth].
  { apply emits_ret. rewrite app_nil_r. intros p ->. by eapply sv_forbidden. }
  assert (Hdone : ∀ t2, acted D Backends action cluster name visible t2 →
    served D Backends r ([ASlot true] ++ t1 ++ opened action ++ t2 ++ closed action ++ [ARelease]))
    by (intros t2 Ht2; by eapply sv_admitted).
  unfold opened, closed in Hdone. destruct (decide (action ∈ snapshotActions)).
  - apply emits_bind, emits_call. intros [].
    + apply emits_bind. eapply emits_mono; [by apply Hexec|]. intros resp t2 Ht2.
      apply emits_bind, emits_call. intros _. apply emits_ret. rewrite app_nil_r. intros p ->.
      specialize (Hdone t2 Ht2). by rewrite <- !app_assoc.
    + apply emits_ret. intros p ->. rewrite app_nil_r, <- app_assoc. by eapply sv_no_snapshot_slot.
  - eapply emits_mono; [by apply Hexec|]. intros resp t2 Ht2 p ->.
    specialize (Hdone t2 Ht2). by rewrite <- app_assoc.
Qed.
End Serving.
End Contract.

(** ** Lemmas: acts *)

Section Acts.
Context {W C : Type} `{Actions W C} `{Unstructured} `{ObjectMetaApi}.
Implicit Types t : list (AEvent C).

Lemma relabel_acting {A Ev} (f : Ev → AEvent C) (m : M W Ev A) :
  (∀ e, acting (f e)) → emits (relabel f m) (λ _ t, Forall acting t).
Proof.
  intros Hf. apply emits_relabel. eapply emits_mono; [apply emits_True|]. intros a t _.
  apply Forall_fmap, Forall_true. intros e. apply Hf.
Qed.

(** [s] is what an upload area held of the caller: in the directory of the cluster
    and, under it, of the repository, the connection and the request's own
    Authorization header, the file named by the input's reference, whose bytes have
    that digest and which is at most an hour old. *)
Definition uploaded (r : HttpRequest) (cluster : string) (inp : Input) (area : SnapDir) (now : Time)
    (s : Snapshot) : Prop :=
  ∃ f,
    snap_file area (hex_encode (sha256 cluster))
      (hex_encode (sha256 (in_RepositoryUID inp +:+ NULS +:+ in_ConnectionUID inp +:+ NULS
                           +:+ hr_Authorization r)))
      (in_BundleRef inp +:+ ".json") = Some f ∧
    hex_encode (sha256 (data_bytes (sf_Data f))) = in_BundleRef inp ∧
    (Sub now (sf_ModTime f) ≤ Hour)%Z ∧
    match sf_Data f with
    | Marshalled s' => s = json_snapshot s'
    | RawBytes b => aw_decode b = Some s
    end.

Lemma emits_load {B} r cluster inp (k : error + Snapshot → M W (AEvent C) B) (Q : B → list (AEvent C) → Prop) :
  (∀ area now err, emits (k (inl err)) (λ b t, Q b (ALoad area now (inl err) :: t))) →
  (∀ area now s, uploaded r cluster inp area now s →
     emits (k (inr s)) (λ b t, Q b (ALoad area now (inr s) :: t))) →
  emits (a_load (hr_Authorization r) cluster inp ≫= k) Q.
Proof.
  intros He Hs w. unfold mbind, M_bind, a_load.
  destruct (loadSnapshot _ _ _ _ _ _ _) as [err|s] eqn:Hl.
  - specialize (He (aw_area w) (aw_now w) err w). by destruct (k (inl err) w) as [[b w'] t].
  - apply loadSnapshot_sound in Hl as (_ & f & Hf & Hd & Ht & _ & Hdata).
    specialize (Hs (aw_area w) (aw_now w) s). destruct (k (inr s) w) as [[b w'] t] eqn:Hk.
    assert (uploaded r cluster inp (aw_area w) (aw_now w) s) as Hu by (exists f; by split_and!).
    specialize (Hs Hu w). by rewrite Hk in Hs.
Qed.

Lemma dispatch_acting r cluster action impl conn cred repo inp :
  emits (dispatch (W := W) (C := C) r cluster action impl conn cred repo inp)
    (λ _ t, Forall acting t).
Proof.
  assert (Hhost : ∀ A B (m : M W GEvent A) (k : A → B),
    emits (x ← relabel AHost m; mret (k x)) (λ _ t, Forall (acting (C := C)) t)).
  { intros A B m k. apply emits_all_bind; [by apply relabel_acting|intros x; by apply emits_ret]. }
  unfold dispatch, snapshotAction. destruct (im_Collaboration impl) as [co|]; [|by apply emits_ret].
  destruct (decide (action = "stage_snapshot")).
  { apply emits_all_bind; [by apply emits_all_call|intros x; by apply emits_ret]. }
  destruct (operation action inp) as [[]|]; try apply Hhost.
  - destruct (im_BranchLister impl); [apply Hhost|by apply emits_ret].
  - destruct (im_Verify impl) as [verify|]; [|by apply emits_ret].
    destruct (_ || _); [by apply emits_ret|].
    apply emits_load; [intros area now e; apply emits_ret; by repeat constructor|].
    intros area now s _. apply (emits_mono _ (λ _ t, Forall acting t)); [|by constructor].
    apply emits_all_bind; [by apply relabel_acting|intros x; by apply emits_ret].
Qed.

Lemma acting_split (p l before after : list (AEvent C)) e :
  Forall (λ e, ¬ acting e) p → acting e → (p ++ l)%list = (before ++ e :: after)%list →
  ∃ k, before = (p ++ k)%list ∧ l = (k ++ e :: after)%list.
Proof.
  revert before. induction p as [|x p IH]; intros before Hp He Heq; [by exists before|].
  apply Forall_cons in Hp as [Hx Hp]. destruct before as [|y before]; simpl in Heq.
  - by injection Heq as -> _.
  - injection Heq as -> Heq. destruct (IH before Hp He Heq) as (k & -> & ->). by exists k.
Qed.

Lemma checking_not_acting t : Forall checking t → Forall (λ e, ¬ acting e) t.
Proof. intros Ht. eapply Forall_impl; [exact Ht|]. by intros [] ? ?. Qed.
Lemma opened_not_acting action : Forall (λ e : AEvent C, ¬ acting e) (opened action).
Proof. unfold opened. destruct (decide _); by repeat constructor; intros ?. Qed.

Lemma authorised_mono token cluster name action visible t u :
  t ⊆ u → authorised token cluster name action visible t →
  authorised token cluster name action visible u.
Proof.
  intros Hs (? & ? & caller & review & ? & ? & ? & ?). split_and!; [done..|].
  exists caller, review. auto.
Qed.
Lemma resolved_mono cluster name visible inp conn repo cred t u :
  t ⊆ u → resolved cluster name visible inp conn repo cred t →
  resolved cluster name visible inp conn repo cred u.
Proof.
  intros Hs (? & ? & ? & p & a & c & Hr). split_and!; [done..|]. exists p, a, c.
  destruct_and! Hr. split_and!; auto.
Qed.
(** Acts happen in one place, after everything was established. *)
Lemma served_acting D Backends r t e :
  served (W := W) D Backends r t → e ∈ t → acting e →
  ∃ cluster name action visible inp conn repo cred impl pre mid post,
    t = (pre ++ mid ++ post)%list ∧ e ∈ mid ∧
    Forall (λ e, ¬ acting e) pre ∧ Forall (λ e, ¬ acting e) post ∧
    route r = Some (cluster, name, action) ∧ goodScope r cluster name = true ∧ ASlot true ∈ pre ∧
    authorised (bearer r) cluster name action visible pre ∧ ARead (inputLimit action) (inr inp) ∈ pre ∧
    resolved cluster name visible inp conn repo cred pre ∧
    Backends (cs_Provider (cn_Spec conn)) = Some impl ∧ D action impl conn cred repo inp mid.
Proof.
  intros Hs Hin He.
  assert (Hno : Forall (λ e, ¬ acting e) t → False)
    by (intros Hf; exact (proj1 (Forall_forall _ _) Hf e Hin He)).
  assert (Hslot : ∀ b, Forall (λ e : AEvent C, ¬ acting e) [ASlot b]) by (by repeat constructor; intros ?).
  destruct Hs as [| |cluster name action t1 Hr Hc|cluster name action t1 Hr Hc
    |cluster name action visible t1 t2 Hr Hg Hc Ha Hacted]; try apply checking_not_acting in Hc as Hc'.
  - by destruct Hno.
  - by destruct Hno.
  - destruct Hno. rewrite !Forall_app. split_and!; [done..|]. by repeat constructor; intros ?.
  - destruct Hno. rewrite !Forall_app. split_and!; [done..|]. by repeat constructor; intros ?.
  - assert (Hclose : Forall (λ e, ¬ acting e) (closed (C := C) action ++ [ARelease])%list).
    { unfold closed. destruct (decide _); by repeat constructor; intros ?. }
    pose proof (opened_not_acting action) as Ho.
    destruct Hacted as [t2 F2|t2 mid inp conn repo cred impl F2 Hread Hres Hb HD];
      apply checking_not_acting in F2.
    { destruct Hno. apply Forall_app in Hclose as [? ?]. rewrite !Forall_app. by split_and!. }
    assert (Hpre : Forall (λ e, ¬ acting e) ([ASlot true] ++ t1 ++ opened action ++ t2)%list)
      by (rewrite !Forall_app; done).
    exists cluster, name, action, visible, inp, conn, repo, cred, impl,
      ([ASlot true] ++ t1 ++ opened action ++ t2)%list, mid, (closed action ++ [ARelease])%list.
    split_and!; try done; [by rewrite <- !app_assoc| |by left| | |].
    + assert (Hnot : ∀ l, Forall (λ e, ¬ acting e) l → e ∉ l)
        by (intros l Hl Hx; exact (proj1 (Forall_forall _ _) Hl e Hx He)).
      specialize (Hnot _ Hpre) as Hn1. specialize (Hnot _ Hclose) as Hn2. set_solver.
    + eapply authorised_mono; [|exact Ha]. set_solver.
    + do 3 (apply elem_of_app; right). exact Hread.
    + eapply resolved_mono; [|exact Hres]. set_solver.
Qed.
End Acts.

(** ** Properties *)

(** C8: nothing is done for a caller that is not entitled to it.  Every act of a
    request, on the git host, by Git or in the upload area, comes after the
    request got a slot, its own bearer token saw the live repository object and
    a review allowed invoking that very action on it, its input was read within
    the action's limit, and the provider, through its export, saw the same live
    object with the same spec and a recorded remote, and the live connection
    the input names, and resolved that connection's credential. *)
Theorem action_authorised {W C} `{Actions W C} `{Unstructured} `{ObjectMetaApi} has_caller
    has_authority Backends r (w w' : W) resp t before e after
    (Hrun : ServeHTTP has_caller has_authority Backends r w = (resp, w', t))
    (Ht : t = (before ++ e :: after)%list) (He : acting (C := C) e) :
  ∃ cluster name action visible inp conn repo cred,
    route r = Some (cluster, name, action) ∧ goodScope r cluster name = true ∧
    ASlot true ∈ before ∧
    authorised (bearer r) cluster name action visible before ∧
    ARead (inputLimit action) (inr inp) ∈ before ∧
    resolved cluster name visible inp conn repo cred before.
Proof.
  pose proof (ServeHTTP_served (C := C) Backends r (λ _ _ _ _ _ _ _, True)
    ltac:(intros; apply emits_True) has_caller has_authority w) as Hs. rewrite Hrun in Hs.
  apply (served_acting _ _ _ _ e) in Hs as (cluster & name & action & visible & inp & conn & repo &
    cred & impl & pre & mid & post & Heq & _ & Hpre & _ & Hr & Hg & Hslot & Ha & Hread & Hres & _);
    [|rewrite Ht; apply elem_mid|done].
  rewrite Ht in Heq. destruct (acting_split pre (mid ++ post)%list before after e) as (k & -> & _);
    [done..|]. exists cluster, name, action, visible, inp, conn, repo, cred.
  split_and!; [done|done|by apply elem_before| |by apply elem_before|].
  - eapply authorised_mono; [|exact Ha]. set_solver.
  - eapply resolved_mono; [|exact Hres]. set_solver.
Qed.

(** The slot traffic of a request. *)
Definition slot_event {C} (e : AEvent C) : bool :=
  match e with ASlot _ | ARelease | ASnapshotSlot _ | ASnapshotRelease => true | _ => false end.
Definition slots {C} (t : list (AEvent C)) : list (AEvent C) := List.filter slot_event t.

Lemma slots_app {C} (t u : list (AEvent C)) : slots (t ++ u)%list = (slots t ++ slots u)%list.
Proof. apply List.filter_app. Qed.
Lemma slots_checking {C} (t : list (AEvent C)) : Forall checking t → slots t = [].
Proof. induction 1 as [|e t He Ht IH]; [done|]. by destruct e. Qed.
Lemma slots_acting {C} (t : list (AEvent C)) : Forall acting t → slots t = [].
Proof. induction 1 as [|e t He Ht IH]; [done|]. by destruct e. Qed.

(** A request takes at most one slot, and one snapshot slot if its action
    handles bundles; a slot that was granted is given back, the snapshot slot
    first, and nothing happens after the last release. *)
Theorem action_slots {W C} `{Actions W C} `{Unstructured} `{ObjectMetaApi} has_caller
    has_authority Backends r (w w' : W) resp t
    (Hrun : ServeHTTP (C := C) has_caller has_authority Backends r w = (resp, w', t)) :
  t = [] ∨ t = [ASlot false] ∨
  last t = Some ARelease ∧
  (slots t = [ASlot true; ARelease] ∨ slots t = [ASlot true; ASnapshotSlot false; ARelease] ∨
   slots t = [ASlot true; ASnapshotSlot true; ASnapshotRelease; ARelease] ∧
   ∃ cluster name action, route r = Some (cluster, name, action) ∧ action ∈ snapshotActions).
Proof.
  pose proof (ServeHTTP_served (C := C) Backends r (λ _ _ _ _ _ _ t, Forall acting t)
    ltac:(intros; apply dispatch_acting) has_caller has_authority w) as Hs. rewrite Hrun in Hs.
  destruct Hs as [| |cluster name action t1 Hr Hc|cluster name action t1 Hr Hc
    |cluster name action visible t1 t2 Hr Hg Hc Ha Hact]; [by left|by right; left|..]; do 2 right.
  - rewrite !slots_app, (slots_checking t1) by done. rewrite app_assoc, last_snoc. tauto.
  - rewrite !slots_app, (slots_checking t1) by done.
    change [ASnapshotSlot false; ARelease] with ([ASnapshotSlot (C := C) false] ++ [ARelease])%list.
    rewrite !app_assoc, last_snoc. tauto.
  - assert (slots t2 = []) as H2.
    { destruct Hact as [t2 F|t2 t3 inp conn repo cred impl F _ _ _ HD]; [by apply slots_checking|].
      by rewrite slots_app, slots_checking, slots_acting. }
    rewrite !slots_app, (slots_checking t1), H2 by done. rewrite !app_assoc, last_snoc.
    split; [done|]. unfold opened, closed. destruct (decide (action ∈ snapshotActions)) as [Hin|Hin];
      [right; right|by left]. split; [done|]. by exists cluster, name, action.
Qed.

(** ** The server over GitHub *)

Section GitHubServer.
Context {W C : Type} `{Actions W C} `{Unstructured} `{ObjectMetaApi}.
Context `{!GitHub W} `{!Pulls W} `{!Git W} (url_Parse : string → option Url).

Definition github_backends (provider : string) : option (Implementation W) :=
  if decide (provider = ProviderGitHub) then Some (github_implementation url_Parse) else None.

(** The calls to the host and the Git commands of a trace. *)
Definition host_events (t : list (AEvent C)) : list GEvent :=
  omap (λ e, match e with AHost g => Some g | _ => None end) t.
Definition git_events (t : list (AEvent C)) : list SEvent :=
  omap (λ e, match e with ASnap s => Some s | _ => None end) t.

(** A request that may write: the operation under its guard, or a publication. *)
Definition acts (r : HttpRequest) (cluster action : string) (conn : Connection) (repo : Repository)
    (inp : Input) (t : list (AEvent C)) : Prop :=
  (∃ op g, operation action inp = Some op ∧ t = (AHost <$> g) ∧ guarded (op_guard conn repo op) [] g) ∨
  (∃ area now s l, t = (ALoad area now (inr s) :: (ASnap <$> l)) ∧
     uploaded r cluster inp area now s ∧
     ((action ≠ "publish_snapshot" ∧ pushless l) ∨
      (action = "publish_snapshot" ∧
       ∃ res, published url_Parse conn repo s (in_Branch inp) (in_ExpectedHead inp) res l))) ∨
  (∃ e, t = [e] ∧ match e with AStage _ | ALoad _ _ _ => True | _ => False end) ∨ t = [].

Lemma guarded_perform conn cred repo op :
  emits (perform (W := W) conn cred repo op) (λ _ t, guarded (op_guard conn repo op) [] t).
Proof.
  eapply emits_mono; [apply (perform_operation_hoare conn repo cred op)|]. by intros r t [? _].
Qed.

Lemma relabelled {A B} (m : M W GEvent A) (k : A → B) (P : list GEvent → Prop) :
  emits m (λ _ t, P t) →
  emits (x ← relabel AHost m; mret (k x)) (λ _ (t : list (AEvent C)), ∃ g, t = (AHost <$> g) ∧ P g).
Proof.
  intros Hm. apply emits_bind, emits_relabel. eapply emits_mono; [exact Hm|]. intros x t Ht.
  apply emits_ret. rewrite app_nil_r. by exists t.
Qed.

Lemma snapshot_verb r cluster name action inp :
  route r = Some (cluster, name, action) → operation action inp = None →
  action ≠ "stage_snapshot" → action ≠ "prepare_snapshot" → action = "publish_snapshot".
Proof.
  unfold route. intros Hr Ho Hs Hp. case_decide; [|done].
  destruct (SplitByte slash _) as [|p0 [|p1 [|? [|p3 [|? [|? [|p6 [|]]]]]]]]; try done.
  case_decide as Hv; [|done]. injection Hr as -> -> ->. destruct Hv as (_ & _ & _ & _ & [Hv|?]); [|done].
  unfold operation in Ho. unfold verbs in Hv.
  repeat (case_decide; [done|]). repeat (apply elem_of_cons in Hv as [->|Hv]; [done|]).
  by apply elem_of_nil in Hv.
Qed.

Lemma dispatch_acts r cluster name action impl conn cred repo inp :
  route r = Some (cluster, name, action) → impl = github_implementation url_Parse →
  emits (dispatch (W := W) (C := C) r cluster action impl conn cred repo inp)
    (λ _ t, acts r cluster action conn repo inp t).
Proof.
  intros Hroute ->. unfold dispatch. cbn [im_Collaboration github_implementation].
  destruct (decide (action = "stage_snapshot")).
  { apply emits_bind, emits_call. intros x. apply emits_ret. right; right; left. by eexists. }
  assert (Hop : ∀ op B (k : error + Output → B), operation action inp = Some op →
    emits (x ← relabel AHost (perform conn cred repo op); mret (k x))
      (λ _ t, acts r cluster action conn repo inp t)).
  { intros op B k Ho. eapply emits_mono; [apply relabelled, guarded_perform|].
    intros _ t (g & -> & Hg). left. by exists op, g. }
  destruct (operation action inp) as [op|] eqn:Ho.
  - destruct op; try by apply Hop. cbn [im_BranchLister github_implementation].
    eapply emits_mono; [apply (relabelled _ _ (λ g, guarded (op_guard conn repo (OpBranches page)) [] g))|].
    + eapply emits_mono; [apply ListBranches_hoare|]. by intros x t [? _].
    + intros _ t (g & -> & Hg). left. by exists (OpBranches page), g.
  - unfold snapshotAction. cbn [im_Verify im_Publish github_implementation].
    destruct (_ || _); [apply emits_ret; by do 3 right|].
    apply emits_load; [intros area now e|intros area now s Hup].
    { apply emits_ret. right; right; left. by eexists. }
    apply emits_bind, emits_relabel. destruct (decide (action = "prepare_snapshot")) as [->|Hp].
    + eapply emits_mono; [apply VerifySnapshot_verified|]. intros res l [Hl _]. apply emits_ret.
      right; left. exists area, now, s, l. rewrite app_nil_r. split_and!; [done..|]. by left.
    + eapply emits_mono; [apply PublishSnapshot_published|]. intros res l Hl. apply emits_ret.
      right; left. exists area, now, s, l. rewrite app_nil_r. split_and!; [done..|]. right.
      split; [|by exists res].
      by eapply snapshot_verb.
Qed.

Lemma dispatch_acts' r cluster name action impl conn cred repo inp :
  route r = Some (cluster, name, action) →
  emits (dispatch (W := W) (C := C) r cluster action impl conn cred repo inp)
    (λ _ t, impl = github_implementation url_Parse →
       ∀ cluster name, route r = Some (cluster, name, action) → acts r cluster action conn repo inp t).
Proof.
  intros Hr w. destruct (dispatch r cluster action impl conn cred repo inp w) as [[x w'] t] eqn:Hd.
  intros Hi cluster' name' Hr'. rewrite Hr in Hr'. injection Hr' as <- <-. pose proof (dispatch_acts r cluster name action impl conn cred repo inp Hr Hi w) as Ha.
  by rewrite Hd in Ha.
Qed.

(** A write to the remote: a mutating call or a push. *)
Definition remote_write (e : AEvent C) : Prop :=
  match e with AHost g => mutates g = true | ASnap s => is_push s = true | _ => False end.

Lemma host_events_app t u : host_events (t ++ u)%list = (host_events t ++ host_events u)%list.
Proof. apply omap_app. Qed.
Lemma git_events_app t u : git_events (t ++ u)%list = (git_events t ++ git_events u)%list.
Proof. apply omap_app. Qed.
Lemma no_host t : Forall (λ e, ¬ acting e) t → host_events t = [] ∧ git_events t = [].
Proof.
  induction 1 as [|e t He Ht [IH1 IH2]]; [done|]. split; destruct e; try exact IH1; try exact IH2;
    by destruct He.
Qed.
Lemma host_of_host (g : list GEvent) : host_events (AHost <$> g) = g ∧ git_events (AHost <$> g) = [].
Proof. induction g as [|e g [IH1 IH2]]; [done|]. split; [cbn; f_equal; exact IH1|exact IH2]. Qed.
Lemma git_of_git (l : list SEvent) : git_events (ASnap <$> l) = l ∧ host_events (ASnap <$> l) = [].
Proof. induction l as [|e l [IH1 IH2]]; [done|]. split; [cbn; f_equal; exact IH1|exact IH2]. Qed.
End GitHubServer.

(** C4: what a request may write.  With GitHub behind the server, a request
    that changes anything on the remote is for a caller authorised for its
    action on an object resolved as above, and either all its calls to the
    host obey the contract of the one operation its action names, on the
    resolved repository (at most one write, the requested one, after the host
    confirmed the repository's identity), or the action is publish_snapshot and
    its Git commands are one leased push of a verified snapshot.  That snapshot
    was read from the upload area, at the caller's own place: the directory named
    by the digests of the cluster, and of the repository's and connection's
    identities with the request's Authorization header; it is the file there that
    the input refers to by the digest of its bytes, and at most an hour old. *)
Theorem action_contract {W C} `{Actions W C} `{Unstructured} `{ObjectMetaApi}
    `{!GitHub W} `{!Pulls W} `{!Git W} url_Parse has_caller has_authority r (w w' : W) resp t e
    (Hrun : ServeHTTP (C := C) has_caller has_authority (github_backends url_Parse) r w = (resp, w', t))
    (Hin : e ∈ t) (He : remote_write e) :
  ∃ cluster name action visible inp conn repo cred,
    route r = Some (cluster, name, action) ∧
    authorised (bearer r) cluster name action visible t ∧
    resolved cluster name visible inp conn repo cred t ∧
    ((git_events t = [] ∧ ∃ op, operation action inp = Some op ∧
        guarded (op_guard conn repo op) [] (host_events t)) ∨
     (host_events t = [] ∧ action = "publish_snapshot" ∧ ∃ area now s res,
        ALoad area now (inr s) ∈ t ∧ uploaded r cluster inp area now s ∧
        published url_Parse conn repo s (in_Branch inp) (in_ExpectedHead inp) res (git_events t))).
Proof.
  pose proof (ServeHTTP_served (github_backends url_Parse) r
    (λ action impl conn cred repo inp t, impl = github_implementation url_Parse →
       ∀ cluster name, route r = Some (cluster, name, action) →
       acts url_Parse r cluster action conn repo inp t)
    (λ cluster name action impl conn cred repo inp Hr,
       dispatch_acts' url_Parse r cluster name action impl conn cred repo inp Hr)
    has_caller has_authority w) as Hs. rewrite Hrun in Hs.
  apply (served_acting _ _ _ _ e) in Hs as (cluster & name & action & visible & inp & conn & repo &
    cred & impl & pre & mid & post & -> & Hmid & Hpre & Hpost & Hr & Hg & _ & Ha & _ & Hres & Hb & HD);
    [|done|by destruct e].
  assert (impl = github_implementation url_Parse) as Himpl.
  { unfold github_backends in Hb. case_decide; [by injection Hb|done]. }
  exists cluster, name, action, visible, inp, conn, repo, cred.
  rewrite !host_events_app, !git_events_app.
  destruct (no_host _ Hpre) as [-> ->], (no_host _ Hpost) as [-> ->].
  rewrite !app_nil_l, !app_nil_r. split_and!; [done| | |].
  { eapply authorised_mono; [|exact Ha]. set_solver. }
  { eapply resolved_mono; [|exact Hres]. set_solver. }
  destruct (HD Himpl cluster name Hr) as [(op & g & Hop & -> & Hg')
    |[(area & now & s & l & -> & Hup & Hl)|[(e' & -> & He')| ->]]].
  - left. destruct (host_of_host (C := C) g) as [-> ->]. split; [done|]. by exists op.
  - right. destruct (git_of_git (C := C) l) as [El Eh].
    change (host_events (ALoad (C := C) area now (inr s) :: (ASnap <$> l)))
      with (host_events (ASnap (C := C) <$> l)).
    change (git_events (ALoad (C := C) area now (inr s) :: (ASnap <$> l)))
      with (git_events (ASnap (C := C) <$> l)).
    rewrite El, Eh. split; [done|]. destruct Hl as [[_ Hp]|[-> [res Hpub]]].
    + exfalso. apply elem_of_cons in Hmid as [->|Hmid]; [done|].
      apply list_elem_of_fmap in Hmid as (x & -> & Hx). simpl in He.
      pose proof (proj1 (Forall_forall _ _) Hp x Hx). congruence.
    + split; [done|]. exists area, now, s, res. split_and!; [set_solver|done..].
  - apply list_elem_of_singleton in Hmid as ->. by destruct e'.
  - by apply elem_of_nil in Hmid.
Qed.

(** ** A run *)

#[local] Instance demo_objects : Unstructured := {|
  GetName := GetName; GetAnnotations := GetAnnotations;
  GetCreationTimestamp := GetCreationTimestamp; NestedString := NestedString;
  NestedBool := NestedBool; NestedInt64 := NestedInt64; NestedSlice := NestedSlice;
  NestedStringSlice := NestedStringSlice; NestedMap := NestedMap;
  FromUnstructured := λ _, inr (demo_repo ∅ "7") |}.
#[local] Instance demo_meta : ObjectMetaApi := {|
  GetUID o := NestedString o ["metadata"; "uid"];
  GetDeletionTimestamp _ := None;
  NestedStringMap _ _ := {[ "token" := "dA==" ]};
  ConnectionOf _ := inr demo_conn |}.

Definition uid_object (uid : string) : Object :=
  [("metadata", AMap [("uid", AString uid)]); ("spec", AMap [("name", AString "app")])].
Definition demo_input : Input :=
  {| in_Repository := "acme/app"; in_RepositoryUID := "u-1"; in_ConnectionUID := "c-1";
     in_Branch := "feature"; in_ExpectedHead := ""; in_Number := 0; in_Page := 0;
     in_ParentCommentID := 0; in_Pull := demo_binding; in_Snapshot := None; in_BundleRef := "" |}.
Definition fixed_actions : Actions unit bool := {|
  aw_For := λ _ _ w, (inr false, w);
  aw_Authority := λ _ _ w, (inr true, w);
  aw_Get := λ _ k _ _ w,
    (inr (match k with RConnections => uid_object "c-1" | _ => uid_object "u-1" end), w);
  aw_Create := λ _ _ _ w, (inr [("status", AMap [("allowed", ABool true)])], w);
  aw_Resolve := λ _ _ w, (inr demo_cred, w);
  aw_slot := λ w, (true, w); aw_release := λ w, (tt, w);
  aw_snapshotSlot := λ w, (true, w); aw_snapshotRelease := λ w, (tt, w);
  aw_Read := λ _ w, (inr demo_input, w);
  aw_area := λ _, ∅; aw_setArea := λ _ w, w; aw_now := λ _, 0%Z; aw_rand := λ _, "1";
  aw_io := λ _ _, None; aw_visited := λ _ _ _, 0%Z; aw_decode := λ _, None;
  aw_getenv := λ _, ""; aw_Success := λ _ _ _, inr "{}" |}.
Definition demo_http : HttpRequest :=
  {| hr_Method := "POST"; hr_Path := "/actions/clusters/c1/repositories/app/create_pull_request/v1";
     hr_RawPath := ""; hr_Authorization := "Bearer tok"; hr_Cluster := "c1" |}.

#[local] Instance demo_host : GitHub unit := fixed_github pull_host.
#[local] Instance demo_pulls : Pulls unit := fixed_pulls.
#[local] Instance demo_git : Git unit := fixed_git.
Definition demo_backends : string → option (Implementation unit) := github_backends (λ _, None).
Definition demo_serve : Response * unit * list (AEvent bool) :=
  let A := fixed_actions in ServeHTTP true true demo_backends demo_http tt.
Definition demo_trace : list (AEvent bool) := Eval vm_compute in demo_serve.2.

Lemma action_authorised_witness :
  ∃ before e after, demo_trace = (before ++ e :: after)%list ∧ acting e ∧
    ∃ cluster name action visible inp conn repo cred,
      route demo_http = Some (cluster, name, action) ∧ goodScope demo_http cluster name = true ∧
      ASlot true ∈ before ∧ authorised (bearer demo_http) cluster name action visible before ∧
      ARead (inputLimit action) (inr inp) ∈ before ∧
      resolved cluster name visible inp conn repo cred before.
Proof.
  exists (take 10 demo_trace), (nth 10 demo_trace (ASlot false)), (drop 11 demo_trace).
  assert (demo_trace = (take 10 demo_trace ++ nth 10 demo_trace (ASlot false) :: drop 11 demo_trace)%list)
    as Heq by reflexivity.
  split; [exact Heq|]. split; [exact I|].
  refine (action_authorised (H:=fixed_actions) true true demo_backends demo_http tt tt demo_serve.1.1
    demo_trace _ _ _ _ Heq I).
  vm_compute. reflexivity.
Defined.

Lemma action_contract_witness :
  ∃ e, e ∈ demo_trace ∧ remote_write e ∧
    ∃ cluster name action visible inp conn repo cred,
      route demo_http = Some (cluster, name, action) ∧
      authorised (bearer demo_http) cluster name action visible demo_trace ∧
      resolved cluster name visible inp conn repo cred demo_trace ∧
      ((git_events demo_trace = [] ∧ ∃ op, operation action inp = Some op ∧
          guarded (op_guard conn repo op) [] (host_events demo_trace)) ∨
       (host_events demo_trace = [] ∧ action = "publish_snapshot" ∧ ∃ area now s res,
          ALoad area now (inr s) ∈ demo_trace ∧
          uploaded (H := fixed_actions) demo_http cluster inp area now s ∧
          published (λ _, None) conn repo s (in_Branch inp) (in_ExpectedHead inp) res
            (git_events demo_trace))).
Proof.
  exists (nth 13 demo_trace (ASlot false)).
  assert (Hin : nth 13 demo_trace (ASlot false) ∈ demo_trace)
    by (apply list_elem_of_In, nth_In; vm_compute; lia).
  assert (He : remote_write (nth 13 demo_trace (ASlot false))) by (vm_compute; reflexivity).
  split; [exact Hin|]. split; [exact He|].
  pose proof (action_contract (H:=fixed_actions) (λ _, None) true true demo_http tt tt demo_serve.1.1
    demo_trace (nth 13 demo_trace (ASlot false))) as Hc.
  exact (Hc ltac:(vm_compute; reflexivity) Hin He).
Defined.

Lemma action_slots_witness :
  last demo_trace = Some ARelease ∧ slots demo_trace = [ASlot true; ARelease].
Proof.
  pose proof (action_slots (H:=fixed_actions) (C:=bool) true true
    demo_backends demo_http tt tt demo_serve.1.1 demo_trace) as Hs.
  destruct (Hs ltac:(vm_compute; reflexivity)) as [He|[He|[He _]]];
    [discriminate He|discriminate He|split; [exact He|vm_compute; reflexivity]].
Defined.
