(* ===== verification/ActionInput.v ===== *)
(** * actions/input.go: reading the body of an action

    [readActionRequest] reads a body under a timeout.  A cancelled context does
    not interrupt a read, so a callback of the context moves the connection's
    read deadline to the past and closes the body; the connection is shared with
    the next request on it, so the deadline must be gone when the function
    returns, and the callback must not come back to it.  The function and its
    callback are two goroutines, modelled as one step per operation on what they
    share. *)

From S2P Require Import Prelude GoStrings GoTime Errors.
From Stdlib Require Import Ascii Lia.

#[local] Open Scope string_scope.

Section Reader.
(** The decoded request. *)
Context {Request : Type}.

(** ** State *)

(** The read deadline of the connection; [Passed] is one set to the present by
    the callback. *)
Inductive Deadline := Cleared | Until (t : Time) | Passed.

(** [context.AfterFunc]: registered; stopped before it ran; running, with what
    is left of it; returned, with [done] closed. *)
Inductive Callback := Unregistered | Armed | Stopped | Expire | CloseBody | CloseDone | Finished.

(** What the function is about to do; [r] is what it will return. *)
Inductive Reader :=
  | SetDeadline
  | Register
  | Decode
  | DecodeTrailing (request : Request)
  | CheckContext (request : Request)
  | Stop (r : error + Request)
  | WaitDone (r : error + Request)
  | ClearDeadline (r : error + Request)
  | Cancel (r : error + Request)
  | Done (r : error + Request).

Record Reading := {
  rd_reader : Reader; rd_callback : Callback;
  rd_deadline : Deadline; rd_body_closed : bool;
  rd_ctx : option error;         (* ctx.Err() *)
  rd_decoded : option Request;   (* ghost: the request that was decoded whole *)
}.

Definition with_reader (s : Reading) (r : Reader) : Reading :=
  {| rd_reader := r; rd_callback := rd_callback s; rd_deadline := rd_deadline s;
     rd_body_closed := rd_body_closed s; rd_ctx := rd_ctx s; rd_decoded := rd_decoded s |}.
Definition with_callback (s : Reading) (c : Callback) : Reading :=
  {| rd_reader := rd_reader s; rd_callback := c; rd_deadline := rd_deadline s;
     rd_body_closed := rd_body_closed s; rd_ctx := rd_ctx s; rd_decoded := rd_decoded s |}.
Definition with_deadline (s : Reading) (d : Deadline) : Reading :=
  {| rd_reader := rd_reader s; rd_callback := rd_callback s; rd_deadline := d;
     rd_body_closed := rd_body_closed s; rd_ctx := rd_ctx s; rd_decoded := rd_decoded s |}.
Definition with_ctx (s : Reading) (e : error) : Reading :=
  {| rd_reader := rd_reader s; rd_callback := rd_callback s; rd_deadline := rd_deadline s;
     rd_body_closed := rd_body_closed s; rd_ctx := Some (default e (rd_ctx s));
     rd_decoded := rd_decoded s |}.

(** A call on a connection that has some deadline, under a context that may be
    done already. *)
Definition start (deadline : Deadline) (ctx : option error) : Reading :=
  {| rd_reader := SetDeadline; rd_callback := Unregistered; rd_deadline := deadline;
     rd_body_closed := false; rd_ctx := ctx; rd_decoded := None |}.

(** ** Steps *)

(** What [Decode] of the limited body answers, the first time and, with [io.EOF]
    or something else, the second time. *)
Inductive Answer := Decoded (r : error + Request) | Trailing (eof : bool).

(** The function; [None]: it is blocked, or the answer is to another call. *)
Definition reader_step (until : Time) (a : option Answer) (s : Reading) : option Reading :=
  match rd_reader s, a with
  | SetDeadline, None => Some (with_deadline (with_reader s Register) (Until until))
  | Register, None => Some (with_callback (with_reader s Decode) Armed)
  | Decode, Some (Decoded (inl err)) => Some (with_reader s (Stop (inl err)))
  | Decode, Some (Decoded (inr request)) => Some (with_reader s (DecodeTrailing request))
  | DecodeTrailing request, Some (Trailing true) =>
      Some {| rd_reader := CheckContext request; rd_callback := rd_callback s;
              rd_deadline := rd_deadline s; rd_body_closed := rd_body_closed s;
              rd_ctx := rd_ctx s; rd_decoded := Some request |}
  | DecodeTrailing _, Some (Trailing false) =>
      Some (with_reader s (Stop (inl (ENew "unexpected trailing action input"))))
  | CheckContext request, None =>
      Some (with_reader s (Stop match rd_ctx s with Some err => inl err | None => inr request end))
  | Stop r, None =>
      match rd_callback s with
      | Armed => Some (with_callback (with_reader s (ClearDeadline r)) Stopped)
      | _ => Some (with_reader s (WaitDone r))
      end
  | WaitDone r, None =>
      match rd_callback s with
      | Finished => Some (with_reader s (ClearDeadline r))
      | _ => None
      end
  | ClearDeadline r, None => Some (with_deadline (with_reader s (Cancel r)) Cleared)
  | Cancel r, None => Some (with_ctx (with_reader s (Done r)) (ENew "context canceled"))
  | _, _ => None
  end.

(** The callback, started once its context is done. *)
Definition callback_step (s : Reading) : option Reading :=
  match rd_callback s with
  | Armed => match rd_ctx s with Some _ => Some (with_callback s Expire) | None => None end
  | Expire => Some (with_deadline (with_callback s CloseBody) Passed)
  | CloseBody =>
      Some {| rd_reader := rd_reader s; rd_callback := CloseDone; rd_deadline := rd_deadline s;
              rd_body_closed := true; rd_ctx := rd_ctx s; rd_decoded := rd_decoded s |}
  | CloseDone => Some (with_callback s Finished)
  | _ => None
  end.

Inductive Move := MvReader (a : option Answer) | MvCallback | MvContext (e : error).
Definition next (until : Time) (mv : Move) (s : Reading) : option Reading :=
  match mv with
  | MvReader a => reader_step until a s
  | MvCallback => callback_step s
  | MvContext e => Some (with_ctx s e)
  end.
Definition reading_step (until : Time) (s s' : Reading) : Prop := ∃ mv, next until mv s = Some s'.
Fixpoint drive (until : Time) (l : list Move) (s : Reading) : option Reading :=
  match l with
  | [] => Some s
  | mv :: l => s' ← next until mv s; drive until l s'
  end.
End Reader.
Arguments Reader : clear implicits.
Arguments Reading : clear implicits.
Arguments Answer : clear implicits.
Arguments Move : clear implicits.

(** ** Lemmas *)

Section Lemmas.
Context {Request : Type} (until : Time).
Implicit Types s : Reading Request.

Definition fresh (r : Reader Request) : bool :=
  match r with SetDeadline | Register => true | _ => false end.
Definition reading (r : Reader Request) : bool :=
  match r with Decode | DecodeTrailing _ => true | _ => false end.
Definition unchecked (r : Reader Request) : bool :=
  match r with CheckContext _ => true | _ => fresh r || reading r end.
(** The deferred function is past [stop] and [<-done]. *)
Definition left_behind (r : Reader Request) : bool :=
  match r with ClearDeadline _ | Cancel _ | Done _ => true | _ => false end.
Definition restored (r : Reader Request) : bool :=
  match r with Cancel _ | Done _ => true | _ => false end.
Definition outcome (r : Reader Request) : option (error + Request) :=
  match r with
  | CheckContext request => Some (inr request)
  | Stop r | WaitDone r | ClearDeadline r | Cancel r | Done r => Some r
  | _ => None
  end.
Definition running (c : Callback) : bool :=
  match c with Expire | CloseBody | CloseDone | Finished => true | _ => false end.
Definition expired (c : Callback) : bool :=
  match c with CloseBody | CloseDone | Finished => true | _ => false end.
Definition over (c : Callback) : bool := match c with Stopped | Finished => true | _ => false end.

(** Which points of the two goroutines go together. *)
Definition together (r : Reader Request) (c : Callback) : bool :=
  match r with
  | SetDeadline | Register => match c with Unregistered => true | _ => false end
  | Decode | DecodeTrailing _ | CheckContext _ | Stop _ =>
      match c with Unregistered | Stopped => false | _ => true end
  | WaitDone _ => running c
  | ClearDeadline _ | Cancel _ | Done _ => over c
  end.

Record reading_ok (s : Reading Request) : Prop := {
  ok_together : together (rd_reader s) (rd_callback s) = true;
  ok_deadline : if restored (rd_reader s) then rd_deadline s = Cleared
                else expired (rd_callback s) = true → rd_deadline s = Passed;
  ok_body : rd_body_closed s = match rd_callback s with CloseDone | Finished => true | _ => false end;
  ok_ctx : running (rd_callback s) = true → rd_ctx s ≠ None;
  ok_outcome : match outcome (rd_reader s) with
               | Some (inr request) => rd_decoded s = Some request
               | _ => True
               end }.

Lemma start_ok d ctx : reading_ok (start d ctx).
Proof. by split. Qed.

Lemma next_ok mv s s' : reading_ok s → next until mv s = Some s' → reading_ok s'.
Proof.
  destruct s as [r c d b x q]. intros [Ht Hd Hb Hx Ho]. cbn in *. destruct mv as [a| |e]; cbn.
  - unfold reader_step. cbn. destruct r, a as [[[]|[]]|]; intros Hs; simplify_eq; try by destruct c.
    all: destruct c; simplify_eq; try done; try destruct x; split; cbn; try done.
  - unfold callback_step. cbn. intros Hs.
    destruct c; simplify_eq; [destruct x; simplify_eq|..]; destruct r; try done; by split.
  - intros Hs. simplify_eq. by split.
Qed.

(** Operations that are left, at most. *)
Definition reader_left (r : Reader Request) : nat :=
  match r with
  | SetDeadline => 9 | Register => 8 | Decode => 7 | DecodeTrailing _ => 6 | CheckContext _ => 5
  | Stop _ => 4 | WaitDone _ => 3 | ClearDeadline _ => 2 | Cancel _ => 1 | Done _ => 0
  end.
Definition callback_left (c : Callback) : nat :=
  match c with
  | Unregistered => 5 | Armed => 4 | Expire => 3 | CloseBody => 2 | CloseDone => 1
  | Finished | Stopped => 0
  end.
Definition work_left s : nat := reader_left (rd_reader s) + callback_left (rd_callback s).
Definition operations (l : list (Move Request)) : nat :=
  length (List.filter (λ mv, match mv with MvContext _ => false | _ => true end) l).

Lemma next_left mv s s' : reading_ok s → next until mv s = Some s' →
  (work_left s' + match mv with MvContext _ => 0 | _ => 1 end ≤ work_left s)%nat.
Proof.
  destruct s as [r c d b x q]. intros [Ht _ _ _ _]. unfold work_left. cbn in *. destruct mv as [a| |e]; cbn.
  - unfold reader_step. cbn. destruct r, a as [[[]|[]]|]; intros Hs; simplify_eq; cbn; try lia.
    all: destruct c; simplify_eq; cbn; lia.
  - unfold callback_step. cbn. intros Hs. destruct c; simplify_eq; [destruct x; simplify_eq|..]; cbn; lia.
  - intros Hs. simplify_eq. cbn. lia.
Qed.
Lemma reading_drive_left l s s' : reading_ok s → drive until l s = Some s' → (work_left s' + operations l ≤ work_left s)%nat.
Proof.
  revert s. induction l as [|mv l IH]; intros s Hok; cbn [drive]; [intros [= <-]; cbn; lia|].
  intros (q & Hq & Hl)%bind_Some. specialize (IH q (next_ok _ _ _ Hok Hq) Hl). apply next_left in Hq; [|done].
  unfold operations in *. destruct mv; cbn [List.filter length] in *; lia.
Qed.

(** Once the deferred function is past the callback, nobody else touches the
    connection, and a result stays. *)
Lemma next_restored mv s s' r : reading_ok s → rd_reader s = Done r → next until mv s = Some s' →
  rd_reader s' = Done r.
Proof.
  destruct s as [r0 c d b x q]. cbn. intros _ ->. destruct mv as [a| |e]; cbn.
  - unfold reader_step. cbn. destruct a as [[[]|[]]|]; done.
  - unfold callback_step. cbn. intros Hs. destruct c; simplify_eq; [destruct x; simplify_eq|..]; done.
  - intros Hs. by simplify_eq.
Qed.

(** A context that is done when the function has not checked it yet ends in an
    error. *)
Definition refusing s : Prop :=
  rd_ctx s ≠ None ∧ match outcome (rd_reader s) with
                    | Some (inr _) => unchecked (rd_reader s) = true
                    | _ => True
                    end.
Lemma next_refusing mv s s' : refusing s → next until mv s = Some s' → refusing s'.
Proof.
  destruct s as [r c d b x q]. unfold refusing. cbn. intros [Hx Ho]. destruct mv as [a| |e]; cbn.
  - unfold reader_step. cbn. destruct r, a as [[[]|[]]|]; intros Hs; simplify_eq; cbn; try done;
      try (destruct c; simplify_eq; done). by destruct x.
  - unfold callback_step. cbn. intros Hs. destruct c; simplify_eq; [destruct x; simplify_eq|..]; done.
  - intros Hs. by simplify_eq.
Qed.
End Lemmas.

(** ** Property *)

(** C31: however the function, the callback and the end of its context
    interleave: it takes at most fourteen operations, and while it is not done
    one of the two goroutines can move, unless the function waits for bytes of
    the body; then, if its context is done, the callback can move or has set the
    read deadline to the past and closed the body, which ends the wait.  When it
    returns, the callback was stopped or is over, and the connection has no read
    deadline, then or ever after; a request it returns was decoded whole; and it
    returns an error if its context was done before its last check. *)
Theorem readActionRequest_settles {Request} until deadline ctx (s : Reading Request)
    (Hrun : steps (reading_step until) (start deadline ctx) s) :
  (∀ mvs (s' : Reading Request), drive until mvs (start deadline ctx) = Some s' →
     (operations mvs ≤ 14)%nat) ∧
  (reading (rd_reader s) = false → (∀ r, rd_reader s ≠ Done r) →
     ∃ mv s', (mv = MvReader None ∨ mv = MvCallback) ∧ next until mv s = Some s') ∧
  (reading (rd_reader s) = true → rd_ctx s ≠ None →
     (∃ s', next until MvCallback s = Some s') ∨ rd_deadline s = Passed ∧ rd_body_closed s = true) ∧
  (∀ r s', rd_reader s = Done r → steps (reading_step until) s s' →
     over (rd_callback s') = true ∧ rd_deadline s' = Cleared ∧ rd_reader s' = Done r) ∧
  (∀ request, rd_reader s = Done (inr request) → rd_decoded s = Some request) ∧
  (∀ r s', unchecked (rd_reader s) = true → rd_ctx s ≠ None → steps (reading_step until) s s' →
     rd_reader s' = Done r → ∃ err, r = inl err).
Proof.
  assert (Hok : ∀ x y : Reading Request, reading_ok x → reading_step until x y → reading_ok y).
  { intros a b Ha [mv Hmv]. by eapply next_ok. }
  pose proof (steps_invariant _ _ Hok _ _ (start_ok deadline ctx) Hrun) as Hs. split_and!.
  - intros mvs s' Hd. apply reading_drive_left in Hd; [|apply start_ok]. cbn in Hd. lia.
  - intros Hr Hd. destruct Hs as [Ht _ _ Hx _], s as [r c d b x q]. cbn in *.
    destruct r; try done; try by (exists (MvReader None); eexists; split; [by left|reflexivity]).
    + destruct c; (exists (MvReader None); eexists; split; [by left|cbn; reflexivity]).
    + destruct c; try done; first [by (exists MvCallback; eexists; split; [by right|cbn; reflexivity])
                                  |by (exists (MvReader None); eexists; split; [by left|cbn; reflexivity])].
    + by destruct (Hd r).
  - intros Hr Hc. destruct Hs as [Ht Hd Hb _ _], s as [r c d b x q]. cbn in *.
    destruct x; [|done]. destruct r; try done; destruct c; try done; cbn in *;
      first [left; eexists; reflexivity|right; split; auto].
  - intros r s' Hr Hst.
    assert (Hkeep : ∀ a b : Reading Request, reading_ok a ∧ rd_reader a = Done r →
      reading_step until a b → reading_ok b ∧ rd_reader b = Done r).
    { intros a b [Ha Har] [mv Hmv]. split; [by eapply next_ok|by eapply next_restored]. }
    destruct (steps_invariant _ _ Hkeep _ _ (conj Hs Hr) Hst) as [[Ht Hd _ _ _] Hr'].
    rewrite Hr' in Ht, Hd. done.
  - intros request Hr. pose proof (ok_outcome _ Hs) as Ho. by rewrite Hr in Ho.
  - intros r s' Hu Hc Hst Hr.
    assert (Hkeep : ∀ a b : Reading Request, refusing a → reading_step until a b → refusing b)
      by (intros a b Ha [mv Hmv]; by eapply next_refusing).
    assert (Href : refusing s) by (split; [done|]; by destruct (rd_reader s)).
    destruct (steps_invariant _ _ Hkeep _ _ Href Hst) as [_ Ho].
    rewrite Hr in Ho. destruct r; [by eexists|done].
Qed.

(** A client that sends nothing: the timeout strikes while the body is read, and
    the function waits for the callback before it clears the deadline. *)
Definition slow_moves : list (Move Z) :=
  [MvReader None; MvReader None; MvContext (ENew "context deadline exceeded"); MvCallback; MvCallback;
   MvReader (Some (Decoded (inl (ENew "i/o timeout")))); MvReader None; MvCallback; MvCallback;
   MvReader None; MvReader None; MvReader None].
Definition slow_end : option (Reading Z) := Eval vm_compute in drive 30 slow_moves (start (Until 5) None).
Example slow_waits :
  drive 30 (take 8 slow_moves ++ [MvReader None]) (start (Request := Z) (Until 5) None) = None.
Proof. reflexivity. Qed.

Lemma reading_drive_steps {Request} until l (s0 s s' : Reading Request) :
  steps (reading_step until) s0 s → drive until l s = Some s' → steps (reading_step until) s0 s'.
Proof.
  revert s. induction l as [|mv l IH]; intros s Hs; cbn [drive]; [by intros [= <-]|].
  intros (q & Hq & Hl)%bind_Some. apply (IH q); [|done]. eapply steps_step; [exact Hs|by exists mv].
Qed.

Lemma readActionRequest_settles_witness :
  ∃ s : Reading Z, slow_end = Some s ∧ rd_reader s = Done (inl (ENew "i/o timeout")) ∧
    over (rd_callback s) = true ∧ rd_deadline s = Cleared.
Proof.
  eexists. split; [vm_compute; reflexivity|]. split; [reflexivity|].
  match goal with |- over (rd_callback ?s) = true ∧ _ =>
    assert (Hd : drive 30 slow_moves (start (Until 5) None) = Some s) by (vm_compute; reflexivity);
    pose proof (reading_drive_steps _ _ _ _ _ (steps_refl _ _) Hd) as Hrun end.
  destruct (proj1 (proj2 (proj2 (proj2 (readActionRequest_settles 30 (Until 5) None _ Hrun)))) _ _
    eq_refl (steps_refl _ _)) as (Hc & Hcl & _). split; [exact Hc|exact Hcl].
Defined.
