(* ===== verification/OAuth.v ===== *)
(** * oauthgithub/oauth.go: connecting an account with GitHub

    [FromEnv] reads the configuration; the handler serves the probe, the start
    of the popup flow and its callback, which exchanges a code for a token and
    posts the token to the portal's window.  URLs and the OAuth library are
    parameters, the token endpoint and GitHub's API operations of a world.  A
    rendered page is the data its fixed template has holes for. *)

From S2P Require Import Prelude GoStrings Encoding Json GoTime Errors.
From Stdlib Require Import Ascii Lia.

#[local] Open Scope string_scope.

(** ** Configuration *)

Record Config := {
  oc_ClientID : string; oc_ClientSecret : string; oc_RedirectURL : string; oc_StartURL : string;
  oc_PortalOrigin : string; oc_Scopes : list string }.
Definition no_config : Config :=
  {| oc_ClientID := ""; oc_ClientSecret := ""; oc_RedirectURL := ""; oc_StartURL := "";
     oc_PortalOrigin := ""; oc_Scopes := [] |}.

(** The part of [net/url] in use. *)
Class NetURL (U : Type) := {
  url_Parse : string → error + U;
  url_Path : U → string;
  url_setPath : string → U → U;
  url_setRawQuery : string → U → U;
  url_setFragment : string → U → U;
  url_String : U → string }.

Definition comma : ascii := ","%char.
Definition defaultScopes : string :=
  "repo,workflow,delete_repo,read:org,admin:public_key,read:packages".
Definition parseScopes (scopes : string) : list string :=
  List.filter (λ s, negb (bool_decide (s = ""))) (TrimSpace <$> SplitByte comma scopes).

Section FromEnv.
Context {U : Type} `{NetURL U} (getenv : string → string).

Definition startURL (u : U) : string :=
  url_String (url_setFragment "" (url_setRawQuery ""
    (url_setPath (TrimSuffix (url_Path u) "/callback" +:+ "/start") u))).

(** The configuration, whether the flow is enabled, and the error. *)
Definition FromEnv : Config * bool * option error :=
  let id := getenv "GITHUB_OAUTH_CLIENT_ID" in
  let secret := getenv "GITHUB_OAUTH_CLIENT_SECRET" in
  let redirect := getenv "GITHUB_OAUTH_REDIRECT_URL" in
  if decide (id = "" ∨ secret = "" ∨ redirect = "") then (no_config, false, None)
  else match url_Parse redirect with
  | inl err => (no_config, false, Some (Wrap "GITHUB_OAUTH_REDIRECT_URL: " err))
  | inr u =>
      if negb (HasSuffix (url_Path u) "/callback") then
        (no_config, false, Some (ENew ("GITHUB_OAUTH_REDIRECT_URL path must end in /callback, got "
                                       +:+ Quote (url_Path u))))
      else
        let origin := getenv "GITHUB_OAUTH_PORTAL_ORIGIN" in
        let origin := if decide (origin = "") then "*" else origin in
        let scopes := getenv "GITHUB_OAUTH_SCOPES" in
        let scopes := if decide (scopes = "") then defaultScopes else scopes in
        ({| oc_ClientID := id; oc_ClientSecret := secret; oc_RedirectURL := redirect;
            oc_StartURL := startURL u; oc_PortalOrigin := origin;
            oc_Scopes := parseScopes scopes |}, true, None)
  end.
End FromEnv.

(** ** The handler *)

Record Handler := { hd_cfg : Config; hd_enabled : bool }.
Definition NewHandler (cfg : Config) (enabled : bool) : Handler :=
  {| hd_cfg := cfg; hd_enabled := enabled |}.

Record configResponse := { cr_Enabled : bool; cr_StartURL : string; cr_Scopes : string }.
Record callbackResult := {
  res_State : string; res_Token : string; res_Login : string; res_Scopes : string;
  res_Error : string }.

(** The page of the callback: the holes of [callbackScriptTmpl] and of the
    status page around it. *)
Inductive PageState := PageSuccess | PageError.
Record Page := {
  pg_Payload : string; pg_Origin : string; pg_Heading : string; pg_Message : string;
  pg_State : PageState }.
Inductive Response :=
  | RHttpError (code : Z) (msg : string)
  | RRedirect (code : Z) (url : string)
  | RConfig (c : configResponse)
  | RPage (p : Page).

Definition StatusOK : Z := 200.
Definition StatusFound : Z := 302.
Definition StatusBadRequest : Z := 400.
Definition StatusNotFound : Z := 404.

Definition handleConfig (h : Handler) : Response :=
  RConfig (if hd_enabled h
           then {| cr_Enabled := true; cr_StartURL := oc_StartURL (hd_cfg h);
                   cr_Scopes := GoStrings.Join ", " (oc_Scopes (hd_cfg h)) |}
           else {| cr_Enabled := false; cr_StartURL := ""; cr_Scopes := "" |}).

Definition payload (res : callbackResult) : list (string * string) :=
  [("error", res_Error res); ("login", res_Login res); ("scopes", res_Scopes res);
   ("state", res_State res); ("token", res_Token res); ("type", "railgrid-github-oauth")].
Definition renderResult (h : Handler) (res : callbackResult) : Response :=
  RPage {|
    pg_Payload := json_map (payload res); pg_Origin := oc_PortalOrigin (hd_cfg h);
    pg_Heading := (if decide (res_Error res ≠ "") then "GitHub connection failed"
                   else "GitHub connected");
    pg_Message := (if decide (res_Error res ≠ "") then "GitHub could not be connected."
                   else "Connected — you can close this window.");
    pg_State := if decide (res_Error res ≠ "") then PageError else PageSuccess |}.
Definition failed (state err : string) : callbackResult :=
  {| res_State := state; res_Token := ""; res_Login := ""; res_Scopes := ""; res_Error := err |}.

(** The answer of [GET https://api.github.com/user]. *)
Record UserResponse := {
  ur_Scopes : string; ur_StatusCode : Z; ur_Status : string; ur_Login : error + string }.

Inductive OAuthEvent :=
  | OExchange (code : string) (r : error + string)
  | OUser (token : string) (r : error + UserResponse)
  | ONow (t : Time).

(** [oa_exchange] is [oauth2.Config.Exchange] with the configured client, and
    the access token it answers; the world knows its deadline. *)
Class OAuthWorld (W : Type) := {
  oa_exchange : string → W → (error + string) * W;
  oa_user : string → W → (error + UserResponse) * W;
  oa_now : W → Time * W }.

Section Callback.
Context {W : Type} `{OAuthWorld W}.

(** The login and scopes; an error leaves the scopes that were read. *)
Definition fetchUser (token : string) : M W OAuthEvent (string * string * option error) :=
  r ← call (oa_user token) (OUser token);
  mret (match r with
        | inl err => ("", "", Some err)
        | inr resp =>
            if decide (ur_StatusCode resp ≠ StatusOK) then
              ("", ur_Scopes resp, Some (ENew ("github /user: " +:+ ur_Status resp)))
            else match ur_Login resp with
                 | inl err => ("", ur_Scopes resp, Some err)
                 | inr login => (login, ur_Scopes resp, None)
                 end
        end).

Definition handleCallback (h : Handler) (q : string → string) : M W OAuthEvent Response :=
  if negb (hd_enabled h) then mret (RHttpError StatusNotFound "github oauth not configured")
  else if decide (q "error" ≠ "") then
    mret (renderResult h (failed (q "state") (q "error" +:+ ": " +:+ q "error_description")))
  else if decide (q "code" = "" ∨ q "state" = "") then
    mret (renderResult h (failed (q "state") "missing code or state"))
  else
    tok ← call (oa_exchange (q "code")) (OExchange (q "code"));
    match tok with
    | inl err =>
        now ← call oa_now ONow;
        mret (renderResult h (failed (q "state") ("token exchange failed: " +:+ ErrorText now err)))
    | inr token =>
        '(login, scopes, err) ← fetchUser token;
        let login := match err with Some _ => "" | None => login end in
        mret (renderResult h {| res_State := q "state"; res_Token := token; res_Login := login;
                                res_Scopes := scopes; res_Error := "" |})
    end.
End Callback.

(** [authCodeURL] is [oauth2.Config.AuthCodeURL] with the configured client. *)
Definition handleStart (authCodeURL : string → string) (h : Handler) (q : string → string)
    : Response :=
  if negb (hd_enabled h) then RHttpError StatusNotFound "github oauth not configured"
  else if decide (q "state" = "") then RHttpError StatusBadRequest "missing state"
  else RRedirect StatusFound (authCodeURL (q "state")).

(** The routes that [Mount] registers. *)
Definition serveOAuth {W} `{OAuthWorld W} (authCodeURL : string → string) (h : Handler)
    (path : string) (q : string → string) : option (M W OAuthEvent Response) :=
  if decide (path = "/oauth/github/config") then Some (mret (handleConfig h))
  else if decide (path = "/oauth/github/start") then Some (mret (handleStart authCodeURL h q))
  else if decide (path = "/oauth/github/callback") then Some (handleCallback h q)
  else None.

(** ** Lemmas *)

(** A flow is enabled only with a callback URL that names its start page, an
    origin and scopes without blanks. *)
Lemma FromEnv_enabled {U} `{NetURL U} getenv cfg err :
  FromEnv getenv = (cfg, true, err) →
  err = None ∧ oc_ClientID cfg ≠ "" ∧ oc_ClientSecret cfg ≠ "" ∧ oc_PortalOrigin cfg ≠ "" ∧
  (∃ u p, url_Parse (oc_RedirectURL cfg) = inr u ∧ url_Path u = p +:+ "/callback" ∧
     oc_StartURL cfg = url_String (url_setFragment "" (url_setRawQuery "" (url_setPath (p +:+ "/start") u)))) ∧
  Forall (λ s, s ≠ "" ∧ TrimSpace s = s ∧ ContainsByte s comma = false) (oc_Scopes cfg).
Proof.
  unfold FromEnv. case_decide as He; [done|].
  destruct (url_Parse _) as [e|u] eqn:Hu; [done|].
  destruct (HasSuffix _ _) eqn:Hs; [|done]. intros [= <- <-]. cbn [negb].
  split_and!; [done|by tauto|by tauto| | |].
  - cbn [oc_PortalOrigin]. by case_decide.
  - apply HasSuffix_spec in Hs as [p Hp]. exists u, p. split_and!; [done..|].
    cbn [oc_StartURL]. unfold startURL. by rewrite Hp, TrimSuffix_app.
  - apply Forall_forall. cbn [oc_Scopes]. unfold parseScopes.
    intros s [(x & -> & Hx)%list_elem_of_fmap Hn%negb_true_iff%bool_decide_eq_false]%elem_filter.
    split_and!; [done|apply TrimSpace_idemp|]. apply TrimSpace_no_byte.
    exact (proj1 (Forall_forall _ _) (SplitByte_no_sep comma _) _ Hx).
Qed.

(** What a page tells the portal. *)
Definition tells (h : Handler) (r : Response) (res : callbackResult) : Prop :=
  ∃ p, r = RPage p ∧ pg_Origin p = oc_PortalOrigin (hd_cfg h) ∧
    Forall script_safe (bytes_of (pg_Payload p)) ∧
    json_read_map (pg_Payload p) = Some (json_pair <$> payload res) ∧
    (pg_State p = PageSuccess ↔ res_Error res = "").

Lemma renderResult_tells h res : tells h (renderResult h res) res.
Proof.
  eexists. split; [done|]. cbn [pg_Origin pg_Payload pg_State].
  split_and!; [done|apply map_safe|apply read_map|]. by case_decide; split; intros ?.
Qed.

Lemma fetchUser_emits {W} `{OAuthWorld W} token :
  emits (fetchUser token) (λ r t, ∃ u, t = [OUser token u] ∧
    match u with
    | inl err => r = ("", "", Some err)
    | inr resp => r.1.2 = ur_Scopes resp ∧
        (r.2 = None → ur_StatusCode resp = StatusOK ∧ ur_Login resp = inr r.1.1)
    end).
Proof.
  unfold fetchUser. apply emits_bind, emits_call. intros u. apply emits_ret. exists u.
  split; [done|]. destruct u as [err|resp]; [done|].
  case_decide as Hs; [done|]. by destruct (ur_Login resp).
Qed.

(** What a run of the callback does and tells. *)
Definition callback_contract (h : Handler) (q : string → string) (r : Response)
    (t : list OAuthEvent) : Prop :=
  if hd_enabled h then
    ∃ res, tells h r res ∧ res_State res = q "state" ∧
    match t with
    | [] => (q "error" ≠ "" ∨ q "code" = "" ∨ q "state" = "") ∧ res_Token res = "" ∧ res_Error res ≠ ""
    | [OExchange code (inl _); ONow _] =>
        code = q "code" ∧ q "error" = "" ∧ code ≠ "" ∧ q "state" ≠ "" ∧
        res_Token res = "" ∧ res_Error res ≠ ""
    | [OExchange code (inr token); OUser shown u] =>
        code = q "code" ∧ q "error" = "" ∧ code ≠ "" ∧ q "state" ≠ "" ∧ shown = token ∧
        res_Token res = token ∧ res_Error res = "" ∧
        match u with
        | inl _ => res_Login res = "" ∧ res_Scopes res = ""
        | inr resp => res_Scopes res = ur_Scopes resp ∧
            (res_Login res ≠ "" → ur_StatusCode resp = StatusOK ∧ ur_Login resp = inr (res_Login res))
        end
    | _ => False
    end
  else r = RHttpError StatusNotFound "github oauth not configured" ∧ t = [].

Lemma handleCallback_emits {W} `{OAuthWorld W} h q :
  emits (handleCallback h q) (callback_contract h q).
Proof.
  unfold callback_contract.
  unfold handleCallback. destruct (hd_enabled h); cbn [negb]; [|by apply emits_ret].
  case_decide as Herr.
  { apply emits_ret. eexists. split; [apply renderResult_tells|].
    split_and!; [done|by left|done|]. cbn. by destruct (q "error"). }
  case_decide as Hcs.
  { apply emits_ret. eexists. split; [apply renderResult_tells|]. split_and!; [done|by right|done|done]. }
  assert (q "code" ≠ "" ∧ q "state" ≠ "") as [Hc Hs] by tauto.
  apply emits_bind, emits_call. intros [err|token].
  { apply emits_bind, emits_call. intros now. apply emits_ret.
    eexists. split; [apply renderResult_tells|]. by split_and!. }
  apply emits_bind. eapply emits_mono; [apply fetchUser_emits|].
  intros [[login scopes] err] t (u & -> & Hu). apply emits_ret.
  eexists. split; [apply renderResult_tells|]. cbn [app].
  split_and!; [done..|]. cbn [res_Login res_Scopes]. destruct u as [e|resp]; [by injection Hu as -> -> ->|].
  destruct Hu as [Hsc Hl]. split; [done|]. destruct err; [done|]. intros _. by apply Hl.
Qed.

(** ** Property *)

(** C22: what the callback does, on every outcome.  A disabled handler answers
    404.  Otherwise the answer is a page that posts to the configured origin
    the state it was given, as JSON that holds no byte which could end the
    script or start a tag, and that reads back as exactly the fields.  Without
    a code or state, or when the host reports an error, nothing is called and
    the page carries an error and no token; so it does when the exchange of
    that code, made once, fails; else it carries the token the exchange
    answered, which was shown to no one but the host's user endpoint, and a
    login only if that endpoint answered 200 with it. *)
Theorem callback_outcomes {W} `{OAuthWorld W} h q (w w' : W) r t
    (Hrun : handleCallback h q w = (r, w', t)) : callback_contract h q r t.
Proof. pose proof (handleCallback_emits h q w) as He. by rewrite Hrun in He. Qed.

(** A successful callback, with a hostile state. *)
#[local] Instance demo_oauth : OAuthWorld unit := {
  oa_exchange code w := (inr ("token-of-" +:+ code), w);
  oa_user token w := (inr {| ur_Scopes := "repo"; ur_StatusCode := 200; ur_Status := "200 OK";
                             ur_Login := inr "octo" |}, w);
  oa_now w := (0%Z, w) }.
Definition demo_query (k : string) : string :=
  if decide (k = "code") then "c0de" else if decide (k = "state") then "</script>" else "".
Definition demo_handler : Handler :=
  NewHandler {| oc_ClientID := "id"; oc_ClientSecret := "secret"; oc_RedirectURL := ""; oc_StartURL := "";
    oc_PortalOrigin := "https://portal"; oc_Scopes := [] |} true.

Lemma callback_outcomes_witness :
  ∃ r t, handleCallback demo_handler demo_query tt = (r, tt, t) ∧
    t = [OExchange "c0de" (inr "token-of-c0de");
         OUser "token-of-c0de" (inr {| ur_Scopes := "repo"; ur_StatusCode := 200;
                                       ur_Status := "200 OK"; ur_Login := inr "octo" |})] ∧
    callback_contract demo_handler demo_query r t.
Proof.
  eexists _, _. split; [vm_compute; reflexivity|]. split; [reflexivity|].
  eapply (callback_outcomes demo_handler demo_query tt tt). vm_compute. reflexivity.
Defined.
