(* ===== verification/Install.v ===== *)
(** * install/endpointslice.go: the provider's endpoint slice

    Every replica ensures at start-up that the slice exists and names the
    provider's workspace; an export path is immutable, so a stale slice is
    deleted and created again.  Replicas are not ordered, so the function is
    one step per call of the API server and the system a step relation over
    the shared slice.  A slice is what the function reads of it, its path. *)

From S2P Require Import Prelude GoStrings GoTime Errors.
From Stdlib Require Import Ascii Lia.

#[local] Open Scope string_scope.

Definition APIExportName : string := "code.providers.railgrid.ai".
Definition APIExportEndpointSliceName : string := "code.providers.railgrid.ai".

(** ** One run *)

(** The call a replica makes next; [again] after a deletion. *)
Inductive Stage :=
  | Starting
  | Reading
  | Deleting
  | Creating (again : bool)
  | Returned (r : option error).

Section Ensure.
(** [client] is [dynamic.NewForConfig] and [encoded] [toUnstructured], of the
    wanted slice. *)
Context (client encoded : option error) (workspacePath : string).

Definition start : Stage :=
  if decide (workspacePath = "") then
    Returned (Some (ENew "workspacePath is required to publish APIExportEndpointSlice endpoints"))
  else match client with
  | Some err => Returned (Some (Wrap "dynamic client: " err))
  | None =>
      match encoded with
      | Some err => Returned (Some (Wrap "to unstructured: " err))
      | None => Reading
      end
  end.

(** The answers of the server: of [Get], of [Delete] and of [Create]. *)
Definition read (r : error + string) : Stage :=
  match r with
  | inl err => if IsNotFound err then Creating false
               else Returned (Some (Wrap "get existing APIExportEndpointSlice: " err))
  | inr existingPath => if decide (existingPath = workspacePath) then Returned None else Deleting
  end.
Definition deleted (r : option error) : Stage :=
  match r with
  | Some err => if IsNotFound err then Creating true
                else Returned (Some (Wrap "delete stale APIExportEndpointSlice: " err))
  | None => Creating true
  end.
Definition created (again : bool) (r : option error) : Stage :=
  match r with
  | Some err => if IsAlreadyExists err then Returned None
                else Returned (Some (Wrap (if again then "recreate APIExportEndpointSlice: "
                                           else "create APIExportEndpointSlice: ") err))
  | None => Returned None
  end.

(** ** The API server

    The slice's path, if it exists.  [fault] is an error of the call itself,
    which then did nothing. *)
Definition not_found : error := EStatus NotFound "apiexportendpointslice not found".
Definition already_exists : error := EStatus AlreadyExists "apiexportendpointslice exists".

Definition advance (fault : option error) (slice : option string) (s : Stage)
    : option string * Stage :=
  match s with
  | Starting => (slice, start)
  | Reading =>
      (slice, read (match fault, slice with
                    | Some err, _ => inl err
                    | None, None => inl not_found
                    | None, Some path => inr path
                    end))
  | Deleting =>
      match fault, slice with
      | Some err, _ => (slice, deleted (Some err))
      | None, None => (slice, deleted (Some not_found))
      | None, Some _ => (None, deleted None)
      end
  | Creating again =>
      match fault, slice with
      | Some err, _ => (slice, created again (Some err))
      | None, Some _ => (slice, created again (Some already_exists))
      | None, None => (Some workspacePath, created again None)
      end
  | Returned _ => (slice, s)
  end.

(** A replica that runs alone; [faults] are those of its calls. *)
Fixpoint run (faults : list (option error)) (slice : option string) (s : Stage)
    : option string * Stage :=
  match faults with
  | [] => (slice, s)
  | f :: faults => let '(slice, s) := advance f slice s in run faults slice s
  end.
Definition EnsureAPIExportEndpointSlice (slice : option string) : option string * Stage :=
  run [None; None; None; None] slice Starting.

(** ** Replicas *)

Record Cluster := { cl_slice : option string; cl_replicas : list Stage }.

(** A call fails with an error of its own: neither of the two answers that the
    function takes for a success. *)
Definition real_fault (fault : option error) : Prop :=
  match fault with
  | None => True
  | Some err => IsNotFound err = false ∧ IsAlreadyExists err = false
  end.
Definition cluster_step (c c' : Cluster) : Prop :=
  ∃ i s fault, cl_replicas c !! i = Some s ∧ real_fault fault ∧
    c' = {| cl_slice := (advance fault (cl_slice c) s).1;
            cl_replicas := <[i := (advance fault (cl_slice c) s).2]> (cl_replicas c) |}.

(** ** Lemmas *)

(** Who has read that the slice is absent or right, or has deleted it, leaves
    no stale slice; and a right slice is missing only while someone is about
    to create it, or failed to. *)
Definition past (s : Stage) : Prop :=
  match s with Creating _ | Returned None => True | _ => False end.
Definition gave_up (s : Stage) : Prop := match s with Returned (Some _) => True | _ => False end.
Definition owes (s : Stage) : Prop := match s with Creating _ => True | _ => gave_up s end.
Definition some_replica (P : Stage → Prop) (c : Cluster) : Prop :=
  ∃ i s, cl_replicas c !! i = Some s ∧ P s.

Definition cluster_ok (c : Cluster) : Prop :=
  (some_replica past c → cl_slice c = None ∨ cl_slice c = Some workspacePath) ∧
  (some_replica (λ s, s = Returned None) c →
     cl_slice c = Some workspacePath ∨ some_replica owes c).

Lemma start_first : start = Reading ∨ gave_up start.
Proof.
  unfold start. case_decide; [by right|]. destruct client; [by right|].
  destruct encoded; [by right|by left].
Qed.

(** What one step does to the slice, as far as the others care. *)
Inductive effect (slice : option string) (s : Stage) : option string → Stage → Prop :=
  | ef_wait s' : ¬ past s' → ¬ owes s → effect slice s slice s'
  | ef_owe slice' s' : owes s' → slice' = slice ∨ slice' = None → (past s' → slice' = None) →
      effect slice s slice' s'
  | ef_right s' : slice = None ∨ slice = Some workspacePath →
      effect slice s (Some workspacePath) s'
  | ef_done : effect slice s slice s.

Lemma advance_effect fault slice s : real_fault fault →
  (past s → slice = None ∨ slice = Some workspacePath) →
  effect slice s (advance fault slice s).1 (advance fault slice s).2.
Proof.
  intros Hf Hp. destruct s as [| | |again|r]; cbn [advance fst snd].
  - destruct start_first as [Hs|Hs]; [rewrite Hs; by apply ef_wait; intros []|].
    apply ef_wait; [|by intros []]. revert Hs. generalize start. by intros [| | |?|[?|]] [] [].
  - destruct fault as [err|]; [|destruct slice as [path|]]; cbn [read].
    + destruct Hf as [-> _]. by apply ef_wait; intros [].
    + case_decide as Hw; [subst path; apply ef_right; by right|by apply ef_wait; intros []].
    + apply ef_owe; [done|by left|done].
  - destruct fault as [err|]; [|destruct slice as [path|]]; cbn [deleted fst snd].
    + destruct Hf as [-> _]. apply ef_owe; [done|by left|done].
    + apply ef_owe; [done|by right|done].
    + apply ef_owe; [done|by left|done].
  - destruct (Hp I) as [->| ->]; destruct fault as [err|]; cbn [created fst snd].
    1,3: destruct Hf as [_ ->]; apply ef_owe; [done|by left|done].
    all: apply ef_right; auto.
  - apply ef_done.
Qed.

Lemma cluster_step_ok c c' : cluster_ok c → cluster_step c c' → cluster_ok c'.
Proof.
  intros [Hpast Hnone] (i & s & fault & Hi & Hf & ->).
  assert (Hlt := lookup_lt_Some _ _ _ Hi).
  assert (Hp : past s → cl_slice c = None ∨ cl_slice c = Some workspacePath)
    by (intros Hs; apply Hpast; by exists i, s).
  pose proof (advance_effect fault (cl_slice c) s Hf Hp) as He.
  destruct (advance fault (cl_slice c) s) as [slice' s']. cbn [fst snd] in *.
  assert (Hother : ∀ P, some_replica P {| cl_slice := slice'; cl_replicas := <[i:=s']> (cl_replicas c) |} →
    P s' ∨ some_replica P c).
  { intros P (j & x & Hj & Hx). cbn [cl_replicas] in Hj.
    apply list_lookup_insert_Some in Hj as [(_ & <- & _)|[_ Hj]]; [by left|right; by exists j, x]. }
  assert (Howes : ∀ P, P s' ∨ (¬ P s ∧ some_replica P c) →
    some_replica P {| cl_slice := slice'; cl_replicas := <[i:=s']> (cl_replicas c) |}).
  { intros P [Hs'|[Hs (j & x & Hj & Hx)]]; unfold some_replica; cbn [cl_replicas].
    - exists i, s'. split; [by apply list_lookup_insert_eq|done].
    - exists j, x. split; [|done]. rewrite list_lookup_insert_ne; [done|]. intros ->. congruence. }
  unfold cluster_ok. cbn [cl_slice]. destruct He as [s' Hs' Hs|slice' s' Ho Hsl Hps|s' Hsl|].
  - split; [intros [?|?]%Hother; [done|by apply Hpast]|].
    intros [->|H]%Hother; [by exfalso; apply Hs'|].
    destruct (Hnone H) as [?|?]; [by left|right; apply Howes; by right].
  - split; [|intros _; right; apply Howes; by left].
    intros [H|H]%Hother; [left; by apply Hps|].
    destruct Hsl as [->| ->]; [by apply Hpast|by left].
  - split; intros _; [by right|by left].
  - rewrite list_insert_id by done. split; [apply Hpast|apply Hnone].
Qed.

(** A slice that is right already stays, untouched. *)
Definition at_rest (c : Cluster) : Prop :=
  cl_slice c = Some workspacePath ∧
  Forall (λ s, s = Starting ∨ s = Reading ∨ ∃ r, s = Returned r) (cl_replicas c).

Lemma cluster_step_rest c c' : at_rest c → cluster_step c c' → at_rest c'.
Proof.
  intros [Hs Hall] (i & s & fault & Hi & Hf & ->). unfold at_rest. cbn [cl_slice cl_replicas].
  pose proof (Forall_lookup_1 _ _ _ _ Hall Hi) as Hst. rewrite Hs.
  assert ((advance fault (Some workspacePath) s).1 = Some workspacePath ∧
    (advance fault (Some workspacePath) s).2 ∈ [start; Reading; s] ∨
    (advance fault (Some workspacePath) s).1 = Some workspacePath ∧
    ∃ r, (advance fault (Some workspacePath) s).2 = Returned r) as Hadv.
  { destruct Hst as [->|[->|[r ->]]]; cbn [advance fst snd].
    - left. split; [done|by left].
    - right. split; [done|]. destruct fault as [err|]; cbn [read];
        [destruct Hf as [-> _]; by eexists|rewrite decide_True by done; by eexists].
    - right. split; [done|by eexists]. }
  destruct Hadv as [[-> Hin]|[-> [r Hr]]]; (split; [done|]); apply Forall_insert; try done;
    [|right; right; by exists r].
  rewrite !elem_of_cons in Hin. destruct Hin as [->|[->|[->|[]%elem_of_nil]]]; auto.
  destruct start_first as [->|Hg]; [auto|].
  right. right. revert Hg. generalize start. intros [| | |?|[?|]] []. by eexists.
Qed.
End Ensure.

(** ** Property *)

(** C38: replicas agree on the slice.  From any slice, however many replicas
    call the API server in any order, with any failures of its calls, once all
    have returned and none gave up the slice exists with the wanted path; a
    slice that is right to begin with is never touched; and a replica that
    runs alone and meets no failure needs at most three calls. *)
Theorem replicas_agree workspacePath client encoded slice n c
    (Hrun : steps (cluster_step client encoded workspacePath)
              {| cl_slice := slice; cl_replicas := replicate n Starting |} c) :
  ((0 < n)%nat → (∀ s, s ∈ cl_replicas c → s = Returned None) → cl_slice c = Some workspacePath) ∧
  (slice = Some workspacePath → cl_slice c = Some workspacePath) ∧
  (workspacePath ≠ "" → client = None → encoded = None →
   EnsureAPIExportEndpointSlice client encoded workspacePath slice
     = (Some workspacePath, Returned None)).
Proof.
  assert (Hstart : ∀ i s, replicate n Starting !! i = Some s → s = Starting)
    by (intros i s Hi; by apply lookup_replicate in Hi as [-> _]).
  assert (Hlen : length (cl_replicas c) = n).
  { refine (steps_invariant _ (λ c, length (cl_replicas c) = n) _ _ _ _ Hrun); [|apply length_replicate].
    intros x y Hx (i & s & fault & _ & _ & ->). cbn [cl_replicas]. by rewrite length_insert. }
  assert (Hok : cluster_ok workspacePath c).
  { refine (steps_invariant _ (cluster_ok workspacePath) _ _ _ _ Hrun); [intros x y; apply cluster_step_ok|].
    split; intros (i & s & Hi & Hs); cbn [cl_replicas] in Hi; apply Hstart in Hi; by subst s. }
  split_and!.
  - intros Hn Hall. destruct Hok as [_ Hok].
    assert (Hret : ∀ i s, cl_replicas c !! i = Some s → s = Returned None).
    { intros i s Hi. apply Hall. by eapply list_elem_of_lookup_2. }
    destruct Hok as [?|(i & s & Hi & Hs)]; [|done|].
    + destruct (lookup_lt_is_Some_2 (cl_replicas c) 0) as [s Hs]; [lia|]. exists 0%nat, s.
      split; [done|by eapply Hret].
    + by rewrite (Hret i s Hi) in Hs.
  - intros Hs. refine (proj1 (steps_invariant _ (at_rest workspacePath) _ _ _ _ Hrun)).
    + intros x y. apply cluster_step_rest.
    + split; [exact Hs|]. apply Forall_replicate. by left.
  - intros Hw -> ->. unfold EnsureAPIExportEndpointSlice. cbn [run advance]. unfold start.
    rewrite decide_False by done. cbn [advance]. destruct slice as [path|]; cbn [read advance].
    + case_decide as Hp; [by subst path|]. done.
    + done.
Qed.

(** Two replicas find a stale slice; the second deletes what the first created
    and creates it again. *)
Definition interleave (who : list nat) (c : Cluster) : Cluster :=
  fold_left (λ c i, match cl_replicas c !! i with
    | Some s => {| cl_slice := (advance None None "root:code" None (cl_slice c) s).1;
                   cl_replicas := <[i := (advance None None "root:code" None (cl_slice c) s).2]>
                                    (cl_replicas c) |}
    | None => c end) who c.
Lemma interleave_steps who c : steps (cluster_step None None "root:code") c (interleave who c).
Proof.
  assert (Hgo : ∀ c0 c, steps (cluster_step None None "root:code") c0 c →
    steps (cluster_step None None "root:code") c0 (interleave who c)); [|apply Hgo; constructor].
  clear c. induction who as [|i who IH]; intros c0 c Hc; [done|].
  cbn [interleave fold_left]. apply IH. destruct (cl_replicas c !! i) as [s|] eqn:Hi; [|done].
  eapply steps_step; [exact Hc|]. by exists i, s, None.
Qed.
Definition stale_start : Cluster :=
  {| cl_slice := Some "root:old"; cl_replicas := replicate 2 Starting |}.
Definition stale_end : Cluster := interleave [0; 1; 0; 1; 0; 0; 1; 1]%nat stale_start.

Lemma replicas_agree_witness :
  cl_slice (interleave [0; 1; 0; 1; 0; 0; 1]%nat stale_start) = None ∧
  cl_replicas stale_end = [Returned None; Returned None] ∧ cl_slice stale_end = Some "root:code".
Proof.
  split; [vm_compute; reflexivity|]. split; [vm_compute; reflexivity|].
  apply (proj1 (replicas_agree "root:code" None None (Some "root:old") 2 stale_end
    (interleave_steps _ stale_start))); [lia|].
  intros s Hs. vm_compute in Hs. by apply (proj1 (Forall_forall (λ s, s = Returned None)
    [Returned None; Returned None]) ltac:(by repeat constructor)).
Defined.
