(* ===== verification/Serving.v ===== *)
(** * server/server.go and assets.go: the HTTP server

    [New] registers the health check, the readiness check, the MCP transport,
    the repository actions, the OAuth routes and the portal on one multiplexer;
    the portal answers from the files embedded at build time.  Response bodies
    that a library produces (MCP envelopes, readiness) are the library's. *)

From S2P Require Import Prelude GoStrings Encoding Json GoTime Errors Api Backend Tenant.
From S2P Require Import Dynamic McpWrite McpRequests McpServer OAuth ActionsServer ActionsContract Mux.
From Stdlib Require Import Ascii Lia.

#[local] Open Scope string_scope.

(** ** Requests and responses *)

(** [rq_Header] and [rq_Query] are [Header.Get] and [URL.Query().Get]. *)
Record HttpReq := {
  rq_Method : string; rq_RequestURI : string; rq_Path : string; rq_RawPath : string;
  rq_Header : string → string; rq_Query : string → string }.

Inductive HttpResponse :=
  | WBadRequest
  | WRedirect (path : string)
  | WNotFound
  | WMethodNotAllowed
  | WHealthz (body : string)
  | WReadiness (r : option error)
  | WMcp (l : list (option Answer))
  | WAction (r : ActionsServer.Response)
  | WOAuth (r : OAuth.Response)
  | WAborted
  | WAsset (contentType body : string)
  | WIndex (body : string)
  | WListing.

Definition Handler (W Ev : Type) : Type := HttpReq → M W Ev HttpResponse.

(** ** Embedded files *)

Inductive Entry := EFile (content : string) | EDir.

(** The outcome of [fs.FS.Open]: a directory opens too. *)
Inductive Opened := OEntry (e : Entry) | ONotExist | OInvalid.

Definition ValidPath (name : string) : bool :=
  ValidString name && (bool_decide (name = ".") || bool_decide (safe_path name)).

Definition portalDist : string := "portal/dist".

(** [path.Join] of two non-empty elements, and [path.Ext]. *)
Definition path_Join (a b : string) : string := Clean (a +:+ "/" +:+ b).
Definition path_Ext (p : string) : string :=
  let name := default "" (last (SplitByte slash p)) in
  if ContainsByte name "." then "." +:+ default "" (last (SplitByte "." name)) else "".

Section Assets.
(** The [embed.FS], by full name, and the system's MIME table. *)
Context (portalFS : string → option Entry) (TypeByExtension : string → string).

(** [Open] of [fs.Sub(portalFS, "portal/dist")]. *)
Definition distFS (name : string) : Opened :=
  if ValidPath name then
    match portalFS (path_Join portalDist name) with Some e => OEntry e | None => ONotExist end
  else OInvalid.

(** [None] is [false]: nothing was written.  Reading a directory fails, which
    leaves the body empty. *)
Definition servePortalAsset (name : string) : option (string * string) :=
  let name := TrimPrefix name "/" in
  if decide (name = "") then None
  else
    match distFS name with
    | OEntry e =>
        let ct := TypeByExtension (path_Ext name) in
        let ct := if decide (ct = "") then "application/octet-stream" else ct in
        Some (ct, match e with EFile c => c | EDir => "" end)
    | ONotExist | OInvalid => None
    end.

(** [http.FileServer] on the root: its index.html, else its listing.  [http.FS]
    opens the root as [.]. *)
Definition serveRoot : HttpResponse :=
  match distFS "." with
  | OEntry EDir =>
      match distFS "index.html" with OEntry (EFile c) => WIndex c | _ => WListing end
  | OEntry (EFile c) => WIndex c
  | _ => WNotFound
  end.
End Assets.

(** ** server.go *)

Record Deps (W Ev : Type) := {
  dp_Actions : option (Handler W Ev);
  dp_MCP : option (Handler W Ev);
  dp_PortalFileServer : option (Handler W Ev);
  dp_ServePortalAsset : option (string → option (string * string));
  dp_OAuth : option (list (string * Handler W Ev));
  dp_Readiness : option (Handler W Ev) }.
Arguments dp_Actions {_ _}.
Arguments dp_MCP {_ _}.
Arguments dp_PortalFileServer {_ _}.
Arguments dp_ServePortalAsset {_ _}.
Arguments dp_OAuth {_ _}.
Arguments dp_Readiness {_ _}.

Section Server.
Context {W Ev : Type}.

Definition handleHealthz : Handler W Ev :=
  λ _, mret (WHealthz (json_map [("status", "ok")] +:+ String "010" "")).

(** The portal fallback. *)
Definition handlePortal (d : Deps W Ev) : Handler W Ev := λ r,
  if negb (bool_decide (rq_Method r = "GET")) && negb (bool_decide (rq_Method r = "HEAD"))
  then mret WMethodNotAllowed
  else
    let clean := TrimPrefix (rq_Path r) "/" in
    let asset := if decide (clean = "") then None
                 else serve ← dp_ServePortalAsset d; serve clean in
    match asset with
    | Some (ct, body) => mret (WAsset ct body)
    | None =>
        match dp_PortalFileServer d with
        | Some files => files {| rq_Method := rq_Method r; rq_RequestURI := rq_RequestURI r;
                                 rq_Path := "/"; rq_RawPath := rq_RawPath r;
                                 rq_Header := rq_Header r; rq_Query := rq_Query r |}
        | None => mret WNotFound
        end
    end.

Definition when {A} (o : option A) (f : A → list (string * Handler W Ev))
    : list (string * Handler W Ev) := match o with Some a => f a | None => [] end.

(** The registrations of [New], in order. *)
Definition registrations (d : Deps W Ev) : list (string * Handler W Ev) :=
  [("/healthz", handleHealthz)]
  ++ when (dp_Readiness d) (λ h, [("/readyz", h)])
  ++ when (dp_MCP d) (λ h, [("/mcp", h); ("/mcp/sse", h)])
  ++ when (dp_Actions d) (λ h, [("/actions/", h)])
  ++ when (dp_OAuth d) id
  ++ [("/", handlePortal d)].

(** [None]: a registration panics. *)
Definition New (d : Deps W Ev) : option (Mux (Handler W Ev)) :=
  foldl (λ m e, m ← m; Handle m e.1 e.2) (Some []) (registrations d).

(** [ServeMux.ServeHTTP] *)
Definition ServeHTTP (s : Mux (Handler W Ev)) (r : HttpReq) : M W Ev HttpResponse :=
  if decide (rq_RequestURI r = "*") then mret WBadRequest
  else
    match findHandler s (rq_Method r) (rq_Path r) (EscapedPath (rq_Path r) (rq_RawPath r)) with
    | Found _ h => h r
    | Redirect to => mret (WRedirect to)
    | NotFoundHandler => mret WNotFound
    end.
End Server.

(** ** The server that runServe composes *)

Inductive ServerEvent (CA CT : Type) :=
  | SvAction (e : AEvent CA)
  | SvTool (e : ToolEvent CT)
  | SvOAuth (e : OAuthEvent)
  | SvReadiness (r : option error).
Arguments SvAction {_ _}.
Arguments SvTool {_ _}.
Arguments SvOAuth {_ _}.
Arguments SvReadiness {_ _}.

Section Wired.
Context {W CA CT : Type} `{!Actions W CA} `{!Clients W CT} `{!OAuthWorld W}.
Context `{!Unstructured} `{!ObjectMetaApi}.
(** The SDK's readiness check; the MCP library's reading of the tool calls of a
    request; the embedded files. *)
Context (check : W → option error * W) (toolCalls : HttpReq → list ToolCall).
Context (portalFS : string → option Entry) (TypeByExtension : string → string).
(** What the process starts with. *)
Context (getenv : string → string) (has_config : bool).
Context (Backends : string → option (Implementation W)) (oauth : OAuth.Handler).
Context (authCodeURL : string → string) (Marshal : checkoutRepositoryOutput → error + string).
Context (fuel : nat).

Abbreviation Ev := (ServerEvent CA CT).

(** The request as the actions see it. *)
Definition action_request (r : HttpReq) : HttpRequest :=
  {| hr_Method := rq_Method r; hr_Path := rq_Path r; hr_RawPath := rq_RawPath r;
     hr_Authorization := rq_Header r "Authorization";
     hr_Cluster := rq_Header r "X-Railgrid-Cluster" |}.

(** The requests that ask the caller's factory for a client. *)
Definition asks_client (r : HttpRequest) : bool :=
  match route r with
  | Some (cluster, name, action) =>
      goodScope r cluster name
      && negb (bool_decide (bearer r = "") || bool_decide (bearer r = hr_Authorization r))
  | None => false
  end.

(** The server's [Caller] is the tenant factory, never a nil interface: without
    a kubeconfig it holds a nil pointer and the call of [For] panics, which the
    HTTP server recovers by aborting the response, after the deferred release
    of the slot. *)
Definition handleActions : Handler W Ev := λ r,
  let r := action_request r in
  if negb has_config && asks_client r then
    granted ← relabel SvAction (a_slot (C := CA));
    if granted : bool then
      _ ← relabel SvAction (a_release (C := CA)); mret WAborted
    else mret (WAction (RFailure 503 "action_capacity_unavailable"))
  else
    resp ← relabel SvAction (ActionsServer.ServeHTTP true true Backends r);
    mret (WAction resp).

(** [NewHandler]: a server per request, for each tool call the library reads. *)
Fixpoint mcp_calls (r : HttpReq) (l : list ToolCall) : M W Ev (list (option Answer)) :=
  match l with
  | [] => mret []
  | c :: l =>
      a ← relabel SvTool (McpServer.serve Marshal getenv (rq_Header r) (rq_Query r)
                            has_config fuel true c);
      rest ← mcp_calls r l;
      mret (a :: rest)
  end.
Definition handleMCP : Handler W Ev := λ r,
  l ← mcp_calls r (toolCalls r); mret (WMcp l).

(** [Handler.Mount] *)
Definition oauthRoute (path : string) : string * Handler W Ev :=
  (path, λ r, match serveOAuth authCodeURL oauth path (rq_Query r) with
              | Some m => resp ← relabel SvOAuth m; mret (WOAuth resp)
              | None => mret WNotFound
              end).
Definition Mount : list (string * Handler W Ev) :=
  oauthRoute <$> ["/oauth/github/config"; "/oauth/github/start"; "/oauth/github/callback"].

Definition handleReadiness : Handler W Ev := λ _,
  r ← call check SvReadiness; mret (WReadiness r).

(** [portalHandler]'s file server, asked for the root only. *)
Definition fileServer : Handler W Ev := λ _, mret (serveRoot portalFS).

Definition serve_deps : Deps W Ev :=
  {| dp_Actions := Some handleActions; dp_MCP := Some handleMCP;
     dp_PortalFileServer := Some fileServer;
     dp_ServePortalAsset := Some (servePortalAsset portalFS TypeByExtension);
     dp_OAuth := Some Mount; dp_Readiness := Some handleReadiness |}.

(** Serving one request on the composed server. *)
Definition serve_request (r : HttpReq) : M W Ev HttpResponse :=
  match New serve_deps with
  | Some s => ServeHTTP s r
  | None => mret WNotFound
  end.
End Wired.

(** ** Lemmas: routes *)

Definition exact (l : list string) : pattern := {| pt_segs := l; pt_multi := false |}.
Definition subtree (l : list string) : pattern := {| pt_segs := l; pt_multi := true |}.

(** The patterns of the composed server, and the one that owns a path: its own,
    else actions for what is under it, else the portal. *)
Definition exact_routes : list (list string) :=
  [["healthz"]; ["readyz"]; ["mcp"]; ["mcp"; "sse"];
   ["oauth"; "github"; "config"]; ["oauth"; "github"; "start"]; ["oauth"; "github"; "callback"]].
Definition patterns : list pattern :=
  [exact ["healthz"]; exact ["readyz"]; exact ["mcp"]; exact ["mcp"; "sse"]; subtree ["actions"];
   exact ["oauth"; "github"; "config"]; exact ["oauth"; "github"; "start"];
   exact ["oauth"; "github"; "callback"]; subtree []].
Definition owner (segs : list string) : pattern :=
  if decide (segs ∈ exact_routes) then exact segs
  else match segs with
       | s :: _ :: _ => if decide (s = "actions") then subtree ["actions"] else subtree []
       | _ => subtree []
       end.

#[local] Ltac in_list := solve [repeat first [left | right]].

Lemma owner_patterns segs : owner segs ∈ patterns.
Proof.
  unfold owner. case_decide as Hin.
  - unfold exact_routes in Hin. repeat (apply elem_of_cons in Hin as [->|Hin]; [in_list|]).
    by apply elem_of_nil in Hin.
  - destruct segs as [|s [|s' segs]]; [| |case_decide]; in_list.
Qed.

Lemma owner_under segs : segs ≠ [] → under (pt_multi (owner segs)) (pt_segs (owner segs)) segs.
Proof.
  intros Hne. unfold owner. case_decide; [done|].
  destruct segs as [|s [|s' segs]]; [done|by exists [s]|].
  case_decide; [subst; by exists (s' :: segs)|by exists (s :: s' :: segs)].
Qed.

(** A pattern that matches is the owner, or shorter. *)
Lemma owner_best p segs :
  p ∈ patterns → under (pt_multi p) (pt_segs p) segs → segs ≠ [] →
  p = owner segs ∨ (length (pt_segs p) < length (pt_segs (owner segs)))%nat.
Proof.
  intros Hp Hu Hne. unfold owner.
  unfold patterns in Hp.
  repeat (apply elem_of_cons in Hp as [->|Hp]; [cbn in Hu|]); [..|by apply elem_of_nil in Hp].
  1-4,6-8: left; rewrite decide_True; [by subst|subst; in_list].
  - destruct Hu as (rest & Hr & ->). left. rewrite decide_False.
    + by destruct rest.
    + intros Hin. unfold exact_routes in Hin. repeat (apply elem_of_cons in Hin as [Hin|Hin]; [done|]).
      by apply elem_of_nil in Hin.
  - case_decide as Hin; [right; by destruct segs; cbn; [|lia]|].
    destruct segs as [|s [|s' segs]]; [by left..|]. case_decide; [right; cbn; lia|by left].
Qed.

Section Routes.
Context {H : Type} (m : Mux H) (Hm : m.*1 = patterns).

Lemma match_owner path :
  segments path ≠ [] → ∃ h, match_mux m path = Some (owner (segments path), h) ∧
    (owner (segments path), h) ∈ m.
Proof using Hm.
  intros Hne. pose proof (match_mux_best m path) as Hb.
  pose proof (owner_patterns (segments path)) as Hin. rewrite <- Hm in Hin.
  apply list_elem_of_fmap in Hin as ([q g] & Hq & Hin). cbn in Hq.
  assert (Hown : under (pt_multi q) (pt_segs q) (segments path))
    by (rewrite <- Hq; by apply owner_under).
  destruct (match_mux m path) as [[p h]|].
  - destruct Hb as (Hp & Hu & Hbest). exists h.
    assert (p = owner (segments path)) as ->; [|done].
    assert (Hpp : p ∈ patterns) by (rewrite <- Hm; apply list_elem_of_fmap; by exists (p, h)).
    destruct (owner_best p _ Hpp Hu Hne) as [|Hlt]; [done|].
    specialize (Hbest q g Hin Hown). rewrite Hq in Hlt. lia.
  - by destruct (Hb q g Hin).
Qed.

Lemma owner_slash s k :
  owner ((s :: k) ++ ["/"]) = if decide (s = "actions") then subtree ["actions"] else subtree [].
Proof.
  unfold owner. rewrite decide_False; [by destruct k|]. intros Hin. unfold exact_routes in Hin.
  repeat (apply elem_of_cons in Hin as [Hin|Hin];
    [by apply (f_equal last) in Hin; rewrite last_snoc in Hin|]). by apply elem_of_nil in Hin.
Qed.

Lemma exact_owner_slash q h h' :
  safe_path q →
  let n := Some (owner (segments ("/" +:+ q)), h) in
  let n' := Some (owner (segments ("/" +:+ q +:+ "/")), h') in
  negb (exactMatch (H := H) n ("/" +:+ q)) && exactMatch (H := H) n' ("/" +:+ q +:+ "/")
  = bool_decide (segments ("/" +:+ q) = ["actions"]).
Proof.
  intros Hq. destruct (segments_clean q Hq) as [E1 E2], (clean_slash q Hq) as [Hs Hc].
  cbv zeta. unfold exactMatch. rewrite Hc, Hs, (safe_no_slash_end q Hq), E1, E2.
  pose proof (length_fmap pathUnescape (SplitByte slash q)) as Hl.
  pose proof (SplitByte_not_nil slash q) as Hne. set (l := SplitByte slash q) in *.
  set (k := pathUnescape <$> l) in *. rewrite <- Hl. assert (k ≠ []) by (by destruct l).
  clearbody k. clear -H0. rewrite andb_false_r.
  rewrite (bool_decide_true ("/" +:+ q ≠ "")) by done. cbn [negb andb].
  destruct k as [|s k]; [done|]. rewrite owner_slash. unfold owner. case_decide as Hin.
  - symmetry. apply bool_decide_eq_false. intros Heq. rewrite Heq in Hin.
    by apply (bool_decide_pack _) in Hin.
  - destruct k as [|s' k].
    + cbn [pt_multi subtree negb andb]. destruct (decide (s = "actions")) as [->|Ha]; [done|].
      symmetry. apply bool_decide_eq_false. congruence.
    + rewrite (bool_decide_false (s :: s' :: k = ["actions"])) by done.
      destruct (decide (s = "actions")); cbn [pt_multi subtree negb andb pt_segs length];
        by apply bool_decide_false.
Qed.

(** Where a request outside of CONNECT goes. *)
Definition routed (u escaped : string) (r : Routed H) : Prop :=
  let path := cleanPath escaped in
  match r with
  | Found p h => segments path ≠ ["actions"] ∧ path = escaped ∧ p = owner (segments path) ∧ (p, h) ∈ m
  | Redirect to =>
      segments path = ["actions"] ∧ to = cleanPath u +:+ "/" ∨
      segments path ≠ ["actions"] ∧ path ≠ escaped ∧ to = path
  | NotFoundHandler => False
  end.

Lemma matchOrRedirect_owner path u :
  path = "/" ∨ (∃ q, safe_path q ∧ (path = "/" +:+ q ∨ path = "/" +:+ q +:+ "/")) →
  if decide (segments path = ["actions"]) then matchOrRedirect m path (Some u) = inr (cleanPath u +:+ "/")
  else ∃ h, matchOrRedirect m path (Some u) = inl (Some (owner (segments path), h)) ∧
         (owner (segments path), h) ∈ m.
Proof using Hm.
  intros Hp. assert (Hne : segments path ≠ []).
  { destruct Hp as [->|(q & Hq & [-> | ->])]; [done|..];
      destruct (segments_clean q Hq) as [E1 E2]; rewrite ?E1, ?E2;
      pose proof (SplitByte_not_nil slash q); by destruct (SplitByte slash q). }
  unfold matchOrRedirect. destruct (match_owner path Hne) as (h & -> & Hh).
  destruct Hp as [->|(q & Hq & [-> | ->])].
  - change (HasSuffix "/" "/") with true. rewrite andb_false_r. cbn [andb].
    rewrite decide_False by done. by exists h.
  - rewrite (safe_no_slash_end q Hq). cbn [negb]. rewrite andb_true_r.
    change (("/" +:+ q) +:+ "/") with ("/" +:+ q +:+ "/").
    destruct (match_owner ("/" +:+ q +:+ "/")) as (h' & -> & _).
    { destruct (segments_clean q Hq) as [_ ->]. by destruct (pathUnescape <$> _). }
    rewrite exact_owner_slash by done. destruct (decide (segments ("/" +:+ q) = ["actions"])).
    + by rewrite bool_decide_true.
    + rewrite bool_decide_false by done. by exists h.
  - destruct (clean_slash q Hq) as [-> _]. rewrite andb_false_r. cbn [andb].
    rewrite decide_False; [by exists h|]. destruct (segments_clean q Hq) as [_ ->].
    pose proof (SplitByte_not_nil slash q). destruct (SplitByte slash q) as [|a [|b l]]; done.
Qed.

Lemma findHandler_routed method u escaped :
  method ≠ "CONNECT" → routed u escaped (findHandler m method u escaped).
Proof using Hm.
  intros Hc. unfold findHandler, routed. rewrite decide_False by done. cbv zeta.
  pose proof (matchOrRedirect_owner (cleanPath escaped) u (cleanPath_shape escaped)) as Ho.
  destruct (decide (segments (cleanPath escaped) = ["actions"])).
  - rewrite Ho. by left.
  - destruct Ho as (h & -> & Hh). case_decide; [done|]. by right.
Qed.
End Routes.

Section Lemmas.
Context {W CA CT : Type} `{!Actions W CA} `{!Clients W CT} `{!OAuthWorld W}.
Context `{!Unstructured} `{!ObjectMetaApi}.
Context (check : W → option error * W) (toolCalls : HttpReq → list ToolCall).
Context (portalFS : string → option Entry) (TypeByExtension : string → string).
Context (getenv : string → string) (has_config : bool).
Context (Backends : string → option (Implementation W)) (oauth : OAuth.Handler).
Context (authCodeURL : string → string) (Marshal : checkoutRepositoryOutput → error + string).
Context (fuel : nat).

Let deps : Deps W (ServerEvent CA CT) :=
  serve_deps check toolCalls portalFS TypeByExtension getenv has_config Backends oauth
    authCodeURL Marshal fuel.

Lemma New_serve_deps :
  New deps = Some (zip patterns (registrations deps).*2).
Proof. reflexivity. Qed.

(** The path of a request, as the multiplexer cuts it. *)
Definition at_path (r : HttpReq) (l : list string) : Prop :=
  segments (EscapedPath (rq_Path r) (rq_RawPath r)) = l.

Abbreviation calls_of r := (identityFromRequest getenv (rq_Header r) (rq_Query r)).

(** The answers and traces of the tool calls of a request. *)
Inductive mcp_trace (id : identity)
    : list ToolCall → list (option Answer) → list (ToolEvent CT) → Prop :=
  | mt_nil : mcp_trace id [] [] []
  | mt_cons c cs a l t u : tool_trace id c a t → mcp_trace id cs l u →
      mcp_trace id (c :: cs) (a :: l) (t ++ u).

(** What serving a request does: one handler's work, or none. *)
Inductive dispatched (r : HttpReq) : HttpResponse → list (ServerEvent CA CT) → Prop :=
  | ds_refused : dispatched r WBadRequest []
  | ds_redirect to : dispatched r (WRedirect to) []
  | ds_not_found : dispatched r WNotFound []
  | ds_healthz body : at_path r ["healthz"] → dispatched r (WHealthz body) []
  | ds_readiness e : at_path r ["readyz"] → dispatched r (WReadiness e) [SvReadiness e]
  | ds_mcp l t : at_path r ["mcp"] ∨ at_path r ["mcp"; "sse"] →
      mcp_trace (calls_of r) (toolCalls r) l t → dispatched r (WMcp l) (SvTool <$> t)
  | ds_actions resp t rest : at_path r ("actions" :: rest) →
      served (λ _ _ _ _ _ _ _, True) Backends (action_request r) t →
      dispatched r (WAction resp) (SvAction <$> t)
  | ds_aborted rest : at_path r ("actions" :: rest) → has_config = false →
      dispatched r WAborted [SvAction (ASlot true); SvAction ARelease]
  | ds_oauth resp : dispatched r (WOAuth resp) []
  | ds_callback resp t : at_path r ["oauth"; "github"; "callback"] →
      callback_contract oauth (rq_Query r) resp t → dispatched r (WOAuth resp) (SvOAuth <$> t)
  | ds_portal :
      rq_Method r ≠ "GET" → rq_Method r ≠ "HEAD" → dispatched r WMethodNotAllowed []
  | ds_asset ct body : rq_Method r = "GET" ∨ rq_Method r = "HEAD" →
      servePortalAsset portalFS TypeByExtension (TrimPrefix (rq_Path r) "/") = Some (ct, body) →
      dispatched r (WAsset ct body) []
  | ds_index : rq_Method r = "GET" ∨ rq_Method r = "HEAD" →
      dispatched r (serveRoot portalFS) [].

Lemma mcp_calls_emits r l :
  emits (mcp_calls (CA := CA) getenv has_config Marshal fuel r l)
    (λ a t, ∃ u, t = SvTool <$> u ∧ mcp_trace (calls_of r) l a u).
Proof.
  induction l as [|c l IH]; cbn [mcp_calls].
  - apply emits_ret. exists []. by repeat constructor.
  - apply emits_bind, emits_relabel. eapply emits_mono; [apply callTool_emits|].
    intros a t Ht. apply emits_bind. eapply emits_mono; [exact IH|].
    intros rest _ (u & -> & Hu). apply emits_ret. exists (t ++ u)%list.
    rewrite fmap_app, app_nil_r. split; [done|]. by constructor.
Qed.

Lemma handleActions_emits r rest :
  at_path r ("actions" :: rest) →
  emits (handleActions (CT := CT) has_config Backends r) (dispatched r).
Proof.
  intros Hp. unfold handleActions. destruct (negb has_config && _) eqn:Hc.
  - apply andb_true_iff in Hc as [Hc%negb_true_iff _].
    apply emits_bind, emits_relabel, emits_call. intros [].
    + apply emits_bind, emits_relabel, emits_call. intros _. apply emits_ret.
      by eapply ds_aborted.
    + apply emits_ret.
      apply (ds_actions r (RFailure 503 "action_capacity_unavailable") [ASlot false] rest Hp).
      constructor.
  - apply emits_bind, emits_relabel. eapply emits_mono.
    { apply (ServeHTTP_served Backends (action_request r) (λ _ _ _ _ _ _ _, True)).
      intros. apply emits_True. }
    intros resp t Ht. apply emits_ret. rewrite app_nil_r. by eapply ds_actions.
Qed.

Lemma oauthRoute_emits r path :
  path ∈ ["/oauth/github/config"; "/oauth/github/start"; "/oauth/github/callback"] →
  (path = "/oauth/github/callback" → at_path r ["oauth"; "github"; "callback"]) →
  emits ((oauthRoute oauth authCodeURL path).2 r) (dispatched r).
Proof.
  intros Hin Hcb. cbn [oauthRoute snd]. unfold serveOAuth.
  case_decide; [|case_decide].
  1,2: apply emits_bind, emits_relabel, emits_ret, emits_ret; constructor.
  case_decide; [|exfalso; set_solver].
  apply emits_bind, emits_relabel. eapply emits_mono; [apply handleCallback_emits|].
  intros resp t Ht. apply emits_ret. rewrite app_nil_r. apply ds_callback; auto.
Qed.

Lemma handlePortal_emits r : emits (handlePortal deps r) (dispatched r).
Proof.
  unfold handlePortal. destruct (negb _ && negb _) eqn:Hm.
  - apply emits_ret. apply andb_true_iff in Hm as [H1 H2]. rewrite negb_true_iff in H1, H2.
    apply bool_decide_eq_false in H1, H2. by constructor.
  - assert (Hget : rq_Method r = "GET" ∨ rq_Method r = "HEAD").
    { destruct (decide (rq_Method r = "GET")); [by left|].
      destruct (decide (rq_Method r = "HEAD")); [by right|].
      by rewrite !bool_decide_false in Hm. }
    cbv zeta. destruct (if decide _ then _ else _) as [[ct body]|] eqn:Ha.
    + apply emits_ret. apply ds_asset; [done|]. by case_decide.
    + by apply emits_ret, ds_index.
Qed.

Abbreviation serve := (serve_request check toolCalls portalFS TypeByExtension getenv has_config
    Backends oauth authCodeURL Marshal fuel).

(** The handler that answers is the most specific one for the path. *)
Lemma serve_request_emits r : emits (serve r) (dispatched r).
Proof.
  unfold serve_request. change (serve_deps _ _ _ _ _ _ _ _ _ _ _) with deps.
  rewrite New_serve_deps. unfold ServeHTTP. case_decide; [apply emits_ret; constructor|].
  set (s := zip _ _). destruct (findHandler s _ _ _) as [p h|to|] eqn:Hf;
    [|apply emits_ret; constructor..].
  apply findHandler_match in Hf. pose proof (match_mux_best s (EscapedPath (rq_Path r) (rq_RawPath r))) as Hb.
  rewrite Hf in Hb. destruct Hb as (Hin & Hu & _). unfold s in Hin. cbn in Hin.
  repeat setoid_rewrite elem_of_cons in Hin. rewrite elem_of_nil in Hin.
  destruct_or! Hin; simplify_eq; cbn [pt_multi pt_segs exact subtree under] in Hu.
  - by apply emits_ret, ds_healthz.
  - apply emits_bind, emits_call. intros e. by apply emits_ret, ds_readiness.
  - apply emits_bind. eapply emits_mono; [apply mcp_calls_emits|]. intros l t (u & -> & Hl).
    apply emits_ret. rewrite app_nil_r. apply ds_mcp; [by left|done].
  - apply emits_bind. eapply emits_mono; [apply mcp_calls_emits|]. intros l t (u & -> & Hl).
    apply emits_ret. rewrite app_nil_r. apply ds_mcp; [by right|done].
  - destruct Hu as (rest & _ & Hu). by apply (handleActions_emits r rest).
  - apply (oauthRoute_emits r "/oauth/github/config"); [set_solver|done].
  - apply (oauthRoute_emits r "/oauth/github/start"); [set_solver|done].
  - apply (oauthRoute_emits r "/oauth/github/callback"); [set_solver|done].
  - apply handlePortal_emits.
Qed.

(** The credentials behind a tool's events. *)
Definition tool_entitled (r : HttpReq) (t : list (ToolEvent CT)) (e : ToolEvent CT) : Prop :=
  let from := carried getenv (rq_Header r) (rq_Query r) in
  match e with
  | TFor cluster tok _ => from cluster tok
  | TDyn d _ => ∃ cluster tok, from cluster tok ∧ TFor cluster tok (inr d) ∈ t
  end.

Lemma tool_trace_entitled r c a t e :
  tool_trace (calls_of r) c a t → e ∈ t → tool_entitled r t e.
Proof.
  intros Ht He. pose proof (identity_carried getenv (rq_Header r) (rq_Query r)) as Hc. cbv zeta in Hc.
  destruct Ht as [|e' err Hi|d x t Hi _]; [set_solver|..].
  - apply list_elem_of_singleton in He as ->. by apply Hc.
  - apply elem_of_cons in He as [->|(ev & -> & _)%list_elem_of_fmap]; [by apply Hc|].
    cbn. eexists _, _. split; [by apply Hc|by left].
Qed.
Lemma tool_entitled_mono r t u e :
  (∀ x, x ∈ t → x ∈ u) → tool_entitled r t e → tool_entitled r u e.
Proof. intros Hs. destruct e; [done|]. intros (cl & tok & ? & ?). exists cl, tok. auto. Qed.
Lemma mcp_trace_entitled r cs l t e :
  mcp_trace (calls_of r) cs l t → e ∈ t → tool_entitled r t e.
Proof.
  induction 1 as [|c cs a l t u Ht Hu IH]; [set_solver|].
  intros [He|He]%elem_of_app.
  - eapply tool_entitled_mono; [|by eapply tool_trace_entitled]. set_solver.
  - eapply tool_entitled_mono; [|by apply IH]. set_solver.
Qed.

Lemma callback_entitled q resp t e :
  callback_contract oauth q resp t → e ∈ t →
  hd_enabled oauth = true ∧
  match e with
  | OExchange code _ => code = q "code" ∧ code ≠ "" ∧ q "state" ≠ ""
  | OUser shown _ => OExchange (q "code") (inr shown) ∈ t
  | ONow _ => True
  end.
Proof.
  unfold callback_contract. destruct (hd_enabled oauth); [|intros [_ ->]; set_solver].
  intros (res & _ & _ & Ht) He. split; [done|].
  destruct t as [|[code [err|tok]|shown u|now] [|[code' r'|shown' u'|now'] [|e' t]]];
    try contradiction Ht.
  - by apply elem_of_nil in He.
  - destruct Ht as (Hc & _ & Hn & Hs & _). repeat (apply elem_of_cons in He as [->|He]; [done|]).
    by apply elem_of_nil in He.
  - destruct Ht as (-> & _ & Hn & Hs & -> & _).
    repeat (apply elem_of_cons in He as [->|He]; [cbn; try done; by left|]).
    by apply elem_of_nil in He.
Qed.
End Lemmas.

(** ** Property: routes *)


(** ** Properties: who a request acts for *)

Inductive Part := PActions | PTools | POAuth | PReadiness.
Definition part {CA CT} (e : ServerEvent CA CT) : Part :=
  match e with
  | SvAction _ => PActions | SvTool _ => PTools | SvOAuth _ => POAuth | SvReadiness _ => PReadiness
  end.

Lemma part_map {E CA CT} (f : E → ServerEvent CA CT) k (t : list E) x y :
  (∀ e, part (f e) = k) → x ∈ f <$> t → y ∈ f <$> t → part x = part y.
Proof. intros Hk (a & -> & _)%list_elem_of_fmap (b & -> & _)%list_elem_of_fmap. by rewrite !Hk. Qed.

(** The paths a part serves, as their decoded segments. *)
Definition serves (k : Part) (segs : list string) : Prop :=
  match k with
  | PActions => ∃ rest, segs = "actions" :: rest
  | PTools => segs = ["mcp"] ∨ segs = ["mcp"; "sse"]
  | POAuth => segs = ["oauth"; "github"; "callback"]
  | PReadiness => segs = ["readyz"]
  end.

(** What stands behind an event of a request [r] with the trace [t]. *)
Definition entitled {W CA CT} `{!Actions W CA} `{!Unstructured} `{!ObjectMetaApi}
    (getenv : string → string) (oauth : OAuth.Handler) (r : HttpReq)
    (t : list (ServerEvent CA CT)) (e : ServerEvent CA CT) : Prop :=
  let from := carried getenv (rq_Header r) (rq_Query r) in
  match e with
  | SvAction a => acting a →
      ∃ ta cluster name action visible inp conn repo cred,
        t = SvAction <$> ta ∧ rq_Method r = "POST" ∧
        route (action_request r) = Some (cluster, name, action) ∧
        cluster = rq_Header r "X-Railgrid-Cluster" ∧
        authorised (bearer (action_request r)) cluster name action visible ta ∧
        resolved cluster name visible inp conn repo cred ta
  | SvTool (TFor cluster tok _) => from cluster tok
  | SvTool (TDyn d _) => ∃ cluster tok, from cluster tok ∧ SvTool (TFor cluster tok (inr d)) ∈ t
  | SvOAuth (OExchange code _) =>
      hd_enabled oauth = true ∧ code = rq_Query r "code" ∧ code ≠ "" ∧ rq_Query r "state" ≠ ""
  | SvOAuth (OUser shown _) => SvOAuth (OExchange (rq_Query r "code") (inr shown)) ∈ t
  | SvOAuth (ONow _) | SvReadiness _ => True
  end.

Lemma route_post r x : route r = Some x → hr_Method r = "POST".
Proof. unfold route. by case_decide as Hd; [destruct Hd|]. Qed.
Lemma goodScope_cluster r cluster name : goodScope r cluster name = true → cluster = hr_Cluster r.
Proof. unfold goodScope. intros [_ Hc]%andb_true_iff. by apply bool_decide_eq_true in Hc. Qed.

(** C10: a request acts for its own caller only, whatever its path and method.  The
    work of a request is one component's, the one that serves its path: the
    actions what is under /actions/, the tools /mcp and /mcp/sse, OAuth its
    callback, the readiness check /readyz; any other path makes the server do
    nothing of this.  An act on a git host, by Git or in the upload area is for a
    POST whose own bearer token was authorised for the action on an object of the
    cluster its header names, resolved through the provider's export.  A tool's
    workspace call goes through the client that was made for the cluster and
    token of the request's headers (of its query, where a header has none, only
    when RAILGRID_DEV_ALLOW_TENANT_QUERY is true).  An OAuth code is exchanged
    only if the flow is enabled and the request carries that code and a state,
    and the token shown to the host is the one it was exchanged for. *)
Theorem request_authority {W CA CT} `{!Actions W CA} `{!Clients W CT} `{!OAuthWorld W}
    `{!Unstructured} `{!ObjectMetaApi} check toolCalls portalFS TypeByExtension getenv has_config
    Backends oauth authCodeURL Marshal fuel r (w w' : W) resp (t : list (ServerEvent CA CT)) e
    (Hrun : serve_request check toolCalls portalFS TypeByExtension getenv has_config Backends
              oauth authCodeURL Marshal fuel r w = (resp, w', t))
    (Hin : e ∈ t) :
  (∀ e', e' ∈ t → part e' = part e) ∧
  serves (part e) (segments (EscapedPath (rq_Path r) (rq_RawPath r))) ∧
  entitled getenv oauth r t e.
Proof.
  pose proof (serve_request_emits check toolCalls portalFS TypeByExtension getenv has_config
    Backends oauth authCodeURL Marshal fuel r w) as Hd. rewrite Hrun in Hd. clear Hrun.
  unfold at_path in Hd.
  destruct Hd as [ | | | |e0 Hp| l t Hp Hm|resp t rest Hp Hs|rest Hp| |resp t Hp Hc| | | ];
    try by apply elem_of_nil in Hin.
  - apply list_elem_of_singleton in Hin as ->. split; [|done].
    intros e' ->%list_elem_of_singleton. done.
  - split; [by intros e' He'; apply (part_map SvTool PTools _ _ _ (λ _, eq_refl) He' Hin)|].
    apply list_elem_of_fmap in Hin as (a & -> & Ha). split; [exact Hp|].
    pose proof (mcp_trace_entitled _ _ _ _ _ _ Hm Ha) as He. destruct a as [cl tok res|d ev]; [done|].
    destruct He as (cl & tok & Hc & He). exists cl, tok. split; [done|].
    apply list_elem_of_fmap. by eexists.
  - split; [by intros e' He'; apply (part_map SvAction PActions _ _ _ (λ _, eq_refl) He' Hin)|].
    apply list_elem_of_fmap in Hin as (a & -> & Ha). split; [by exists rest|]. intros Hact.
    apply (served_acting _ _ _ _ a) in Hs as (cluster & name & action & visible & inp & conn & repo &
      cred & impl & pre & mid & post & -> & _ & _ & _ & Hr & Hg & _ & Hau & _ & Hres & _); [|done..].
    exists (pre ++ mid ++ post)%list, cluster, name, action, visible, inp, conn, repo, cred.
    split_and!; [done|by apply (route_post (action_request r)) in Hr|done|by apply goodScope_cluster in Hg| |].
    + eapply authorised_mono; [|exact Hau]. intros x Hx. apply elem_of_app. by left.
    + eapply resolved_mono; [|exact Hres]. intros x Hx. apply elem_of_app. by left.
  - split.
    + repeat (apply elem_of_cons in Hin as [->|Hin]); [..|by apply elem_of_nil in Hin];
        intros e' He'; repeat (apply elem_of_cons in He' as [->|He']; [done|]);
        by apply elem_of_nil in He'.
    + repeat (apply elem_of_cons in Hin as [->|Hin]; [split; [by exists rest|intros []]|]).
      by apply elem_of_nil in Hin.
  - split; [by intros e' He'; apply (part_map SvOAuth POAuth _ _ _ (λ _, eq_refl) He' Hin)|].
    apply list_elem_of_fmap in Hin as (a & -> & Ha). split; [exact Hp|].
    destruct (callback_entitled _ _ _ _ _ Hc Ha) as [Hen Ho].
    destruct a; [destruct Ho as (? & ? & ?); split_and!; try done| |done].
    apply list_elem_of_fmap. by eexists.
Qed.

(** ** Properties: the portal *)

Lemma path_Join_safe a b : safe_path a → safe_path b → path_Join a b = a +:+ "/" +:+ b.
Proof.
  intros Ha Hb. unfold path_Join. apply Clean_safe. unfold safe_path.
  change (a +:+ "/" +:+ b) with (a +:+ String slash b). rewrite SplitByte_app.
  by apply Forall_app.
Qed.

Lemma distFS_entry portalFS name e :
  distFS portalFS name = OEntry e →
  (name = "." ∧ portalFS portalDist = Some e) ∨
  (safe_path name ∧ portalFS (portalDist +:+ "/" +:+ name) = Some e).
Proof.
  unfold distFS, ValidPath. destruct (ValidString name); cbn [andb]; [|done].
  destruct (decide (name = ".")) as [->|Hdot].
  - rewrite bool_decide_true by done. cbn [orb]. destruct (portalFS _) eqn:Hf; [|done].
    intros [= <-]. by left.
  - rewrite bool_decide_false by done. cbn [orb]. destruct (decide (safe_path name)) as [Hs|Hs].
    + rewrite bool_decide_true by done. rewrite path_Join_safe by (done || by vm_compute; repeat constructor).
      destruct (portalFS _) eqn:Hf; [|done]. intros [= <-]. by right.
    + by rewrite bool_decide_false.
Qed.

(** What a response may hold of the embedded files, for a GET or HEAD only: the
    file under portal/dist that the decoded path names, by names alone; nothing
    of a directory; else the index, or a listing when there is none. *)
Definition asset_name (r : HttpReq) : string := TrimPrefix (TrimPrefix (rq_Path r) "/") "/".
Definition embedded (portalFS : string → option Entry) (r : HttpReq) (resp : HttpResponse) : Prop :=
  let get := rq_Method r = "GET" ∨ rq_Method r = "HEAD" in
  let file name := portalFS (portalDist +:+ "/" +:+ name) in
  match resp with
  | WAsset ct body =>
      get ∧ ct ≠ "" ∧
      (safe_path (asset_name r) ∧ file (asset_name r) = Some (EFile body) ∨
       (asset_name r = "." ∨ safe_path (asset_name r) ∧ file (asset_name r) = Some EDir) ∧ body = "")
  | WIndex body => get ∧ file "index.html" = Some (EFile body)
  | WListing => get ∧ ∀ body, file "index.html" ≠ Some (EFile body)
  | _ => True
  end.

Lemma servePortalAsset_embedded portalFS types r ct body :
  portalFS portalDist = Some EDir → rq_Method r = "GET" ∨ rq_Method r = "HEAD" →
  servePortalAsset portalFS types (TrimPrefix (rq_Path r) "/") = Some (ct, body) →
  embedded portalFS r (WAsset ct body).
Proof.
  intros Hroot Hm. unfold servePortalAsset. cbv zeta.
  change (TrimPrefix (TrimPrefix (rq_Path r) "/") "/") with (asset_name r). case_decide; [done|].
  destruct (distFS portalFS (asset_name r)) as [e| |] eqn:Ho; [|done..]. intros [= <- <-].
  split; [done|]. split; [by case_decide|].
  apply distFS_entry in Ho as [[Hn He]|[Hs He]].
  - rewrite Hroot in He. injection He as <-. right. split; [by left|done].
  - destruct e as [c|]; [by left|]. right. split; [by right|done].
Qed.

Lemma serveRoot_embedded portalFS r :
  portalFS portalDist = Some EDir → rq_Method r = "GET" ∨ rq_Method r = "HEAD" →
  embedded portalFS r (serveRoot portalFS).
Proof.
  intros Hroot Hm. unfold serveRoot.
  assert (Hd : distFS portalFS "." = OEntry EDir).
  { unfold distFS. change (ValidPath ".") with true. change (path_Join portalDist ".") with portalDist.
    by rewrite Hroot. }
  rewrite Hd. unfold distFS. change (ValidPath "index.html") with true.
  change (path_Join portalDist "index.html") with (portalDist +:+ "/" +:+ "index.html").
  destruct (portalFS (portalDist +:+ "/" +:+ "index.html")) as [[c|]|] eqn:Hi; cbv iota;
    unfold embedded; rewrite Hi; (split; [done|]); [done|by intros c..].
Qed.

(** No request reads anything of the process but the files embedded for the
    portal.  Whatever the path, encoded or not, an asset is the file under
    portal/dist that the decoded path names by a relative path of names (no
    [..], no empty element), a directory gives no content, and everything else
    is the index or, without one, a listing; any method but GET and HEAD gets
    none of it. *)
Theorem portal_confined {W CA CT} `{!Actions W CA} `{!Clients W CT} `{!OAuthWorld W}
    `{!Unstructured} `{!ObjectMetaApi} check toolCalls portalFS TypeByExtension getenv has_config
    Backends oauth authCodeURL Marshal fuel r (w w' : W) resp (t : list (ServerEvent CA CT))
    (Hroot : portalFS portalDist = Some EDir)
    (Hrun : serve_request check toolCalls portalFS TypeByExtension getenv has_config Backends
              oauth authCodeURL Marshal fuel r w = (resp, w', t)) :
  embedded portalFS r resp.
Proof.
  pose proof (serve_request_emits check toolCalls portalFS TypeByExtension getenv has_config
    Backends oauth authCodeURL Marshal fuel r w) as Hd. rewrite Hrun in Hd. clear Hrun.
  destruct Hd; try done; [by eapply servePortalAsset_embedded|by apply serveRoot_embedded].
Qed.

(** ** Runs *)

(** No tool gets a client here; the actions are those of [ActionsContract]. *)
#[local] Instance no_clients : Clients unit Empty_set := {
  cl_for _ _ w := (inl (ENew "no client"), w);
  cl_dyn c := match c with end }.
#[local] Existing Instance ActionsContract.fixed_actions.
#[local] Existing Instance ActionsContract.demo_objects.
#[local] Existing Instance ActionsContract.demo_meta.
#[local] Existing Instance OAuth.demo_oauth.

Definition demo_files (name : string) : option Entry :=
  if decide (name ∈ ["portal/dist"; "portal/dist/assets"]) then Some EDir
  else if decide (name = "portal/dist/index.html") then Some (EFile "<html>")
  else if decide (name = "portal/dist/assets/app.js") then Some (EFile "code")
  else None.
Definition demo_req (method path raw : string) : HttpReq :=
  {| rq_Method := method; rq_RequestURI := path; rq_Path := path; rq_RawPath := raw;
     rq_Header := demo_headers; rq_Query := demo_query |}.
Definition demo_web (has_config : bool) (r : HttpReq)
    : HttpResponse * unit * list (ServerEvent bool Empty_set) :=
  serve_request (λ w, (None, w)) (λ _, []) demo_files (λ _, "text/javascript") (λ _, "") has_config
    demo_backends demo_handler id no_marshal 1 r tt.

Definition answer_of (method path raw : string) : HttpResponse :=
  (demo_web true (demo_req method path raw)).1.1.
Example asset : answer_of "GET" "/assets/app.js" "" = WAsset "text/javascript" "code".
Proof. reflexivity. Qed.
Example page : answer_of "GET" "/repositories/app" "" = WIndex "<html>".
Proof. reflexivity. Qed.
Example unclean : answer_of "GET" "/assets/../../secret" "" = WRedirect "/secret".
Proof. reflexivity. Qed.
Example encoded : answer_of "GET" "/../../secret" "/%2e%2e/%2e%2e/secret" = WIndex "<html>".
Proof. reflexivity. Qed.
Example posted : answer_of "POST" "/assets/app.js" "" = WMethodNotAllowed.
Proof. reflexivity. Qed.
Example slashless : answer_of "POST" "/actions" "" = WRedirect "/actions/".
Proof. reflexivity. Qed.

Definition demo_post : HttpReq :=
  demo_req "POST" "/actions/clusters/c1/repositories/app/create_pull_request/v1" "".
Definition demo_events : list (ServerEvent bool Empty_set) :=
  Eval vm_compute in (demo_web true demo_post).2.

Lemma request_authority_witness :
  ∃ e, e ∈ demo_events ∧ (∃ a, e = SvAction a ∧ acting a) ∧
    (∀ e', e' ∈ demo_events → part e' = part e) ∧
    serves (part e) (segments (EscapedPath (rq_Path demo_post) (rq_RawPath demo_post))) ∧
    entitled (λ _, "") demo_handler demo_post demo_events e.
Proof.
  exists (nth 10 demo_events (SvReadiness None)).
  assert (Hin : nth 10 demo_events (SvReadiness None) ∈ demo_events) by (do 10 right; left).
  split; [exact Hin|]. split; [eexists; split; [reflexivity|exact I]|].
  refine (request_authority (λ w, (None, w)) (λ _, []) demo_files (λ _, "text/javascript") (λ _, "") true
    demo_backends demo_handler id no_marshal 1 demo_post tt tt (demo_web true demo_post).1.1
    demo_events _ _ Hin).
  vm_compute. reflexivity.
Defined.


(** An encoded climb out of the directory reaches the portal and gets the index. *)
Lemma portal_confined_witness :
  ∃ resp, demo_files portalDist = Some EDir ∧
    resp = WIndex "<html>" ∧
    embedded demo_files (demo_req "GET" "/../../secret" "/%2e%2e/%2e%2e/secret") resp.
Proof.
  eexists. split; [reflexivity|]. split; [reflexivity|].
  refine (portal_confined (CA := bool) (CT := Empty_set) (λ w, (None, w)) (λ _, []) demo_files
    (λ _, "text/javascript") (λ _, "") true demo_backends demo_handler id no_marshal 1
    (demo_req "GET" "/../../secret" "/%2e%2e/%2e%2e/secret") tt tt _ [] eq_refl _).
  vm_compute. reflexivity.
Defined.

(** ** What the portal and the actions do not do *)

(** A directory of the bundle is answered with an empty file. *)
Lemma directory_answers_empty :
  answer_of "GET" "/assets" "" = WAsset "text/javascript" "".
Proof. reflexivity. Qed.

(** Without a kubeconfig, an action with a token aborts its response. *)
Lemma unconfigured_action_aborts : (demo_web false demo_post).1.1 = WAborted.
Proof. reflexivity. Qed.
