(* ===== verification/GitHubBackend.v ===== *)
(** * The controllers on GitHub

    The controllers work against any [GitBackend]; this file builds the GitHub
    one from the modelled operations of backend/github, over a world that logs
    the requests sent to the host, and runs every controller on it.  [traffic]
    says which requests a pass made: each of its backend calls sent a run of the
    modelled operation, and nothing else sent any. *)

From S2P Require Import Prelude GoStrings Encoding GoTime Errors CommitBundle Api Backend Tenant.
From S2P Require Import Env Shared GitHubApi GitHubRepositories GitHubTree GitHubCommits.
From S2P Require Import GitHubCheckout GitHubActions GitHubPackages Lifecycle OneShot.
From S2P Require CommitController RepositoryController CollaboratorController DeployKeyController.
From S2P Require ConnectionController CheckoutController BuildStatusController Packages.
From Stdlib Require Import Ascii Lia.

#[local] Open Scope string_scope.

(** ** The world with a log *)

Definition Logged (W : Type) : Type := W * list GEvent.

(** A call that does not reach the host, and one that does. *)
Definition quietly {W A : Type} (op : W → A * W) : Logged W → A * Logged W :=
  λ s, let '(a, w) := op s.1 in (a, (w, s.2)).
Definition logged {W A : Type} (m : M W GEvent A) : Logged W → A * Logged W :=
  λ s, let '(a, w, t) := m s.1 in (a, (w, s.2 ++ t)%list).

#[export] Instance logged_env {W} `{Env W} : Env (Logged W) := {
  env_cluster name := quietly (env_cluster name);
  env_now := quietly env_now;
  env_get k ns name := quietly (env_get k ns name);
  env_list k labels := quietly (env_list k labels);
  env_create k o := quietly (env_create k o);
  env_update k o := quietly (env_update k o);
  env_status k o := quietly (env_status k o);
  env_delete k o := quietly (env_delete k o);
  env_bundle_put scope files := quietly (env_bundle_put scope files);
  env_bundle_get scope name digest := quietly (env_bundle_get scope name digest);
  env_bundle_delete scope name digest := quietly (env_bundle_delete scope name digest);
  env_resolve conn data := quietly (env_resolve conn data);
  env_keygen comment := quietly (env_keygen comment);
  env_getenv := env_getenv }.

(** ** The backend *)

Section Backend.
Context {W : Type} `{!GitHub W} `{!Packages W} `{!Workflows W}.

(** The listing's paging loops run on [fuel], which the loops of the code do not
    have: should it run out, the answer is an error of the model's own.
    [ListPackages_terminates] gives a fuel with which it does not. *)
Definition listing (fuel : nat) (fresh : bool) (conn : Connection) (cred : Credential)
    (repo : Repository) : GEff W (error + list PackageInfo) :=
  r ← ListPackages fuel fresh conn cred repo;
  mret (default (inl (ENew "github: package listing does not end")) r).

(** [New] of backend/github, with its methods. *)
Definition github_backend (fuel : nat) : GitBackend (Logged W) := {|
  gb_Name := ProviderGitHub;
  gb_ValidateConnection conn cred := logged (ValidateConnection conn cred);
  gb_EnsureRepository conn cred repo := logged (EnsureRepository conn cred repo);
  gb_DeleteRepository conn cred repo := logged (DeleteRepository conn cred repo);
  gb_EnsureDeployKey conn cred repo key pub := logged (EnsureDeployKey conn cred repo key pub);
  gb_DeleteDeployKey conn cred repo id := logged (DeleteDeployKey conn cred repo id);
  gb_EnsureCollaborator conn cred repo collab := logged (EnsureCollaborator conn cred repo collab);
  gb_RemoveCollaborator conn cred repo collab := logged (RemoveCollaborator conn cred repo collab);
  gb_CommitFiles := Some (λ conn cred repo input, logged (CommitFiles conn cred repo input));
  gb_CheckoutFiles := Some (λ conn cred repo input, logged (CheckoutFiles conn cred repo input));
  gb_ListPackages := Some (λ fresh conn cred repo, logged (listing fuel fresh conn cred repo));
  gb_LatestWorkflowRun := Some (λ conn cred repo q, logged (LatestWorkflowRun conn cred repo q));
  gb_DispatchWorkflow := Some (λ conn cred repo workflow ref,
                                 logged (DispatchWorkflow conn cred repo workflow ref)) |}.

(** What [runServe] registers. *)
Definition serve_registry (fuel : nat) : Registry (Logged W) :=
  (Register NewRegistry (Some (github_backend fuel))).2.

(** ** Which requests a call sent *)

Definition ran {A} (m : GEff W A) (r : A) (g : list GEvent) : Prop :=
  ∃ w w', m w = (r, w', g).

Definition sent (fuel : nat) (c : BackendCall) (g : list GEvent) : Prop :=
  match c with
  | CValidate conn cred r => ran (ValidateConnection conn cred) r g
  | CEnsureRepository conn cred repo r => ran (EnsureRepository conn cred repo) r g
  | CDeleteRepository conn cred repo r => ran (DeleteRepository conn cred repo) r g
  | CEnsureDeployKey conn cred repo key pub r => ran (EnsureDeployKey conn cred repo key pub) r g
  | CDeleteDeployKey conn cred repo id r => ran (DeleteDeployKey conn cred repo id) r g
  | CEnsureCollaborator conn cred repo collab r => ran (EnsureCollaborator conn cred repo collab) r g
  | CRemoveCollaborator conn cred repo collab r => ran (RemoveCollaborator conn cred repo collab) r g
  | CCommitFiles conn cred repo input r => ran (CommitFiles conn cred repo input) r g
  | CCheckoutFiles conn cred repo input r => ran (CheckoutFiles conn cred repo input) r g
  | CListPackages fresh conn cred repo r => ran (listing fuel fresh conn cred repo) r g
  | CLatestWorkflowRun conn cred repo q r => ran (LatestWorkflowRun conn cred repo q) r g
  | CDispatchWorkflow conn cred repo workflow ref r =>
      ran (DispatchWorkflow conn cred repo workflow ref) r g
  end.
(** The calls of backend/github are for GitHub connections. *)
Definition call_connection (c : BackendCall) : Connection :=
  match c with
  | CValidate conn _ _ | CEnsureRepository conn _ _ _ | CDeleteRepository conn _ _ _
  | CEnsureDeployKey conn _ _ _ _ _ | CDeleteDeployKey conn _ _ _ _
  | CEnsureCollaborator conn _ _ _ _ | CRemoveCollaborator conn _ _ _ _
  | CCommitFiles conn _ _ _ _ | CCheckoutFiles conn _ _ _ _ | CListPackages _ conn _ _ _
  | CLatestWorkflowRun conn _ _ _ _ | CDispatchWorkflow conn _ _ _ _ _ => conn
  end.

Definition event_sent (fuel : nat) (e : Event) (g : list GEvent) : Prop :=
  match e with
  | EvBackend c => cs_Provider (cn_Spec (call_connection c)) = ProviderGitHub ∧ sent fuel c g
  | _ => g = []
  end.

Inductive traffic (fuel : nat) : list Event → list GEvent → Prop :=
  | tr_nil : traffic fuel [] []
  | tr_cons e t g l : event_sent fuel e g → traffic fuel t l → traffic fuel (e :: t) (g ++ l).

Lemma traffic_app fuel t u l k :
  traffic fuel t l → traffic fuel u k → traffic fuel (t ++ u) (l ++ k).
Proof.
  induction 1 as [|e t g l He Ht IH]; intros Hu; [done|].
  rewrite <- app_assoc. cbn [app]. constructor; auto.
Qed.

(** The requests of an event are a segment of the log. *)
Lemma traffic_split fuel t l e :
  traffic fuel t l → e ∈ t → ∃ pre g post, l = (pre ++ g ++ post)%list ∧ event_sent fuel e g.
Proof.
  induction 1 as [|e' t g l He Ht IH]; [set_solver|].
  intros [->|Hin]%elem_of_cons; [by exists [], g, l|].
  destruct (IH Hin) as (pre & g' & post & -> & Hg). exists (g ++ pre)%list, g', post.
  split; [by rewrite <- app_assoc|done].
Qed.

(** A request of the log was sent by one call, after the call's earlier ones. *)
Lemma traffic_request fuel t l before x after :
  traffic fuel t l → l = (before ++ x :: after)%list →
  ∃ t1 e t2 pre h rest, t = (t1 ++ e :: t2)%list ∧ before = (pre ++ h)%list ∧
    event_sent fuel e (h ++ x :: rest).
Proof.
  intros Ht. revert before. induction Ht as [|e t g l He Ht IH]; intros before Heq.
  { by destruct before. }
  apply app_eq_inv in Heq as [(k & -> & Hk)|(k & -> & ->)].
  - destruct k as [|y k].
    + cbn in Hk. symmetry in Hk. destruct (IH [] Hk) as (t1 & e' & t2 & pre & h & rest & -> & Hb & Hs).
      symmetry in Hb. apply app_eq_nil in Hb as [-> ->].
      exists (e :: t1), e', t2, before, [], rest. by rewrite !app_nil_r.
    + injection Hk as <- ->. by exists [], e, t, [], before, k.
  - destruct (IH k eq_refl) as (t1 & e' & t2 & pre & h & rest & -> & -> & Hs).
    exists (e :: t1), e', t2, (g ++ pre)%list, h, rest. by rewrite <- app_assoc.
Qed.

(** A pass that made no call to a host sent nothing. *)
Lemma traffic_quiet fuel t l :
  traffic fuel t l → Forall (λ e, ∀ c, e ≠ EvBackend c) t → l = [].
Proof.
  induction 1 as [|e t g l He Ht IH]; [done|]. intros [Hq Hqs]%Forall_cons.
  rewrite IH by done. destruct e; try (cbn in He; by subst). by destruct (Hq c).
Qed.

Lemma serve_registry_get fuel name b :
  Registry_Get (serve_registry fuel) name = Some b → name = ProviderGitHub ∧ b = github_backend fuel.
Proof.
  unfold serve_registry, Registry_Get, Register, NewRegistry. cbn [gb_Name github_backend].
  rewrite decide_False by done. rewrite lookup_empty. cbn [snd].
  intros [[<- <-]|[_ Hn]]%lookup_insert_Some; [done|]. by rewrite lookup_empty in Hn.
Qed.

(** ** Carrying the log through a pass *)

Context `{!Env W} `{!ApiMachinery}.
Abbreviation L := (Logged W).

(** From every state: [Q] of the result, and the log grew by the traffic. *)
Definition carries {A} (fuel : nat) (m : Eff L A) (Q : A → Prop) : Prop :=
  ∀ s, let '(a, s', t) := m s in Q a ∧ ∃ l, s'.2 = (s.2 ++ l)%list ∧ traffic fuel t l.
Definition carried {A} (fuel : nat) (m : Eff L A) : Prop := carries fuel m (λ _, True).

Lemma carries_ret {A} fuel (a : A) (Q : A → Prop) : Q a → carries fuel (mret a) Q.
Proof. intros HQ s. split; [done|]. exists []. split; [by rewrite app_nil_r|constructor]. Qed.
Lemma carries_bind_post {A B} fuel (m : Eff L A) (k : A → Eff L B) P Q :
  carries fuel m P → (∀ a, P a → carries fuel (k a) Q) → carries fuel (m ≫= k) Q.
Proof.
  intros Hm Hk s. specialize (Hm s). unfold mbind, M_bind. destruct (m s) as [[a s1] t].
  destruct Hm as (HP & l & E1 & Hl). specialize (Hk a HP s1). destruct (k a s1) as [[b s2] u].
  destruct Hk as (HQ & l' & E2 & Hl'). split; [done|].
  exists (l ++ l')%list. split; [by rewrite E2, E1, app_assoc|by apply traffic_app].
Qed.
Lemma carries_bind {A B} fuel (m : Eff L A) (k : A → Eff L B) Q :
  carried fuel m → (∀ a, carries fuel (k a) Q) → carries fuel (m ≫= k) Q.
Proof. intros Hm Hk. by eapply carries_bind_post. Qed.
Lemma carries_bind_res {E A B} fuel (m : Eff L (E + A)) (k : A → Eff L (E + B)) Q :
  carried fuel m → (∀ e, Q (inl e)) → (∀ a, carries fuel (k a) Q) → carries fuel (bind_res m k) Q.
Proof.
  intros Hm HQ Hk. apply carries_bind; [done|]. intros [e|a]; [by apply carries_ret|apply Hk].
Qed.
Lemma carried_for_each {E A} fuel (f : A → Eff L (option E)) l :
  (∀ x, carried fuel (f x)) → carried fuel (for_each l f).
Proof.
  intros Hf. induction l as [|x l IH]; cbn [for_each]; [by apply carries_ret|].
  apply carries_bind; [done|]. intros [e|]; [by apply carries_ret|exact IH].
Qed.
Lemma carries_quiet {A} fuel (op : W → A * W) (ev : A → Event) (Q : A → Prop) :
  (∀ a c, ev a ≠ EvBackend c) → (∀ a, Q a) → carries fuel (call (quietly op) ev) Q.
Proof.
  intros Hev HQ s. unfold call, quietly. destruct (op s.1) as [a w]. split; [done|]. exists []. cbn.
  split; [by rewrite app_nil_r|]. change (@nil GEvent) with (@nil GEvent ++ [])%list.
  constructor; [|constructor]. specialize (Hev a). destruct (ev a); try done. by destruct (Hev c).
Qed.
Lemma carries_logged {A} fuel (m : GEff W A) (c : A → BackendCall) (Q : A → Prop) :
  (∀ a, cs_Provider (cn_Spec (call_connection (c a))) = ProviderGitHub) →
  (∀ a g, ran m a g → sent fuel (c a) g) → (∀ a, Q a) →
  carries fuel (call (logged m) (λ a, EvBackend (c a))) Q.
Proof.
  intros Hp Hc HQ s. unfold call, logged. destruct (m s.1) as [[a w] g] eqn:Hm.
  split; [done|]. exists g. cbn.
  split; [done|]. rewrite <- (app_nil_r g). constructor; [|constructor].
  split; [apply Hp|]. apply Hc. by exists s.1, w.
Qed.
End Backend.

(** Walk through a pass: every call is quiet or GitHub's.  A resolution's
    postcondition, registered in [carry_resolutions], names the backend. *)
Create HintDb carry_resolutions.
Ltac carry_head m := lazymatch m with ?f _ => carry_head f | _ => m end.
Ltac carry_unfold :=
  match goal with
  | |- carries _ ?m _ =>
      let h := carry_head m in
      lazymatch h with @call => fail | @mbind => fail | _ => unfold h end
  end.
Ltac carry :=
  unfold carried;
  repeat first
    [ apply carries_ret; solve [done | by eauto]
    | apply carries_bind_res; [|done|intros ?]
    | eapply carries_bind_post; [solve [eauto with carry_resolutions nocore]|intros ? ?]
    | apply carries_bind; [|intros ?]
    | apply carried_for_each; intros ?
    | apply carries_quiet; [intros ? ?; discriminate|done]
    | apply carries_logged; [intros; cbn [call_connection]; congruence|intros; eassumption|done]
    | match goal with
      | H : Registry_Get (serve_registry _) _ = Some _ |- _ =>
          apply serve_registry_get in H as [? ->]
      end
    | progress cbn [gb_CommitFiles gb_CheckoutFiles gb_ListPackages gb_LatestWorkflowRun
                    gb_DispatchWorkflow github_backend]
    | match goal with H : match _ with _ => _ end |- _ => progress cbn iota beta in H end
    | match goal with H : _ = github_backend _ ∧ _ |- _ => destruct H as [-> ?] end
    | case_match; simplify_eq | case_decide
    | progress unfold carried | carry_unfold ].

Section Passes.
Context {W : Type} `{!GitHub W} `{!Packages W} `{!Workflows W} `{!Env W} `{!ApiMachinery}.
Context (fuel : nat).
Abbreviation backends := (serve_registry (W := W) fuel).

Lemma repository_resolve repo :
  carries fuel (RepositoryController.resolve backends repo) (λ r,
    match r with
    | inr (b, conn, _) => b = github_backend fuel ∧ cs_Provider (cn_Spec conn) = ProviderGitHub
    | inl _ => True
    end).
Proof. unfold RepositoryController.resolve. carry. Qed.
#[local] Hint Resolve repository_resolve : carry_resolutions.

Lemma commit_carried hb cl ns name :
  carried fuel (CommitController.Reconcile (Some backends) hb cl ns name).
Proof.
  unfold CommitController.Reconcile, ClusterClient, CommitController.with_ready, SetCondition,
    CommitController.updateStatusIfChanged, CommitController.failAndDeleteBundle,
    CommitController.fail, CommitController.runCommit, ResolveRepository.
  carry.
Qed.
Lemma repository_carried cl ns name :
  carried fuel (RepositoryController.Reconcile backends cl ns name).
Proof. carry. Qed.
Lemma resolveAll_carries ref :
  carries fuel (resolveAll backends ref) (λ r,
    match r with
    | Some (b, conn, _, _) => b = github_backend fuel ∧ cs_Provider (cn_Spec conn) = ProviderGitHub
    | None => True
    end).
Proof. unfold resolveAll. carry. Qed.
#[local] Hint Resolve resolveAll_carries : carry_resolutions.

Lemma collaborator_carried cl ns name :
  carried fuel (CollaboratorController.Reconcile backends cl ns name).
Proof. carry. Qed.
Lemma deploykey_carried cl ns name :
  carried fuel (DeployKeyController.Reconcile backends cl ns name).
Proof. carry. Qed.
Lemma connection_carried cl ns name :
  carried fuel (ConnectionController.Reconcile backends cl ns name).
Proof. carry. Qed.
Lemma checkout_carried hb cl ns name :
  carried fuel (CheckoutController.Reconcile (Some backends) hb cl ns name).
Proof. carry. Qed.
Lemma buildstatus_carried cl ns name :
  carried fuel (BuildStatusController.Reconcile (Some backends) cl ns name).
Proof. carry. Qed.
Lemma packages_carried interval cl ns name :
  carried fuel (Packages.Reconcile backends interval cl ns name).
Proof. carry. Qed.
End Passes.

(** A package host that answers every call with nothing. *)
Definition quiet_packages : GitHubPackages.Packages unit := {|
  pk_list := λ _ _ _ _ _ w, (GOk [] None, w);
  pk_versions := λ _ _ _ _ _ _ w, (GOk [] None, w);
  pk_baseURL := λ _, ""; pk_acquire := λ _ w, (None, w);
  pk_state := λ _, RequestCache.newRequestState; pk_put := λ _ w, w; pk_flight := λ _, 0%nat;
  pk_wait := λ _ w, (inr "", w);
  pk_packages_json := λ _, ""; pk_packages_of := λ _, inr [];
  pk_versions_json := λ _, ""; pk_versions_of := λ _, inr [] |}.
