(* ===== verification/OnGitHub.v ===== *)
(** * From the workspace to the host

    The commit and repository controllers run on the GitHub backend: what a
    pass asks of the host is for the object it read, and what the host was sent
    for it obeys the contracts of the modelled operations. *)

From S2P Require Import Prelude GoStrings Encoding GoTime Errors CommitBundle Api Backend Tenant.
From S2P Require Import Env Shared GitHubApi GitHubRepositories GitHubTree GitHubCommits.
From S2P Require Import GitHubPackages GitHubActions Lifecycle RepositoryController CommitController GitHubBackend.
From Stdlib Require Import Ascii Lia.

#[local] Open Scope string_scope.

(** ** Passes that are mostly silent *)

(** Nothing asked of the host. *)
Definition silent (e : Event) : Prop := ∀ c, e ≠ EvBackend c.

(** Steps through a pass under a guard that is about backend calls only: calls
    that are always allowed, silent parts, and a silent end. *)
Section Silent.
Context {W : Type} (P : list Event → Event → Prop) (HP : ∀ h e, silent e → P h e).

Lemma hoare_silent {A} (m : Eff W A) h :
  emits m (λ _ t, Forall silent t) → hoare P h m (λ _ _, True).
Proof using HP.
  intros Hm. apply (hoare_all P silent m h (λ _ _, True)); [|exact HP|done].
  eapply emits_mono; [exact Hm|]. done.
Qed.
Lemma hoare_call_free {A} (op : W → A * W) (ev : A → Event) h (Q : A → list Event → Prop) :
  (∀ a, silent (ev a)) → (∀ a, Q a (h ++ [ev a])%list) → hoare P h (call op ev) Q.
Proof using HP. intros Hs HQ. apply hoare_call; [|done]. intros a. by apply HP. Qed.
Lemma hoare_part {A} (m : Eff W A) h (Q : A → list Event → Prop) (R : A → Prop) :
  emits m (λ a t, Forall silent t ∧ R a) → (∀ a t, R a → Q a (h ++ t)%list) → hoare P h m Q.
Proof using HP.
  intros Hm HQ. eapply (hoare_all P silent m h (λ a _, R a)); [exact Hm|exact HP|auto].
Qed.
End Silent.

(** ** What a commit pass asks *)

(** The request of a commit object, for the bundle it names. *)
Definition request_of (commit : RepositoryCommit) (bundle : Bundle) : RepositoryCommitInput :=
  {| ci_Message := ms_Message (rc_Spec commit); ci_Branch := ms_Branch (rc_Spec commit);
     ci_IdempotencyKey := repositoryCommitIdempotencyKey commit;
     ci_Files := commit_file <$> b_Files bundle |}.

(** The repository and connection that a commit object names, and the resolved
    credential. *)
Definition names_host (h : list Event) (commit : RepositoryCommit) (conn : Connection)
    (cred : Credential) (repo : Repository) : Prop :=
  EvGet KRepository "" (ms_RepositoryRef (rc_Spec commit)) (inr repo) ∈ h ∧
  EvGet KConnection "" (rs_ConnectionRef (rp_Spec repo)) (inr conn) ∈ h ∧
  EvCredential (inr cred) ∈ h.

(** Every call of the host is for the commit object the pass read, and the
    commit is of the bundle the object names, read in the object's cluster. *)
Definition asked (cl ns name : string) (h : list Event) (e : Event) : Prop :=
  match e with
  | EvBackend (CEnsureRepository conn cred repo _) =>
      ∃ commit, EvGet KCommit ns name (inr commit) ∈ h ∧ names_host h commit conn cred repo
  | EvBackend (CCommitFiles conn cred repo input _) =>
      ∃ commit bundle, EvGet KCommit ns name (inr commit) ∈ h ∧ names_host h commit conn cred repo ∧
        EvBundleGet cl (br_Name (so_BundleRef (ms_Source (rc_Spec commit))))
          (br_Digest (so_BundleRef (ms_Source (rc_Spec commit)))) (inr bundle) ∈ h ∧
        input = request_of commit bundle
  | EvBackend _ => False
  | _ => True
  end.

Section Asked.
Context {W : Type} `{Env W} `{ApiMachinery} (cl ns name : string).
Abbreviation P := (asked cl ns name).

Lemma silent_asked h e : silent e → P h e.
Proof. destruct e; try done. intros Hs. by destruct (Hs c). Qed.

(** The write of a status, and what it leaves of the object. *)
Lemma with_ready_silent commit s st re msg :
  emits (with_ready (W := W) commit s st re msg)
    (λ c t, Forall silent t ∧ c = rc_set_Status commit (rc_Status c)).
Proof.
  unfold with_ready, SetCondition. apply emits_bind, emits_bind, emits_call. intros now.
  apply emits_ret, emits_ret. split; [by repeat constructor|done].
Qed.
Lemma update_silent commit :
  emits (updateStatusIfChanged (W := W) commit) (λ _ t, Forall silent t).
Proof. unfold updateStatusIfChanged. env_all; done. Qed.
Lemma fail_silent hb c msg ref :
  emits (failAndDeleteBundle (W := W) hb c msg cl ref) (λ _ t, Forall silent t).
Proof.
  unfold failAndDeleteBundle, fail. env_all; try done; try apply update_silent.
  eapply emits_mono; [apply with_ready_silent|]. by intros ? ? [? _].
Qed.
Lemma wait_silent c t0 : emits (waitForRateLimit (W := W) c t0) (λ _ t, Forall silent t).
Proof.
  unfold waitForRateLimit. env_all; try done; try apply update_silent.
  eapply emits_mono; [apply with_ready_silent|]. by intros ? ? [? _].
Qed.

Section Commit.
Context (fail : string → Eff W (error + Result)) (commit0 commit : RepositoryCommit).
Context (Hfail : ∀ msg, emits (fail msg) (λ _ t, Forall silent t)).
Context (Hsame : commit = rc_set_Status commit0 (rc_Status commit)).
Abbreviation ref := (so_BundleRef (ms_Source (rc_Spec commit0))).

Ltac silently :=
  apply (hoare_silent P silent_asked); env_all; try done; try apply Hfail; try apply wait_silent; try apply update_silent.

Lemma commitBundle_asked h b committer conn cred repo :
  EvGet KCommit ns name (inr commit0) ∈ h → names_host h commit0 conn cred repo →
  hoare P h (commitBundle (W := W) fail commit cl ref b committer conn cred repo) (λ _ _, True).
Proof using Hfail Hsame.
  intros Hget Hn. unfold commitBundle.
  apply hoare_bind, hoare_call; [intros r; by exists commit0|]. intros [err|res].
  { unfold error_text. silently. }
  apply hoare_bind, (hoare_call_free P silent_asked); [done|]. intros [err|bundle].
  { unfold error_text. silently. }
  apply hoare_bind, hoare_call.
  - intros r. exists commit0, bundle. destruct Hn as (H1 & H2 & H3).
    split; [eauto with history|]. split; [split_and!; eauto with history|].
    split; [eauto with history|]. rewrite Hsame. done.
  - intros [err|res']; [unfold error_text; silently|].
    apply hoare_bind, (hoare_call_free P silent_asked); [done|]. intros now.
    apply hoare_bind. eapply (hoare_part P silent_asked); [apply with_ready_silent|]. intros c t _.
    silently.
Qed.

Lemma runCommit_asked h backends :
  EvGet KCommit ns name (inr commit0) ∈ h →
  hoare P h (runCommit (W := W) fail backends commit cl ref) (λ _ _, True).
Proof using Hfail Hsame.
  intros Hget. unfold runCommit, ResolveRepository, ResolveConnection, ResolveCredential.
  assert (Hspec : rc_Spec commit = rc_Spec commit0) by (by rewrite Hsame).
  rewrite Hspec.
  apply hoare_bind, hoare_bind, (hoare_call_free P silent_asked); [done|]. intros [e|repo].
  { destruct (IsNotFound e); apply hoare_ret; unfold error_text; silently. }
  apply hoare_ret, hoare_bind, hoare_bind, (hoare_call_free P silent_asked); [done|]. intros [e|conn].
  { destruct (IsNotFound e); apply hoare_ret; unfold error_text; silently. }
  apply hoare_ret. destruct (Registry_Get _ _) as [b|]; [|silently].
  destruct (gb_CommitFiles b) as [committer|]; [|silently].
  apply hoare_bind, hoare_bind, (hoare_call_free P silent_asked); [done|]. intros [e|secret].
  { destruct (IsNotFound e); [|destruct (IsForbidden e)]; apply hoare_ret; unfold error_text; silently. }
  apply (hoare_call_free P silent_asked); [done|]. intros [e|cred]; [unfold error_text; silently|].
  apply commitBundle_asked; [eauto with history|]. split_and!; eauto with history.
Qed.
End Commit.

Lemma Reconcile_asked backends hb :
  hoare P [] (Reconcile (W := W) backends hb cl ns name) (λ _ _, True).
Proof.
  unfold Reconcile, ClusterClient.
  apply hoare_bind_res, hoare_bind, (hoare_call_free P silent_asked); [done|]. intros [e|]; [by apply hoare_ret|].
  apply hoare_ret, hoare_bind, (hoare_call_free P silent_asked); [done|]. intros [e|commit].
  { destruct (IsNotFound e); by apply hoare_ret. }
  destruct (_ || _); [by apply hoare_ret|]. cbv zeta.
  assert (Hf : ∀ c msg, emits (r ← failAndDeleteBundle (W := W) hb c msg cl
      (so_BundleRef (ms_Source (rc_Spec commit)));
    match r with Some e => mret (inl e) | None => mret (inr NoRequeue) end) (λ _ t, Forall silent t)).
  { intros c msg. env_all; try done. apply fail_silent. }
  destruct (negb hb); [apply (hoare_silent P silent_asked), Hf|]. destruct backends as [backends|]; [|apply (hoare_silent P silent_asked), Hf].
  apply hoare_bind, (hoare_call_free P silent_asked); [done|]. intros now.
  apply hoare_bind. eapply (hoare_part P silent_asked); [apply with_ready_silent|]. intros c t Hc.
  apply hoare_bind. eapply (hoare_part P silent_asked _ _ _ (λ _, True)).
  { eapply emits_mono; [apply update_silent|]. done. }
  intros [e|] u _; [by apply hoare_ret|].
  apply (runCommit_asked _ commit c); [intros msg; apply Hf|done|eauto with history].
Qed.
End Asked.

(** ** What the host was sent *)

(** A run on the host obeys the operation's contract. *)
Lemma ran_hoare {W A} (m : M W GEvent A) (G : list GEvent → GEvent → Prop)
    (Q : A → list GEvent → Prop) r g :
  hoare G [] m Q → ran m r g →
  (∀ before e after, g = (before ++ e :: after)%list → G before e) ∧ Q r g.
Proof. intros Hm (w & w' & Hrun). by eapply hoare_run. Qed.

(** A changing request, after the earlier requests [h] of its call: the creation
    of the repository, or a step of the commit, that the object asks for. *)
Definition commissioned (t : list Event) (cl ns name : string) (h : list GEvent) (e : GEvent) : Prop :=
  ∃ commit conn cred repo, EvGet KCommit ns name (inr commit) ∈ t ∧
    names_host t commit conn cred repo ∧ cs_Provider (cn_Spec conn) = ProviderGitHub ∧
    (ensure_guard conn repo h e ∨
     ∃ bundle, EvBundleGet cl (br_Name (so_BundleRef (ms_Source (rc_Spec commit))))
         (br_Digest (so_BundleRef (ms_Source (rc_Spec commit)))) (inr bundle) ∈ t ∧
       commit_guard conn repo (request_of commit bundle) h e).

Lemma names_host_mono h h' commit conn cred repo :
  (∀ e, e ∈ h → e ∈ h') → names_host h commit conn cred repo → names_host h' commit conn cred repo.
Proof. intros Hs (H1 & H2 & H3). split_and!; auto. Qed.

Section Host.
Context {W : Type} `{!GitHub W} `{!GitHubPackages.Packages W} `{!Workflows W}.

Lemma sent_commissioned fuel cl ns name t1 c t2 h e rest :
  asked cl ns name t1 (EvBackend c) → event_sent (W := W) fuel (EvBackend c) (h ++ e :: rest) →
  commissioned (t1 ++ EvBackend c :: t2) cl ns name h e.
Proof.
  intros Ha [Hp Hs]. destruct c; try done; cbn [call_connection sent asked] in *.
  - destruct Ha as (commit & Hg & Hn). exists commit, conn, cred, repo.
    split; [eauto with history|]. split; [eapply names_host_mono; [|exact Hn]; eauto with history|].
    split; [done|]. left. eapply ran_hoare in Hs as [Hs _]; [|apply EnsureRepository_hoare]. by eapply Hs.
  - destruct Ha as (commit & bundle & Hg & Hn & Hb & ->). exists commit, conn, cred, repo.
    split; [eauto with history|]. split; [eapply names_host_mono; [|exact Hn]; eauto with history|].
    split; [done|]. right. exists bundle. split; [eauto with history|].
    eapply ran_hoare in Hs as [Hs _]; [|apply CommitFiles_hoare]. by eapply Hs.
Qed.

Lemma sent_committed fuel cl ns name t1 conn cred repo input res t2 g :
  let c := CCommitFiles conn cred repo input (inr res) in
  asked cl ns name t1 (EvBackend c) → event_sent (W := W) fuel (EvBackend c) g →
  ∃ commit bundle, EvGet KCommit ns name (inr commit) ∈ (t1 ++ EvBackend c :: t2)%list ∧
    names_host (t1 ++ EvBackend c :: t2) commit conn cred repo ∧
    EvBundleGet cl (br_Name (so_BundleRef (ms_Source (rc_Spec commit))))
      (br_Digest (so_BundleRef (ms_Source (rc_Spec commit)))) (inr bundle)
      ∈ (t1 ++ EvBackend c :: t2)%list ∧
    input = request_of commit bundle ∧ commit_result conn repo input (inr res) g.
Proof.
  intros c (commit & bundle & Hg & Hn & Hb & Hi) [_ Hs]. exists commit, bundle.
  split; [eauto with history|]. split; [eapply names_host_mono; [|exact Hn]; eauto with history|].
  split; [eauto with history|]. split; [done|].
  by eapply ran_hoare in Hs as [_ Hs]; [|apply CommitFiles_hoare].
Qed.
End Host.

(** ** Property *)


(** ** What a repository pass asks *)

(** The host is asked for the object read, through the connection it names. *)
Definition asked_repository (ns name : string) (h : list Event) (e : Event) : Prop :=
  match e with
  | EvBackend (CEnsureRepository conn _ repo _) | EvBackend (CDeleteRepository conn _ repo _) =>
      EvGet KRepository ns name (inr repo) ∈ h ∧
      EvGet KConnection "" (rs_ConnectionRef (rp_Spec repo)) (inr conn) ∈ h
  | EvBackend _ => False
  | _ => True
  end.

Section AskedRepository.
Context {W : Type} `{Env W} `{ApiMachinery} (ns name : string).
Abbreviation P := (asked_repository ns name).

Lemma silent_asked_repository h e : silent e → P h e.
Proof. destruct e; try done. intros Hs. by destruct (Hs c). Qed.
#[local] Abbreviation free := (hoare_call_free P silent_asked_repository).

Lemma lifecycle_silent (repo : Repository) :
  (∀ reason msg, emits (RepositoryController.fail (W := W) repo reason msg) (λ _ t, Forall silent t)) ∧
  (∀ reason err, emits (hostError (W := W) (k := KRepository) repo reason err) (λ _ t, Forall silent t)) ∧
  emits (release (W := W) (k := KRepository) repo) (λ _ t, Forall silent t) ∧
  emits (adopt (W := W) (k := KRepository) repo) (λ _ t, Forall silent t).
Proof.
  split_and!; intros;
    unfold RepositoryController.fail, hostError, release, adopt, waitForRateLimit, Lifecycle.fail,
      Lifecycle.waitForRateLimit, Lifecycle.setNotReady, SetCondition, error_text;
    env_all; done.
Qed.

Lemma resolve_connection backends repo :
  emits (RepositoryController.resolve (W := W) backends repo) (λ r t, Forall silent t ∧
    match r with
    | inr (_, conn, _) => EvGet KConnection "" (rs_ConnectionRef (rp_Spec repo)) (inr conn) ∈ t
    | inl _ => True
    end).
Proof.
  unfold RepositoryController.resolve, error_text, ResolveConnection, ResolveCredential.
  env_run; (split; [by repeat constructor|]); try done; by left.
Qed.

Lemma repository_asked backends cl :
  hoare P [] (RepositoryController.Reconcile (W := W) backends cl ns name) (λ _ _, True).
Proof.
  unfold RepositoryController.Reconcile, ClusterClient.
  apply hoare_bind_res, hoare_bind, free; [done|]. intros [e|]; [by apply hoare_ret|].
  apply hoare_ret, hoare_bind, free; [done|]. intros [e|repo].
  { destruct (IsNotFound e); by apply hoare_ret. }
  destruct (lifecycle_silent repo) as (Hfail & Herr & Hrel & Had).
  apply hoare_bind. eapply (hoare_all P silent); [apply resolve_connection|apply silent_asked_repository|].
  intros resolved t _ Hconn.
  assert (Hcalls : ∀ b conn cred r, resolved = inr (b, conn, cred) →
    P (((([] ++ [EvCluster cl None]) ++ [EvGet KRepository ns name (inr repo)]) ++ t)%list)
      (EvBackend (CEnsureRepository conn cred repo r)) ).
  { intros b conn cred r ->. split; eauto with history. }
  assert (Hcalls' : ∀ b conn cred r, resolved = inr (b, conn, cred) →
    P (((([] ++ [EvCluster cl None]) ++ [EvGet KRepository ns name (inr repo)]) ++ t)%list)
      (EvBackend (CDeleteRepository conn cred repo r)) ).
  { intros b conn cred r ->. split; eauto with history. }
  destruct (deleting _).
  { unfold RepositoryController.reconcileDeletion. destruct (held _); [|by apply hoare_ret].
    destruct resolved as [text|[[b conn] cred]]; [by apply (hoare_silent P silent_asked_repository)|].
    apply hoare_bind, hoare_call; [intros r; by eapply Hcalls'|].
    intros [err|]; by apply (hoare_silent P silent_asked_repository). }
  destruct (negb _); [by apply (hoare_silent P silent_asked_repository)|].
  destruct resolved as [text|[[b conn] cred]]; [by apply (hoare_silent P silent_asked_repository)|].
  apply hoare_bind, hoare_call; [intros r; by eapply Hcalls|].
  intros [err|res]; [by apply (hoare_silent P silent_asked_repository)|].
  apply (hoare_silent P silent_asked_repository). unfold SetCondition. env_all; done.
Qed.
End AskedRepository.

(** C6: what a pass of the repository controller does on GitHub.  Everything it
    changes there is for the Repository it read, through the connection the
    object names, while the object holds the finalizer: the creation of the
    named repository, if the host reported it missing, for a live object, or its
    deletion, for one that is being deleted and only as far as DeleteRepository
    may go.  And the finalizer of an object that is being deleted is released
    only if the log holds a deletion that succeeded, or found nothing to delete,
    or if what the object names could not be resolved. *)
Theorem repository_on_github {W} `{!GitHub W} `{!GitHubPackages.Packages W} `{!Workflows W} `{!Env W}
    `{ApiMachineryLaws} fuel cl ns name (w w' : W) r log t
    (Hrun : RepositoryController.Reconcile (serve_registry fuel) cl ns name (w, []) = (r, (w', log), t)) :
  (∀ before e after, log = (before ++ e :: after)%list → mutates e = true →
     ∃ repo conn earlier h, EvGet KRepository ns name (inr repo) ∈ t ∧
       EvGet KConnection "" (rs_ConnectionRef (rp_Spec repo)) (inr conn) ∈ t ∧
       cs_Provider (cn_Spec conn) = ProviderGitHub ∧ held (k := KRepository) repo = true ∧
       before = (earlier ++ h)%list ∧
       (deleting (k := KRepository) repo = false ∧ ensure_guard conn repo h e ∨
        deleting (k := KRepository) repo = true ∧ delete_guard conn repo h e)) ∧
  (∀ o u, EvUpdate KRepository o u ∈ t → deleting (k := KRepository) o = true →
     ∃ repo, EvGet KRepository ns name (inr repo) ∈ t ∧
       (unresolved (W := Logged W) (serve_registry fuel) t ∨
        ∃ conn g earlier later, EvGet KConnection "" (rs_ConnectionRef (rp_Spec repo)) (inr conn) ∈ t ∧
          log = (earlier ++ g ++ later)%list ∧ delete_result conn repo None g)).
Proof.
  pose proof (repository_carried fuel cl ns name (w, [])) as Hc. rewrite Hrun in Hc.
  destruct Hc as (_ & l & Hl & Htr). cbn in Hl. subst l.
  pose proof (hoare_run _ _ _ _ _ _ _ (repository_asked ns name (serve_registry fuel) cl) Hrun) as [Ha _].
  pose proof (hoare_run _ _ _ _ _ _ _ (repository_hoare (serve_registry fuel) cl ns name) Hrun) as [Hlc _].
  split.
  - intros before e after Hlog Hm.
    destruct (traffic_request _ _ _ _ _ _ Htr Hlog) as (t1 & ev & t2 & pre & h & rest & -> & -> & Hs).
    specialize (Ha t1 ev t2 eq_refl). destruct (Hlc t1 ev t2 eq_refl) as [_ Hen Hcl _ _].
    destruct ev; try (by destruct h). destruct Hs as [Hp Hs]. destruct c; try done;
      destruct Ha as [Hg Hconn]; exists repo, conn, pre, h;
      (split; [eauto with history|]); (split; [eauto with history|]); (split; [done|]).
    + destruct Hen as (o & -> & _ & Hd & Hh); [by exists repo|]. split_and!; [done..|left].
      split; [done|]. eapply ran_hoare in Hs as [Hs _]; [|apply EnsureRepository_hoare]. by eapply Hs.
    + destruct Hcl as (o & -> & _ & Hd & Hh); [by exists repo|]. split_and!; [done..|right].
      split; [done|]. eapply ran_hoare in Hs as [Hs _]; [|apply DeleteRepository_hoare]. by eapply Hs.
  - intros o u Hin Hd. apply list_elem_of_split in Hin as (t1 & t2 & Ht).
    destruct (Hlc t1 _ t2 Ht) as [_ _ _ Hup _].
    destruct (Hup o (as_kind_same _ o)) as (repo & Hg & [(Hd' & _ & ->)|(_ & _ & _ & _ & Hcl)]).
    { change (deleting (k := KRepository) repo = true) in Hd. congruence. }
    exists repo. split; [rewrite Ht; by apply elem_before|].
    destruct Hcl as [[]|[Hun|(ev & Hev & Hcl)]].
    + left. rewrite Ht. destruct Hun as [(k & n & m & e & Hx)|[(e & Hx)|(n & c & Hx & Hr)]];
        [left; exists k, n, m, e|right; left; exists e|right; right; exists n, c]; eauto with history.
    + right. destruct ev; try done. destruct c; try done. destruct r0; [done|]. cbn in Hcl. subst repo0.
      assert (Hin : EvBackend (CDeleteRepository conn cred repo None) ∈ t)
        by (rewrite Ht; by apply elem_before).
      apply list_elem_of_split in Hin as (u1 & u2 & Hu).
      destruct (Ha u1 _ u2 Hu) as [_ Hconn].
      destruct (traffic_split _ _ _ (EvBackend (CDeleteRepository conn cred repo None)) Htr)
        as (pre & g & post & Hlog & _ & Hs); [rewrite Hu; apply elem_mid|].
      exists conn, g, pre, post. split; [rewrite Hu; by apply elem_before|]. split; [done|].
      by eapply ran_hoare in Hs as [_ Hs]; [|apply DeleteRepository_hoare].
Qed.

(** ** A run

    A new repository and its first commit, and a deletion. *)
Definition demo_pass : (error + Result) * Logged unit * list Event :=
  let G := fixed_github empty_host in
  let P := quiet_packages in
  let F := fixed_workflows in
  let E := demo_env "" in
  Reconcile (Some (serve_registry 1)) true "ws" "" "commit" (tt, []).
Definition demo_log : list GEvent := Eval vm_compute in demo_pass.1.2.2.
Definition demo_events : list Event := Eval vm_compute in demo_pass.2.


(** A Repository that was deleted: the repository on the host goes first, then
    the finalizer. *)
Definition deletion_pass : (error + Result) * Logged unit * list Event :=
  let G := fixed_github empty_host in
  let P := quiet_packages in
  let F := fixed_workflows in
  let E := RepositoryController.demo_env true in
  RepositoryController.Reconcile (serve_registry 1) "ws" "" "repo" (tt, []).
Definition deletion_log : list GEvent := Eval vm_compute in deletion_pass.1.2.2.
Definition deletion_events : list Event := Eval vm_compute in deletion_pass.2.

Lemma repository_on_github_witness :
  deletion_pass = (inr NoRequeue, (tt, deletion_log), deletion_events) ∧
  (∃ c r, deletion_log = [GCall c (GDeleteRepo "acme" "app" r)]) ∧
  ∃ o u, EvUpdate KRepository o u ∈ deletion_events ∧ om_Finalizers (rp_Meta o) = [] ∧
    ∃ repo, EvGet KRepository "" "repo" (inr repo) ∈ deletion_events ∧
      (unresolved (W := Logged unit) (let G := fixed_github empty_host in let P := quiet_packages in
         let F := fixed_workflows in serve_registry 1) deletion_events ∨
       ∃ conn g earlier later,
         EvGet KConnection "" (rs_ConnectionRef (rp_Spec repo)) (inr conn) ∈ deletion_events ∧
         deletion_log = (earlier ++ g ++ later)%list ∧ delete_result conn repo None g).
Proof.
  split; [vm_compute; reflexivity|]. split; [eexists _, _; reflexivity|].
  assert (P : deletion_pass = (inr NoRequeue, (tt, deletion_log), deletion_events))
    by (vm_compute; reflexivity).
  assert (Q := proj2 (repository_on_github (GitHub0 := fixed_github empty_host)
    (H := quiet_packages) (Workflows0 := fixed_workflows)
    (Env0 := RepositoryController.demo_env true) 1 "ws" "" "repo" tt tt
    (inr NoRequeue) deletion_log deletion_events P)).
  eexists _, _. split; [unfold deletion_events; do 6 right; left|]. split; [reflexivity|].
  eapply Q; [unfold deletion_events; do 6 right; left|reflexivity].
Defined.
