(* ===== verification/CheckoutOnGitHub.v ===== *)
(** * A checkout, from the workspace to the host

    The checkout controller runs on the GitHub backend: what it stores and
    reports is the faithful partial copy that the host was asked for. *)

From S2P Require Import Prelude GoStrings Encoding GoTime Errors CommitBundle Api Backend Tenant.
From S2P Require Import Env Shared GitHubApi GitHubRepositories GitHubCommits GitHubCheckout.
From S2P Require Import GitHubPackages GitHubActions Lifecycle OneShot CheckoutController.
From S2P Require Import GitHubBackend OnGitHub.
From Stdlib Require Import Ascii Lia.

#[local] Open Scope string_scope.

(** ** What a pass asks *)

(** The repository and connection that the object names, the credential, and
    the bounds of its request. *)
Definition names_checkout (ns name : string) (h : list Event) (c : RepositoryCheckout)
    (conn : Connection) (repo : Repository) (input : RepositoryCheckoutInput) : Prop :=
  EvGet KCheckout ns name (inr c) ∈ h ∧
  EvGet KRepository "" (hs_RepositoryRef (rh_Spec c)) (inr repo) ∈ h ∧
  EvGet KConnection "" (rs_ConnectionRef (rp_Spec repo)) (inr conn) ∈ h ∧
  checkoutInput c = inr input.

(** The host is asked for files only, and only those of the object. *)
Definition asked_checkout (ns name : string) (h : list Event) (e : Event) : Prop :=
  match e with
  | EvBackend (CCheckoutFiles conn cred repo input _) =>
      (∃ c, names_checkout ns name h c conn repo input) ∧ EvCredential (inr cred) ∈ h
  | EvBackend _ => False
  | _ => True
  end.

Lemma names_checkout_mono ns name h h' c conn repo input :
  (∀ e, e ∈ h → e ∈ h') → names_checkout ns name h c conn repo input →
  names_checkout ns name h' c conn repo input.
Proof. intros Hs (? & ? & ? & ?). split_and!; auto. Qed.

Section Asked.
Context {W : Type} `{Env W} `{ApiMachinery} (ns name : string).
Abbreviation P := (asked_checkout ns name).
Implicit Types c : RepositoryCheckout.

Lemma silent_asked_checkout h e : silent e → P h e.
Proof. destruct e; try done. intros Hs. by destruct (Hs c). Qed.
#[local] Hint Resolve silent_asked_checkout : core.

Lemma ready_silent c s st re msg :
  emits (with_ready (W := W) (k := KCheckout) c s st re msg)
    (λ c' t, Forall silent t ∧ rh_Meta c' = rh_Meta c ∧ rh_Spec c' = rh_Spec c).
Proof.
  unfold with_ready, SetCondition. apply emits_bind, emits_bind, emits_call. intros now.
  apply emits_ret, emits_ret. split; [by repeat constructor|done].
Qed.
Lemma status_silent c : emits (updateStatusIfChanged (W := W) (k := KCheckout) c) (λ _ t, Forall silent t).
Proof. unfold updateStatusIfChanged. env_all; done. Qed.
Lemma failure_silent c msg : emits (fail (W := W) c msg) (λ _ t, Forall silent t).
Proof.
  unfold fail, fail_with. env_all; try done; try apply status_silent.
  eapply emits_mono; [apply ready_silent|]. by intros ? ? [? _].
Qed.
Lemma store_silent c cl res : emits (storeCheckout (W := W) c cl res) (λ _ t, Forall silent t).
Proof.
  unfold storeCheckout, error_text. env_all; try done; try apply status_silent; try apply failure_silent.
  eapply emits_mono; [apply ready_silent|]. by intros ? ? [? _].
Qed.

Ltac silently :=
  apply (hoare_silent P silent_asked_checkout); unfold error_text; env_all; try done;
  apply failure_silent.

Lemma runCheckout_asked h backends c c' cl :
  EvGet KCheckout ns name (inr c) ∈ h → rh_Meta c' = rh_Meta c → rh_Spec c' = rh_Spec c →
  hoare P h (runCheckout (W := W) backends c' cl) (λ _ _, True).
Proof.
  intros Hget Hm Hs. unfold runCheckout, ResolveRepository, ResolveConnection, ResolveCredential.
  rewrite Hs.
  apply hoare_bind, hoare_bind, (hoare_call_free P silent_asked_checkout); [done|]. intros [e|repo].
  { destruct (IsNotFound e); apply hoare_ret; silently. }
  apply hoare_ret, hoare_bind, hoare_bind, (hoare_call_free P silent_asked_checkout); [done|].
  intros [e|conn]; [destruct (IsNotFound e); apply hoare_ret; silently|].
  apply hoare_ret. destruct (Registry_Get _ _) as [b|]; [|silently].
  destruct (gb_CheckoutFiles b) as [reader|]; [|silently].
  apply hoare_bind, hoare_bind, (hoare_call_free P silent_asked_checkout); [done|]. intros [e|secret].
  { destruct (IsNotFound e); [|destruct (IsForbidden e)]; apply hoare_ret; silently. }
  apply (hoare_call_free P silent_asked_checkout); [done|]. intros [e|cred]; [silently|].
  assert (Hin : checkoutInput c' = checkoutInput c) by (unfold checkoutInput; by rewrite Hm, Hs).
  rewrite Hin. destruct (checkoutInput c) as [e|input] eqn:Hi; [silently|].
  apply hoare_bind, hoare_call.
  - intros r. split; [|eauto with history]. exists c. split_and!; eauto with history.
  - intros [e|res]; [silently|]. apply (hoare_silent P silent_asked_checkout), store_silent.
Qed.

Lemma checkout_asked backends hb cl :
  hoare P [] (Reconcile (W := W) backends hb cl ns name) (λ _ _, True).
Proof.
  unfold Reconcile, ClusterClient.
  apply hoare_bind_res, hoare_bind, (hoare_call_free P silent_asked_checkout); [done|].
  intros [e|]; [by apply hoare_ret|].
  apply hoare_ret, hoare_bind, (hoare_call_free P silent_asked_checkout); [done|]. intros [e|c].
  { destruct (IsNotFound e); by apply hoare_ret. }
  destruct (_ || _); [by apply hoare_ret|].
  destruct (negb hb); [silently|]. destruct backends as [backends|]; [|silently].
  apply hoare_bind, (hoare_call_free P silent_asked_checkout); [done|]. intros now.
  apply hoare_bind. eapply (hoare_part P silent_asked_checkout); [apply ready_silent|]. intros c' t [Hm Hs].
  apply hoare_bind. eapply (hoare_part P silent_asked_checkout _ _ _ (λ _, True)).
  { eapply emits_mono; [apply status_silent|]. done. }
  intros [e|] u _; [by apply hoare_ret|].
  apply (runCheckout_asked _ _ c c'); [eauto with history|done..].
Qed.
End Asked.

(** ** Property *)

Lemma checkoutInput_small c input : checkoutInput c = inr input → small_caps input.
Proof.
  unfold checkoutInput. destruct (_ !! _); [case_decide; [|done]|]; intros [= <-]; by vm_compute.
Qed.

(** C28: what a pass of the checkout controller does on GitHub.  It changes nothing
    there.  And a status with phase Succeeded is written only for requests in the
    log that answered the request of the object the pass read, for the
    repository and connection that it names, within the caps of the controller:
    the commit the status names is the one its ref resolved to, the bundle it
    refers to was stored in the object's cluster from files that are the
    downloaded blobs of that commit's tree, and every other blob of the tree is
    in the status as skipped, or the list says that there are more. *)
Theorem checkout_on_github {W} `{!GitHub W} `{!GitHubPackages.Packages W} `{!Workflows W} `{!Env W}
    `{!ApiMachinery} fuel hb cl ns name (w w' : W) r log t
    (Hrun : Reconcile (Some (serve_registry fuel)) hb cl ns name (w, []) = (r, (w', log), t)) :
  Forall (λ e, mutates e = false) log ∧
  (∀ t1 o u t2, t = (t1 ++ EvStatus KCheckout o u :: t2)%list →
     ht_Phase (rh_Status o) = RepositoryCheckoutPhaseSucceeded →
     ∃ c conn repo input res b earlier g later,
       names_checkout ns name t c conn repo input ∧
       log = (earlier ++ g ++ later)%list ∧ checkout_result conn repo input (inr res) g ∧
       EvBundlePut cl (bundle_file <$> hr_Files res) (inr b) ∈ t ∧ describes (rh_Status o) res b).
Proof.
  pose proof (checkout_carried fuel hb cl ns name (w, [])) as Hc. rewrite Hrun in Hc.
  destruct Hc as (_ & l & Hl & Htr). cbn in Hl. subst l.
  pose proof (hoare_run _ _ _ _ _ _ _ (checkout_asked ns name (Some (serve_registry fuel)) hb cl) Hrun) as [Ha _].
  assert (Hsent : ∀ u1 conn cred repo input res u2 g,
    t = (u1 ++ EvBackend (CCheckoutFiles conn cred repo input res) :: u2)%list →
    event_sent (W := W) fuel (EvBackend (CCheckoutFiles conn cred repo input res)) g →
    (∃ c, names_checkout ns name t c conn repo input) ∧
    (∀ before e after, g = (before ++ e :: after)%list → mutates e = false) ∧
    checkout_result conn repo input res g).
  { intros u1 conn cred repo input res u2 g Ht [_ Hs]. pose proof (Ha _ _ _ Ht) as [[c Hn] _].
    split; [exists c; eapply names_checkout_mono; [|exact Hn]; intros e He; rewrite Ht; by apply elem_before|].
    eapply ran_hoare in Hs; [exact Hs|]. apply CheckoutFiles_hoare.
    destruct Hn as (_ & _ & _ & Hi). by eapply checkoutInput_small. }
  split.
  - apply Forall_forall. intros e He. apply list_elem_of_split in He as (before & after & Hlog).
    destruct (traffic_request _ _ _ _ _ _ Htr Hlog) as (t1 & ev & t2 & pre & h & rest & Ht & _ & Hs).
    pose proof (Ha _ _ _ Ht) as Hev. destruct ev; try (by destruct h). destruct c; try done.
    eapply (Hsent t1); [exact Ht|exact Hs|done].
  - intros t1 o u t2 Ht Hp.
    pose proof (hoare_run _ _ _ _ _ _ _ (checkout_hoare cl ns name (Some (serve_registry fuel)) hb) Hrun) as [Hg _].
    destruct (Hg _ _ _ Ht Hp) as (res & b & (conn & cred & repo & input & Hcall) & Hst & Hd).
    apply list_elem_of_split in Hcall as (u1 & u2 & ->).
    destruct (traffic_split _ _ _ (EvBackend (CCheckoutFiles conn cred repo input (inr res))) Htr)
      as (pre & g & post & Hlog & Hs); [rewrite Ht; apply elem_before, elem_mid|].
    destruct (Hsent u1 conn cred repo input (inr res) (u2 ++ EvStatus KCheckout o u :: t2)%list g)
      as ([c Hn] & _ & Hr); [by rewrite Ht, <- app_assoc|done|].
    exists c, conn, repo, input, res, b, pre, g, post. split_and!; try done.
    rewrite Ht. by apply elem_before.
Qed.

(** ** A run

    A text file, a binary file that was not asked for, and a file over the cap,
    with a store that takes what it is given. *)
Definition storing_env : Env unit :=
  let E := fixed_env 100 CheckoutController.demo_get (λ _, inr []) (inl EBundleNotFound) in {|
  env_cluster := env_cluster; env_now := env_now; env_get := env_get; env_list := env_list;
  env_create := env_create; env_update := env_update; env_status := env_status;
  env_delete := env_delete;
  env_bundle_put := λ _ files w,
    (match buildBundle files with inl err => inl err | inr (_, ref) => inr ref end, w);
  env_bundle_get := env_bundle_get; env_bundle_delete := env_bundle_delete;
  env_resolve := env_resolve; env_keygen := env_keygen; env_getenv := env_getenv |}.
Definition checkout_pass : (error + Result) * Logged unit * list Event :=
  let G := fixed_github tree_host in
  let P := quiet_packages in
  let F := fixed_workflows in
  let E := storing_env in
  Reconcile (Some (serve_registry 1)) true "ws" "" "ck" (tt, []).
Definition checkout_log : list GEvent := Eval vm_compute in checkout_pass.1.2.2.
Definition checkout_events : list Event := Eval vm_compute in checkout_pass.2.

Lemma checkout_on_github_witness :
  ∃ o u, checkout_pass = (inr NoRequeue, (tt, checkout_log), checkout_events) ∧
    length checkout_log = 4%nat ∧ checkout_events = (take 15 checkout_events ++ [EvStatus KCheckout o u])%list ∧
    ht_Skipped (rh_Status o) = ["dump.sql (file too large)"; "logo.png (binary)"] ∧
    ∃ c conn repo input res b earlier g later,
      names_checkout "" "ck" checkout_events c conn repo input ∧
      checkout_log = (earlier ++ g ++ later)%list ∧ checkout_result conn repo input (inr res) g ∧
      EvBundlePut "ws" (bundle_file <$> hr_Files res) (inr b) ∈ checkout_events ∧
      describes (rh_Status o) res b.
Proof.
  eexists _, _. split; [vm_compute; reflexivity|]. split; [reflexivity|].
  split; [vm_compute; reflexivity|]. split; [vm_compute; reflexivity|].
  refine (proj2 (checkout_on_github (GitHub0 := fixed_github tree_host) (H := quiet_packages)
    (Workflows0 := fixed_workflows) (Env0 := storing_env) 1 true "ws" "" "ck" tt tt (inr NoRequeue)
    checkout_log checkout_events _) (take 15 checkout_events) _ _ [] _ _); vm_compute; reflexivity.
Defined.
