(* ===== verification/Process.v ===== *)
(** * main.go, init_cmd.go and controller_manager.go: the process

    [main] chooses the subcommand; [runServe] reads the environment, builds the
    server and starts the goroutines; [startControllerManager] ensures the
    endpoint slice and campaigns for the controller lease, and every term of
    leadership runs [runControllerManager].  What the SDK, client-go and
    controller-runtime do is an answer of each call; the goroutines are a step
    relation over what they share: the readiness record, the shutdown context and
    the exit of the process. *)

From S2P Require Import Prelude GoStrings GoTime Errors BundleStore Api Backend OAuth Install.
From S2P Require Import Mux Serving GitHubApi GitHubPackages GitHubActions GitHubBackend.
From Stdlib Require Import Ascii Lia.

#[local] Open Scope string_scope.

(** ** The kubeconfig *)

(** [errControllerDisabled] is compared by identity. *)
Inductive LoadError := errControllerDisabled | LoadFailed (e : error).

Section Kubeconfig.
Context {Config : Type} (getenv : string → string).
(** [clientcmd.BuildConfigFromFlags] with no URL, and [rest.InClusterConfig]. *)
Context (BuildConfig : string → error + Config) (InClusterConfig : error + Config).

Definition from_variable (name : string) : LoadError + Config :=
  match BuildConfig (getenv name) with
  | inl err => inl (LoadFailed (Wrap (name +:+ ": ") err))
  | inr c => inr c
  end.
Definition loadControllerConfig : LoadError + Config :=
  if decide (getenv "RAILGRID_PROVIDER_KUBECONFIG" ≠ "") then
    from_variable "RAILGRID_PROVIDER_KUBECONFIG"
  else if decide (getenv "CODE_KUBECONFIG" ≠ "") then from_variable "CODE_KUBECONFIG"
  else if decide (getenv "KUBECONFIG" ≠ "") then from_variable "KUBECONFIG"
  else match InClusterConfig with inl _ => inl errControllerDisabled | inr c => inr c end.

(** ** init *)

Record PermissionClaim := { pc_Resource : string; pc_Verbs : list string }.
Definition codeClaims : list PermissionClaim :=
  [{| pc_Resource := "secrets";
      pc_Verbs := ["get"; "list"; "watch"; "create"; "update"; "patch"; "delete"] |}].

Record BootstrapOptions := {
  bo_Config : Config; bo_ExportName : string; bo_WorkspacePath : string;
  bo_SchemasDir : string; bo_Claims : list PermissionClaim; bo_CatalogEntryFile : string }.

Inductive InitError := NoKubeconfig (e : LoadError) | BootstrapFailed (e : error).
Definition runInitCmd (Bootstrap : BootstrapOptions → option error) : option InitError :=
  match loadControllerConfig with
  | inl err => Some (NoKubeconfig err)
  | inr config =>
      let schemasDir := getenv "RAILGRID_SCHEMAS_DIR" in
      match Bootstrap {|
        bo_Config := config; bo_ExportName := APIExportName;
        bo_WorkspacePath := getenv "CODE_WORKSPACE_PATH";
        bo_SchemasDir := if decide (schemasDir = "") then "/etc/railgrid/schemas" else schemasDir;
        bo_Claims := codeClaims;
        bo_CatalogEntryFile := getenv "RAILGRID_CATALOGENTRY_FILE" |} with
      | Some err => Some (BootstrapFailed err)
      | None => None
      end
  end.

(** ** serve: what is built before the goroutines start *)

Record Boot := {
  bt_Addr : string;
  bt_Config : option Config;
  bt_ConfigErr : option LoadError;
  bt_Bundles : string * FileStore;
  bt_OAuth : OAuth.Handler;
  bt_OAuthErr : option error;
  bt_SnapshotDir : string }.

(** [log.Fatalf] ends the process with code 1. *)
Inductive Startup := Fatal (what : string) (err : error) | Booted (b : Boot).

(** [fs.Sub], which only checks the name. *)
Definition fs_Sub (dir : string) : option error :=
  if ValidPath dir then None else Some (ENew ("sub " +:+ dir +:+ ": invalid argument")).

Context {W U : Type} `{NetURL U} (githubbackend : GitBackend W).
Context (io : FsOp → option error) (TempDir : string) (on_disk : string → option FileStore).

Definition boot : Startup :=
  let port := getenv "PORT" in
  let port := if decide (port = "") then "8083" else port in
  let kcp := loadControllerConfig in
  match (Register NewRegistry (Some githubbackend)).1 with
  | Some err => Fatal "register github backend" err
  | None =>
      match NewFileStoreFromEnv io getenv TempDir on_disk with
      | inl err => Fatal "commit bundle store" err
      | inr bundles =>
          match fs_Sub portalDist with
          | Some err => Fatal "portal embed" err
          | None =>
              let '(oauthCfg, oauthEnabled, oauthErr) := FromEnv getenv in
              Booted {|
                bt_Addr := ":" +:+ port;
                bt_Config := match kcp with inr c => Some c | inl _ => None end;
                bt_ConfigErr := match kcp with inr _ => None | inl err => Some err end;
                bt_Bundles := bundles;
                bt_OAuth := NewHandler oauthCfg
                  (oauthEnabled && match oauthErr with None => true | Some _ => false end);
                bt_OAuthErr := oauthErr;
                bt_SnapshotDir := path_Join bundles.1 "git-snapshots" |}
          end
      end
  end.

(** ** main *)

(** What the command line asks for: an exit code at once, or the server. *)
Inductive Command := Exit (code : Z) | RunServe (s : Startup).
Definition main (args : list string) (Bootstrap : BootstrapOptions → option error) : Command :=
  match args with
  | _ :: cmd :: _ =>
      if decide (cmd = "init") then
        Exit (match runInitCmd Bootstrap with Some _ => 1 | None => 0 end)
      else if decide (cmd = "serve") then RunServe boot
      else Exit 2
  | _ => RunServe boot
  end.
End Kubeconfig.
Arguments Boot : clear implicits.
Arguments Startup : clear implicits.
Arguments Command : clear implicits.
Arguments BootstrapOptions : clear implicits.

(** ** Controllers

    What each [SetupWithManager] hands to the builder. *)

Record Registration := {
  rg_Named : string; rg_For : Kind; rg_Owns : list Kind; rg_Watches : list Kind }.
Definition plain (name : string) (k : Kind) : Registration :=
  {| rg_Named := name; rg_For := k; rg_Owns := []; rg_Watches := [] |}.

Definition connection_setup : Registration :=
  {| rg_Named := "code-connection"; rg_For := KConnection; rg_Owns := [KSecret]; rg_Watches := [] |}.
Definition repository_setup : Registration := plain "code-repository" KRepository.
Definition repositorycommit_setup : Registration := plain "code-repositorycommits" KCommit.
Definition repositorycheckout_setup : Registration := plain "code-repositorycheckouts" KCheckout.
Definition deploykey_setup : Registration := plain "code-deploykey" KDeployKey.
Definition collaborator_setup : Registration := plain "code-collaborator" KCollaborator.
Definition packages_setup : Registration :=
  {| rg_Named := "code-packages"; rg_For := KRepository; rg_Owns := [KPackage];
     rg_Watches := [KConnection; KSecret; KCommit] |}.
Definition repositorybuildstatus_setup : Registration :=
  plain "code-repositorybuildstatus" KBuildStatus.

(** The controllers of a manager in the order of [runControllerManager], each
    with the word its error is wrapped in. *)
Definition controllers : list (string * Registration) :=
  [("connection", connection_setup); ("repository", repository_setup);
   ("repositorycommit", repositorycommit_setup);
   ("repositorycheckout", repositorycheckout_setup); ("deploykey", deploykey_setup);
   ("collaborator", collaborator_setup); ("packages", packages_setup);
   ("repositorybuildstatus", repositorybuildstatus_setup)].

(** ** A term of leadership

    Where [runControllerManager] is.  Its calls of the SDK answer with [None] or
    an error; [detach] is the deferred detachment. *)
Inductive Term :=
  | TProvider
  | TAttach
  | TManager
  | TSetup (registered : list Registration)
  | TStart (registered : list Registration)
  | TReturn (detach : bool) (r : option error)
  | TReturned (r : option error).

Definition runControllerManager (answer : option error) (t : Term) : Term :=
  match t with
  | TProvider =>
      match answer with
      | Some err => TReturn false (Some (Wrap "creating apiexport multicluster provider: " err))
      | None => TAttach
      end
  | TAttach => TManager
  | TManager =>
      match answer with
      | Some err => TReturn true (Some (Wrap "creating multicluster manager: " err))
      | None => TSetup []
      end
  | TSetup registered =>
      match controllers !! length registered with
      | None => TStart registered
      | Some (what, c) =>
          match answer with
          | Some err => TReturn true (Some (Wrap (what +:+ " controller: ") err))
          | None => TSetup (registered ++ [c])%list
          end
      end
  | TStart _ => TReturn true answer
  | TReturn _ r => TReturned r
  | TReturned r => TReturned r
  end.

(** The attachments of a provider to the readiness record ([ready.Attach]) whose
    detachment was not called yet.  The record that [runServe] passes is not
    nil. *)
Definition attached_after (t : Term) (attached : nat) : nat :=
  match t with
  | TAttach => S attached
  | TReturn true _ => pred attached
  | _ => attached
  end.

(** ** The goroutines *)

Inductive Main :=
  | MStart                     (* startControllerManager *)
  | MEnsure (s : Stage)        (* EnsureAPIExportEndpointSlice *)
  | MHeartbeat                 (* ConfigFromEnv, go RunHeartbeat *)
  | MWait                      (* <-ctx.Done() *)
  | MShutdown                  (* httpSrv.Shutdown, at most five seconds *)
  | MReturned.
Inductive Listener := LListening | LFailed | LClosed.
(** The election goroutine: not started, campaigning, leading, or ended. *)
Inductive Leader := ENone | ECampaign | ELeading (t : Term) | EEnded.

Record Process := {
  ps_main : Main; ps_http : Listener; ps_leader : Leader;
  ps_attached : nat;              (* providers that readiness reports on *)
  ps_ctx : bool;                  (* a signal cancelled the context *)
  ps_exit : option Z }.

Definition with_main (p : Process) (m : Main) : Process :=
  {| ps_main := m; ps_http := ps_http p; ps_leader := ps_leader p; ps_attached := ps_attached p;
     ps_ctx := ps_ctx p; ps_exit := ps_exit p |}.
Definition with_leader (p : Process) (l : Leader) (attached : nat) : Process :=
  {| ps_main := ps_main p; ps_http := ps_http p; ps_leader := l; ps_attached := attached;
     ps_ctx := ps_ctx p; ps_exit := ps_exit p |}.
Definition with_exit (p : Process) (code : Z) : Process :=
  {| ps_main := MReturned; ps_http := ps_http p; ps_leader := ps_leader p;
     ps_attached := ps_attached p; ps_ctx := ps_ctx p; ps_exit := Some code |}.

Section Run.
(** Whether there is a kubeconfig, and what [EnsureAPIExportEndpointSlice] is
    called with. *)
Context (has_config : bool) (client encoded : option error) (workspacePath : string).

Definition runServe : Process :=
  {| ps_main := MStart; ps_http := LListening; ps_leader := ENone; ps_attached := 0;
     ps_ctx := false; ps_exit := None |}.

(** One step of the main goroutine; [fault] and [slice] are what the API server
    does with, and holds at, the next call.  It waits for the signal. *)
Definition main_step (fault : option error) (slice : option string) (p : Process) : option Process :=
  match ps_main p with
  | MStart => Some (with_main p (if has_config then MEnsure Starting else MHeartbeat))
  | MEnsure (Returned _) =>
      Some (with_leader (with_main p MHeartbeat) ECampaign (ps_attached p))
  | MEnsure s => Some (with_main p (MEnsure (advance client encoded workspacePath fault slice s).2))
  | MHeartbeat => Some (with_main p MWait)
  | MWait => if ps_ctx p then Some (with_main p MShutdown) else None
  | MShutdown => Some (with_exit p 0)
  | MReturned => None
  end.

(** The moves of the process and its surroundings ([vwhealth.Watch], the sweeper and
    the heartbeat run on their own until the context is cancelled): a step of the main goroutine;
    a signal; [ListenAndServe] failing ([log.Fatalf]), or returning
    [ErrServerClosed] once [Shutdown] was called; the lease won; the answer to
    what [runControllerManager] is doing; its return, after which the election
    goes on; the election ending. *)
Inductive Move :=
  | MvMain (fault : option error) (slice : option string)
  | MvSignal
  | MvListenFailed | MvListenClosed
  | MvElected | MvTerm (answer : option error) | MvSteppedDown | MvElectionOver.

Definition next (mv : Move) (p : Process) : option Process :=
  match ps_exit p with
  | Some _ => None
  | None =>
      match mv, ps_http p, ps_leader p with
      | MvMain fault slice, _, _ => main_step fault slice p
      | MvSignal, _, _ =>
          Some {| ps_main := ps_main p; ps_http := ps_http p; ps_leader := ps_leader p;
                  ps_attached := ps_attached p; ps_ctx := true; ps_exit := None |}
      | MvListenFailed, LListening, _ =>
          Some {| ps_main := MReturned; ps_http := LFailed; ps_leader := ps_leader p;
                  ps_attached := ps_attached p; ps_ctx := ps_ctx p; ps_exit := Some 1%Z |}
      | MvListenClosed, LListening, _ =>
          match ps_main p with
          | MShutdown =>
              Some {| ps_main := MShutdown; ps_http := LClosed; ps_leader := ps_leader p;
                      ps_attached := ps_attached p; ps_ctx := ps_ctx p; ps_exit := None |}
          | _ => None
          end
      | MvElected, _, ECampaign => Some (with_leader p (ELeading TProvider) (ps_attached p))
      | MvSteppedDown, _, ELeading (TReturned _) => Some (with_leader p ECampaign (ps_attached p))
      | MvTerm _, _, ELeading (TReturned _) => None
      | MvTerm answer, _, ELeading t =>
          Some (with_leader p (ELeading (runControllerManager answer t))
                              (attached_after t (ps_attached p)))
      | MvElectionOver, _, ECampaign => Some (with_leader p EEnded (ps_attached p))
      | _, _, _ => None
      end
  end.
Definition process_step (p p' : Process) : Prop := ∃ mv, next mv p = Some p'.

Fixpoint drive (l : list Move) (p : Process) : option Process :=
  match l with
  | [] => Some p
  | mv :: l => p' ← next mv p; drive l p'
  end.
End Run.

(** ** Lemmas: startup *)

Section Startup.
Context {Config : Type} (getenv : string → string).
Context (BuildConfig : string → error + Config) (InClusterConfig : error + Config).
Abbreviation load := (loadControllerConfig getenv BuildConfig InClusterConfig).

Definition kubeconfig_variables : list string :=
  ["RAILGRID_PROVIDER_KUBECONFIG"; "CODE_KUBECONFIG"; "KUBECONFIG"].

(** The first variable that is set decides, whether its file is readable or
    not; the pod's service account is asked only when none is. *)
Inductive kubeconfig : LoadError + Config → Prop :=
  | kc_variable name before after :
      kubeconfig_variables = (before ++ name :: after)%list →
      Forall (λ v, getenv v = "") before → getenv name ≠ "" →
      kubeconfig (match BuildConfig (getenv name) with
                  | inl err => inl (LoadFailed (Wrap (name +:+ ": ") err))
                  | inr c => inr c end)
  | kc_in_cluster c : Forall (λ v, getenv v = "") kubeconfig_variables →
      InClusterConfig = inr c → kubeconfig (inr c)
  | kc_disabled err : Forall (λ v, getenv v = "") kubeconfig_variables →
      InClusterConfig = inl err → kubeconfig (inl errControllerDisabled).

Lemma loadControllerConfig_decides : kubeconfig load.
Proof.
  unfold loadControllerConfig. case_decide as H1.
  { by apply (kc_variable "RAILGRID_PROVIDER_KUBECONFIG" [] ["CODE_KUBECONFIG"; "KUBECONFIG"]). }
  case_decide as H2.
  { apply (kc_variable "CODE_KUBECONFIG" ["RAILGRID_PROVIDER_KUBECONFIG"] ["KUBECONFIG"]); auto. }
  case_decide as H3.
  { apply (kc_variable "KUBECONFIG" ["RAILGRID_PROVIDER_KUBECONFIG"; "CODE_KUBECONFIG"] []); auto. }
  destruct InClusterConfig as [err|c] eqn:Hc; [apply (kc_disabled err)|apply kc_in_cluster];
    unfold kubeconfig_variables; auto.
Qed.

Context {W U : Type} `{NetURL U} (b : GitBackend W).
Context (io : FsOp → option error) (TempDir : string) (on_disk : string → option FileStore).
Abbreviation boot := (boot getenv BuildConfig InClusterConfig b io TempDir on_disk).

(** The bundle directory is the only thing that can stop the server. *)
Lemma boot_outcome (Hname : gb_Name b ≠ "") :
  match boot with
  | Fatal what err => what = "commit bundle store" ∧
      NewFileStoreFromEnv io getenv TempDir on_disk = inl err
  | Booted s =>
      NewFileStoreFromEnv io getenv TempDir on_disk = inr (bt_Bundles s) ∧
      (match bt_Config s with Some c => load = inr c | None => ∃ err, load = inl err end) ∧
      (hd_enabled (bt_OAuth s) = true ↔ bt_OAuthErr s = None ∧ (FromEnv getenv).1.2 = true)
  end.
Proof.
  unfold Process.boot. unfold Register, NewRegistry. rewrite decide_False by done. rewrite lookup_empty.
  cbn [fst]. destruct (NewFileStoreFromEnv _ _ _ _) as [err|bundles]; [done|].
  change (fs_Sub portalDist) with (@None error). cbn iota.
  destruct (FromEnv getenv) as [[cfg en] oerr]. cbn. split; [done|]. split.
  - destruct load; [by eexists|done].
  - rewrite andb_true_iff. by destruct oerr; naive_solver.
Qed.
End Startup.

(** ** Lemmas: the running process *)

(** From the attachment until the deferred detachment. *)
Definition holds_provider (l : Leader) : bool :=
  match l with
  | ELeading (TManager | TSetup _ | TStart _ | TReturn true _) => true
  | _ => false
  end.

(** A manager is filled in order and started when all are in. *)
Definition term_ok (t : Term) : Prop :=
  match t with
  | TSetup registered => ∃ later, controllers.*2 = (registered ++ later)%list
  | TStart registered => registered = controllers.*2
  | _ => True
  end.

Lemma runControllerManager_ok answer t : term_ok t → term_ok (runControllerManager answer t).
Proof.
  destruct t as [| | |registered|registered|d r|r]; cbn [runControllerManager]; try done.
  - by destruct answer.
  - destruct answer; [done|]. intros _. by exists (controllers.*2).
  - intros [later Hl]. destruct (controllers !! length registered) as [[what c]|] eqn:Hc.
    + destruct answer; [done|]. cbn [term_ok].
      assert (Hc' : controllers.*2 !! length registered = Some c) by (by rewrite list_lookup_fmap, Hc).
      rewrite Hl, lookup_app_r, Nat.sub_diag in Hc' by done.
      destruct later as [|c' later]; [done|]. cbn [lookup list_lookup] in Hc'. injection Hc' as ->.
      exists later. rewrite Hl, <- app_assoc. done.
    + cbn [term_ok]. apply lookup_ge_None in Hc. pose proof (f_equal length Hl) as He.
      rewrite length_fmap, length_app in He. destruct later; [by rewrite app_nil_r in Hl|].
      cbn [length] in He. lia.
Qed.

Lemma attached_term answer t n :
  n = Nat.b2n (holds_provider (ELeading t)) →
  attached_after t n = Nat.b2n (holds_provider (ELeading (runControllerManager answer t))).
Proof.
  intros ->. destruct t as [| | |registered| |[]|]; cbn; try done; try by destruct answer.
  destruct (controllers !! _) as [[]|]; [|done]. by destruct answer.
Qed.

Section Invariant.
Context (has_config : bool) (client encoded : option error) (workspacePath : string).
Abbreviation pstep := (process_step has_config client encoded workspacePath).
Abbreviation mstep := (main_step has_config client encoded workspacePath).

Definition ensuring (m : Main) : Prop := match m with MStart | MEnsure _ => True | _ => False end.
Definition over (m : Main) : Prop := match m with MShutdown | MReturned => True | _ => False end.

Record process_ok (p : Process) : Prop := {
  po_attached : ps_attached p = Nat.b2n (holds_provider (ps_leader p));
  po_term : match ps_leader p with ELeading t => term_ok t | _ => True end;
  po_leader : ps_leader p ≠ ENone → has_config = true ∧ ¬ ensuring (ps_main p);
  po_ensure : ∀ s, ps_main p = MEnsure s → has_config = true;
  po_over : over (ps_main p) → ps_exit p ≠ Some 1%Z → ps_ctx p = true;
  po_returned : ps_main p = MReturned → ps_exit p ≠ None;
  po_exited : ps_exit p ≠ None → ps_main p = MReturned;
  po_failed : ps_exit p = Some 1%Z ↔ ps_http p = LFailed;
  po_exit : match ps_exit p with None | Some 0%Z => True | Some code => code = 1%Z end }.

Lemma runServe_ok : process_ok runServe.
Proof. by split. Qed.

Lemma main_step_ok fault slice p p' :
  process_ok p → ps_exit p = None → mstep fault slice p = Some p' → process_ok p'.
Proof.
  destruct p as [m h l a c e]. intros [Ha Ht Hl He Ho Hr Hd Hf Hx] Hn. cbn in *. subst a e.
  assert (Hno : ensuring m → l = ENone) by (intros Hm; destruct l; [done|..]; by destruct Hl as [_ []]).
  unfold main_step. destruct m; cbn; intros H; simplify_eq.
  - assert (l = ENone) as -> by (by apply Hno). destruct has_config eqn:Hc; by split.
  - assert (l = ENone) as -> by (by apply Hno). pose proof (He _ eq_refl) as Hc.
    destruct s; simplify_eq; split; cbn; done || intros _; (split; [done|by intros []]).
  - by split.
  - destruct c; simplify_eq. by split.
  - split; cbn; try done; [intros _ _; by apply Ho|]. split; [done|]. by intros ?%Hf.
Qed.

Lemma process_step_ok p p' : process_ok p → pstep p p' → process_ok p'.
Proof.
  intros Hok [mv Hs]. unfold next in Hs. destruct (ps_exit p) eqn:Hn; [done|].
  destruct mv; [by eapply main_step_ok|..]; destruct p as [m h l a c e], Hok as [Ha Htm Hld He Ho Hr Hd Hf Hx];
    cbn in *; subst.
  - simplify_eq. by split.
  - destruct h; simplify_eq. split; cbn; try done. intros [? _]%Hld. split; [done|by intros []].
  - destruct h, m; simplify_eq. by split.
  - destruct h, l; simplify_eq; split; cbn; try done; intros _; by apply Hld.
  - assert (Hgo : ∀ t, l = ELeading t → process_ok {| ps_main := m; ps_http := h;
      ps_leader := ELeading (runControllerManager answer t);
      ps_attached := attached_after t (Nat.b2n (holds_provider (ELeading t)));
      ps_ctx := c; ps_exit := None |}).
    { intros t ->. split; cbn [ps_main ps_leader ps_attached ps_ctx ps_exit]; try done;
        [by apply attached_term|by apply runControllerManager_ok|]. intros _. by apply Hld. }
    destruct h, l as [| |[]|]; simplify_eq; by apply Hgo.
  - destruct h, l as [| |[]|]; simplify_eq; split; cbn; try done; intros _; by apply Hld.
  - destruct h, l; simplify_eq; split; cbn; try done; intros _; by apply Hld.
Qed.

(** Steps the main goroutine still has to take, at most. *)
Definition stage_left (s : Stage) : nat :=
  match s with Starting => 4 | Reading => 3 | Deleting => 2 | Creating _ => 1 | Returned _ => 0 end.
Definition main_left (m : Main) : nat :=
  match m with
  | MStart => 9 | MEnsure s => 4 + stage_left s | MHeartbeat => 3 | MWait => 2 | MShutdown => 1
  | MReturned => 0
  end.

Lemma advance_left fault slice s : (∀ r, s ≠ Returned r) →
  (stage_left (advance client encoded workspacePath fault slice s).2 < stage_left s)%nat.
Proof.
  intros Hs. destruct s as [| | |again|r]; cbn [advance snd]; [| | | |by destruct (Hs r)].
  - unfold start. repeat case_match; cbn; lia.
  - unfold read. repeat case_match; cbn; lia.
  - destruct fault, slice; unfold deleted; repeat case_match; cbn; lia.
  - destruct fault, slice; unfold created; repeat case_match; cbn; lia.
Qed.

Lemma main_step_left fault slice p p' :
  mstep fault slice p = Some p' → (main_left (ps_main p') < main_left (ps_main p))%nat.
Proof.
  unfold main_step. destruct (ps_main p) as [|s| | | |] eqn:Hm; intros H; simplify_eq; cbn; try lia.
  - destruct has_config; cbn; lia.
  - pose proof (advance_left fault slice s) as Hs. destruct s; simplify_eq; cbn [ps_main with_main main_left]; try (cbn; lia);
      specialize (Hs ltac:(done)); lia.
  - destruct (ps_ctx p); simplify_eq. cbn. lia.
Qed.

Lemma process_step_left p p' : pstep p p' → (main_left (ps_main p') ≤ main_left (ps_main p))%nat.
Proof.
  intros [mv Hs]. unfold next in Hs. destruct (ps_exit p); [done|].
  destruct mv; [by apply Nat.lt_le_incl; eapply main_step_left|..];
    repeat case_match; simplify_eq/=; lia.
Qed.

Lemma drive_steps l p p' :
  drive has_config client encoded workspacePath l p = Some p' → steps pstep p p'.
Proof.
  assert (Hgo : ∀ p0 p, steps pstep p0 p →
    drive has_config client encoded workspacePath l p = Some p' → steps pstep p0 p');
    [|by apply Hgo; constructor].
  clear p. induction l as [|mv l IH]; intros p0 p Hp; cbn [drive]; [by intros [= <-]|].
  intros (q & Hq & Hl)%bind_Some. apply (IH p0 q); [|done]. eapply steps_step; [exact Hp|by exists mv].
Qed.

(** However the goroutines interleave. *)
Definition main_moves (l : list Move) : nat :=
  length (List.filter (λ mv, match mv with MvMain _ _ => true | _ => false end) l).

Lemma drive_left l p p' :
  drive has_config client encoded workspacePath l p = Some p' →
  (main_moves l + main_left (ps_main p') ≤ main_left (ps_main p))%nat.
Proof.
  revert p. induction l as [|mv l IH]; intros p; cbn [drive]; [by intros [= <-]|].
  intros (q & Hq & Hl)%bind_Some. specialize (IH q Hl). unfold main_moves in *.
  pose proof (process_step_left p q (ex_intro _ mv Hq)).
  destruct mv; cbn [List.filter length]; try lia.
  unfold next in Hq. destruct (ps_exit p); [done|]. apply main_step_left in Hq. lia.
Qed.

(** A signal gets through. *)
Lemma next_ctx mv p p' :
  next has_config client encoded workspacePath mv p = Some p' → ps_ctx p = true → ps_ctx p' = true.
Proof.
  unfold next, main_step. intros H Hc. by repeat case_match; simplify_eq/=.
Qed.
Lemma drive_ctx l p p' :
  drive has_config client encoded workspacePath l p = Some p' → ps_ctx p = true → ps_ctx p' = true.
Proof.
  revert p. induction l as [|mv l IH]; intros p; cbn [drive]; [by intros [= <-]|].
  intros (q & Hq & Hl)%bind_Some Hc. by eapply IH, next_ctx.
Qed.
Lemma main_step_enabled fault slice p :
  process_ok p → ps_exit p = None → ps_ctx p = true → ∃ p', mstep fault slice p = Some p'.
Proof.
  intros Hok Hn Hc. unfold main_step. rewrite Hc. destruct (ps_main p) as [|s| | | |] eqn:Hm; eauto.
  - destruct s; eauto.
  - by destruct (po_returned p Hok Hm).
Qed.
End Invariant.

(** ** Properties *)

Section Startup.
Context {W U : Type} `{!GitHub W} `{!Packages W} `{!Workflows W} `{!NetURL U} {Config : Type}.
Context (fuel : nat) (getenv : string → string) (BuildConfig : string → error + Config)
  (InClusterConfig : error + Config) (io : FsOp → option error) (TempDir : string)
  (on_disk : string → option FileStore).

(** What the binary does. *)
Definition code_provider (args : list string)
    (Bootstrap : BootstrapOptions Config → option error) : Command Config :=
  main (W := Logged W) (U := U) getenv BuildConfig InClusterConfig (github_backend fuel) io TempDir on_disk
    args Bootstrap.

(** C40: what the command line comes to.  [init] exits with 0 exactly if a
    kubeconfig was found and the bootstrap with it, the provider's export, the
    claims and the configured paths (the schemas in /etc/railgrid/schemas when
    none is configured) succeeded, and with 1 otherwise; an unknown subcommand
    exits with 2; no subcommand and [serve] serve.  Before it starts to listen,
    the server is stopped by nothing but a failure to open the bundle directory:
    without a kubeconfig, or with a broken one, and with any OAuth configuration
    it goes on, with the kubeconfig it found and the OAuth flow off if its
    configuration is invalid. *)
Theorem main_outcomes args Bootstrap :
  match code_provider args Bootstrap with
  | Exit code =>
      (∃ prog rest, args = prog :: "init" :: rest ∧ (code = 0 ∨ code = 1)%Z ∧
         (code = 0%Z ↔ ∃ config dir, loadControllerConfig getenv BuildConfig InClusterConfig = inr config ∧
            (dir = getenv "RAILGRID_SCHEMAS_DIR" ∧ dir ≠ "" ∨
             dir = "/etc/railgrid/schemas" ∧ getenv "RAILGRID_SCHEMAS_DIR" = "") ∧
            Bootstrap {| bo_Config := config; bo_ExportName := APIExportName;
              bo_WorkspacePath := getenv "CODE_WORKSPACE_PATH"; bo_SchemasDir := dir;
              bo_Claims := codeClaims; bo_CatalogEntryFile := getenv "RAILGRID_CATALOGENTRY_FILE" |}
            = None)) ∨
      (∃ prog cmd rest, args = prog :: cmd :: rest ∧ cmd ≠ "init" ∧ cmd ≠ "serve" ∧ code = 2%Z)
  | RunServe started =>
      (args = [] ∨ ∃ prog, args = [prog] ∨ ∃ rest, args = prog :: "serve" :: rest) ∧
      match started with
      | Fatal what err => what = "commit bundle store" ∧
          NewFileStoreFromEnv io getenv TempDir on_disk = inl err
      | Booted b =>
          NewFileStoreFromEnv io getenv TempDir on_disk = inr (bt_Bundles b) ∧
          (match bt_Config b with
           | Some c => loadControllerConfig getenv BuildConfig InClusterConfig = inr c
           | None => ∃ err, loadControllerConfig getenv BuildConfig InClusterConfig = inl err
           end) ∧
          (hd_enabled (bt_OAuth b) = true ↔
             bt_OAuthErr b = None ∧ (FromEnv (U := U) getenv).1.2 = true)
      end
  end.
Proof.
  unfold code_provider, main.
  pose proof (boot_outcome getenv BuildConfig InClusterConfig (github_backend fuel) io TempDir on_disk
    (U := U) ltac:(done)) as Hserve.
  destruct args as [|prog [|cmd rest]]; [split; [by left|done]|split; [right; exists prog; by left|done]|].
  case_decide as Hi; [subst cmd|case_decide as Hs; [subst cmd|right; by exists prog, cmd, rest]].
  2: { split; [right; exists prog; right; by exists rest|done]. }
  left. exists prog, rest. split; [done|]. unfold runInitCmd.
  destruct (loadControllerConfig _ _ _) as [err|config].
  { split; [by right|]. split; [done|]. by intros (? & ? & ? & _). }
  set (dir := if decide _ then _ else _).
  assert (Hdir : ∀ d, d = getenv "RAILGRID_SCHEMAS_DIR" ∧ d ≠ "" ∨
    d = "/etc/railgrid/schemas" ∧ getenv "RAILGRID_SCHEMAS_DIR" = "" ↔ d = dir).
  { intros d. unfold dir. case_decide; naive_solver. }
  setoid_rewrite Hdir. destruct (Bootstrap _) eqn:Hb; (split; [auto|]).
  - split; [done|]. intros (? & ? & [= <-] & -> & Hn). congruence.
  - split; [|done]. intros _. by exists config, dir.
Qed.

(** C36: the running process, however its goroutines interleave with signals, with
    the answers of the API server and with the terms of leadership it wins and
    loses.  Readiness reports on a controllers' provider exactly from its
    creation to the end of its term, never on that of a term that is over or
    failed to start; a manager is started only with the eight controllers in it,
    named and watching as listed, in that order; the lease is campaigned for only
    with a kubeconfig, after the endpoint slice was dealt with.  The process exits
    with 1 exactly if its listener failed, and else with 0, only after a signal.
    And a signal ends the process: the main goroutine can then always move, and
    it moves at most nine times, whatever the API server answers and wherever the
    election is. *)
Theorem process_invariant args Bootstrap b client encoded p
    (Hserve : code_provider args Bootstrap = RunServe (Booted b))
    (Hrun : steps (process_step (bool_decide (is_Some (bt_Config b))) client encoded
                     (getenv "CODE_WORKSPACE_PATH")) runServe p) :
  ps_attached p = Nat.b2n (holds_provider (ps_leader p)) ∧
  (∀ registered, ps_leader p = ELeading (TStart registered) →
     (λ c, (rg_Named c, rg_For c)) <$> registered =
     [("code-connection", KConnection); ("code-repository", KRepository);
      ("code-repositorycommits", KCommit); ("code-repositorycheckouts", KCheckout);
      ("code-deploykey", KDeployKey); ("code-collaborator", KCollaborator);
      ("code-packages", KRepository); ("code-repositorybuildstatus", KBuildStatus)]) ∧
  (ps_leader p ≠ ENone →
     ¬ ensuring (ps_main p) ∧
     ∃ c, bt_Config b = Some c ∧ loadControllerConfig getenv BuildConfig InClusterConfig = inr c) ∧
  (ps_exit p = Some 1%Z ↔ ps_http p = LFailed) ∧
  (∀ code, ps_exit p = Some code → code = 1%Z ∨ code = 0%Z ∧ ps_ctx p = true) ∧
  (∀ mvs p', drive (bool_decide (is_Some (bt_Config b))) client encoded (getenv "CODE_WORKSPACE_PATH")
               mvs p = Some p' →
     (main_moves mvs ≤ 9)%nat ∧
     (ps_ctx p = true → ps_exit p' = None → ∀ fault slice,
        ∃ p'', next (bool_decide (is_Some (bt_Config b))) client encoded (getenv "CODE_WORKSPACE_PATH")
                 (MvMain fault slice) p' = Some p'')).
Proof.
  assert (Hinv : ∀ q, steps (process_step (bool_decide (is_Some (bt_Config b))) client encoded
      (getenv "CODE_WORKSPACE_PATH")) runServe q → process_ok (bool_decide (is_Some (bt_Config b))) q).
  { intros q. apply (steps_invariant _ (process_ok _)); [|apply runServe_ok].
    intros x y. apply process_step_ok. }
  pose proof (Hinv p Hrun) as [Ha Ht Hl He Ho Hr Hd Hf Hx]. split_and!; [done| | |done| |].
  - intros registered Hreg. rewrite Hreg in Ht. by rewrite Ht.
  - intros [Hc Hn]%Hl. split; [done|]. apply bool_decide_eq_true in Hc as [c Hc]. exists c. split; [done|].
    pose proof (boot_outcome getenv BuildConfig InClusterConfig (github_backend fuel) io TempDir on_disk
      (U := U) ltac:(done)) as Hb.
    assert (boot getenv BuildConfig InClusterConfig (github_backend fuel) io TempDir on_disk = Booted b)
      as Hboot.
    { unfold code_provider, main in Hserve. repeat case_match; by simplify_eq. }
    rewrite Hboot, Hc in Hb. apply Hb.
  - intros code Hcode. rewrite Hcode in Hx. destruct (decide (code = 0%Z)) as [->|]; [right|left].
    + split; [done|]. apply Ho; [by rewrite Hd by (by rewrite Hcode)|by rewrite Hcode].
    + by destruct code.
  - intros mvs p' Hmv. split.
    + apply drive_left in Hmv. destruct (ps_main p) as [|[]| | | |]; cbn in Hmv; lia.
    + intros Hc Hn fault slice. unfold next. rewrite Hn. apply main_step_enabled; [|done|by eapply drive_ctx].
      refine (steps_invariant _ _ (λ x y, process_step_ok _ _ _ _ x y) p p' _ (drive_steps _ _ _ _ _ _ _ Hmv)).
      by split.
Qed.
End Startup.

(** ** A run

    A server with a kubeconfig and no workspace path: the endpoint slice is not
    ensured, the controllers run all the same, until a signal. *)
Definition no_url : NetURL unit := {|
  url_Parse := λ _, inl (ENew "no URL"); url_Path := λ _, ""; url_setPath := λ _ u, u;
  url_setRawQuery := λ _ u, u; url_setFragment := λ _ u, u; url_String := λ _, "" |}.
Definition demo_getenv (name : string) : string :=
  if String.eqb name "CODE_KUBECONFIG" then "/etc/code/kubeconfig" else "".
Definition demo_server : Command string :=
  let G := fixed_github empty_host in
  let P := quiet_packages in
  let F := fixed_workflows in
  let N := no_url in
  code_provider (U := unit) 1 demo_getenv inr (inl (ENew "not in a cluster")) no_faults "/tmp"
    (λ _, None) ["code-provider"] (λ _, None).
Definition demo_boot : Boot string :=
  Eval vm_compute in match demo_server with RunServe (Booted b) => b | _ => {|
    bt_Addr := ""; bt_Config := None; bt_ConfigErr := None; bt_Bundles := ("", empty_store);
    bt_OAuth := NewHandler no_config false; bt_OAuthErr := None; bt_SnapshotDir := "" |} end.
Definition demo_moves : list Move :=
  (replicate 4 (MvMain None None) ++ [MvElected] ++ replicate 12 (MvTerm None) ++ [MvSignal])%list.
Definition leading : Process := {|
  ps_main := MWait; ps_http := LListening; ps_leader := ELeading (TStart controllers.*2);
  ps_attached := 1; ps_ctx := true; ps_exit := None |}.

Example boot_falls_back :
  bt_Addr demo_boot = ":8083" ∧ bt_Config demo_boot = Some "/etc/code/kubeconfig" ∧
  bt_SnapshotDir demo_boot = "/tmp/railgrid-code-commit-bundles/git-snapshots".
Proof. vm_compute. done. Qed.

Lemma process_invariant_witness :
  drive true None None "" demo_moves runServe = Some leading ∧
  ∀ mvs p', drive true None None "" mvs leading = Some p' →
    (main_moves mvs ≤ 9)%nat ∧
    (ps_ctx leading = true → ps_exit p' = None → ∀ fault slice,
       ∃ p'', next true None None "" (MvMain fault slice) p' = Some p'').
Proof.
  assert (H : drive true None None "" demo_moves runServe = Some leading) by (vm_compute; reflexivity).
  split; [exact H|].
  refine (proj2 (proj2 (proj2 (proj2 (proj2 (process_invariant (GitHub0 := fixed_github empty_host)
    (Packages0 := quiet_packages) (Workflows0 := fixed_workflows) (NetURL0 := no_url) 1 demo_getenv inr
    (inl (ENew "not in a cluster")) no_faults "/tmp" (λ _, None) ["code-provider"] (λ _, None)
    demo_boot None None leading _ (drive_steps _ _ _ _ _ _ _ H))))))).
  vm_compute. reflexivity.
Defined.
